(** * httpdispatch: the routing tree, the parameter container and the
    dispatcher

    A shallow embedding of the radix tree of [dolab/httpdispatch]
    ([node.register], [node.insertChild], [node.resolve],
    [node.findCaseInsensitivePath]), of [Params] and of the dispatcher
    ([Handle], [ServeFiles], [Lookup], [ServeHTTP], [allowed]), with the
    properties of the specification stated and settled over it, and
    further properties of the code after them.

    Go strings are byte sequences: they are modelled as [list ascii].
    The fields [priority] (uint32) and [nparams] (uint8) are integers with
    their wrap-around written out.  A Go [panic] raised by the code is
    [Panic msg]; a run-time error of the language (index or slice bound out
    of range) is [RuntimePanic]. *)

From Stdlib Require Import ZArith Lia Bool Arith Ascii String List.
Import ListNotations.

Set Implicit Arguments.

(** ** Byte strings *)

Definition str := list ascii.

Definition bytes (s : string) : str := list_ascii_of_string s.

Fixpoint str_eqb (a b : str) : bool :=
  match a, b with
  | [], [] => true
  | x :: a', y :: b' => Ascii.eqb x y && str_eqb a' b'
  | _, _ => false
  end.

(** [s[a:b]] of Go, for [a <= b <= len s]. *)
Definition slice (s : str) (a b : nat) : str := firstn (b - a) (skipn a s).

(** [s[a:]] of Go. *)
Definition suffix (s : str) (a : nat) : str := skipn a s.

(** [strings.IndexByte], with [None] for -1. *)
Fixpoint IndexByte (s : str) (c : ascii) : option nat :=
  match s with
  | [] => None
  | x :: s' => if Ascii.eqb x c then Some 0
               else match IndexByte s' c with
                    | Some k => Some (S k)
                    | None => None
                    end
  end.

Definition slash : ascii := "/"%char.
Definition colon : ascii := ":"%char.
Definition star : ascii := "*"%char.

Definition is_wild (c : ascii) : bool := Ascii.eqb c colon || Ascii.eqb c star.

(** ** Outcomes of fallible code *)

Inductive outcome (A : Type) : Type :=
| Ok (a : A)
| Panic (msg : str)
| RuntimePanic
| OutOfFuel.

Arguments Ok {A} a.
Arguments Panic {A} msg.
Arguments RuntimePanic {A}.
Arguments OutOfFuel {A}.

Definition bind {A B : Type} (m : outcome A) (k : A -> outcome B) : outcome B :=
  match m with
  | Ok a => k a
  | Panic msg => Panic msg
  | RuntimePanic => RuntimePanic
  | OutOfFuel => OutOfFuel
  end.

Notation "x <- m ;; k" := (bind m (fun x => k))
  (at level 61, m at next level, right associativity).
Notation "' p <- m ;; k" := (bind m (fun x => let 'p := x in k))
  (at level 61, p pattern, m at next level, right associativity).

(** ** Params (part_004) *)

Record Param : Type := mkParam { Key : str; Value : str }.

Definition Params := list Param.

Fixpoint DefName (ps : Params) (name : str) : str * bool :=
  match ps with
  | [] => ([], false)
  | p :: ps' => if str_eqb (Key p) name then (Value p, true) else DefName ps' name
  end.

Definition ByName (ps : Params) (name : str) : str := fst (DefName ps name).

(** ** Nodes *)

(** The constants [static], [root], [param], [wildcard] of [nodeType];
    capitalised, because [wildcard] is also a field of [node]. *)
Inductive nodeType : Type := Static | Root | Param_ | Wildcard.

Definition nodeType_eqb (a b : nodeType) : bool :=
  match a, b with
  | Static, Static | Root, Root | Param_, Param_ | Wildcard, Wildcard => true
  | _, _ => false
  end.

Section Tree.

(** Handlers are opaque to the tree; [None] is Go's [nil]. *)
Context {Handler : Type}.

Inductive node : Type :=
  Node { typo : nodeType;
         path : str;
         nparams : Z;
         indices : str;
         handle : option Handler;
         priority : Z;
         children : list node;
         wildcard : bool }.

(** The zero value [node{}]. *)
Definition empty_node : node :=
  Node Static [] 0 [] None 0 [] false.

Definition set_typo (n : node) (t : nodeType) : node :=
  Node t (path n) (nparams n) (indices n) (handle n) (priority n) (children n) (wildcard n).
Definition set_path (n : node) (p : str) : node :=
  Node (typo n) p (nparams n) (indices n) (handle n) (priority n) (children n) (wildcard n).
Definition set_nparams (n : node) (k : Z) : node :=
  Node (typo n) (path n) k (indices n) (handle n) (priority n) (children n) (wildcard n).
Definition set_indices (n : node) (s : str) : node :=
  Node (typo n) (path n) (nparams n) s (handle n) (priority n) (children n) (wildcard n).
Definition set_handle (n : node) (h : option Handler) : node :=
  Node (typo n) (path n) (nparams n) (indices n) h (priority n) (children n) (wildcard n).
Definition set_priority (n : node) (k : Z) : node :=
  Node (typo n) (path n) (nparams n) (indices n) (handle n) k (children n) (wildcard n).
Definition set_children (n : node) (cs : list node) : node :=
  Node (typo n) (path n) (nparams n) (indices n) (handle n) (priority n) cs (wildcard n).
Definition set_wildcard (n : node) (w : bool) : node :=
  Node (typo n) (path n) (nparams n) (indices n) (handle n) (priority n) (children n) w.

(** [x++] on uint32 and [x--] on uint8. *)
Definition incr32 (x : Z) : Z := ((x + 1) mod 4294967296)%Z.
Definition decr8 (x : Z) : Z := ((x - 1) mod 256)%Z.
Definition decr32 (x : Z) : Z := ((x - 1) mod 4294967296)%Z.

Definition bump_priority (n : node) : node := set_priority n (incr32 (priority n)).

Definition raise_nparams (n : node) (maxParams : Z) : node :=
  if (nparams n <? maxParams)%Z then set_nparams n maxParams else n.

Fixpoint depth (n : node) : nat :=
  match n with
  | Node _ _ _ _ _ _ cs _ => S (fold_right (fun c d => Nat.max (depth c) d) 0 cs)
  end.

(** [cs[k] = c] on a slice. *)
Fixpoint set_nth (cs : list node) (k : nat) (c : node) : list node :=
  match cs, k with
  | [], _ => []
  | _ :: cs', O => c :: cs'
  | x :: cs', S k' => x :: set_nth cs' k' c
  end.

(** *** Panic messages of the tree *)

Definition msg_conflict_wildcard (uripath npath abspath : str) : str :=
  bytes "path segment '" ++ uripath ++ bytes "' conflicts with existing wildcard '"
    ++ npath ++ bytes "' in path '" ++ abspath ++ bytes "'".
Definition msg_duplicate (abspath : str) : str :=
  bytes "a handle is already registered for path '" ++ abspath ++ bytes "'".
Definition msg_one_wildcard (seg abspath : str) : str :=
  bytes "only one wildcard per path segment is allowed, has: '" ++ seg
    ++ bytes "' in path '" ++ abspath ++ bytes "'".
Definition msg_conflict_children (seg abspath : str) : str :=
  bytes "wildcard route '" ++ seg
    ++ bytes "' conflicts with existing children in path '" ++ abspath ++ bytes "'".
Definition msg_unnamed (abspath : str) : str :=
  bytes "wildcard must be named with a non-empty name in path '" ++ abspath ++ bytes "'".
Definition msg_catchall_end (abspath : str) : str :=
  bytes "catch-all routes are only allowed at the end of the path in path '"
    ++ abspath ++ bytes "'".
Definition msg_catchall_root (abspath : str) : str :=
  bytes "catch-all conflicts with existing handle for the path segment root in path '"
    ++ abspath ++ bytes "'".
Definition msg_no_slash (abspath : str) : str :=
  bytes "no / before catch-all in path '" ++ abspath ++ bytes "'".
Definition msg_invalid_type : str := bytes "invalid node type".

(** *** incrementChildPriority *)

(** The loop that moves the child at [newPos] towards the front while its
    left neighbour has a smaller priority. *)
Fixpoint bubble (cs : list node) (newPos : nat) (prio : Z) : list node * nat :=
  match newPos with
  | O => (cs, O)
  | S k =>
      match nth_error cs k, nth_error cs newPos with
      | Some l, Some x =>
          if (priority l <? prio)%Z
          then bubble (set_nth (set_nth cs k x) newPos l) k prio
          else (cs, newPos)
      | _, _ => (cs, newPos)
      end
  end.

Definition incrementChildPriority (n : node) (pos : nat) : outcome (node * nat) :=
  match nth_error (children n) pos with
  | None => RuntimePanic
  | Some c =>
      let c' := bump_priority c in
      let '(cs, newPos) := bubble (set_nth (children n) pos c') pos (priority c') in
      let ind := indices n in
      if Nat.eqb newPos pos then Ok (set_children n cs, newPos)
      else if length ind <? S pos then RuntimePanic
      else Ok (set_indices (set_children n cs)
                 (slice ind 0 newPos ++ slice ind pos (S pos)
                    ++ slice ind newPos pos ++ suffix ind (S pos)),
               newPos)
  end.

(** *** insertChild *)

(** The inner loop that finds the end of a placeholder: [rest] is
    [uripath[e:]]; [None] is the panic on a second wildcard. *)
Fixpoint find_end (rest : str) (e : nat) : option nat :=
  match rest with
  | [] => Some e
  | c :: rest' =>
      if Ascii.eqb c slash then Some e
      else if is_wild c then None
      else find_end rest' (S e)
  end.

Definition last_is_slash (s : str) : bool :=
  match rev s with
  | c :: _ => Ascii.eqb c slash
  | [] => false
  end.

(** The loop of [insertChild] at index [i], with [rest = uripath[i:]]. *)
Fixpoint insertChild_from (uripath abspath : str) (h : option Handler)
    (rest : str) (i offset : nat) (n : node) (numParams : Z) {struct rest}
  : outcome node :=
  if (0 <? numParams)%Z then
    match rest with
    | [] => RuntimePanic
    | c :: rest' =>
        if negb (is_wild c)
        then insertChild_from uripath abspath h rest' (S i) offset n numParams
        else
          match find_end rest' (S i) with
          | None => Panic (msg_one_wildcard (suffix uripath i) abspath)
          | Some e =>
              if 0 <? length (children n)
              then Panic (msg_conflict_children (slice uripath i e) abspath)
              else if e - i <? 2 then Panic (msg_unnamed abspath)
              else if Ascii.eqb c colon then
                let n1 := if 0 <? i then set_path n (slice uripath offset i) else n in
                let offset1 := if 0 <? i then i else offset in
                let child := bump_priority (Node Param_ [] numParams [] None 0 [] false) in
                let numParams1 := decr8 numParams in
                if e <? length uripath then
                  let child1 := set_path child (slice uripath offset1 e) in
                  let child2 := Node Static [] numParams1 [] None 1 [] false in
                  r <- insertChild_from uripath abspath h rest' (S i) e child2 numParams1 ;;
                  Ok (set_wildcard (set_children n1 [set_children child1 [r]]) true)
                else
                  r <- insertChild_from uripath abspath h rest' (S i) offset1 child numParams1 ;;
                  Ok (set_wildcard (set_children n1 [r]) true)
              else
                if negb (Nat.eqb e (length uripath)) || (1 <? numParams)%Z
                then Panic (msg_catchall_end abspath)
                else if last_is_slash (path n) then Panic (msg_catchall_root abspath)
                else
                  match i with
                  | O => RuntimePanic
                  | S j =>
                      match nth_error uripath j with
                      | None => RuntimePanic
                      | Some sl =>
                          if negb (Ascii.eqb sl slash) then Panic (msg_no_slash abspath)
                          else
                            let leaf := Node Wildcard (suffix uripath j) 1 [] h 1 [] false in
                            let child := bump_priority (Node Wildcard [] 1 [] None 0 [] true) in
                            Ok (set_indices
                                  (set_children (set_path n (slice uripath offset j))
                                     [set_children child [leaf]])
                                  [sl])
                      end
                  end
          end
    end
  else Ok (set_handle (set_path n (suffix uripath offset)) h).

Definition insertChild (n : node) (numParams : Z) (uripath abspath : str)
    (h : option Handler) : outcome node :=
  insertChild_from uripath abspath h uripath 0 0 n numParams.

(** *** register *)

(** Modelled from the spec: [countParams] is not among the sources; it
    counts the wildcards of a pattern (the bytes [:] and [*]) for the uint8
    field [nparams], and so stops at 255. *)
Definition countParams (s : str) : Z :=
  Z.min 255 (Z.of_nat (length (filter is_wild s))).

(** The length of the longest common prefix. *)
Fixpoint lcp (a b : str) : nat :=
  match a, b with
  | x :: a', y :: b' => if Ascii.eqb x y then S (lcp a' b') else 0
  | _, _ => 0
  end.

(** The first index of [c] in [ind]. *)
Fixpoint find_index (ind : str) (c : ascii) : option nat :=
  match ind with
  | [] => None
  | x :: ind' => if Ascii.eqb c x then Some 0
                 else option_map S (find_index ind' c)
  end.

(** The split of an edge at [i < len(n.path)]. *)
Definition split_edge (n : node) (uripath : str) (i : nat) : node :=
  let child0 := Node Static (suffix (path n) i) 0 (indices n) (handle n)
                  (decr32 (priority n)) (children n) (wildcard n) in
  let child := fold_left (fun c x => raise_nparams c (nparams x)) (children n) child0 in
  Node (typo n) (firstn i uripath) (nparams n) (firstn 1 (suffix (path n) i))
       None (priority n) [child] false.

(** One pass of the loop [walk] of [register] at node [n], whose priority
    the caller has already incremented. *)
Fixpoint register_walk (fuel : nat) (abspath : str) (h : option Handler)
    (n : node) (uripath : str) (maxParams : Z) : outcome node :=
  match fuel with
  | O => OutOfFuel
  | S fuel' =>
    let n := raise_nparams n maxParams in
    let i := lcp uripath (path n) in
    let n := if i <? length (path n) then split_edge n uripath i else n in
    if i <? length uripath then
      let uripath := suffix uripath i in
      if wildcard n then
        match children n with
        | [] => RuntimePanic
        | c :: rest =>
            let c := raise_nparams (bump_priority c) maxParams in
            let maxParams := decr8 maxParams in
            if (length (path c) <=? length uripath)
               && str_eqb (path c) (firstn (length (path c)) uripath)
               && ((length uripath <=? length (path c))
                   || match nth_error uripath (length (path c)) with
                      | Some x => Ascii.eqb x slash
                      | None => false
                      end)
            then
              r <- register_walk fuel' abspath h c uripath maxParams ;;
              Ok (set_children n (r :: rest))
            else Panic (msg_conflict_wildcard uripath (path c) abspath)
        end
      else
        match uripath with
        | [] => RuntimePanic
        | c :: _ =>
            if nodeType_eqb (typo n) Param_ && Ascii.eqb c slash
               && Nat.eqb (length (children n)) 1
            then
              match children n with
              | [] => RuntimePanic
              | ch :: rest =>
                  r <- register_walk fuel' abspath h (bump_priority ch) uripath maxParams ;;
                  Ok (set_children n (r :: rest))
              end
            else
              match find_index (indices n) c with
              | Some k =>
                  '(n1, k1) <- incrementChildPriority n k ;;
                  match nth_error (children n1) k1 with
                  | None => RuntimePanic
                  | Some ch =>
                      r <- register_walk fuel' abspath h ch uripath maxParams ;;
                      Ok (set_children n1 (set_nth (children n1) k1 r))
                  end
              | None =>
                  if negb (is_wild c) then
                    let n1 := set_indices n (indices n ++ [c]) in
                    let child := set_nparams empty_node maxParams in
                    let n2 := set_children n1 (children n1 ++ [child]) in
                    let pos := length (indices n2) - 1 in
                    let last := length (children n2) - 1 in
                    '(n3, k1) <- incrementChildPriority n2 pos ;;
                    let at_ := if Nat.eqb pos last then k1 else last in
                    match nth_error (children n3) at_ with
                    | None => RuntimePanic
                    | Some ch =>
                        r <- insertChild ch maxParams uripath abspath h ;;
                        Ok (set_children n3 (set_nth (children n3) at_ r))
                    end
                  else insertChild n maxParams uripath abspath h
              end
        end
    else
      match handle n with
      | Some _ => Panic (msg_duplicate abspath)
      | None => Ok (set_handle n h)
      end
  end.

Definition register_fuel (n : node) : nat := S (S (depth n)).

Definition register (n : node) (uripath : str) (h : option Handler) : outcome node :=
  let n := bump_priority n in
  let maxParams := countParams uripath in
  if (0 <? length (path n)) || (0 <? length (children n))
  then register_walk (register_fuel n) uripath h n uripath maxParams
  else insertChild (set_typo n Root) maxParams uripath uripath h.

(** *** resolve *)

Definition is_some {A : Type} (o : option A) : bool :=
  match o with Some _ => true | None => false end.

(** A lookup returns the handle, the parameters ([None] is a nil slice) and
    the trailing-slash recommendation. *)
Definition lookup_result : Type := option Handler * option Params * bool.

(** [p = p[:i+1]; p[i].Key = key; p[i].Value = value] on a slice of capacity
    [cap]: a run-time panic past the capacity. *)
Definition push_param (p : Z * Params) (key value : str) : outcome (Z * Params) :=
  let '(cap, ps) := p in
  if (cap <? Z.of_nat (length ps) + 1)%Z then RuntimePanic
  else Ok (cap, ps ++ [mkParam key value]).

(** The part of [resolve] after the [switch]: nothing found. *)
Definition resolve_nothing (n : node) (uripath : str) (p : option Params)
  : lookup_result :=
  if str_eqb uripath [slash] then (None, p, true)
  else if Nat.eqb (length (path n)) (length uripath + 1)
          && match nth_error (path n) (length uripath) with
             | Some x => Ascii.eqb x slash
             | None => false
             end
          && str_eqb uripath (firstn (length (path n) - 1) (path n))
          && is_some (handle n)
       then (handle n, p, true)
       else (None, p, false).

Fixpoint resolve_walk (fuel : nat) (n : node) (uripath : str)
    (p : option (Z * Params)) : outcome lookup_result :=
  match fuel with
  | O => OutOfFuel
  | S fuel' =>
    let ps := option_map snd p in
    if length (path n) <? length uripath then
      if str_eqb (firstn (length (path n)) uripath) (path n) then
        let uripath := suffix uripath (length (path n)) in
        if negb (wildcard n) then
          if str_eqb uripath [slash] && is_some (handle n)
          then Ok (handle n, ps, true)
          else
            match uripath with
            | [] => RuntimePanic
            | c :: _ =>
                match find_index (indices n) c with
                | Some k =>
                    match nth_error (children n) k with
                    | Some ch => resolve_walk fuel' ch uripath p
                    | None => RuntimePanic
                    end
                | None => Ok (None, ps, false)
                end
            end
        else
          match children n with
          | [] => RuntimePanic
          | ch :: _ =>
              match typo ch with
              | Param_ =>
                  let p0 := match p with Some q => q | None => (nparams ch, []) end in
                  let e := match IndexByte uripath slash with
                           | Some e => e
                           | None => length uripath
                           end in
                  match path ch with
                  | [] => RuntimePanic
                  | _ :: key =>
                      p1 <- push_param p0 key (firstn e uripath) ;;
                      let ps1 := Some (snd p1) in
                      if e <? length uripath then
                        if str_eqb (suffix uripath e) [slash] && is_some (handle ch)
                        then Ok (handle ch, ps1, true)
                        else
                          match children ch with
                          | c2 :: _ => resolve_walk fuel' c2 (suffix uripath e) (Some p1)
                          | [] => Ok (None, ps1, false)
                          end
                      else if is_some (handle ch) then Ok (handle ch, ps1, false)
                      else
                        match children ch with
                        | [c2] =>
                            if str_eqb (path c2) [slash] && is_some (handle c2)
                            then Ok (handle c2, ps1, true)
                            else Ok (None, ps1, false)
                        | _ => Ok (None, ps1, false)
                        end
                  end
              | Wildcard =>
                  let p0 := match p with Some q => q | None => (nparams ch, []) end in
                  match path ch with
                  | _ :: _ :: key =>
                      p1 <- push_param p0 key (suffix uripath 1) ;;
                      Ok (handle ch, Some (snd p1), false)
                  | _ => RuntimePanic
                  end
              | _ => Panic msg_invalid_type
              end
          end
      else Ok (resolve_nothing n uripath ps)
    else if str_eqb uripath (path n) then
      if is_some (handle n) then Ok (handle n, ps, false)
      else if str_eqb uripath [slash] && wildcard n && negb (nodeType_eqb (typo n) Root)
      then Ok (None, ps, true)
      else
        match find_index (indices n) slash with
        | Some k =>
            match nth_error (children n) k with
            | None => RuntimePanic
            | Some ch =>
                if Nat.eqb (length (path ch)) 1 && is_some (handle ch)
                then Ok (handle ch, ps, true)
                else if nodeType_eqb (typo ch) Wildcard then
                  match children ch with
                  | [] => RuntimePanic
                  | c0 :: _ =>
                      if is_some (handle c0) then Ok (handle c0, ps, true)
                      else Ok (None, ps, false)
                  end
                else Ok (None, ps, false)
            end
        | None => Ok (None, ps, false)
        end
    else Ok (resolve_nothing n uripath ps)
  end.

Definition resolve (n : node) (uripath : str) : outcome lookup_result :=
  resolve_walk (S (depth n)) n uripath None.

(** *** findCaseInsensitivePath *)

(** The functions of Go's packages [strings], [unicode] and [utf8] that the
    lookup calls.  The case tables of [unicode] are not part of the
    repository: the model is exact on ASCII, where a rune is one byte and
    only the letters [a]-[z] and [A]-[Z] have a case; a byte from 0x80 on
    decodes to [RuneError], as an invalid encoding does in Go. *)
Definition rune := N.

Definition RuneError : rune := 65533%N.

Definition byte_of (r : rune) : ascii := ascii_of_N r.

Definition lower_byte (c : ascii) : ascii :=
  let k := N_of_ascii c in
  if ((65 <=? k) && (k <=? 90))%N then ascii_of_N (k + 32) else c.

Definition strings_ToLower (s : str) : str := map lower_byte s.

Definition unicode_ToUpper (r : rune) : rune :=
  if ((97 <=? r) && (r <=? 122))%N then (r - 32)%N else r.

Definition utf8_RuneStart (c : ascii) : bool :=
  negb (N.eqb (N.land (N_of_ascii c) 192) 128).

Definition utf8_DecodeRuneInString (s : str) : rune :=
  match s with
  | [] => RuneError
  | c :: _ => if (N_of_ascii c <? 128)%N then N_of_ascii c else RuneError
  end.

(** The rune buffer [[4]byte]. *)
Definition runebuf : Type := ascii * ascii * ascii * ascii.

Definition rb_zero : runebuf := (zero, zero, zero, zero).

Definition rb0 (rb : runebuf) : ascii := let '(a, _, _, _) := rb in a.

(** [utf8.EncodeRune(rb[:], r)], for the runes that the decoder above yields:
    one byte, or the three bytes of [RuneError]; the other bytes stay. *)
Definition utf8_EncodeRune (rb : runebuf) (r : rune) : runebuf :=
  let '(a, b, c, d) := rb in
  if (r <? 128)%N then (byte_of r, b, c, d)
  else (ascii_of_N 239, ascii_of_N 191, ascii_of_N 189, d).

(** Modelled from the spec: [shiftNRuneBytes] is not among the sources; it
    shifts the [n] bytes already consumed out of the rune buffer. *)
Definition shiftNRuneBytes (rb : runebuf) (n : nat) : runebuf :=
  let '(a, b, c, d) := rb in
  match n with
  | 0 => rb
  | 1 => (b, c, d, zero)
  | 2 => (c, d, zero, zero)
  | 3 => (d, zero, zero, zero)
  | _ => rb_zero
  end.

(** The loop that finds the start of the rune at the end of the node's
    fragment: the rune read and the offset [off]. *)
Fixpoint find_rune_start (oldPath : str) (len max off : nat) (steps : nat)
  : outcome (rune * nat) :=
  match steps with
  | O => Ok (0%N, off)
  | S steps' =>
      if off <? max then
        match nth_error oldPath (len - off) with
        | None => RuntimePanic
        | Some c =>
            if utf8_RuneStart c
            then Ok (utf8_DecodeRuneInString (suffix oldPath (len - off)), off)
            else find_rune_start oldPath len max (S off) steps'
        end
      else Ok (0%N, off)
  end.

Fixpoint findCaseInsensitivePathRec (fuel : nat) (n : node)
    (uripath lowerPath newPath : str) (rb : runebuf) (fixTrailingSlash : bool)
  : outcome (str * bool) :=
  match fuel with
  | O => OutOfFuel
  | S fuel' =>
    let lowerNodePath := strings_ToLower (path n) in
    let ln := length lowerNodePath in
    if (ln <=? length lowerPath)
       && (Nat.eqb ln 0 || str_eqb (slice lowerPath 1 ln) (suffix lowerNodePath 1))
    then
      let newPath := newPath ++ path n in
      if length uripath <? length (path n) then RuntimePanic
      else
      let uripath := suffix uripath (length (path n)) in
      if 0 <? length uripath then
        let oldPath := lowerPath in
        let lowerPath := suffix lowerPath ln in
        if negb (wildcard n) then
          let rb := shiftNRuneBytes rb ln in
          let nothing := Ok (newPath, fixTrailingSlash && str_eqb uripath [slash]
                                        && is_some (handle n)) in
          if negb (Ascii.eqb (rb0 rb) zero) then
            match find_index (indices n) (rb0 rb) with
            | Some k =>
                match nth_error (children n) k with
                | None => RuntimePanic
                | Some ch => findCaseInsensitivePathRec fuel' ch uripath lowerPath
                               newPath rb fixTrailingSlash
                end
            | None => nothing
            end
          else
            '(rv, off) <- find_rune_start oldPath ln (Nat.min ln 3) 0 3 ;;
            let rb := shiftNRuneBytes (utf8_EncodeRune rb rv) off in
            lower <- match find_index (indices n) (rb0 rb) with
                     | Some k =>
                         match nth_error (children n) k with
                         | None => RuntimePanic
                         | Some ch =>
                             '(out, found) <- findCaseInsensitivePathRec fuel' ch uripath
                                                lowerPath newPath rb fixTrailingSlash ;;
                             Ok (if found then Some out else None)
                         end
                     | None => Ok None
                     end ;;
            match lower with
            | Some out => Ok (out, true)
            | None =>
                let up := unicode_ToUpper rv in
                if negb (N.eqb up rv) then
                  let rb := shiftNRuneBytes (utf8_EncodeRune rb up) off in
                  match find_index (indices n) (rb0 rb) with
                  | Some k =>
                      match nth_error (children n) k with
                      | None => RuntimePanic
                      | Some ch => findCaseInsensitivePathRec fuel' ch uripath lowerPath
                                     newPath rb fixTrailingSlash
                      end
                  | None => nothing
                  end
                else nothing
            end
        else
          match children n with
          | [] => RuntimePanic
          | ch :: _ =>
              match typo ch with
              | Param_ =>
                  let k := match IndexByte uripath slash with
                           | Some k => k
                           | None => length uripath
                           end in
                  let newPath := newPath ++ firstn k uripath in
                  if k <? length uripath then
                    match children ch with
                    | c2 :: _ =>
                        findCaseInsensitivePathRec fuel' c2 (suffix uripath k)
                          (suffix lowerPath k) newPath rb fixTrailingSlash
                    | [] =>
                        Ok (newPath, fixTrailingSlash && Nat.eqb (length uripath) (k + 1))
                    end
                  else if is_some (handle ch) then Ok (newPath, true)
                  else
                    match children ch with
                    | [c2] =>
                        if fixTrailingSlash && str_eqb (path c2) [slash]
                           && is_some (handle c2)
                        then Ok (newPath ++ [slash], true)
                        else Ok (newPath, false)
                    | _ => Ok (newPath, false)
                    end
              | Wildcard => Ok (newPath ++ uripath, true)
              | _ => Panic msg_invalid_type
              end
          end
      else if is_some (handle n) then Ok (newPath, true)
      else if fixTrailingSlash then
        match find_index (indices n) slash with
        | Some k =>
            match nth_error (children n) k with
            | None => RuntimePanic
            | Some ch =>
                if Nat.eqb (length (path ch)) 1 && is_some (handle ch)
                then Ok (newPath ++ [slash], true)
                else if nodeType_eqb (typo ch) Wildcard then
                  match children ch with
                  | [] => RuntimePanic
                  | c0 :: _ =>
                      if is_some (handle c0) then Ok (newPath ++ [slash], true)
                      else Ok (newPath, false)
                  end
                else Ok (newPath, false)
            end
        | None => Ok (newPath, false)
        end
      else Ok (newPath, false)
    else if fixTrailingSlash then
      if str_eqb uripath [slash] then Ok (newPath, true)
      else if Nat.eqb (length lowerPath + 1) ln
              && match nth_error lowerNodePath (length lowerPath) with
                 | Some x => Ascii.eqb x slash
                 | None => false
                 end
      then
        match lowerPath with
        | [] => RuntimePanic
        | _ :: _ =>
            if str_eqb (suffix lowerPath 1) (slice lowerNodePath 1 (length lowerPath))
               && is_some (handle n)
            then Ok (newPath ++ path n, true)
            else Ok (newPath, false)
        end
      else Ok (newPath, false)
    else Ok (newPath, false)
  end.

Definition findCaseInsensitivePath (n : node) (uripath : str)
    (fixTrailingSlash : bool) : outcome (str * bool) :=
  findCaseInsensitivePathRec (S (depth n)) n uripath (strings_ToLower uripath) []
    rb_zero fixTrailingSlash.

(** *** Trees built by insertion *)

(** The routes of [rs] registered one after the other; a panic stops. *)
Fixpoint insert_all (t : node) (rs : list (str * option Handler)) : outcome node :=
  match rs with
  | [] => Ok t
  | (p, h) :: rs' => t' <- register t p h ;; insert_all t' rs'
  end.

Definition build (rs : list (str * option Handler)) : outcome node :=
  insert_all empty_node rs.

End Tree.

Arguments node : clear implicits.

(** ** Specification-side definitions *)

(** The first pair of [ps] whose key is [name]. *)
Fixpoint first_with_key (ps : Params) (name : str) : option Param :=
  match ps with
  | [] => None
  | p :: ps' => if str_eqb (Key p) name then Some p else first_with_key ps' name
  end.

(** [upper(p)]: every rune of an ASCII pattern in upper case. *)
Definition upper (s : str) : str :=
  map (fun c => byte_of (unicode_ToUpper (N_of_ascii c))) s.

(** The bytes of [s] are ASCII. *)
Definition is_ascii (s : str) : bool := forallb (fun c => (N_of_ascii c <? 128)%N) s.

(** [sub] occurs in [s]. *)
Definition contains (s sub : str) : Prop := exists pre post, s = pre ++ sub ++ post.

(** No byte of [s] starts a wildcard. *)
Definition plain (s : str) : bool := forallb (fun c => negb (is_wild c)) s.

(** [s] can name a wildcard: no slash and no wildcard byte. *)
Definition name_like (s : str) : bool :=
  forallb (fun c => negb (is_wild c) && negb (Ascii.eqb c slash)) s.

(** The number of wildcard bytes of [s]. *)
Definition wcount (s : str) : Z := Z.of_nat (length (filter is_wild s)).

(** ** Invariants of the tree *)

(** [P] holds at every node of the tree. *)
Inductive all_nodes {Handler : Type} (P : node Handler -> Prop) : node Handler -> Prop :=
| all_nodes_intro n :
    P n -> Forall (all_nodes P) (children n) -> all_nodes P n.

(** The children are in non-increasing order of priority. *)
Definition sorted_children {Handler : Type} (n : node Handler) : Prop :=
  forall i j a b, i < j ->
    nth_error (children n) i = Some a -> nth_error (children n) j = Some b ->
    (priority b <= priority a)%Z.

(** The index byte of a static child with a non-empty path is the first
    byte of that path. *)
Definition index_ok {Handler : Type} (n : node Handler) : Prop :=
  forall i x c,
    nth_error (indices n) i = Some x -> nth_error (children n) i = Some c ->
    typo c = Static -> path c <> [] -> hd_error (path c) = Some x.

(** The flag [wildcard] of a node against the kind of its first child. *)
Definition flag_ok {Handler : Type} (n : node Handler) : Prop :=
  wildcard n = true <->
  exists c rest, children n = c :: rest
                 /\ (typo c = Param_ \/ (typo n = Wildcard /\ typo c = Wildcard)).

(** What the insertion keeps of the flag: a flagged node has one child, a
    parameter or the leaf of a catch-all under its intermediate node; an
    unflagged node has no parameter child, and no catch-all child when it
    is itself of that kind. *)
Definition flag_inv {Handler : Type} (n : node Handler) : Prop :=
  (wildcard n = true ->
   exists c, children n = [c]
             /\ (typo c = Param_
                 \/ (typo c = Wildcard /\ typo n = Wildcard /\ path n = [])))
  /\ (wildcard n = false ->
      forall c, In c (children n) ->
                typo c <> Param_ /\ (typo n = Wildcard -> typo c <> Wildcard)).

(** What the insertion keeps of the order of the children and of the index
    bytes, with [B] a bound on the priorities: the children are sorted and
    indexed by their first byte, [indices] is parallel to [children] except
    above a wildcard child and in a parameter node with its one child, and
    the path of a wildcard child holds a wildcard byte. *)
Record sort_inv {Handler : Type} (B : Z) (n : node Handler) : Prop := {
  si_sorted : sorted_children n;
  si_index : index_ok n;
  si_prio : forall c, In c (children n) -> (0 <= priority c <= B)%Z;
  si_len : wildcard n = false ->
           length (indices n) = length (children n)
           \/ (typo n = Param_ /\ indices n = [] /\ length (children n) = 1);
  si_wild : wildcard n = true ->
            forall c, In c (children n) -> (1 <= wcount (path c))%Z
}.

(** What [register] knows of the remaining path [u] and of [maxParams] when
    it arrives at node [n]. *)
Definition walk_pre {Handler : Type} (n : node Handler) (u : str) (m : Z) : Prop :=
  (0 <= m <= 255)%Z
  /\ ((wcount u <= m)%Z /\ typo n <> Param_
      \/ (firstn (length (path n)) u = path n
          /\ (wcount (skipn (length (path n)) u) <= m)%Z
          /\ (length u <= length (path n)
              \/ nth_error u (length (path n)) = Some slash))).

(** The nodes of a tree of patterns without wildcards: no flag, static
    children with non-empty paths, each under the index byte that starts
    its path. *)
Definition static_inv {Handler : Type} (n : node Handler) : Prop :=
  wildcard n = false /\ typo n <> Param_ /\ typo n <> Wildcard
  /\ (forall c, In c (children n) -> typo c = Static /\ path c <> [])
  /\ index_ok n
  /\ length (indices n) = length (children n).

(** The patterns that a tree holds with a handle: the paths of the nodes
    of a branch one after the other, down to a node that has a handle. *)
Inductive stored {Handler : Type} : node Handler -> str -> Prop :=
| stored_here n : is_some (handle n) = true -> stored n (path n)
| stored_child n c rest :
    In c (children n) -> stored c rest -> stored n (path n ++ rest).

(** What the insertion keeps of the index bytes for the walk to find a
    pattern again: they are distinct, parallel to the children (except in
    a parameter node with its one child), and each is the first byte of
    every pattern held under its child; no child holds the empty pattern;
    a flagged node has no index byte, and the path of its child holds a
    wildcard byte; a parameter node has no index byte but the slash. *)
Record key_inv {Handler : Type} (n : node Handler) : Prop := {
  ki_nodup : NoDup (indices n);
  ki_len : wildcard n = false ->
           length (indices n) = length (children n)
           \/ (typo n = Param_ /\ indices n = [] /\ length (children n) = 1);
  ki_lead : forall k b c rest,
      nth_error (indices n) k = Some b -> nth_error (children n) k = Some c ->
      stored c rest -> hd_error rest = Some b;
  ki_some : forall c rest, In c (children n) -> stored c rest -> rest <> [];
  ki_wild : wildcard n = true ->
            indices n = []
            /\ forall c, In c (children n) -> (1 <= wcount (path c))%Z;
  ki_param : typo n = Param_ -> forall b, In b (indices n) -> b = slash
}.

(** The index at which position [i] of a list is found after the element
    at [pos] has moved to [newPos <= pos]. *)
Definition moved (pos newPos i : nat) : nat :=
  if i <? newPos then i
  else if i =? newPos then pos
  else if i <=? pos then i - 1
  else i.

(** The list that [incrementChildPriority] writes for the index bytes. *)
Definition move_to {A : Type} (l : list A) (pos newPos : nat) : list A :=
  firstn newPos l ++ firstn (S pos - pos) (skipn pos l)
    ++ firstn (pos - newPos) (skipn newPos l) ++ skipn (S pos) l.

(** The patterns of a tree with their handles: the paths of the nodes of a
    branch one after the other, and the handle of its last node. *)
Inductive held {Handler : Type} : node Handler -> str -> Handler -> Prop :=
| held_here n x : handle n = Some x -> held n (path n) x
| held_child n c rest x :
    In c (children n) -> held c rest x -> held n (path n ++ rest) x.

Definition obind {A B : Type} (o : option A) (f : A -> option B) : option B :=
  match o with Some x => f x | None => None end.

(** The tree with every handle sent through [f], which may drop it; the
    insertion never looks into a handle, so it can be followed on such a
    copy of the tree. *)
Fixpoint hmap {A B : Type} (f : A -> option B) (n : node A) : node B :=
  match n with
  | Node t p np ind h pr cs w =>
      Node t p np ind (obind h f) pr (map (hmap f) cs) w
  end.

Definition omap {A B : Type} (f : A -> B) (m : outcome A) : outcome B :=
  match m with
  | Ok a => Ok (f a)
  | Panic msg => Panic msg
  | RuntimePanic => RuntimePanic
  | OutOfFuel => OutOfFuel
  end.

(** A list of routes with every handle sent through [f]. *)
Definition hmap_routes {A B : Type} (f : A -> option B)
    (rs : list (str * option A)) : list (str * option B) :=
  map (fun pr => (fst pr, obind (snd pr) f)) rs.

(** The routes of [rs] with the position of each route beside its handle. *)
Fixpoint tag_routes {A : Type} (k : nat) (rs : list (str * option A))
  : list (str * option (nat * A)) :=
  match rs with
  | [] => []
  | (p, h) :: rs' => (p, option_map (pair k) h) :: tag_routes (S k) rs'
  end.

(** ** The dispatcher (part_001, context.go, context_1_7.go) *)

(** The constants of [net/http] that the dispatcher names. *)
Definition http_MethodGet : str := bytes "GET".
Definition http_MethodHead : str := bytes "HEAD".
Definition http_MethodPost : str := bytes "POST".
Definition http_MethodPut : str := bytes "PUT".
Definition http_MethodPatch : str := bytes "PATCH".
Definition http_MethodDelete : str := bytes "DELETE".
Definition http_MethodConnect : str := bytes "CONNECT".
Definition http_MethodOptions : str := bytes "OPTIONS".
Definition http_StatusMovedPermanently : Z := 301.
Definition http_StatusTemporaryRedirect : Z := 307.

Definition dquote : ascii := ascii_of_nat 34.

Definition msg_begin (uripath : str) : str :=
  bytes "path must begin with '/' in '" ++ uripath ++ bytes "'".
Definition msg_filename (filename : str) : str :=
  bytes "static files server filename must end with /*filepath in " ++ [dquote]
    ++ filename ++ [dquote].

Section Dispatch.

(** The values of [http.Handler] and of [http.FileSystem] are opaque. *)
Context {HttpHandler FileSystem : Type}.

(** The implementations of the interface [Handler] that the package has:
    [*ContextHandle], and [*FileHandle], which embeds the [*ContextHandle]
    of [http.FileServer(fs)] with [useCtx] false and has its own
    [Handle]. *)
Inductive Handle_value : Type :=
| ContextHandle (handler : HttpHandler) (useCtx : bool)
| FileHandle (fs : FileSystem).

Definition NewContextHandle (handler : HttpHandler) (useContext : bool) : Handle_value :=
  ContextHandle handler useContext.

Definition NewFileHandle (fs : FileSystem) : Handle_value := FileHandle fs.

(** What a [Handle] passes on: the call [handler.ServeHTTP(w, r)] with the
    path of [r.URL] and the parameters in the context of [r] ([None] when
    the context has none), or the same call of the file server of [fs]. *)
Inductive served : Type :=
| ServeHTTP_of (handler : HttpHandler) (path : str) (ctx : option Params)
| FileServer_of (fs : FileSystem) (path : str).

(** The method [Handle] of [ContextHandle] (go1.7) and of [FileHandle]; the
    parameters [ps] are [None] for a nil slice. *)
Definition Handle_of (h : Handle_value) (path : str) (ps : option Params) : served :=
  match h with
  | ContextHandle handler useCtx =>
      if useCtx && is_some ps then ServeHTTP_of handler path ps
      else ServeHTTP_of handler path None
  | FileHandle fs =>
      FileServer_of fs (ByName (match ps with Some l => l | None => [] end)
                          (bytes "filepath"))
  end.

(** The map [trees] from methods to roots, as an association list; its
    order stands for the order in which [range] visits the map, which Go
    leaves open. *)
Fixpoint trees_get (ts : list (str * node Handle_value)) (method : str)
  : option (node Handle_value) :=
  match ts with
  | [] => None
  | (m, root) :: ts' => if str_eqb m method then Some root else trees_get ts' method
  end.

Fixpoint trees_set (ts : list (str * node Handle_value)) (method : str)
    (root : node Handle_value) : list (str * node Handle_value) :=
  match ts with
  | [] => [(method, root)]
  | (m, r) :: ts' =>
      if str_eqb m method then (m, root) :: ts' else (m, r) :: trees_set ts' method root
  end.

(** The fields of [Dispatcher] but the mutex; [PanicHandler] is whether
    the function is set. *)
Record Dispatcher : Type := mkDispatcher {
  trees : list (str * node Handle_value);
  RequestContext : bool;
  RedirectTrailingSlash : bool;
  RedirectFixedPath : bool;
  HandleMethodNotAllowed : bool;
  HandleMethodOPTIONS : bool;
  NotFound : option HttpHandler;
  MethodNotAllowed : option HttpHandler;
  MethodOptions : option HttpHandler;
  PanicHandler : bool }.

Definition set_trees (dp : Dispatcher) (ts : list (str * node Handle_value)) : Dispatcher :=
  mkDispatcher ts (RequestContext dp) (RedirectTrailingSlash dp) (RedirectFixedPath dp)
    (HandleMethodNotAllowed dp) (HandleMethodOPTIONS dp) (NotFound dp)
    (MethodNotAllowed dp) (MethodOptions dp) (PanicHandler dp).

Definition New : Dispatcher :=
  mkDispatcher [] false true true true true None None None false.

(** The root of a method: [new(node)] when the map has none. *)
Definition root_of (dp : Dispatcher) (method : str) : node Handle_value :=
  match trees_get (trees dp) method with
  | Some root => root
  | None => empty_node
  end.

(** [Handle]: the route is registered in the root of the method; the
    handler may be nil. *)
Definition Handle (dp : Dispatcher) (method uripath : str)
    (handler : option Handle_value) : outcome Dispatcher :=
  match uripath with
  | [] => RuntimePanic
  | c :: _ =>
      if negb (Ascii.eqb c slash) then Panic (msg_begin uripath)
      else
        let root := root_of dp method in
        root' <- register root uripath handler ;;
        Ok (set_trees dp (trees_set (trees dp) method root'))
  end.

Definition Handler (dp : Dispatcher) (method uripath : str) (handler : HttpHandler)
  : outcome Dispatcher :=
  Handle dp method uripath (Some (NewContextHandle handler (RequestContext dp))).

Definition HandlerFunc (dp : Dispatcher) (method uripath : str) (handler : HttpHandler)
  : outcome Dispatcher :=
  Handler dp method uripath handler.

Definition OPTIONS (dp : Dispatcher) (uripath : str) (handler : HttpHandler)
  : outcome Dispatcher := Handler dp http_MethodOptions uripath handler.
Definition GET (dp : Dispatcher) (uripath : str) (handler : HttpHandler)
  : outcome Dispatcher := Handler dp http_MethodGet uripath handler.
Definition HEAD (dp : Dispatcher) (uripath : str) (handler : HttpHandler)
  : outcome Dispatcher := Handler dp http_MethodHead uripath handler.
Definition POST (dp : Dispatcher) (uripath : str) (handler : HttpHandler)
  : outcome Dispatcher := Handler dp http_MethodPost uripath handler.
Definition PUT (dp : Dispatcher) (uripath : str) (handler : HttpHandler)
  : outcome Dispatcher := Handler dp http_MethodPut uripath handler.
Definition PATCH (dp : Dispatcher) (uripath : str) (handler : HttpHandler)
  : outcome Dispatcher := Handler dp http_MethodPatch uripath handler.
Definition DELETE (dp : Dispatcher) (uripath : str) (handler : HttpHandler)
  : outcome Dispatcher := Handler dp http_MethodDelete uripath handler.

Definition ServeFiles (dp : Dispatcher) (filename : str) (fs : FileSystem)
  : outcome Dispatcher :=
  if (length filename <? 10)
     || negb (str_eqb (suffix filename (length filename - 10)) (bytes "/*filepath"))
  then Panic (msg_filename filename)
  else Handle dp http_MethodGet filename (Some (NewFileHandle fs)).

Definition Lookup (dp : Dispatcher) (method uripath : str)
  : outcome (@lookup_result Handle_value) :=
  match trees_get (trees dp) method with
  | Some root => resolve root uripath
  | None => Ok (None, None, false)
  end.

(** [allow = method] when [allow] is empty, [allow += ", " + method]
    otherwise. *)
Definition allow_add (allow method : str) : str :=
  if Nat.eqb (length allow) 0 then method else allow ++ bytes ", " ++ method.

(** The loop of [allowed] for the path [*]. *)
Fixpoint allowed_any (ts : list (str * node Handle_value)) (allow : str) : str :=
  match ts with
  | [] => allow
  | (method, _) :: ts' =>
      if str_eqb method http_MethodOptions then allowed_any ts' allow
      else allowed_any ts' (allow_add allow method)
  end.

(** The loop of [allowed] for a path. *)
Fixpoint allowed_at (ts : list (str * node Handle_value)) (uripath origMethod : str)
    (allow : str) : outcome str :=
  match ts with
  | [] => Ok allow
  | (method, root) :: ts' =>
      if str_eqb method origMethod || str_eqb method http_MethodOptions
      then allowed_at ts' uripath origMethod allow
      else
        res <- resolve root uripath ;;
        if is_some (fst (fst res))
        then allowed_at ts' uripath origMethod (allow_add allow method)
        else allowed_at ts' uripath origMethod allow
  end.

Definition allowed (dp : Dispatcher) (uripath origMethod : str) : outcome str :=
  allow <- (if str_eqb uripath (bytes "*") then Ok (allowed_any (trees dp) [])
            else allowed_at (trees dp) uripath origMethod []) ;;
  Ok (if 0 <? length allow then allow ++ bytes ", OPTIONS" else allow).

(** What [ServeHTTP] does with a request: the call of a handle, a
    redirection to a path with a status code, a reply with the header
    [Allow] (and the configured handler, when there is one), the reply
    for a path not found, or the call of [PanicHandler]. *)
Inductive response : Type :=
| Handled (call : served)
| Redirected (path : str) (code : Z)
| OptionsReply (allow : str) (custom : option HttpHandler)
| NotAllowedReply (allow : str) (custom : option HttpHandler)
| NotFoundReply (custom : option HttpHandler)
| Recovered (rcv : option str).

Definition notfound (dp : Dispatcher) : response := NotFoundReply (NotFound dp).

(** [recovery], deferred when [PanicHandler] is set: the value recovered
    is the message of a panic of the package, or a run-time error. *)
Definition recovery (dp : Dispatcher) (r : outcome response) : outcome response :=
  if PanicHandler dp then
    match r with
    | Panic msg => Ok (Recovered (Some msg))
    | RuntimePanic => Ok (Recovered None)
    | _ => r
    end
  else r.

Definition redirect_code (method : str) : Z :=
  if negb (str_eqb method http_MethodGet) then http_StatusTemporaryRedirect
  else http_StatusMovedPermanently.

(** [Normalize] is called by [ServeHTTP]; its source is not in the
    repository and the specification does not describe it. *)
Variable Normalize : str -> str.

(** The part of [ServeHTTP] that looks into the tree of the method:
    [None] when the request falls through to the replies below. *)
Definition serve_route (dp : Dispatcher) (method uripath : str)
  : outcome (option response) :=
  match trees_get (trees dp) method with
  | Some root =>
      res <- resolve root uripath ;;
      let '(handler, params, tsr) := res in
      match handler with
      | Some h =>
          if negb tsr || negb (RedirectTrailingSlash dp)
          then Ok (Some (Handled (Handle_of h uripath params)))
          else
            let code := redirect_code method in
            if (1 <? length uripath) && last_is_slash uripath
            then Ok (Some (Redirected (slice uripath 0 (length uripath - 1)) code))
            else Ok (Some (Redirected (uripath ++ [slash]) code))
      | None =>
          if RedirectFixedPath dp && negb (str_eqb method http_MethodConnect)
             && negb (str_eqb uripath [slash])
          then
            fixed <- findCaseInsensitivePath root (Normalize uripath)
                       (RedirectTrailingSlash dp) ;;
            if snd fixed then Ok (Some (Redirected (fst fixed) (redirect_code method)))
            else Ok None
          else Ok None
      end
  | None => Ok None
  end.

Definition ServeHTTP (dp : Dispatcher) (method uripath : str) : outcome response :=
  recovery dp
    (routed <- serve_route dp method uripath ;;
     match routed with
     | Some r => Ok r
     | None =>
         if str_eqb method http_MethodOptions then
           if HandleMethodOPTIONS dp then
             allow <- allowed dp uripath method ;;
             if 0 <? length allow then Ok (OptionsReply allow (MethodOptions dp))
             else Ok (notfound dp)
           else Ok (notfound dp)
         else
           if HandleMethodNotAllowed dp then
             allow <- allowed dp uripath method ;;
             if 0 <? length allow then Ok (NotAllowedReply allow (MethodNotAllowed dp))
             else Ok (notfound dp)
           else Ok (notfound dp)
     end).

(** The routes of [rs], each a method, a pattern and a handle, registered
    one after the other; a panic stops. *)
Fixpoint handle_all (dp : Dispatcher) (rs : list (str * str * option Handle_value))
  : outcome Dispatcher :=
  match rs with
  | [] => Ok dp
  | (method, uripath, h) :: rs' =>
      dp' <- Handle dp method uripath h ;; handle_all dp' rs'
  end.

End Dispatch.

Arguments Handle_value : clear implicits.
Arguments served : clear implicits.
Arguments Dispatcher : clear implicits.
Arguments response : clear implicits.

(** The routes of one method. *)
Fixpoint routes_of {H : Type} (method : str) (rs : list (str * str * option H))
  : list (str * option H) :=
  match rs with
  | [] => []
  | (m, p, h) :: rs' =>
      if str_eqb m method then (p, h) :: routes_of method rs' else routes_of method rs'
  end.

(** The methods that [Allow] names before [OPTIONS], as the description
    of [allowed] has them: the methods of the map, in its order, other
    than the method of the request and [OPTIONS], whose tree has a handle
    for the path. *)
Fixpoint other_methods {H : Type} (ts : list (str * node H))
    (uripath origMethod : str) : list str :=
  match ts with
  | [] => []
  | (method, root) :: ts' =>
      if str_eqb method origMethod || str_eqb method http_MethodOptions
      then other_methods ts' uripath origMethod
      else
        match resolve root uripath with
        | Ok (Some _, _, _) => method :: other_methods ts' uripath origMethod
        | _ => other_methods ts' uripath origMethod
        end
  end.

(** The methods joined by a comma and a space. *)
Fixpoint join_methods (ms : list str) : str :=
  match ms with
  | [] => []
  | [m] => m
  | m :: ms' => m ++ bytes ", " ++ join_methods ms'
  end.

(** The parameters that a lookup can capture below a node, at most: one
    for each flagged node of a branch. *)
Fixpoint need {Handler : Type} (n : node Handler) : Z :=
  match n with
  | Node _ _ _ _ _ _ cs w =>
      ((if w then 1 else 0) + fold_right (fun c acc => Z.max (need c) acc) 0 cs)%Z
  end.

(** What the insertion keeps for the lookup to run: the child of a
    flagged node has room in [nparams] for itself and for the parameters
    below it, and the path of a catch-all leaf has its slash and its
    star; a catch-all child of an unflagged node is the intermediate node,
    which has its leaf. *)
Definition look_inv {Handler : Type} (n : node Handler) : Prop :=
  forall c, In c (children n) ->
    (wildcard n = true ->
     (1 + need c <= nparams c)%Z /\ (typo c = Wildcard -> 2 <= length (path c)))
    /\ (wildcard n = false -> typo c = Wildcard -> children c <> []).

(** The slice of the parameters has room for those still to come. *)
Definition room {Handler : Type} (p : option (Z * Params)) (n : node Handler) : Prop :=
  match p with
  | None => True
  | Some (cap, ps) => (Z.of_nat (length ps) + need n <= cap)%Z
  end.

(** ** Example trees *)

Definition route (p : string) (h : nat) : str * option nat := (bytes p, Some h).

Definition tree_of (rs : list (str * option nat)) : node nat :=
  match build rs with
  | Ok t => t
  | _ => empty_node
  end.

Definition tree_files : node nat :=
  Eval vm_compute in tree_of [route "/files/*fp" 1].

Definition tree_dir : node nat :=
  Eval vm_compute in tree_of [route "/a/" 1].

Definition tree_file : node nat :=
  Eval vm_compute in tree_of [route "/a" 1].

(** An example dispatcher, with numbers for the handlers. *)
Definition routes_example : list (str * str * option (Handle_value nat nat)) :=
  [ (http_MethodGet, bytes "/a/", Some (ContextHandle 1 false));
    (http_MethodPost, bytes "/b", Some (ContextHandle 2 false)) ].

Definition dp_first : Dispatcher nat nat :=
  Eval vm_compute in
    match handle_all New (firstn 1 routes_example) with
    | Ok dp => dp
    | _ => New
    end.

Definition dp_example : Dispatcher nat nat :=
  Eval vm_compute in
    match handle_all New routes_example with
    | Ok dp => dp
    | _ => New
    end.

(** * Properties *)

(** ** Byte strings *)

Lemma str_eqb_eq (a b : str) : str_eqb a b = true <-> a = b.
Proof.
  revert b; induction a as [|x a IH]; intros [|y b]; simpl; split; intro H;
    try discriminate; try reflexivity.
  - apply andb_true_iff in H as [H1 H2].
    apply Ascii.eqb_eq in H1. apply IH in H2. congruence.
  - inversion H; subst. rewrite Ascii.eqb_refl. simpl. now apply IH.
Qed.

Lemma str_eqb_refl (a : str) : str_eqb a a = true.
Proof. now apply str_eqb_eq. Qed.

Lemma last_is_slash_app (a b : str) :
  b <> [] -> last_is_slash (a ++ b) = last_is_slash b.
Proof.
  intro Hb. unfold last_is_slash. rewrite rev_app_distr.
  destruct (rev b) as [|c r] eqn:E.
  - apply (f_equal (@rev _)) in E. rewrite rev_involutive in E. now subst.
  - reflexivity.
Qed.

Lemma last_is_slash_suffix (u : str) (k : nat) :
  last_is_slash (suffix u k) = true -> last_is_slash u = true.
Proof.
  unfold suffix. intro H.
  rewrite <- (firstn_skipn k u). rewrite last_is_slash_app; auto.
  intro E. rewrite E in H. discriminate.
Qed.

(** ** Params *)

(** C10.  [ByName] returns the value of the first pair whose key is the
    name and the empty string when there is none; [DefName] reports whether
    there is one. *)
Theorem C10_ByName_first_match (ps : Params) (name : str) :
  ByName ps name = match first_with_key ps name with
                   | Some p => Value p
                   | None => []
                   end
  /\ DefName ps name = (ByName ps name, is_some (first_with_key ps name))
  /\ (forall p, first_with_key ps name = Some p ->
        exists pre post, ps = pre ++ p :: post /\ Key p = name
                         /\ forall q, In q pre -> Key q <> name)
  /\ (first_with_key ps name = None -> forall q, In q ps -> Key q <> name).
Proof.
  unfold ByName. induction ps as [|p ps IH]; simpl.
  - split; [reflexivity|]. split; [reflexivity|]. split; [discriminate|].
    intros _ q [].
  - destruct (str_eqb (Key p) name) eqn:E; simpl.
    + apply str_eqb_eq in E.
      split; [reflexivity|]. split; [reflexivity|]. split; [|discriminate].
      intros p0 [= <-]. exists [], ps. split; [reflexivity|]. split; [exact E|].
      intros q [].
    + destruct IH as (IH1 & IH2 & IH3 & IH4).
      assert (Hne : Key p <> name).
      { intro Hk. apply str_eqb_eq in Hk. congruence. }
      split; [exact IH1|]. split; [exact IH2|]. split.
      * intros p0 Hp0. destruct (IH3 _ Hp0) as (pre & post & -> & Hk & Hpre).
        exists (p :: pre), post. split; [reflexivity|]. split; [exact Hk|].
        intros q [<-|Hq]; auto.
      * intros Hn q [<-|Hq]; auto.
Qed.

(** ** Lookup *)

Section Lookup.

Context {Handler : Type}.
Implicit Types (n : node Handler) (u : str).

Ltac inv_ok H := inversion H; subst; clear H.

(** A recommendation without a handle is only made for a remainder ["/"]. *)
Lemma resolve_nothing_nil n u ps ps' :
  resolve_nothing n u ps = (None, ps', true) -> last_is_slash u = true.
Proof.
  unfold resolve_nothing. destruct (str_eqb u [slash]) eqn:E.
  - apply str_eqb_eq in E. subst. reflexivity.
  - destruct (_ && _) eqn:E2; [|discriminate].
    apply andb_true_iff in E2 as [_ E2]. intros [= H1 H2].
    rewrite H1 in E2. discriminate.
Qed.

Lemma resolve_walk_tsr_nil fuel : forall n u p ps,
  resolve_walk fuel n u p = Ok (None, ps, true) -> last_is_slash u = true.
Proof.
  induction fuel as [|fuel IH]; intros n u p ps H; [discriminate|].
  cbn [resolve_walk] in H.
  repeat match type of H with
  | Ok (resolve_nothing _ _ _) = Ok _ =>
      injection H as H; apply resolve_nothing_nil in H; exact H
  | resolve_walk _ _ _ _ = _ =>
      apply IH in H;
      try match goal with E : suffix _ _ = _ |- _ => rewrite <- E in H end;
      first [ exact (last_is_slash_suffix _ _ H)
            | exact (last_is_slash_suffix _ _ (last_is_slash_suffix _ _ H)) ]
  | Ok (handle ?x, _, _) = Ok (None, _, _) =>
      match goal with
      | E : is_some (handle x) = true |- _ =>
          injection H as H _; rewrite H in E; discriminate
      | E : _ && is_some (handle x) = true |- _ =>
          apply andb_true_iff in E as [_ E];
          injection H as H _; rewrite H in E; discriminate
      end
  | Ok (None, _, true) = Ok _ =>
      match goal with
      | E : str_eqb ?v [slash] && _ && _ = true |- _ =>
          apply andb_true_iff in E as [E _]; apply andb_true_iff in E as [E _];
          apply str_eqb_eq in E; subst v; reflexivity
      end
  | bind ?m _ = _ => destruct m eqn:?; cbn [bind] in H
  | (let (_, _) := ?x in _) = _ => destruct x eqn:?
  | (if ?b then _ else _) = _ => destruct b eqn:?
  | match ?x with _ => _ end = _ => destruct x eqn:?
  | _ => discriminate
  end.
Qed.

(** C5, as amended.  A lookup that recommends a redirect for a path that
    does not end in a slash returns a handle with it. *)
Theorem C5_tsr_returns_handle n u h ps :
  resolve n u = Ok (h, ps, true) -> last_is_slash u = false -> h <> None.
Proof.
  unfold resolve. intros H Hu ->.
  apply resolve_walk_tsr_nil in H. congruence.
Qed.

End Lookup.

(** ** Concrete trees *)

Lemma C5_tsr_returns_handle_witness :
  build [route "/files/*fp" 1] = Ok tree_files
  /\ resolve tree_files (bytes "/files") = Ok (Some 1, None, true)
  /\ Some 1 <> None.
Proof.
  split; [vm_compute; reflexivity|]. split; [vm_compute; reflexivity|].
  apply (@C5_tsr_returns_handle nat tree_files (bytes "/files") (Some 1) None);
    vm_compute; reflexivity.
Defined.

(** C5, as stated, fails: with only [/abc] registered the lookup of [/]
    recommends a redirect and returns no handle. *)
Lemma C5_counterexample :
  exists t, build [route "/abc" 1] = Ok t
            /\ resolve t (bytes "/") = Ok (None, None, true).
Proof. eexists. split; vm_compute; reflexivity. Qed.



(** C2: with [/a] and then [/a/] registered, the lookup of the registered
    path [/a/] returns the handle of [/a] and a redirect recommendation. *)
Lemma C2_registered_path_shadowed :
  exists t, build [route "/a" 1; route "/a/" 2] = Ok t
            /\ resolve t (bytes "/a/") = Ok (Some 1, None, true).
Proof. eexists. split; vm_compute; reflexivity. Qed.



(** C7, as stated, fails: the root of the tree of [/files/*fp] has a
    catch-all first child and its flag is false. *)
Lemma C7_counterexample :
  exists t c, build [route "/files/*fp" 1] = Ok t
              /\ hd_error (children t) = Some c
              /\ typo c = Wildcard
              /\ wildcard t = false.
Proof.
  eexists. eexists. split; [vm_compute; reflexivity|].
  split; [vm_compute; reflexivity|]. split; reflexivity.
Qed.

(** C8, as stated, fails: with [/a] and [/A] registered, the
    case-insensitive lookup of [upper "/A"] returns [/a]. *)
Lemma C8_counterexample :
  exists t, build [route "/a" 1; route "/A" 2] = Ok t
            /\ upper (bytes "/A") = bytes "/A"
            /\ findCaseInsensitivePath t (upper (bytes "/A")) false
               = Ok (bytes "/a", true).
Proof. eexists. repeat split; vm_compute; reflexivity. Qed.

(** ** Lists under [incrementChildPriority] *)

Section Moves.

Context {A : Type}.
Implicit Types (l : list A).

Lemma nth_error_firstn_lt l k i : i < k -> nth_error (firstn k l) i = nth_error l i.
Proof.
  revert k i; induction l as [|x l IH]; intros [|k] [|i] H; simpl; try lia; auto.
  apply IH; lia.
Qed.

Lemma nth_error_firstn_ge l k i : k <= i -> nth_error (firstn k l) i = None.
Proof.
  intro H. apply nth_error_None. rewrite length_firstn. lia.
Qed.

Lemma nth_error_skipn_add l k i : nth_error (skipn k l) i = nth_error l (k + i).
Proof.
  revert l; induction k as [|k IH]; intros [|x l]; simpl; auto.
  now destruct i.
Qed.

Lemma nth_error_move_to l pos newPos i :
  newPos <= pos -> pos < length l ->
  nth_error (move_to l pos newPos) i = nth_error l (moved pos newPos i).
Proof.
  intros Hle Hlt. unfold move_to, moved.
  replace (S pos - pos) with 1 by lia.
  destruct (Nat.ltb_spec i newPos).
  - rewrite nth_error_app1 by (rewrite length_firstn; lia).
    now apply nth_error_firstn_lt.
  - rewrite nth_error_app2 by (rewrite length_firstn; lia).
    rewrite length_firstn, Nat.min_l by lia.
    destruct (Nat.eqb_spec i newPos).
    + subst. rewrite Nat.sub_diag.
      rewrite nth_error_app1 by (rewrite length_firstn, length_skipn; lia).
      rewrite nth_error_firstn_lt, nth_error_skipn_add by lia.
      f_equal; lia.
    + rewrite nth_error_app2 by (rewrite length_firstn, length_skipn; lia).
      rewrite length_firstn, length_skipn, Nat.min_l by lia.
      destruct (Nat.leb_spec i pos).
      * rewrite nth_error_app1 by (rewrite length_firstn, length_skipn; lia).
        rewrite nth_error_firstn_lt, nth_error_skipn_add by lia.
        f_equal; lia.
      * rewrite nth_error_app2 by (rewrite length_firstn, length_skipn; lia).
        rewrite length_firstn, length_skipn, Nat.min_l by lia.
        rewrite nth_error_skipn_add. f_equal; lia.
Qed.

Lemma length_move_to l pos newPos :
  newPos <= pos -> pos < length l -> length (move_to l pos newPos) = length l.
Proof.
  intros. unfold move_to. rewrite !length_app, !length_firstn, !length_skipn. lia.
Qed.

End Moves.

Lemma moved_same pos i : moved pos pos i = i.
Proof.
  unfold moved. destruct (Nat.ltb_spec i pos); auto.
  destruct (Nat.eqb_spec i pos); auto.
  destruct (Nat.leb_spec i pos); auto. lia.
Qed.

Section Children.

Context {Handler : Type}.
Implicit Types (n c : node Handler) (cs : list (node Handler)).

Lemma length_set_nth cs k c : length (set_nth cs k c) = length cs.
Proof. revert k; induction cs as [|x cs IH]; intros [|k]; simpl; auto. Qed.

Lemma nth_error_set_nth cs k c i :
  nth_error (set_nth cs k c) i
  = if Nat.eqb i k then (if k <? length cs then Some c else None) else nth_error cs i.
Proof.
  revert k i; induction cs as [|x cs IH]; intros k i.
  - simpl. destruct k, i; simpl; auto; destruct (Nat.eqb i k); auto.
  - destruct k, i; simpl; auto.
Qed.

Lemma nth_error_set_nth_eq cs k c x :
  nth_error cs k = Some x -> nth_error (set_nth cs k c) k = Some c.
Proof.
  intro H. rewrite nth_error_set_nth, Nat.eqb_refl.
  assert (k < length cs) by (apply nth_error_Some; congruence).
  destruct (Nat.ltb_spec k (length cs)); auto; lia.
Qed.

Lemma nth_error_set_nth_neq cs k c i :
  i <> k -> nth_error (set_nth cs k c) i = nth_error cs i.
Proof.
  intro H. rewrite nth_error_set_nth.
  destruct (Nat.eqb_spec i k); auto; contradiction.
Qed.

(** What [bubble] returns: the child at [pos] has moved to [np], past the
    neighbours of smaller priority and no further. *)
Lemma bubble_spec (prio : Z) : forall pos cs x,
  nth_error cs pos = Some x ->
  exists cs' np,
    bubble cs pos prio = (cs', np) /\ np <= pos
    /\ (forall i, nth_error cs' i = nth_error cs (moved pos np i))
    /\ (np = 0 \/ exists l, nth_error cs (np - 1) = Some l /\ (prio <= priority l)%Z)
    /\ (forall j l, np <= j < pos -> nth_error cs j = Some l -> (priority l < prio)%Z).
Proof.
  induction pos as [|k IH]; intros cs x Hx.
  - exists cs, 0. simpl. repeat split; auto.
    + intro i. now rewrite moved_same.
    + intros j l Hj. lia.
  - assert (Hk : exists l, nth_error cs k = Some l).
    { destruct (nth_error cs k) eqn:E; eauto.
      apply nth_error_None in E.
      assert (S k < length cs) by (apply nth_error_Some; congruence). lia. }
    destruct Hk as [l Hl]. cbn [bubble]. rewrite Hl, Hx.
    destruct (Z.ltb_spec (priority l) prio) as [Hlt|Hge].
    + set (cs2 := set_nth (set_nth cs k x) (S k) l).
      assert (Hcs2 : forall m, nth_error cs2 m
                = nth_error cs (if Nat.eqb m k then S k else if Nat.eqb m (S k) then k else m)).
      { intro m. unfold cs2. rewrite !nth_error_set_nth, !length_set_nth.
        assert (S k < length cs) by (apply nth_error_Some; congruence).
        destruct (Nat.eqb_spec m (S k)); destruct (Nat.eqb_spec m k); subst; try lia.
        - destruct (Nat.ltb_spec (S k) (length cs)); [congruence|lia].
        - destruct (Nat.ltb_spec k (length cs)); [congruence|lia].
        - reflexivity. }
      destruct (IH cs2 x) as (cs' & np & Hb & Hle & Hnth & Ha & Hbelow).
      { rewrite Hcs2, Nat.eqb_refl. exact Hx. }
      exists cs', np. split; [exact Hb|]. split; [lia|]. split; [|split].
      * intro i. rewrite Hnth, Hcs2. f_equal. unfold moved.
        destruct (Nat.ltb_spec i np); destruct (Nat.eqb_spec i np);
          destruct (Nat.leb_spec i k); destruct (Nat.leb_spec i (S k));
          repeat match goal with
                 | |- context [Nat.eqb ?a ?b] => destruct (Nat.eqb_spec a b)
                 end; lia.
      * destruct (Nat.eq_dec np 0) as [Hz|Hnz]; [now left|].
        destruct Ha as [->|(l' & Hl' & Hp)]; [now left|right].
        exists l'. split; auto. rewrite Hcs2 in Hl'.
        destruct (Nat.eqb_spec (np - 1) k); [lia|].
        destruct (Nat.eqb_spec (np - 1) (S k)); [lia|]. exact Hl'.
      * intros j l0 Hj Hl0. destruct (Nat.eq_dec j k) as [->|Hjk].
        -- congruence.
        -- apply (Hbelow j l0); [lia|]. rewrite Hcs2.
           destruct (Nat.eqb_spec j k); [lia|].
           destruct (Nat.eqb_spec j (S k)); [lia|]. exact Hl0.
    + exists cs, (S k). split; [reflexivity|]. split; [lia|]. split; [|split].
      * intro i. now rewrite moved_same.
      * right. exists l. replace (S k - 1) with k by lia. split; [exact Hl|exact Hge].
      * intros j l0 Hj. lia.
Qed.

(** What [incrementChildPriority] returns. *)
Lemma incrementChildPriority_spec n pos n1 np :
  incrementChildPriority n pos = Ok (n1, np) ->
  exists c,
    nth_error (children n) pos = Some c /\ np <= pos
    /\ (forall i, nth_error (children n1) i
                  = nth_error (set_nth (children n) pos (bump_priority c)) (moved pos np i))
    /\ (forall i, nth_error (indices n1) i = nth_error (indices n) (moved pos np i))
    /\ length (indices n1) = length (indices n)
    /\ (np = 0 \/ exists l, nth_error (set_nth (children n) pos (bump_priority c)) (np - 1) = Some l
                            /\ (priority (bump_priority c) <= priority l)%Z)
    /\ (forall j l, np <= j < pos -> nth_error (children n) j = Some l ->
                    (priority l < priority (bump_priority c))%Z)
    /\ typo n1 = typo n /\ path n1 = path n /\ wildcard n1 = wildcard n
    /\ handle n1 = handle n /\ priority n1 = priority n /\ nparams n1 = nparams n.
Proof.
  unfold incrementChildPriority. destruct (nth_error (children n) pos) as [c|] eqn:Hc;
    [|discriminate].
  destruct (bubble_spec (priority (bump_priority c)) pos
              (set_nth (children n) pos (bump_priority c)) (x := bump_priority c))
    as (cs' & k & Hb & Hle & Hnth & Ha & Hbelow).
  { eapply nth_error_set_nth_eq; eauto. }
  rewrite Hb. intro H. exists c. split; [reflexivity|].
  assert (Hbelow' : forall j l, k <= j < pos -> nth_error (children n) j = Some l ->
                      (priority l < priority (bump_priority c))%Z).
  { intros j l Hj Hl. apply (Hbelow j l Hj).
    rewrite nth_error_set_nth_neq by lia. exact Hl. }
  destruct (Nat.eqb_spec k pos) as [->|Hne].
  - inversion H; subst; clear H. cbn. repeat split; auto.
    intro i. now rewrite moved_same.
  - destruct (Nat.ltb_spec (length (indices n)) (S pos)); [discriminate|].
    inversion H; subst; clear H. cbn. repeat split; auto.
    + intro i. fold (move_to (indices n) pos np).
      unfold slice, suffix. rewrite !Nat.sub_0_r. cbn [skipn].
      apply (nth_error_move_to (indices n) (pos := pos) (newPos := np)); lia.
    + unfold slice, suffix. rewrite !Nat.sub_0_r. cbn [skipn].
      apply (length_move_to (indices n) (pos := pos) (newPos := np)); lia.
Qed.

End Children.

(** ** The flag [wildcard] under insertion *)

Section Flag.

Context {Handler : Type}.
Implicit Types (n c r : node Handler) (cs : list (node Handler)).

Lemma all_nodes_inv (P : node Handler -> Prop) n :
  all_nodes P n -> P n /\ Forall (all_nodes P) (children n).
Proof. intro H. inversion H; subst. auto. Qed.

Lemma Forall_nth_error {A : Type} (P : A -> Prop) (l : list A) :
  Forall P l <-> forall i x, nth_error l i = Some x -> P x.
Proof.
  rewrite Forall_forall. split.
  - intros H i x Hx. apply H. eapply nth_error_In; eauto.
  - intros H x Hx. apply In_nth_error in Hx as [i Hi]. eauto.
Qed.

Lemma Forall_set_nth (P : node Handler -> Prop) cs k c :
  Forall P cs -> P c -> Forall P (set_nth cs k c).
Proof.
  intros Hcs Hc. apply Forall_nth_error. intros i x Hx.
  rewrite nth_error_set_nth in Hx.
  destruct (Nat.eqb i k).
  - destruct (k <? length cs); [|discriminate]. congruence.
  - rewrite Forall_nth_error in Hcs. eauto.
Qed.

(** Every child after [incrementChildPriority] is a child from before, or
    the incremented one. *)
Lemma incrementChildPriority_children n pos n1 np i x :
  incrementChildPriority n pos = Ok (n1, np) ->
  nth_error (children n1) i = Some x ->
  exists j c, nth_error (children n) j = Some c /\ (x = c \/ x = bump_priority c).
Proof.
  intros H Hx. apply incrementChildPriority_spec in H as (c & Hc & _ & Hnth & _).
  rewrite Hnth, nth_error_set_nth in Hx.
  destruct (Nat.eqb (moved pos np i) pos).
  - destruct (pos <? length (children n)); [|discriminate].
    exists pos, c. split; auto. right. congruence.
  - eauto.
Qed.

Lemma incrementChildPriority_Forall (P : node Handler -> Prop) n pos n1 np :
  (forall c, P c -> P (bump_priority c)) ->
  Forall P (children n) ->
  incrementChildPriority n pos = Ok (n1, np) ->
  Forall P (children n1).
Proof.
  intros Hb HP H. apply Forall_nth_error. intros i x Hx.
  destruct (incrementChildPriority_children _ _ _ H Hx) as (j & c & Hc & [->| ->]);
    rewrite Forall_nth_error in HP; eauto.
Qed.

(** [flag_inv] reads the kind, the path, the flag and the children only. *)
Lemma flag_inv_ext n n' :
  typo n' = typo n -> path n' = path n -> wildcard n' = wildcard n ->
  children n' = children n -> flag_inv n -> flag_inv n'.
Proof. unfold flag_inv. intros -> -> -> ->. auto. Qed.

Lemma all_flag_ext n n' :
  typo n' = typo n -> path n' = path n -> wildcard n' = wildcard n ->
  children n' = children n -> all_nodes flag_inv n -> all_nodes flag_inv n'.
Proof.
  intros Ht Hp Hw Hc H. apply all_nodes_inv in H as [H1 H2].
  constructor; [eapply flag_inv_ext; eauto|]. now rewrite Hc.
Qed.

Lemma all_flag_bump c : all_nodes flag_inv c -> all_nodes flag_inv (bump_priority c).
Proof. apply all_flag_ext; reflexivity. Qed.

Lemma all_flag_raise c m : all_nodes flag_inv c -> all_nodes flag_inv (raise_nparams c m).
Proof.
  unfold raise_nparams. destruct (nparams c <? m)%Z; auto.
  apply all_flag_ext; reflexivity.
Qed.

Lemma typo_raise c m : typo (raise_nparams c m) = typo c.
Proof. unfold raise_nparams. now destruct (nparams c <? m)%Z. Qed.

(** A node without children is not flagged. *)
Lemma flag_inv_no_children n :
  flag_inv n -> children n = [] -> wildcard n = false.
Proof.
  intros [H1 _] Hc. destruct (wildcard n); auto.
  destruct (H1 eq_refl) as (c & Hcs & _). congruence.
Qed.

Lemma length_zero_nil {A : Type} (l : list A) : (0 <? length l) = false -> l = [].
Proof. destruct l; simpl; auto. discriminate. Qed.

Lemma insertChild_from_flag uripath abspath h : forall rest i offset n numParams r,
  flag_inv n -> Forall (all_nodes flag_inv) (children n) ->
  typo n <> Wildcard
  \/ (wildcard n = false /\ i = 0
      /\ exists (b : ascii) rest', rest = b :: rest' /\ is_wild b = true) ->
  insertChild_from uripath abspath h rest i offset n numParams = Ok r ->
  all_nodes flag_inv r /\ typo r = typo n.
Proof.
  induction rest as [|c rest IH]; intros i offset n numParams r Hn Hcs Hpre H;
    cbn [insertChild_from] in H.
  all: assert (Hnw : wildcard n = true -> typo n <> Wildcard)
    by (destruct Hpre as [?|(Hf & _)]; [auto|intro Hw; congruence]).
  all: assert (Hleaf : forall p, all_nodes flag_inv (set_handle (set_path n p) h)).
  1,3: (intro p; constructor; [|exact Hcs];
        destruct Hn as [H1 H2]; split; cbn; intros Hw;
        [ destruct (H1 Hw) as (c0 & Hc & [Hp|(_ & Ht & _)]);
          [eauto|exfalso; exact (Hnw Hw Ht)]
        | apply H2; auto ]).
  - destruct (0 <? numParams)%Z; [discriminate|]. inversion H; subst; clear H.
    split; [apply Hleaf|reflexivity].
  - destruct (0 <? numParams)%Z.
    2:{ inversion H; subst; clear H. split; [apply Hleaf|reflexivity]. }
    destruct (is_wild c) eqn:Hwild; cbn [negb] in H.
    2:{ eapply IH; eauto. left. destruct Hpre as [?|(_ & _ & c0 & r0 & [= <- <-] & Hc0)];
          [assumption|congruence]. }
    destruct (find_end rest (S i)) as [e|]; [|discriminate].
    destruct (0 <? length (children n)) eqn:Hlen; [discriminate|].
    apply length_zero_nil in Hlen.
    pose proof (flag_inv_no_children Hn Hlen) as Hw.
    destruct (e - i <? 2); [discriminate|].
    destruct (Ascii.eqb c colon).
    + destruct (e <? length uripath).
      * match type of H with bind ?m _ = _ => destruct m as [r0| | |] eqn:Hr0 end;
          try discriminate.
        cbn [bind] in H. inversion H; subst; clear H.
        apply IH in Hr0 as [Hr0 Hty0]; [| |constructor|left; discriminate].
        2:{ split; cbn; [discriminate|intros _ ? []]. }
        split; [|now destruct (0 <? i)].
        constructor; cbn.
        -- split; cbn; [|discriminate]. intros _. eexists. split; [reflexivity|].
           left. reflexivity.
        -- constructor; [|constructor]. constructor; cbn.
           ++ split; cbn; [discriminate|]. intros _ x [<-|[]].
              rewrite Hty0. cbn. split; discriminate.
           ++ constructor; [exact Hr0|constructor].
      * match type of H with bind ?m _ = _ => destruct m as [r0| | |] eqn:Hr0 end;
          try discriminate.
        cbn [bind] in H. inversion H; subst; clear H.
        apply IH in Hr0 as [Hr0 Hty0]; [| |constructor|left; discriminate].
        2:{ split; cbn; [discriminate|intros _ ? []]. }
        split; [|now destruct (0 <? i)].
        constructor; cbn.
        -- split; cbn; [|discriminate]. intros _. eexists. split; [reflexivity|].
           left. rewrite Hty0. reflexivity.
        -- constructor; [exact Hr0|constructor].
    + destruct (negb (Nat.eqb e (length uripath)) || (1 <? numParams)%Z); [discriminate|].
      destruct (last_is_slash (path n)); [discriminate|].
      destruct i as [|j]; [discriminate|].
      assert (Hty : typo n <> Wildcard)
        by (destruct Hpre as [?|(_ & ? & _)]; [assumption|discriminate]).
      destruct (nth_error uripath j) as [sl|]; [|discriminate].
      destruct (negb (Ascii.eqb sl slash)); [discriminate|].
      inversion H; subst; clear H. split; [|reflexivity].
      constructor; cbn.
      * split; cbn; [rewrite Hw; discriminate|].
        intros _ x [<-|[]]. cbn. split; [discriminate|]. intro; contradiction.
      * constructor; [|constructor]. constructor; cbn.
        -- split; cbn; [|discriminate]. intros _. eexists. split; [reflexivity|].
           right. cbn. auto.
        -- constructor; [|constructor]. constructor; cbn; [|constructor].
           split; cbn; [discriminate|intros _ ? []].
Qed.

Lemma fold_raise_fields cs : forall c0,
  let c := fold_left (fun (c : node Handler) x => raise_nparams c (nparams x)) cs c0 in
  typo c = typo c0 /\ path c = path c0 /\ wildcard c = wildcard c0
  /\ children c = children c0 /\ indices c = indices c0 /\ handle c = handle c0
  /\ priority c = priority c0.
Proof.
  induction cs as [|x cs IH]; intro c0; cbn.
  - repeat split.
  - destruct (IH (raise_nparams c0 (nparams x))) as (H1 & H2 & H3 & H4 & H5 & H6 & H7).
    unfold raise_nparams in *. destruct (nparams c0 <? nparams x)%Z; cbn in *; auto 10.
Qed.

Lemma split_edge_flag n u i :
  all_nodes flag_inv n -> i < length (path n) ->
  all_nodes flag_inv (split_edge n u i).
Proof.
  intros Hn Hi. apply all_nodes_inv in Hn as [[H1 H2] Hcs].
  unfold split_edge.
  match goal with |- context [fold_left ?f ?l ?c0] =>
    destruct (fold_raise_fields l c0) as (Ht & Hp & Hw & Hc & _);
    set (child := fold_left f l c0) in *
  end.
  cbn in Ht, Hp, Hw, Hc.
  constructor; cbn.
  - split; cbn; [discriminate|]. intros _ x [<-|[]]. rewrite Ht. split; discriminate.
  - constructor; [|constructor]. constructor; [|now rewrite Hc].
    split; rewrite Hw, Hc, Ht.
    + intro Hf. destruct (H1 Hf) as (c & Hcc & [Hpc|(_ & _ & Hnil)]).
      * eauto.
      * rewrite Hnil in Hi. cbn in Hi. lia.
    + intros Hf c Hin. split; [now apply H2|discriminate].
Qed.

(** The child that [register] appends and then fills is the new one. *)
Lemma new_child_is_fresh n (b : ascii) fresh n3 k1 ch :
  let n2 := set_children (set_indices n (indices n ++ [b]))
              (children (set_indices n (indices n ++ [b])) ++ [fresh]) in
  let pos := length (indices n2) - 1 in
  let last := length (children n2) - 1 in
  incrementChildPriority n2 pos = Ok (n3, k1) ->
  nth_error (children n3) (if Nat.eqb pos last then k1 else last) = Some ch ->
  ch = fresh \/ ch = bump_priority fresh.
Proof.
  intros n2 pos last Hinc Hch.
  apply incrementChildPriority_spec in Hinc as (c0 & Hc0 & Hle & Hnth & _).
  assert (Hlen : length (children n2) = S (length (children n)))
    by (unfold n2; cbn; rewrite length_app; cbn; lia).
  assert (Hlast : last = length (children n)) by (unfold last; lia).
  assert (Hpos : pos < length (children n2)) by (apply nth_error_Some; congruence).
  assert (Hfr : nth_error (children n2) last = Some fresh).
  { rewrite Hlast. unfold n2. cbn [children set_children set_indices].
    rewrite nth_error_app2, Nat.sub_diag by lia. reflexivity. }
  rewrite Hnth, nth_error_set_nth in Hch.
  destruct (Nat.eqb_spec pos last) as [E|E].
  - unfold moved in Hch. rewrite Nat.ltb_irrefl, Nat.eqb_refl, Nat.eqb_refl in Hch.
    destruct (pos <? length (children n2)); [|discriminate].
    right. rewrite E in Hc0. congruence.
  - assert (Hm : moved pos k1 last = last).
    { unfold moved. destruct (Nat.ltb_spec last k1); auto.
      destruct (Nat.eqb_spec last k1); [lia|].
      destruct (Nat.leb_spec last pos); [lia|auto]. }
    rewrite Hm in Hch. destruct (Nat.eqb_spec last pos); [lia|].
    left. congruence.
Qed.

Lemma register_walk_flag abspath h : forall fuel n u m r,
  all_nodes flag_inv n ->
  register_walk fuel abspath h n u m = Ok r ->
  all_nodes flag_inv r /\ typo r = typo n.
Proof.
  induction fuel as [|fuel IH]; intros n u m r Hn H; [discriminate|].
  cbn [register_walk] in H.
  apply (all_flag_raise m) in Hn. rewrite <- (typo_raise n m).
  set (n0 := raise_nparams n m) in *. clearbody n0. clear n.
  set (i := lcp u (path n0)) in *.
  assert (Hn1 : all_nodes flag_inv (if i <? length (path n0) then split_edge n0 u i else n0)
                /\ typo (if i <? length (path n0) then split_edge n0 u i else n0) = typo n0).
  { destruct (Nat.ltb_spec i (length (path n0))); [|auto].
    split; [now apply split_edge_flag|reflexivity]. }
  destruct Hn1 as [Hn1 Hty]. rewrite <- Hty.
  set (n1 := if i <? length (path n0) then split_edge n0 u i else n0) in *.
  clearbody n1 i. clear Hn Hty n0.
  pose proof (all_nodes_inv Hn1) as [Hf Hcs].
  destruct (i <? length u).
  2:{ destruct (handle n1); [discriminate|]. inversion H; subst; clear H.
      split; [|reflexivity]. revert Hn1. apply all_flag_ext; reflexivity. }
  destruct (wildcard n1) eqn:Hw.
  - (* the wildcard child *)
    destruct (children n1) as [|c rest] eqn:Hch; [discriminate|].
    match type of H with (if ?b then _ else _) = _ => destruct b; [|discriminate] end.
    match type of H with bind ?m _ = _ => destruct m as [r0| | |] eqn:Hr0 end;
      try discriminate.
    cbn [bind] in H. inversion H; subst; clear H.
    apply IH in Hr0 as [Hr0 Hty0].
    2:{ apply all_flag_raise, all_flag_bump. now inversion Hcs. }
    rewrite typo_raise in Hty0. cbn in Hty0.
    split; [|reflexivity]. constructor; cbn.
    + destruct Hf as [H1 _]. destruct (H1 Hw) as (c0 & Hc0 & Hk).
      rewrite Hch in Hc0. inversion Hc0; subst.
      split; cbn; rewrite Hw; [|discriminate].
      intros _. exists r0. split; [reflexivity|]. now rewrite Hty0.
    + inversion Hcs; subst. constructor; auto.
  - destruct (suffix u i) as [|c rest] eqn:Hu; [discriminate|].
    match type of H with (if ?b then _ else _) = _ => destruct b end.
    + (* the slash after a parameter *)
      destruct (children n1) as [|ch rest'] eqn:Hch; [discriminate|].
      match type of H with bind ?m _ = _ => destruct m as [r0| | |] eqn:Hr0 end;
        try discriminate.
      cbn [bind] in H. inversion H; subst; clear H.
      apply IH in Hr0 as [Hr0 Hty0].
      2:{ apply all_flag_bump. now inversion Hcs. }
      cbn in Hty0. split; [|reflexivity]. constructor; cbn.
      * destruct Hf as [_ H2]. split; cbn; rewrite Hw; [discriminate|].
        intros _ x [<-|Hin]; [rewrite Hty0|]; apply H2; auto; rewrite Hch; cbn; auto.
      * inversion Hcs; subst. constructor; auto.
    + destruct (find_index (indices n1) c) as [k|].
      * (* an indexed child *)
        destruct (incrementChildPriority n1 k) as [[n2 k1]| | |] eqn:Hinc; try discriminate.
        cbn [bind] in H.
        destruct (nth_error (children n2) k1) as [ch|] eqn:Hk1; [|discriminate].
        match type of H with bind ?m _ = _ => destruct m as [r0| | |] eqn:Hr0 end;
          try discriminate.
        cbn [bind] in H. inversion H; subst; clear H.
        assert (Hcs2 : Forall (all_nodes flag_inv) (children n2))
          by (eapply incrementChildPriority_Forall; eauto using all_flag_bump).
        assert (Hch : all_nodes flag_inv ch)
          by (rewrite Forall_nth_error in Hcs2; eauto).
        apply IH in Hr0 as [Hr0 Hty0]; [|exact Hch].
        apply incrementChildPriority_spec in Hinc
          as (c0 & Hc0 & _ & Hnth & _ & _ & _ & _ & Ht2 & Hp2 & Hw2 & _).
        split; [|exact Ht2]. constructor; cbn.
        -- destruct Hf as [_ H2]. split; cbn; rewrite Hw2, Hw; [discriminate|].
           intros _ x Hin. rewrite Ht2.
           apply In_nth_error in Hin as [j Hj].
           rewrite nth_error_set_nth in Hj.
           assert (Hold : forall y j', nth_error (children n2) j' = Some y ->
                     typo y <> Param_ /\ (typo n1 = Wildcard -> typo y <> Wildcard)).
           { intros y j' Hy. rewrite Hnth, nth_error_set_nth in Hy.
             destruct (Nat.eqb (moved k k1 j') k).
             - destruct (k <? length (children n1)); [|discriminate].
               inversion Hy; subst. cbn. apply H2; auto. eapply nth_error_In; eauto.
             - apply H2; auto. eapply nth_error_In; eauto. }
           destruct (Nat.eqb j k1).
           ++ destruct (k1 <? length (children n2)); [|discriminate].
              inversion Hj; subst. rewrite Hty0. eauto.
           ++ eauto.
        -- apply Forall_set_nth; auto.
      * destruct (is_wild c) eqn:Hwild; cbn [negb] in H.
        -- (* a wildcard under this node *)
           eapply insertChild_from_flag in H; eauto.
           right. split; [exact Hw|]. split; [reflexivity|]. eauto.
        -- (* a new child *)
           match type of H with bind ?m _ = _ => destruct m as [[n3 k1]| | |] eqn:Hinc end;
             try discriminate.
           cbn [bind] in H.
           match type of H with match nth_error ?l ?k with _ => _ end = _ =>
             destruct (nth_error l k) as [ch|] eqn:Hat; [|discriminate] end.
           match type of H with bind ?m _ = _ => destruct m as [r0| | |] eqn:Hr0 end;
             try discriminate.
           cbn [bind] in H. inversion H; subst; clear H.
           set (n2 := set_children (set_indices n1 (indices n1 ++ [c]))
                        (children (set_indices n1 (indices n1 ++ [c]))
                           ++ [set_nparams empty_node m])) in *.
           assert (Hcs2 : Forall (fun x => all_nodes flag_inv x /\ typo x <> Param_
                                           /\ typo x <> Wildcard
                                           \/ all_nodes flag_inv x /\ In x (children n1)
                                              \/ exists y, x = bump_priority y
                                                           /\ all_nodes flag_inv x
                                                           /\ In y (children n1))
                           (children n2)).
           { unfold n2. cbn. apply Forall_app. split.
             - rewrite Forall_forall in Hcs |- *. intros x Hx. right. left. auto.
             - constructor; [|constructor]. left. split; [|split; discriminate].
               constructor; cbn; [|constructor].
               split; cbn; [discriminate|intros _ ? []]. }
           assert (Hcs3 : Forall (fun x => all_nodes flag_inv x
                                   /\ typo x <> Param_
                                   /\ (typo n1 = Wildcard -> typo x <> Wildcard))
                           (children n3)).
           { apply Forall_nth_error. intros j x Hx.
             destruct (incrementChildPriority_children _ _ _ Hinc Hx) as (j' & y & Hy & Hxy).
             rewrite Forall_nth_error in Hcs2. specialize (Hcs2 _ _ Hy).
             destruct Hf as [_ H2]. specialize (H2 Hw).
             assert (Hyy : all_nodes flag_inv y /\ typo y <> Param_
                           /\ (typo n1 = Wildcard -> typo y <> Wildcard)).
             { destruct Hcs2 as [(Ha & Hb & Hc)|[(Ha & Hb)|(z & -> & Ha & Hb)]].
               - auto.
               - destruct (H2 _ Hb). auto.
               - destruct (H2 _ Hb). cbn. auto. }
             destruct Hxy as [->| ->]; [exact Hyy|].
             destruct Hyy as (Ha & Hb & Hc). cbn. split; [now apply all_flag_bump|auto]. }
           assert (Hfresh : ch = set_nparams empty_node m
                            \/ ch = bump_priority (set_nparams empty_node m)).
           { eapply new_child_is_fresh; eauto. }
           apply incrementChildPriority_spec in Hinc
             as (c0 & Hc0 & _ & Hnth & _ & _ & _ & _ & Ht3 & Hp3 & Hw3 & _).
           assert (Hch : all_nodes flag_inv ch /\ typo ch <> Param_
                         /\ (typo n1 = Wildcard -> typo ch <> Wildcard))
             by (rewrite Forall_nth_error in Hcs3; eauto).
           destruct Hch as (Hch1 & Hch2 & Hch3).
           unfold insertChild in Hr0.
           eapply insertChild_from_flag in Hr0 as [Hr0 Hty0]; eauto.
           2:{ destruct Hfresh as [-> | ->]; cbn; split; cbn;
                 first [discriminate | intros _ ? [] ]. }
           2:{ destruct Hfresh as [-> | ->]; cbn; constructor. }
           2:{ left. destruct Hfresh as [-> | ->]; cbn; discriminate. }
           split; [|exact Ht3]. constructor; cbn.
           ++ split; cbn; rewrite Hw3; cbn; rewrite Hw; [discriminate|].
              intros _ x Hin. rewrite Ht3. cbn.
              apply In_nth_error in Hin as [j Hj]. rewrite nth_error_set_nth in Hj.
              rewrite Forall_nth_error in Hcs3.
              destruct (Nat.eqb j _).
              ** destruct (_ <? _); [|discriminate]. inversion Hj; subst.
                 rewrite Hty0. destruct Hfresh as [-> | ->]; cbn; split; discriminate.
              ** destruct (Hcs3 _ _ Hj) as (_ & ? & ?). auto.
           ++ apply Forall_set_nth; auto.
              eapply Forall_impl; [|exact Hcs3]. cbn. tauto.
Qed.

Lemma depth_child n c : In c (children n) -> depth c < depth n.
Proof.
  destruct n as [t p np ind hd pr cs w]. cbn [children depth].
  induction cs as [|x cs IH]; intros [].
  - subst. cbn. lia.
  - cbn. specialize (IH H). lia.
Qed.

Lemma all_nodes_impl (P Q : node Handler -> Prop) :
  (forall n, P n -> Q n) -> forall n, all_nodes P n -> all_nodes Q n.
Proof.
  intros HPQ n. remember (depth n) as d eqn:Hd.
  assert (Hle : depth n <= d) by lia. clear Hd. revert n Hle.
  induction d as [|d IH]; intros n Hle Hn.
  - destruct n; cbn in Hle; lia.
  - apply all_nodes_inv in Hn as [Hp Hcs]. constructor; [auto|].
    rewrite Forall_forall in Hcs |- *. intros c Hc.
    apply IH; auto. apply depth_child in Hc. lia.
Qed.

Lemma flag_inv_ok n : flag_inv n -> flag_ok n.
Proof.
  intros [H1 H2]. split.
  - intro Hw. destruct (H1 Hw) as (c & -> & [Hp|(Hc & Hn & _)]); eauto 6.
  - intros (c & rest & Hc & Hk). destruct (wildcard n) eqn:Hw; auto.
    destruct (H2 eq_refl c) as [Ha Hb]; [rewrite Hc; cbn; auto|].
    destruct Hk as [Hk|[Hk1 Hk2]]; [contradiction|]. now apply Hb in Hk1.
Qed.

Lemma register_flag n p h r :
  all_nodes flag_inv n -> register n p h = Ok r -> all_nodes flag_inv r.
Proof.
  unfold register. intros Hn H.
  destruct (_ || _) eqn:E.
  - apply register_walk_flag in H; [tauto|]. now apply all_flag_bump.
  - apply orb_false_iff in E as [_ E]. cbn in E. apply length_zero_nil in E.
    apply all_nodes_inv in Hn as [Hf Hcs].
    pose proof (flag_inv_no_children Hf E) as Hw.
    unfold insertChild in H. apply insertChild_from_flag in H; [tauto| | |left; discriminate].
    + cbn. split; cbn; rewrite Hw, E; [discriminate|intros _ ? []].
    + cbn. rewrite E. constructor.
Qed.

Lemma insert_all_flag (rs : list (str * option Handler)) : forall t t' : node Handler,
  all_nodes flag_inv t -> insert_all t rs = Ok t' -> all_nodes flag_inv t'.
Proof.
  induction rs as [|[p h] rs IH]; intros t t' Ht H; cbn in H.
  - now inversion H; subst.
  - destruct (register t p h) as [t1| | |] eqn:E; try discriminate.
    cbn in H. apply (IH t1 t'); [|exact H]. eapply register_flag; eauto.
Qed.

(** C7, as amended.  In every tree built by successful insertions the flag
    of a node is true iff the node has a child and its first child is a
    parameter, or is the leaf of a catch-all under its intermediate node. *)
Theorem C7_flag_iff_first_child (rs : list (str * option Handler)) t :
  build rs = Ok t -> all_nodes flag_ok t.
Proof.
  intro H. apply (@all_nodes_impl flag_inv flag_ok flag_inv_ok).
  eapply insert_all_flag; [|exact H].
  constructor; cbn; [|constructor]. split; cbn; [discriminate|intros _ ? []].
Qed.

End Flag.

Lemma C7_flag_iff_first_child_witness :
  build [route "/files/*fp" 1] = Ok tree_files /\ all_nodes flag_ok tree_files.
Proof.
  split; [vm_compute; reflexivity|].
  apply (@C7_flag_iff_first_child nat [route "/files/*fp" 1]). vm_compute; reflexivity.
Defined.

(** ** A single catch-all route *)

Section CatchAll.

Context {Handler : Type}.
Implicit Types (n : node Handler) (s u : str).

Lemma insertChild_from_done uripath abspath (h : option Handler) rest i offset n m :
  (0 <? m)%Z = false ->
  insertChild_from uripath abspath h rest i offset n m
  = Ok (set_handle (set_path n (suffix uripath offset)) h).
Proof. intro E. destruct rest; cbn [insertChild_from]; now rewrite E. Qed.

Lemma insertChild_from_skip uripath abspath (h : option Handler) s :
  forall rest i offset n m,
  plain s = true ->
  insertChild_from uripath abspath h (s ++ rest) i offset n m
  = insertChild_from uripath abspath h rest (i + length s) offset n m.
Proof.
  induction s as [|c s IH]; intros rest i offset n m Hs; cbn [app length].
  - now rewrite Nat.add_0_r.
  - cbn in Hs. apply andb_true_iff in Hs as [Hc Hs].
    destruct (0 <? m)%Z eqn:E.
    + cbn [insertChild_from]. rewrite E, Hc, IH by exact Hs.
      f_equal. lia.
    + now rewrite !insertChild_from_done.
Qed.

Lemma find_end_name s : forall e, name_like s = true -> find_end s e = Some (e + length s).
Proof.
  induction s as [|c s IH]; intros e Hs; cbn.
  - f_equal; lia.
  - cbn in Hs. apply andb_true_iff in Hs as [Hc Hs].
    apply andb_true_iff in Hc as [Hc1 Hc2].
    apply negb_true_iff in Hc1, Hc2. rewrite Hc1, Hc2, IH by exact Hs.
    f_equal; lia.
Qed.

Lemma filter_plain s : plain s = true -> filter is_wild s = [].
Proof.
  induction s as [|c s IH]; cbn; auto. intro H.
  apply andb_true_iff in H as [Hc Hs]. apply negb_true_iff in Hc.
  rewrite Hc. auto.
Qed.

Lemma name_like_plain s : name_like s = true -> plain s = true.
Proof.
  induction s as [|c s IH]; cbn; auto. intro H.
  apply andb_true_iff in H as [Hc Hs]. apply andb_true_iff in Hc as [Hc _].
  rewrite Hc. auto.
Qed.

Lemma firstn_length_app {A : Type} (a b : list A) : firstn (length a) (a ++ b) = a.
Proof. rewrite firstn_app, Nat.sub_diag, firstn_all. cbn. now rewrite app_nil_r. Qed.

Lemma skipn_length_app {A : Type} (a b : list A) : skipn (length a) (a ++ b) = b.
Proof. rewrite skipn_app, Nat.sub_diag, skipn_all. reflexivity. Qed.

(** The tree of the one route [s/*name]. *)
Lemma register_catchall s name (h : option Handler) :
  plain s = true -> name_like name = true -> name <> [] ->
  register empty_node (s ++ slash :: star :: name) h
  = Ok (Node Root s 0 [slash] None 1
          [Node Wildcard [] 1 [] None 1
             [Node Wildcard (slash :: star :: name) 1 [] h 1 [] false] true]
          false).
Proof.
  intros Hs Hname Hne. unfold register. cbn [bump_priority set_priority path children
    empty_node length Nat.ltb Nat.leb orb priority typo nparams indices handle wildcard].
  assert (Hcount : countParams (s ++ slash :: star :: name) = 1%Z).
  { unfold countParams. rewrite filter_app, filter_plain by exact Hs. cbn.
    rewrite filter_plain by now apply name_like_plain. reflexivity. }
  rewrite Hcount. unfold insertChild.
  rewrite insertChild_from_skip by exact Hs. cbn [insertChild_from Z.ltb Z.compare].
  replace (is_wild slash) with false by reflexivity.
  replace (is_wild star) with true by reflexivity. cbn [negb].
  rewrite find_end_name by exact Hname.
  cbn [children set_typo length Nat.ltb Nat.leb].
  destruct name as [|c name']; [contradiction|].
  replace (S (S (0 + length s)) + length (c :: name') - S (0 + length s) <? 2) with false.
  2:{ symmetry. apply Nat.ltb_ge. cbn [length]. lia. }
  replace (Ascii.eqb star colon) with false by reflexivity.
  replace (S (S (0 + length s)) + length (c :: name')) with
    (length (s ++ slash :: star :: c :: name')).
  2:{ rewrite length_app. cbn [length]. lia. }
  rewrite Nat.eqb_refl. cbn [negb orb Z.ltb Z.compare path last_is_slash rev].
  cbn [Nat.add]. rewrite nth_error_app2, Nat.sub_diag by lia. cbn [nth_error].
  replace (Ascii.eqb slash slash) with true by reflexivity. cbn [negb].
  unfold suffix, slice. rewrite skipn_length_app. cbn [skipn].
  rewrite Nat.sub_0_r, firstn_length_app.
  cbn [children bump_priority set_priority set_typo empty_node length set_indices
       set_children set_path typo path nparams indices handle priority wildcard].
  match goal with |- context [if ?b then Panic (msg_unnamed _) else _] =>
    replace b with false by (symmetry; apply Nat.leb_gt; rewrite length_app;
                             cbn [length]; lia)
  end.
  reflexivity.
Qed.


End CatchAll.


(** ** Prefixes and wildcard counts *)

Lemma lcp_le_l (a b : str) : lcp a b <= length a.
Proof.
  revert b; induction a as [|x a IH]; intros [|y b]; cbn; try lia.
  destruct (Ascii.eqb x y); [specialize (IH b)|]; lia.
Qed.

Lemma lcp_le_r (a b : str) : lcp a b <= length b.
Proof.
  revert b; induction a as [|x a IH]; intros [|y b]; cbn; try lia.
  destruct (Ascii.eqb x y); [specialize (IH b)|]; lia.
Qed.

Lemma lcp_firstn (a b : str) : firstn (lcp a b) a = firstn (lcp a b) b.
Proof.
  revert b; induction a as [|x a IH]; intros [|y b]; cbn; auto.
  destruct (Ascii.eqb_spec x y); cbn; [|reflexivity]. subst. now rewrite IH.
Qed.

Lemma lcp_prefix (a b : str) : firstn (length b) a = b -> lcp a b = length b.
Proof.
  revert a; induction b as [|y b IH]; intros [|x a]; cbn; auto; try discriminate.
  intros [= -> H]. rewrite Ascii.eqb_refl. f_equal. auto.
Qed.

Lemma wcount_nonneg (s : str) : (0 <= wcount s)%Z.
Proof. unfold wcount. lia. Qed.

Lemma wcount_app (a b : str) : wcount (a ++ b) = (wcount a + wcount b)%Z.
Proof. unfold wcount. rewrite filter_app, length_app. lia. Qed.

Lemma wcount_split (s : str) (k : nat) :
  wcount s = (wcount (firstn k s) + wcount (skipn k s))%Z.
Proof. rewrite <- wcount_app, firstn_skipn. reflexivity. Qed.

Lemma wcount_skipn_le (s : str) (k : nat) : (wcount (skipn k s) <= wcount s)%Z.
Proof. rewrite (wcount_split s k). pose proof (wcount_nonneg (firstn k s)). lia. Qed.

Lemma wcount_cons_wild (c : ascii) (s : str) :
  is_wild c = true -> (1 <= wcount (c :: s))%Z.
Proof. unfold wcount. cbn. intros ->. cbn [length]. lia. Qed.

Lemma hd_error_firstn {A : Type} (l : list A) (k : nat) :
  firstn k l <> [] -> hd_error (firstn k l) = hd_error l.
Proof. destruct k, l; cbn; congruence. Qed.

(** ** The order of the children and the index bytes under insertion *)



Lemma decr8_small (x : Z) : (1 <= x <= 255)%Z -> decr8 x = (x - 1)%Z.
Proof. intro H. unfold decr8. apply Z.mod_small. lia. Qed.

Lemma decr8_range (x : Z) : (0 <= decr8 x <= 255)%Z.
Proof. unfold decr8. pose proof (Z.mod_pos_bound (x - 1) 256). lia. Qed.

Lemma moved_at pos np i : np <= pos -> (moved pos np i = pos <-> i = np).
Proof.
  intro H. unfold moved.
  destruct (Nat.ltb_spec i np); destruct (Nat.eqb_spec i np);
    destruct (Nat.leb_spec i pos); lia.
Qed.




Section Sorted.

Context {Handler : Type}.
Implicit Types (n c r : node Handler) (cs : list (node Handler)).



(** [incrementChildPriority] keeps the index bytes with their children. *)
Lemma incrementChildPriority_index n pos n1 np :
  index_ok n -> incrementChildPriority n pos = Ok (n1, np) -> index_ok n1.
Proof.
  intros Hi H.
  apply incrementChildPriority_spec in H as (c0 & Hc0 & Hle & Hnth & Hind & _).
  intros i x c Hx Hc Hty Hpath.
  rewrite Hind in Hx. rewrite Hnth, nth_error_set_nth in Hc.
  destruct (Nat.eqb_spec (moved pos np i) pos) as [E|E].
  - destruct (pos <? length (children n)); [|discriminate].
    inversion Hc; subst c. rewrite E in Hx.
    exact (Hi _ _ _ Hx Hc0 Hty Hpath).
  - exact (Hi _ _ _ Hx Hc Hty Hpath).
Qed.

Lemma incrementChildPriority_length n pos n1 np :
  incrementChildPriority n pos = Ok (n1, np) ->
  length (children n1) = length (children n) /\ length (indices n1) = length (indices n).
Proof.
  intro H.
  apply incrementChildPriority_spec in H as (c0 & Hc0 & Hle & Hnth & _ & Hlen & _).
  split; [|exact Hlen].
  assert (Hpos : pos < length (children n)) by (apply nth_error_Some; congruence).
  assert (Hsome : forall i, i < length (children n) -> nth_error (children n1) i <> None).
  { intros i Hi. rewrite Hnth, nth_error_set_nth.
    destruct (Nat.eqb_spec (moved pos np i) pos).
    - destruct (Nat.ltb_spec pos (length (children n))); [discriminate|lia].
    - apply nth_error_Some. unfold moved.
      destruct (Nat.ltb_spec i np); destruct (Nat.eqb_spec i np);
        destruct (Nat.leb_spec i pos); lia. }
  assert (Hnone : nth_error (children n1) (length (children n)) = None).
  { rewrite Hnth, nth_error_set_nth.
    assert (moved pos np (length (children n)) = length (children n)).
    { unfold moved. destruct (Nat.ltb_spec (length (children n)) np);
        destruct (Nat.eqb_spec (length (children n)) np);
        destruct (Nat.leb_spec (length (children n)) pos); lia. }
    rewrite H. destruct (Nat.eqb_spec (length (children n)) pos); [lia|].
    apply nth_error_None. lia. }
  apply nth_error_None in Hnone.
  destruct (Nat.eq_dec (length (children n)) 0) as [E|E]; [lia|].
  specialize (Hsome (length (children n) - 1) ltac:(lia)).
  apply nth_error_Some in Hsome. lia.
Qed.







Lemma raise_fields c m :
  typo (raise_nparams c m) = typo c /\ path (raise_nparams c m) = path c
  /\ wildcard (raise_nparams c m) = wildcard c /\ children (raise_nparams c m) = children c
  /\ indices (raise_nparams c m) = indices c /\ handle (raise_nparams c m) = handle c
  /\ priority (raise_nparams c m) = priority c.
Proof. unfold raise_nparams. destruct (nparams c <? m)%Z; cbn; auto 10. Qed.

Lemma sorted_one n c : children n = [c] -> sorted_children n.
Proof.
  intros Hc i j a b Hij Ha Hb. rewrite Hc in Hb.
  destruct j as [|[|j]]; cbn in Hb; try discriminate. lia.
Qed.

(** A node without children and without index bytes. *)
Lemma sort_inv_leaf B n : children n = [] -> indices n = [] -> sort_inv B n.
Proof.
  intros Hc Hi. constructor; unfold sorted_children, index_ok; rewrite ?Hc, ?Hi.
  - intros i j a b _ Ha. destruct i; discriminate.
  - intros i x c Hx. destruct i; discriminate.
  - intros c [].
  - auto.
  - intros _ c [].
Qed.

Lemma all_sort_leaf B n : children n = [] -> indices n = [] -> all_nodes (sort_inv B) n.
Proof. intros Hc Hi. constructor; [now apply sort_inv_leaf|]. rewrite Hc. constructor. Qed.

Lemma skipn_cons_inv {A : Type} (l : list A) i (x : A) (t : list A) :
  skipn i l = x :: t -> skipn (S i) l = t /\ nth_error l i = Some x /\ i < length l.
Proof.
  revert l; induction i as [|i IH]; intros [|y l] H; cbn in H; try discriminate.
  - inversion H; subst. cbn. repeat split; lia.
  - destruct (IH _ H) as (H1 & H2 & H3). cbn [nth_error length]. repeat split; auto. lia.
Qed.

Lemma skipn_nth_cons {A : Type} (l : list A) i (x : A) :
  nth_error l i = Some x -> skipn i l = x :: skipn (S i) l.
Proof.
  revert l; induction i as [|i IH]; intros [|y l] H; cbn in H; try discriminate.
  - now inversion H.
  - now apply IH.
Qed.

(** Where [find_end] stops: the bytes it passes start no wildcard. *)
Lemma find_end_spec rest : forall e0 e,
  find_end rest e0 = Some e ->
  e0 <= e <= e0 + length rest /\ plain (firstn (e - e0) rest) = true.
Proof.
  induction rest as [|c rest IH]; intros e0 e H; cbn in H.
  - inversion H; subst. rewrite Nat.sub_diag. cbn. split; [lia|reflexivity].
  - destruct (Ascii.eqb c slash).
    + inversion H; subst. rewrite Nat.sub_diag. cbn [length firstn plain forallb].
      split; [lia|reflexivity].
    + destruct (is_wild c) eqn:Hw; [discriminate|].
      apply IH in H as [H1 H2]. cbn [length]. split; [lia|].
      replace (e - e0) with (S (e - S e0)) by lia. cbn. rewrite Hw. exact H2.
Qed.

(** Over bytes that start no wildcard the loop of [insertChild] only ends
    when [numParams] is used up. *)
Lemma insertChild_from_plain uripath abspath (h : option Handler) rest :
  forall i offset n m r,
  plain rest = true ->
  insertChild_from uripath abspath h rest i offset n m = Ok r ->
  r = set_handle (set_path n (suffix uripath offset)) h.
Proof.
  induction rest as [|c rest IH]; intros i offset n m r Hp H; cbn [insertChild_from] in H.
  - destruct (0 <? m)%Z; [discriminate|]. now inversion H.
  - cbn in Hp. apply andb_true_iff in Hp as [Hc Hp].
    destruct (0 <? m)%Z; [|now inversion H].
    rewrite Hc in H. eauto.
Qed.

Lemma plain_firstn_zero rest offset i : offset <= i -> plain (firstn (offset - i) rest) = true.
Proof. intro H. replace (offset - i) with 0 by lia. reflexivity. Qed.

Lemma insertChild_from_sorted uripath abspath (h : option Handler) B :
  (1 <= B)%Z ->
  forall rest i offset n numParams r,
  rest = skipn i uripath -> plain (firstn (offset - i) rest) = true ->
  children n = [] -> indices n = [] -> wildcard n = false ->
  insertChild_from uripath abspath h rest i offset n numParams = Ok r ->
  all_nodes (sort_inv B) r /\ priority r = priority n /\ typo r = typo n
  /\ (path r = path n \/ exists k, path r = firstn k (skipn offset uripath))
  /\ (i = 0 -> (0 < numParams)%Z ->
      (exists (b : ascii) t, rest = b :: t /\ is_wild b = true) -> path r = path n).
Proof.
  intro HB. induction rest as [|c rest IH];
    intros i offset n numParams r Hrest Hplain Hch Hind Hw H; cbn [insertChild_from] in H.
  all: assert (Hdone : (0 <? numParams)%Z = false ->
         forall r', r' = set_handle (set_path n (suffix uripath offset)) h ->
           all_nodes (sort_inv B) r' /\ priority r' = priority n /\ typo r' = typo n
           /\ (path r' = path n \/ exists k, path r' = firstn k (skipn offset uripath))
           /\ (i = 0 -> (0 < numParams)%Z -> path r' = path n)).
  1,3: (intros E r' ->; split; [apply all_sort_leaf; assumption|];
        split; [reflexivity|]; split; [reflexivity|]; split;
        [ right; exists (length uripath); cbn; unfold suffix;
          rewrite firstn_all2; [reflexivity|rewrite length_skipn; lia]
        | intros _ Hpos; apply Z.ltb_ge in E; lia ]).
  - destruct (0 <? numParams)%Z eqn:E; [discriminate|]. inversion H; subst r.
    destruct (Hdone eq_refl _ eq_refl) as (H1 & H2 & H3 & H4 & H5).
    split; [exact H1|]. split; [exact H2|]. split; [exact H3|]. split; [exact H4|].
    intros Hi Hpos _. exact (H5 Hi Hpos).
  - destruct (0 <? numParams)%Z eqn:E.
    2:{ inversion H; subst r.
        destruct (Hdone eq_refl _ eq_refl) as (H1 & H2 & H3 & H4 & H5).
        split; [exact H1|]. split; [exact H2|]. split; [exact H3|]. split; [exact H4|].
        intros Hi Hpos _. exact (H5 Hi Hpos). }
    clear Hdone. symmetry in Hrest.
    destruct (skipn_cons_inv _ _ Hrest) as (Hrest' & Hnth & Hlt).
    destruct (is_wild c) eqn:Hwild; cbn [negb] in H.
    2:{ assert (Hplain' : plain (firstn (offset - S i) rest) = true).
        { destruct (offset - i) as [|d] eqn:Ed.
          + replace (offset - S i) with 0 by lia. reflexivity.
          + replace (offset - S i) with d by lia. cbn in Hplain.
            apply andb_true_iff in Hplain. tauto. }
        destruct (IH _ _ _ _ _ (eq_sym Hrest') Hplain' Hch Hind Hw H)
          as (H1 & H2 & H3 & H4 & _).
        split; [exact H1|]. split; [exact H2|]. split; [exact H3|]. split; [exact H4|].
        intros _ _ (b & t & [= <- <-] & Hb). congruence. }
    assert (Hoff : offset <= i).
    { destruct (offset - i) as [|d] eqn:Ed; [lia|].
      cbn in Hplain. rewrite Hwild in Hplain. discriminate. }
    destruct (find_end rest (S i)) as [e|] eqn:He; [|discriminate].
    apply find_end_spec in He as [He1 He2].
    destruct (0 <? length (children n)); [discriminate|].
    destruct (Nat.ltb_spec (e - i) 2) as [|He3]; [discriminate|].
    assert (Hslice_wild : forall k, i < k -> (1 <= wcount (slice uripath i k))%Z).
    { intros k Hk. unfold slice. rewrite Hrest.
      replace (k - i) with (S (k - S i)) by lia. cbn [firstn].
      now apply wcount_cons_wild. }
    destruct (Ascii.eqb c colon).
    + (* a parameter *)
      assert (Hoff1 : (if 0 <? i then i else offset) = i).
      { destruct (Nat.ltb_spec 0 i); lia. }
      rewrite Hoff1 in H.
      set (n1 := if 0 <? i then set_path n (slice uripath offset i) else n) in *.
      assert (Hn1 : children n1 = [] /\ indices n1 = [] /\ priority n1 = priority n
                    /\ typo n1 = typo n
                    /\ (path n1 = path n \/ exists k, path n1 = firstn k (skipn offset uripath))
                    /\ (i = 0 -> path n1 = path n)).
      { unfold n1. destruct (Nat.ltb_spec 0 i); cbn; repeat split; auto.
        - right. exists (i - offset). reflexivity.
        - lia. }
      destruct Hn1 as (Hn1c & Hn1i & Hn1p & Hn1t & Hn1path & Hn1path0).
      clearbody n1.
      destruct (Nat.ltb_spec e (length uripath)) as [Helt|Hege].
      * match type of H with bind ?m _ = _ => destruct m as [r0| | |] eqn:Hr0 end;
          try discriminate.
        cbn [bind] in H. inversion H; subst r; clear H.
        apply IH in Hr0 as (Hr0 & Hp0 & Ht0 & _); auto.
        split; [|cbn; repeat split; auto].
        constructor; cbn.
        -- constructor; cbn; rewrite ?Hn1i.
           ++ eapply sorted_one; reflexivity.
           ++ intros j x y Hx. cbn in Hx. rewrite ?Hn1i in Hx. destruct j; discriminate.
           ++ intros y [<-|[]]. cbn. unfold incr32. cbn. lia.
           ++ discriminate.
           ++ intros _ y [<-|[]]. cbn. apply Hslice_wild. lia.
        -- constructor; [|constructor]. constructor; cbn.
           ++ constructor; cbn.
              ** eapply sorted_one; reflexivity.
              ** intros j x y Hx. cbn in Hx. destruct j; discriminate.
              ** intros y [<-|[]]. rewrite Hp0. cbn. lia.
              ** intros _. right. auto.
              ** discriminate.
           ++ constructor; [exact Hr0|constructor].
      * match type of H with bind ?m _ = _ => destruct m as [r0| | |] eqn:Hr0 end;
          try discriminate.
        cbn [bind] in H. inversion H; subst r; clear H.
        apply insertChild_from_plain in Hr0.
        2:{ rewrite firstn_all2 in He2; [exact He2|].
            assert (length rest = length uripath - S i)
              by (rewrite <- Hrest', length_skipn; reflexivity).
            lia. }
        subst r0. split; [|cbn; repeat split; auto].
        constructor; cbn.
        -- constructor; cbn; rewrite ?Hn1i.
           ++ eapply sorted_one; reflexivity.
           ++ intros j x y Hx. cbn in Hx. rewrite ?Hn1i in Hx. destruct j; discriminate.
           ++ intros y [<-|[]]. cbn. unfold incr32. cbn. lia.
           ++ discriminate.
           ++ intros _ y [<-|[]]. cbn. unfold suffix. rewrite Hrest.
              now apply wcount_cons_wild.
        -- constructor; [|constructor]. apply all_sort_leaf; reflexivity.
    + (* a catch-all *)
      destruct (negb (Nat.eqb e (length uripath)) || (1 <? numParams)%Z); [discriminate|].
      destruct (last_is_slash (path n)); [discriminate|].
      destruct i as [|j]; [discriminate|].
      destruct (nth_error uripath j) as [sl|] eqn:Hsl; [|discriminate].
      destruct (negb (Ascii.eqb sl slash)); [discriminate|].
      inversion H; subst r; clear H.
      split; [|cbn; repeat split; auto].
      2:{ right. exists (j - offset). reflexivity. }
      2:{ discriminate. }
      constructor; cbn.
      * constructor; cbn.
        -- eapply sorted_one; reflexivity.
        -- intros k x y Hx Hy. cbn in Hy. destruct k as [|[|k]]; cbn in Hy; try discriminate.
           inversion Hy; subst y. discriminate.
        -- intros y [<-|[]]. cbn. unfold incr32. cbn. lia.
        -- intros _. left. reflexivity.
        -- rewrite Hw. discriminate.
      * constructor; [|constructor]. constructor; cbn.
        -- constructor; cbn.
           ++ eapply sorted_one; reflexivity.
           ++ intros k x y Hx. cbn in Hx. destruct k; discriminate.
           ++ intros y [<-|[]]. cbn. lia.
           ++ discriminate.
           ++ intros _ y [<-|[]]. cbn. unfold suffix.
              rewrite (skipn_nth_cons _ _ Hsl), Hrest.
              pose proof (wcount_cons_wild c rest Hwild) as Hc1.
              change (sl :: c :: rest) with ([sl] ++ c :: rest).
              rewrite wcount_app. pose proof (wcount_nonneg [sl]). lia.
        -- constructor; [|constructor]. apply all_sort_leaf; reflexivity.
Qed.





Lemma insertChild_wild_children uripath abspath (h : option Handler) (b : ascii) t i off n m r :
  is_wild b = true -> (0 < m)%Z ->
  insertChild_from uripath abspath h (b :: t) i off n m = Ok r -> children n = [].
Proof.
  intros Hb Hm H. cbn [insertChild_from] in H.
  replace (0 <? m)%Z with true in H by (symmetry; apply Z.ltb_lt; exact Hm).
  rewrite Hb in H. cbn [negb] in H.
  destruct (find_end t (S i)); [|discriminate].
  destruct (children n); [reflexivity|discriminate].
Qed.



Lemma countParams_small (p : str) : (wcount p <= 255)%Z -> countParams p = wcount p.
Proof. intro H. unfold countParams, wcount in *. lia. Qed.




End Sorted.


(** ** Trees of patterns without wildcards *)

Section Static.

Context {Handler : Type}.
Implicit Types (n c r : node Handler) (cs : list (node Handler)).

Lemma static_inv_ext n n' :
  typo n' = typo n -> wildcard n' = wildcard n -> indices n' = indices n ->
  children n' = children n -> static_inv n -> static_inv n'.
Proof.
  unfold static_inv, index_ok. intros -> -> -> ->. auto.
Qed.

Lemma all_static_ext n n' :
  typo n' = typo n -> wildcard n' = wildcard n -> indices n' = indices n ->
  children n' = children n -> all_nodes static_inv n -> all_nodes static_inv n'.
Proof.
  intros Ht Hw Hi Hc H. apply all_nodes_inv in H as [H1 H2].
  constructor; [eapply static_inv_ext; eauto|]. now rewrite Hc.
Qed.

Lemma all_static_bump c : all_nodes static_inv c -> all_nodes static_inv (bump_priority c).
Proof. apply all_static_ext; reflexivity. Qed.

Lemma all_static_raise c m : all_nodes static_inv c -> all_nodes static_inv (raise_nparams c m).
Proof.
  unfold raise_nparams. destruct (nparams c <? m)%Z; auto.
  apply all_static_ext; reflexivity.
Qed.

Lemma find_index_some (ind : str) (b : ascii) k :
  find_index ind b = Some k -> nth_error ind k = Some b.
Proof.
  revert k; induction ind as [|x ind IH]; intros k H; cbn in H; [discriminate|].
  destruct (Ascii.eqb_spec b x).
  - inversion H; subst. reflexivity.
  - destruct (find_index ind b); [|discriminate]. inversion H; subst. cbn. auto.
Qed.

Lemma plain_skipn (u : str) k : plain u = true -> plain (skipn k u) = true.
Proof.
  unfold plain. rewrite !forallb_forall. intros H x Hx. apply H.
  rewrite <- (firstn_skipn k u). apply in_or_app. auto.
Qed.

Lemma lcp_pos (a b : str) (x : ascii) a' b' :
  a = x :: a' -> b = x :: b' -> 1 <= lcp a b.
Proof. intros -> ->. cbn. rewrite Ascii.eqb_refl. lia. Qed.

Lemma all_static_leaf n :
  children n = [] -> indices n = [] -> wildcard n = false -> typo n = Static ->
  all_nodes static_inv n.
Proof.
  intros Hc Hi Hw Ht. constructor; [|rewrite Hc; constructor].
  unfold static_inv, index_ok. rewrite Hc, Hi, Hw, Ht.
  split; [reflexivity|]. split; [discriminate|]. split; [discriminate|].
  split; [intros ? []|]. split; [|reflexivity].
  intros [|?] ? ? ?; discriminate.
Qed.

Lemma register_walk_static abspath (h : option Handler) : forall fuel n u r,
  all_nodes static_inv n -> plain u = true ->
  register_walk fuel abspath h n u 0 = Ok r ->
  all_nodes static_inv r /\ typo r = typo n
  /\ (exists k, path r = firstn k (path n))
  /\ (path n <> [] -> hd_error u = hd_error (path n) -> path r <> []).
Proof.
  induction fuel as [|fuel IH]; intros n u r Hn Hu H; [discriminate|].
  cbn [register_walk] in H.
  destruct (raise_fields n 0) as (Rt & Rp & Rw & Rc & Ri & Rh & Rpr).
  apply (all_static_raise 0) in Hn.
  rewrite <- Rt, <- Rp.
  set (n0 := raise_nparams n 0) in *. clearbody n0. clear n Rt Rp Rw Rc Ri Rh Rpr.
  set (i := lcp u (path n0)) in *.
  assert (Hi1 : path n0 <> [] -> hd_error u = hd_error (path n0) -> 1 <= i).
  { intros Hne Hhd. unfold i. destruct (path n0) as [|x t]; [contradiction|].
    destruct u as [|y u']; [discriminate|]. cbn in Hhd. inversion Hhd; subst y.
    cbn. rewrite Ascii.eqb_refl. lia. }
  assert (Hfirst : firstn i u = firstn i (path n0)) by apply lcp_firstn.
  assert (Hle : i <= length (path n0)) by apply lcp_le_r.
  set (n1 := if i <? length (path n0) then split_edge n0 u i else n0) in *.
  assert (Hn1 : all_nodes static_inv n1 /\ typo n1 = typo n0
                /\ path n1 = firstn i (path n0)).
  { unfold n1. destruct (Nat.ltb_spec i (length (path n0))) as [Hlt|Hge].
    2:{ split; [exact Hn|]. split; [reflexivity|]. symmetry. apply firstn_all2. lia. }
    apply all_nodes_inv in Hn as [(S1 & S2 & S3 & S4 & S5 & S6) Hcs].
    unfold split_edge.
    match goal with |- context [fold_left ?f ?l ?c0] =>
      destruct (fold_raise_fields l c0) as (Ht & Hpa & Hw & Hc & Hin & _ & _);
      set (child := fold_left f l c0) in *
    end.
    cbn in Ht, Hpa, Hw, Hc, Hin.
    assert (Hskip : exists x t, skipn i (path n0) = x :: t).
    { destruct (skipn i (path n0)) as [|x t] eqn:E; eauto.
      apply (f_equal (@length _)) in E. rewrite length_skipn in E. cbn in E. lia. }
    destruct Hskip as (x & t & Hskip).
    split; [|split; [reflexivity|cbn; congruence]].
    constructor; cbn.
    - unfold static_inv, index_ok; cbn. repeat split; auto.
      + destruct H0 as [<-|[]]. exact Ht.
      + destruct H0 as [<-|[]]. rewrite Hpa. unfold suffix. rewrite Hskip. discriminate.
      + intros j y c Hy Hcj _ _. unfold suffix in Hy. rewrite Hskip in Hy.
        destruct j as [|j]; [|destruct j; discriminate].
        cbn in Hy, Hcj. inversion Hy; inversion Hcj; subst.
        rewrite Hpa. unfold suffix. rewrite Hskip. reflexivity.
      + unfold suffix. rewrite Hskip. reflexivity.
    - constructor; [|constructor]. constructor; [|now rewrite Hc].
      unfold static_inv, index_ok. rewrite Hw, Hc, Hin, Ht.
      split; [exact S1|]. split; [discriminate|]. split; [discriminate|].
      split; [exact S4|]. split; [exact S5|exact S6]. }
  destruct Hn1 as (Hs1 & Ht1 & Hp1). rewrite <- Ht1.
  assert (Hcore : all_nodes static_inv r /\ typo r = typo n1 /\ path r = path n1).
  2:{ destruct Hcore as (C1 & C2 & C3). split; [exact C1|]. split; [exact C2|].
      split; [exists i; congruence|].
      intros Hne Hhd. specialize (Hi1 Hne Hhd). rewrite C3, Hp1.
      destruct (path n0); [contradiction|]. destruct i; [lia|]. discriminate. }
  assert (Hpl : plain (suffix u i) = true) by (apply plain_skipn; exact Hu).
  clear Hi1 Hfirst Hle Hp1 Ht1 Hn. clearbody n1 i. clear n0.
  pose proof (all_nodes_inv Hs1) as [(S1 & S2 & S3 & S4 & S5 & S6) Hcs].
  destruct (i <? length u).
  2:{ destruct (handle n1); [discriminate|]. inversion H; subst r; clear H.
      split; [|split; reflexivity]. revert Hs1. apply all_static_ext; reflexivity. }
  rewrite S1 in H.
  destruct (suffix u i) as [|b t] eqn:Hsuf; [discriminate|].
  replace (nodeType_eqb (typo n1) Param_) with false in H
    by (destruct (typo n1); try reflexivity; contradiction).
  cbn [andb] in H.
  cbn in Hpl. apply andb_true_iff in Hpl as [Hb Ht].
  destruct (find_index (indices n1) b) as [k|] eqn:Hfind.
  - destruct (incrementChildPriority n1 k) as [[n2 k1]| | |] eqn:Hinc; try discriminate.
    cbn [bind] in H.
    destruct (nth_error (children n2) k1) as [ch|] eqn:Hk1; [|discriminate].
    match type of H with bind ?m _ = _ => destruct m as [r0| | |] eqn:Hr0 end;
      try discriminate.
    cbn [bind] in H. inversion H; subst r; clear H.
    assert (Hcs2 : Forall (all_nodes static_inv) (children n2))
      by (eapply incrementChildPriority_Forall; eauto using all_static_bump).
    pose proof (@incrementChildPriority_index _ n1 k n2 k1 S5 Hinc) as Hidx2.
    destruct (@incrementChildPriority_length _ n1 k n2 k1 Hinc) as [Hl1 Hl2].
    assert (Hkids2 : forall c, In c (children n2) -> typo c = Static /\ path c <> []).
    { intros c Hc. apply In_nth_error in Hc as [j Hj].
      destruct (incrementChildPriority_children _ _ _ Hinc Hj) as (j' & y & Hy & [->| ->]);
        apply nth_error_In in Hy; cbn; auto. }
    apply incrementChildPriority_spec in Hinc
      as (c0 & Hc0 & Hle & Hnth & Hind & _ & _ & _ & Ht2 & Hp2 & Hw2 & _).
    assert (Hbk1 : nth_error (indices n2) k1 = Some b).
    { rewrite Hind. assert (Hmv : moved k k1 k1 = k) by (apply moved_at; auto).
      rewrite Hmv. now apply find_index_some. }
    destruct (Hkids2 ch (nth_error_In _ _ Hk1)) as [Hchs Hchp].
    pose proof (Hidx2 _ _ _ Hbk1 Hk1 Hchs Hchp) as Hhd.
    rewrite Forall_nth_error in Hcs2.
    apply IH in Hr0 as (R1 & R2 & (kr & R4) & R3); [|eauto|cbn; now rewrite Hb, Ht].
    assert (Hhd' : hd_error (b :: t) = hd_error (path ch)) by (cbn; now rewrite Hhd).
    specialize (R3 Hchp Hhd').
    split; [|split; cbn; congruence].
    constructor; cbn.
    + unfold static_inv, index_ok; cbn. rewrite Hw2, Ht2, length_set_nth, Hl1, Hl2.
      repeat split; auto.
      * apply In_nth_error in H as [j Hj]. rewrite nth_error_set_nth in Hj.
        destruct (Nat.eqb j k1).
        -- destruct (k1 <? _); [|discriminate]. inversion Hj; subst. congruence.
        -- apply (Hkids2 c). eapply nth_error_In; eauto.
      * apply In_nth_error in H as [j Hj]. rewrite nth_error_set_nth in Hj.
        destruct (Nat.eqb j k1).
        -- destruct (k1 <? _); [|discriminate]. inversion Hj; subst. exact R3.
        -- apply (Hkids2 c). eapply nth_error_In; eauto.
      * intros j y c Hy Hc Hst Hne. rewrite nth_error_set_nth in Hc.
        destruct (Nat.eqb_spec j k1) as [->|Hjk].
        -- destruct (k1 <? _); [|discriminate]. inversion Hc; subst c.
           rewrite R4 in Hne |- *. rewrite hd_error_firstn by exact Hne. congruence.
        -- eauto.
    + apply Forall_set_nth; [|exact R1]. apply Forall_nth_error. eauto.
  - rewrite Hb in H.
    set (fresh := set_nparams empty_node 0) in *.
    set (n2 := set_children (set_indices n1 (indices n1 ++ [b]))
                 (children (set_indices n1 (indices n1 ++ [b])) ++ [fresh])) in *.
    match type of H with bind ?m _ = _ => destruct m as [[n3 k1]| | |] eqn:Hinc end;
      try discriminate.
    cbn [bind] in H.
    assert (Hlen2 : length (indices n2) = length (children n2)).
    { unfold n2. cbn. rewrite !length_app. cbn. lia. }
    assert (Hfresh : forall ch,
              nth_error (children n3)
                (if Nat.eqb (length (indices n2) - 1) (length (children n2) - 1)
                 then k1 else length (children n2) - 1) = Some ch ->
              ch = fresh \/ ch = bump_priority fresh)
      by (intros ch0 Hch0; eapply new_child_is_fresh; eauto).
    rewrite Hlen2, Nat.eqb_refl in H, Hfresh.
    destruct (nth_error (children n3) k1) as [ch|] eqn:Hat; [|discriminate].
    specialize (Hfresh ch eq_refl).
    unfold insertChild in H. rewrite insertChild_from_done in H by reflexivity.
    cbn [bind] in H. inversion H; subst r; clear H.
    destruct (@incrementChildPriority_length _ n2 _ n3 k1 Hinc) as [Hl1 Hl2].
    apply incrementChildPriority_spec in Hinc
      as (c0 & Hc0 & Hle & Hnth & Hind & _ & _ & _ & Ht3 & Hp3 & Hw3 & _).
    set (pos := length (indices n2) - 1) in *.
    assert (Hpos : pos = length (children n1))
      by (unfold pos, n2; cbn; rewrite length_app; cbn; lia).
    clearbody pos.
    assert (Hother : forall j x, j <> k1 -> nth_error (children n3) j = Some x ->
              exists j', j' = moved pos k1 j /\ j' < length (children n1)
                         /\ nth_error (children n1) j' = Some x
                         /\ nth_error (indices n3) j = nth_error (indices n1) j').
    { intros j x Hj Hx. exists (moved pos k1 j).
      assert (Hmv : moved pos k1 j <> pos)
        by (intro E; apply moved_at in E; [contradiction|exact Hle]).
      rewrite Hnth, nth_error_set_nth_neq in Hx by exact Hmv.
      assert (Hlt : moved pos k1 j < length (children n2))
        by (apply nth_error_Some; congruence).
      assert (Hc2 : length (children n2) = S (length (children n1)))
        by (unfold n2; cbn; rewrite length_app; cbn; lia).
      assert (Hlt' : moved pos k1 j < length (children n1)) by lia.
      unfold n2 in Hx. cbn in Hx. rewrite nth_error_app1 in Hx by exact Hlt'.
      repeat split; auto.
      rewrite Hind. unfold n2. cbn. rewrite nth_error_app1 by lia. reflexivity. }
    assert (Hr0 : typo (set_handle (set_path ch (suffix (b :: t) 0)) h) = Static
                  /\ path (set_handle (set_path ch (suffix (b :: t) 0)) h) = b :: t).
    { destruct Hfresh as [-> | ->]; split; reflexivity. }
    destruct Hr0 as [Hr0t Hr0p].
    set (r0 := set_handle (set_path ch (suffix (b :: t) 0)) h) in *.
    split; [|split; cbn; [rewrite Ht3|rewrite Hp3]; reflexivity].
    constructor; cbn.
    + unfold static_inv, index_ok; cbn. rewrite Hw3, Ht3, length_set_nth, Hl1, Hl2.
      unfold n2 at 1 2 3; cbn [wildcard typo set_children set_indices].
      split; [exact S1|]. split; [exact S2|]. split; [exact S3|].
      split; [|split; [|exact Hlen2]].
      * intros c Hc. apply In_nth_error in Hc as [j Hj].
        rewrite nth_error_set_nth in Hj. destruct (Nat.eqb_spec j k1) as [Ejk|Hjk]; [subst j|].
        ++ destruct (k1 <? _); [|discriminate]. inversion Hj; subst c.
           split; [exact Hr0t|change (path r0 <> []); rewrite Hr0p; discriminate].
        ++ destruct (Hother _ _ Hjk Hj) as (j' & _ & _ & Hj' & _).
           apply S4. eapply nth_error_In; eauto.
      * intros j y c Hy Hc Hst Hne. rewrite nth_error_set_nth in Hc.
        destruct (Nat.eqb_spec j k1) as [Ejk|Hjk]; [subst j|].
        ++ destruct (k1 <? _); [|discriminate]. inversion Hc; subst c.
           change (hd_error (path r0) = Some y). rewrite Hr0p. cbn. rewrite Hind in Hy.
           assert (Hmv : moved pos k1 k1 = pos) by (apply moved_at; auto).
           rewrite Hmv, Hpos, <- S6 in Hy.
           unfold n2 in Hy. cbn in Hy.
           rewrite nth_error_app2, Nat.sub_diag in Hy by lia.
           cbn in Hy. congruence.
        ++ destruct (Hother _ _ Hjk Hc) as (j' & _ & _ & Hj' & Hi').
           rewrite Hi' in Hy. eauto.
    + apply Forall_set_nth.
      * apply Forall_nth_error. intros j x Hx.
        destruct (Nat.eq_dec j k1) as [Ejk|Hjk].
        -- subst j. assert (x = ch) by congruence. subst x.
           destruct Hfresh as [-> | ->]; apply all_static_leaf; reflexivity.
        -- destruct (Hother _ _ Hjk Hx) as (j' & _ & _ & Hj' & _).
           rewrite Forall_nth_error in Hcs. eauto.
      * destruct Hfresh as [-> | ->]; apply all_static_leaf; reflexivity.
Qed.

(** After [register] without wildcards. *)
Lemma register_static n p (h : option Handler) r :
  all_nodes static_inv n -> plain p = true ->
  register n p h = Ok r -> all_nodes static_inv r.
Proof.
  intros Hn Hp H. unfold register in H.
  assert (Hc : countParams p = 0%Z).
  { unfold countParams. rewrite filter_plain by exact Hp. reflexivity. }
  rewrite Hc in H. destruct (_ || _).
  - apply register_walk_static in H; [tauto|now apply all_static_bump|exact Hp].
  - unfold insertChild in H. rewrite insertChild_from_done in H by reflexivity.
    inversion H; subst r. apply all_nodes_inv in Hn as [(S1 & S2 & S3 & S4 & S5 & S6) Hcs].
    constructor; [|exact Hcs].
    unfold static_inv, index_ok. cbn.
    split; [exact S1|]. split; [discriminate|]. split; [discriminate|].
    split; [exact S4|]. split; [exact S5|exact S6].
Qed.

Lemma insert_all_static (rs : list (str * option Handler)) : forall t t' : node Handler,
  all_nodes static_inv t -> Forall (fun pr : str * option Handler => plain (fst pr) = true) rs ->
  insert_all t rs = Ok t' -> all_nodes static_inv t'.
Proof.
  induction rs as [|[p h] rs IH]; intros t t' Ht Hall H; cbn in H.
  - now inversion H; subst.
  - destruct (register t p h) as [t1| | |] eqn:E; try discriminate. cbn [bind] in H.
    inversion Hall as [|x xs Hx Hxs]; subst. cbn [fst] in Hx.
    apply (IH t1 t'); auto. eapply register_static; eauto.
Qed.

Lemma build_static (rs : list (str * option Handler)) t :
  Forall (fun pr : str * option Handler => plain (fst pr) = true) rs ->
  build rs = Ok t -> all_nodes static_inv t.
Proof.
  intros Hall H. eapply insert_all_static; eauto.
  apply all_static_leaf; reflexivity.
Qed.

(** *** Lookup in a tree without wildcards *)

Lemma last_is_slash_snoc (u : str) : last_is_slash (u ++ [slash]) = true.
Proof. rewrite last_is_slash_app by discriminate. reflexivity. Qed.

Lemma str_eqb_neq (a b : str) : a <> b -> str_eqb a b = false.
Proof.
  intro H. destruct (str_eqb a b) eqn:E; [|reflexivity].
  apply str_eqb_eq in E. contradiction.
Qed.

Lemma firstn_app_lt {A : Type} (a b : list A) k : k <= length a -> firstn k (a ++ b) = firstn k a.
Proof.
  intro H. rewrite firstn_app. replace (k - length a) with 0 by lia.
  cbn. apply app_nil_r.
Qed.

Lemma skipn_app_lt {A : Type} (a b : list A) k : k <= length a -> skipn k (a ++ b) = skipn k a ++ b.
Proof.
  intro H. rewrite skipn_app. replace (k - length a) with 0 by lia. reflexivity.
Qed.

Lemma last_is_slash_skipn (u : str) k :
  k < length u -> last_is_slash (skipn k u) = last_is_slash u.
Proof.
  intro H. rewrite <- (firstn_skipn k u) at 2. rewrite last_is_slash_app; auto.
  intro E. apply (f_equal (@length _)) in E. rewrite length_skipn in E. cbn in E. lia.
Qed.

(** What [resolve_nothing] recommends for a path that does not end in a
    slash: the node's path is the path with a slash added. *)
Lemma resolve_nothing_tsr n (u : str) ps (ho : option Handler) ps' :
  resolve_nothing n u ps = (ho, ps', true) -> last_is_slash u = false ->
  path n = u ++ [slash] /\ ho = handle n /\ ps' = ps /\ is_some (handle n) = true.
Proof.
  unfold resolve_nothing. intros H Hu.
  destruct (str_eqb u [slash]) eqn:E.
  - apply str_eqb_eq in E. subst u. discriminate.
  - destruct (_ && _) eqn:E2; [|discriminate]. inversion H; subst.
    apply andb_true_iff in E2 as [E2 E5]. apply andb_true_iff in E2 as [E2 E4].
    apply andb_true_iff in E2 as [E2 E3]. apply Nat.eqb_eq in E2.
    apply str_eqb_eq in E4.
    destruct (nth_error (path n) (length u)) as [x|] eqn:Ex; [|discriminate].
    apply Ascii.eqb_eq in E3. subst x.
    repeat split; auto.
    rewrite <- (firstn_skipn (length u) (path n)).
    rewrite (skipn_nth_cons _ _ Ex), skipn_all2 by lia.
    f_equal. rewrite E4 at 2. f_equal. lia.
Qed.

Lemma resolve_nothing_exact n (u : str) ps (h : Handler) ps' :
  resolve_nothing n u ps <> (Some h, ps', false).
Proof.
  unfold resolve_nothing. destruct (str_eqb u [slash]); [discriminate|].
  destruct (_ && _); discriminate.
Qed.

(** C4 on a tree without wildcards: the recommendation for a path without
    a trailing slash is right. *)
Lemma resolve_walk_tsr_static : forall fuel n (u : str) p ho ps,
  all_nodes static_inv n -> depth n < fuel ->
  resolve_walk fuel n u p = Ok (ho, ps, true) -> last_is_slash u = false ->
  resolve_walk fuel n (u ++ [slash]) p = Ok (ho, ps, false) /\ is_some ho = true.
Proof.
  induction fuel as [|fuel IH]; intros n u p ho ps Hn Hd H Hu; [discriminate|].
  pose proof (all_nodes_inv Hn) as [(S1 & S2 & S3 & S4 & S5 & S6) Hcs].
  cbn [resolve_walk] in H |- *. rewrite S1 in H |- *. cbn [negb] in H |- *.
  rewrite length_app. cbn [length].
  destruct (Nat.ltb_spec (length (path n)) (length u)) as [Hlt|Hge].
  - replace (length (path n) <? length u + 1) with true
      by (symmetry; apply Nat.ltb_lt; lia).
    rewrite firstn_app_lt by lia.
    destruct (str_eqb (firstn (length (path n)) u) (path n)) eqn:Epre.
    2:{ inversion H as [H']. apply resolve_nothing_tsr in H'; [|exact Hu].
        destruct H' as (Hp & _). rewrite Hp, length_app in Hlt. cbn in Hlt. lia. }
    unfold suffix in *. rewrite skipn_app_lt by lia.
    pose proof (last_is_slash_skipn u Hlt) as Hls. rewrite Hu in Hls.
    destruct (skipn (length (path n)) u) as [|b t] eqn:Hsk.
    { apply (f_equal (@length _)) in Hsk. rewrite length_skipn in Hsk. cbn in Hsk. lia. }
    destruct (str_eqb (b :: t) [slash]) eqn:E1.
    { apply str_eqb_eq in E1. rewrite E1 in Hls. discriminate. }
    cbn [andb] in H.
    replace (str_eqb ((b :: t) ++ [slash]) [slash]) with false.
    2:{ symmetry. apply str_eqb_neq. destruct t; discriminate. }
    cbn [andb app].
    destruct (find_index (indices n) b) as [k|]; [|discriminate].
    destruct (nth_error (children n) k) as [ch|] eqn:Hk; [|discriminate].
    assert (Hin : In ch (children n)) by (eapply nth_error_In; eauto).
    apply (IH ch (b :: t) p ho ps); auto.
    + rewrite Forall_forall in Hcs. auto.
    + apply depth_child in Hin. lia.
  - replace (length (path n) <? length u) with false in H
      by (symmetry; apply Nat.ltb_ge; lia).
    destruct (str_eqb u (path n)) eqn:Eeq.
    + apply str_eqb_eq in Eeq.
      replace (length (path n) <? length u + 1) with true
        by (symmetry; apply Nat.ltb_lt; rewrite <- Eeq; lia).
      rewrite <- Eeq, firstn_length_app, str_eqb_refl.
      unfold suffix. rewrite skipn_length_app.
      destruct (is_some (handle n)) eqn:Eh; [discriminate|].
      rewrite andb_false_r in H |- *. cbn [andb find_index] in H |- *.
      destruct (find_index (indices n) slash) as [k|] eqn:Hfind; [|discriminate].
      destruct (nth_error (children n) k) as [ch|] eqn:Hk; [|discriminate].
      assert (Hin : In ch (children n)) by (eapply nth_error_In; eauto).
      destruct (S4 ch Hin) as [Hst Hne].
      pose proof (S5 _ _ _ (find_index_some _ _ Hfind) Hk Hst Hne) as Hhd.
      destruct (Nat.eqb (length (path ch)) 1 && is_some (handle ch)) eqn:E1.
      2:{ rewrite Hst in H. cbn in H. discriminate. }
      inversion H; subst ho ps. clear H.
      apply andb_true_iff in E1 as [E1 E2]. apply Nat.eqb_eq in E1.
      assert (Hpc : path ch = [slash]).
      { destruct (path ch) as [|x [|y l]]; cbn in E1, Hhd; try discriminate.
        congruence. }
      assert (Hdc : depth ch < fuel) by (apply depth_child in Hin; lia).
      destruct fuel as [|fuel]; [lia|].
      cbn [resolve_walk]. rewrite Hpc. cbn. rewrite E2. auto.
    + replace (length (path n) <? length u + 1) with false.
      2:{ symmetry. apply Nat.ltb_ge. inversion H as [H'].
          apply resolve_nothing_tsr in H'; [|exact Hu]. destruct H' as (Hp & _).
          rewrite Hp, length_app. cbn. lia. }
      inversion H as [H']. apply resolve_nothing_tsr in H'; [|exact Hu].
      destruct H' as (Hp & -> & -> & Hh). rewrite Hp, str_eqb_refl, Hh. auto.
Qed.

(** A path that is found gets a recommendation, with the same handle, when
    a slash is added to it. *)
Lemma resolve_walk_exact_static : forall fuel n (u : str) p (h : Handler) ps,
  all_nodes static_inv n ->
  resolve_walk fuel n u p = Ok (Some h, ps, false) ->
  resolve_walk fuel n (u ++ [slash]) p = Ok (Some h, ps, true).
Proof.
  induction fuel as [|fuel IH]; intros n u p h ps Hn H; [discriminate|].
  pose proof (all_nodes_inv Hn) as [(S1 & S2 & S3 & S4 & S5 & S6) Hcs].
  cbn [resolve_walk] in H |- *. rewrite S1 in H |- *. cbn [negb] in H |- *.
  rewrite length_app. cbn [length].
  destruct (Nat.ltb_spec (length (path n)) (length u)) as [Hlt|Hge].
  - replace (length (path n) <? length u + 1) with true
      by (symmetry; apply Nat.ltb_lt; lia).
    rewrite firstn_app_lt by lia.
    destruct (str_eqb (firstn (length (path n)) u) (path n)) eqn:Epre.
    2:{ inversion H as [H']. now apply resolve_nothing_exact in H'. }
    unfold suffix in *. rewrite skipn_app_lt by lia.
    destruct (skipn (length (path n)) u) as [|b t] eqn:Hsk.
    { apply (f_equal (@length _)) in Hsk. rewrite length_skipn in Hsk. cbn in Hsk. lia. }
    destruct (str_eqb (b :: t) [slash] && is_some (handle n)) eqn:E1; [discriminate|].
    replace (str_eqb ((b :: t) ++ [slash]) [slash]) with false.
    2:{ symmetry. apply str_eqb_neq. destruct t; discriminate. }
    cbn [andb app].
    destruct (find_index (indices n) b) as [k|]; [|discriminate].
    destruct (nth_error (children n) k) as [ch|] eqn:Hk; [|discriminate].
    assert (Hin : In ch (children n)) by (eapply nth_error_In; eauto).
    apply (IH ch (b :: t) p h ps); auto.
    rewrite Forall_forall in Hcs. auto.
  - replace (length (path n) <? length u) with false in H
      by (symmetry; apply Nat.ltb_ge; lia).
    destruct (str_eqb u (path n)) eqn:Eeq.
    + apply str_eqb_eq in Eeq.
      replace (length (path n) <? length u + 1) with true
        by (symmetry; apply Nat.ltb_lt; rewrite <- Eeq; lia).
      rewrite <- Eeq, firstn_length_app, str_eqb_refl.
      unfold suffix. rewrite skipn_length_app.
      destruct (is_some (handle n)) eqn:Eh.
      * inversion H. cbn. reflexivity.
      * rewrite andb_false_r in H. cbn [andb find_index] in H.
        destruct (find_index (indices n) slash) as [k|] eqn:Hfind; [|discriminate].
        destruct (nth_error (children n) k) as [ch|] eqn:Hk; [|discriminate].
        destruct (Nat.eqb (length (path ch)) 1 && is_some (handle ch)); [discriminate|].
        destruct (nodeType_eqb (typo ch) Wildcard); [|discriminate].
        destruct (children ch) as [|c0 l]; [discriminate|].
        destruct (is_some (handle c0)); discriminate.
    + inversion H as [H']. now apply resolve_nothing_exact in H'.
Qed.

Lemma resolve_nothing_params n (u : str) ps (ho : option Handler) ps' b :
  resolve_nothing n u ps = (ho, ps', b) -> ps' = ps.
Proof.
  unfold resolve_nothing. destruct (str_eqb u [slash]); [congruence|].
  destruct (_ && _); congruence.
Qed.

(** Without wildcards a lookup adds no parameter. *)
Lemma resolve_walk_static_params : forall fuel n (u : str) p ho ps b,
  all_nodes static_inv n ->
  resolve_walk fuel n u p = Ok (ho, ps, b) -> ps = option_map snd p.
Proof.
  induction fuel as [|fuel IH]; intros n u p ho ps b Hn H; [discriminate|].
  pose proof (all_nodes_inv Hn) as [(S1 & S2 & S3 & S4 & S5 & S6) Hcs].
  cbn [resolve_walk] in H. rewrite S1 in H. cbn [negb] in H.
  rewrite andb_false_r in H. cbn [andb] in H.
  destruct (length (path n) <? length u).
  - destruct (str_eqb _ (path n)).
    2:{ inversion H as [H']. now apply resolve_nothing_params in H'. }
    destruct (_ && _); [congruence|].
    destruct (suffix u (length (path n))) as [|c t]; [discriminate|].
    destruct (find_index (indices n) c) as [k|]; [|congruence].
    destruct (nth_error (children n) k) as [ch|] eqn:Hk; [|discriminate].
    apply (IH ch (c :: t) p ho ps b); auto.
    rewrite Forall_forall in Hcs. apply Hcs. eapply nth_error_In; eauto.
  - destruct (str_eqb u (path n)).
    2:{ inversion H as [H']. now apply resolve_nothing_params in H'. }
    destruct (is_some (handle n)); [congruence|].
    destruct (find_index (indices n) slash) as [k|]; [|congruence].
    destruct (nth_error (children n) k) as [ch|]; [|discriminate].
    destruct (_ && _); [congruence|].
    destruct (nodeType_eqb (typo ch) Wildcard); [|congruence].
    destruct (children ch) as [|c0 l]; [discriminate|].
    destruct (is_some (handle c0)); congruence.
Qed.

(** When the path with a slash added is found, the path itself is found
    or gets a recommendation. *)
Lemma resolve_walk_slash_found_static : forall fuel n (u : str) p (h : Handler) ps,
  all_nodes static_inv n ->
  resolve_walk fuel n (u ++ [slash]) p = Ok (Some h, ps, false) ->
  exists ho b, resolve_walk fuel n u p = Ok (ho, ps, b)
               /\ (b = true \/ is_some ho = true).
Proof.
  induction fuel as [|fuel IH]; intros n u p h ps Hn H; [discriminate|].
  pose proof (resolve_walk_static_params _ _ _ Hn H) as Hps.
  pose proof (all_nodes_inv Hn) as [(S1 & S2 & S3 & S4 & S5 & S6) Hcs].
  cbn [resolve_walk] in H |- *. rewrite S1 in H |- *. cbn [negb] in H |- *.
  rewrite length_app in H. cbn [length] in H.
  destruct (Nat.ltb_spec (length (path n)) (length u)) as [Hlt|Hge].
  - replace (length (path n) <? length u + 1) with true in H
      by (symmetry; apply Nat.ltb_lt; lia).
    rewrite firstn_app_lt in H by lia.
    destruct (str_eqb (firstn (length (path n)) u) (path n)) eqn:Epre.
    2:{ inversion H as [H']. now apply resolve_nothing_exact in H'. }
    unfold suffix in *. rewrite skipn_app_lt in H by lia.
    destruct (skipn (length (path n)) u) as [|c t] eqn:Hsk.
    { apply (f_equal (@length _)) in Hsk. rewrite length_skipn in Hsk. cbn in Hsk. lia. }
    replace (str_eqb ((c :: t) ++ [slash]) [slash]) with false in H.
    2:{ symmetry. apply str_eqb_neq. destruct t; discriminate. }
    cbn [andb app] in H.
    destruct (str_eqb (c :: t) [slash] && is_some (handle n)) eqn:E1.
    { apply andb_true_iff in E1 as [_ E1]. exists (handle n), true. subst ps. auto. }
    destruct (find_index (indices n) c) as [k|]; [|discriminate].
    destruct (nth_error (children n) k) as [ch|] eqn:Hk; [|discriminate].
    apply (IH ch (c :: t) p h ps); auto.
    rewrite Forall_forall in Hcs. apply Hcs. eapply nth_error_In; eauto.
  - replace (length (path n) <? length u) with false
      by (symmetry; apply Nat.ltb_ge; lia).
    destruct (Nat.eq_dec (length (path n)) (length u)) as [Hlen|Hlen].
    + replace (length (path n) <? length u + 1) with true in H
        by (symmetry; apply Nat.ltb_lt; lia).
      rewrite Hlen, firstn_length_app in H. unfold suffix in H.
      rewrite skipn_length_app in H.
      destruct (str_eqb u (path n)) eqn:Eeq.
      2:{ inversion H as [H']. now apply resolve_nothing_exact in H'. }
      replace (str_eqb [slash] [slash]) with true in H by reflexivity.
      cbn [andb] in H.
      destruct (is_some (handle n)) eqn:Eh; [discriminate|].
      rewrite andb_false_r. cbn [andb].
      destruct (find_index (indices n) slash) as [k|] eqn:Hfind; [|discriminate].
      destruct (nth_error (children n) k) as [ch|] eqn:Hk; [|discriminate].
      assert (Hin : In ch (children n)) by (eapply nth_error_In; eauto).
      destruct (S4 ch Hin) as [Hst Hne].
      assert (Hch : all_nodes static_inv ch) by (rewrite Forall_forall in Hcs; auto).
      pose proof (all_nodes_inv Hch) as [(T1 & _) _].
      destruct fuel as [|fuel]; [discriminate|].
      cbn [resolve_walk] in H. rewrite T1 in H. cbn [length negb] in H.
      destruct (Nat.ltb_spec (length (path ch)) 1) as [Hl1|Hl1].
      { destruct (path ch); [congruence|cbn in Hl1; lia]. }
      destruct (str_eqb [slash] (path ch)) eqn:Ech; [|now inversion H].
      apply str_eqb_eq in Ech.
      destruct (is_some (handle ch)) eqn:Ehc.
      * rewrite <- Ech. cbn. exists (handle ch), true. subst ps. auto.
      * rewrite andb_false_r in H. cbn [andb] in H.
        destruct (find_index (indices ch) slash) as [k2|]; [|discriminate].
        destruct (nth_error (children ch) k2) as [c2|]; [|discriminate].
        destruct (_ && _); [discriminate|].
        destruct (nodeType_eqb (typo c2) Wildcard); [|discriminate].
        destruct (children c2) as [|c0 l]; [discriminate|].
        destruct (is_some (handle c0)); discriminate.
    + replace (length (path n) <? length u + 1) with false in H
        by (symmetry; apply Nat.ltb_ge; lia).
      destruct (str_eqb (u ++ [slash]) (path n)) eqn:Eeq.
      2:{ inversion H as [H']. now apply resolve_nothing_exact in H'. }
      apply str_eqb_eq in Eeq.
      destruct (is_some (handle n)) eqn:Eh.
      2:{ rewrite andb_false_r in H. cbn [andb] in H.
          destruct (find_index (indices n) slash) as [k|]; [|discriminate].
          destruct (nth_error (children n) k) as [ch|]; [|discriminate].
          destruct (_ && _); [discriminate|].
          destruct (nodeType_eqb (typo ch) Wildcard); [|discriminate].
          destruct (children ch) as [|c0 l]; [discriminate|].
          destruct (is_some (handle c0)); discriminate. }
      replace (str_eqb u (path n)) with false.
      2:{ symmetry. apply str_eqb_neq. intro E. rewrite E in Hlen. lia. }
      unfold resolve_nothing. subst ps.
      destruct (str_eqb u [slash]); [exists None, true; auto|].
      rewrite <- Eeq, length_app, nth_error_app2, Nat.sub_diag by lia.
      cbn [length nth_error].
      replace (length u + 1 - 1) with (length u) by lia.
      rewrite firstn_length_app, Nat.eqb_refl, str_eqb_refl.
      replace (Ascii.eqb slash slash) with true by reflexivity.
      rewrite Eh. cbn. exists (handle n), true. auto.
Qed.


(** In a tree built from patterns without wildcards: when the lookup of
    [x] finds a handle, the lookup of [x] with a slash added recommends a
    redirect and returns that handle; and when the lookup of [x] with a
    slash added finds a handle, the lookup of [x] finds a handle or
    recommends a redirect. *)
Lemma lookup_slash_added_or_removed (rs : list (str * option Handler)) t (x : str) :
  build rs = Ok t ->
  Forall (fun pr : str * option Handler => plain (fst pr) = true) rs ->
  (forall h ps, resolve t x = Ok (Some h, ps, false) ->
                resolve t (x ++ [slash]) = Ok (Some h, ps, true))
  /\ (forall h ps, resolve t (x ++ [slash]) = Ok (Some h, ps, false) ->
        exists ho b, resolve t x = Ok (ho, ps, b) /\ (b = true \/ is_some ho = true)).
Proof.
  intros Hb Hall. pose proof (build_static Hall Hb) as Ht.
  unfold resolve. split.
  - intros h ps H. now apply resolve_walk_exact_static.
  - intros h ps H. now apply (@resolve_walk_slash_found_static _ t x None h ps).
Qed.

End Static.


(** ** The case-insensitive lookup of a single route *)

Section SingleRoute.

Context {Handler : Type}.

Lemma lower_upper_byte (c : ascii) :
  lower_byte (byte_of (unicode_ToUpper (N_of_ascii c))) = lower_byte c.
Proof.
  destruct c as [[] [] [] [] [] [] [] []]; vm_compute; reflexivity.
Qed.

Lemma lower_upper (p : str) : strings_ToLower (upper p) = strings_ToLower p.
Proof.
  unfold strings_ToLower, upper. rewrite map_map.
  apply map_ext. intro c. apply lower_upper_byte.
Qed.

Lemma length_upper (p : str) : length (upper p) = length p.
Proof. unfold upper. apply length_map. Qed.

Lemma countParams_plain (p : str) : plain p = true -> countParams p = 0%Z.
Proof.
  intro H. unfold countParams. rewrite (filter_plain _ H). reflexivity.
Qed.

Lemma register_single (p : str) (h : option Handler) :
  plain p = true ->
  register empty_node p h = Ok (Node Root p 0 [] h 1 [] false).
Proof.
  intro H. unfold register. cbn [bump_priority empty_node set_priority path children
    length Nat.ltb Nat.leb orb priority].
  rewrite (countParams_plain _ H). unfold insertChild.
  destruct p; reflexivity.
Qed.

(** In the tree that holds the single route [p], an ASCII pattern without
    wildcards, the case-insensitive lookup of [upper p] without the
    trailing-slash fix returns [p] and [true]. *)
Lemma single_route_found (p : str) (h : option Handler) :
  plain p = true -> is_ascii p = true -> h <> None ->
  exists t, build [(p, h)] = Ok t
            /\ findCaseInsensitivePath t (upper p) false = Ok (p, true).
Proof.
  intros Hp Ha Hh. eexists. split.
  - unfold build. cbn [insert_all]. rewrite (@register_single p h Hp). reflexivity.
  - unfold findCaseInsensitivePath. cbn [depth children fold_right].
    cbn [findCaseInsensitivePathRec path]. rewrite lower_upper.
    unfold strings_ToLower at 1 2 3. rewrite !length_map, Nat.leb_refl.
    fold (strings_ToLower p). unfold slice, suffix.
    replace (str_eqb _ (skipn 1 (strings_ToLower p))) with true.
    2:{ symmetry. apply str_eqb_eq. rewrite firstn_all2; [reflexivity|].
        rewrite length_skipn. lia. }
    rewrite orb_true_r. cbn [andb app]. rewrite length_upper, Nat.ltb_irrefl.
    rewrite skipn_all2 by (rewrite length_upper; lia). cbn [length Nat.ltb Nat.leb handle].
    destruct h; [reflexivity|contradiction].
Qed.

End SingleRoute.

(** ** The patterns held by a tree *)

Section Stored.

Context {Handler : Type}.
Implicit Types (n c r : node Handler) (cs : list (node Handler)).

Lemma stored_inv n (v : str) :
  stored n v <->
  (is_some (handle n) = true /\ v = path n)
  \/ (exists c rest, In c (children n) /\ stored c rest /\ v = path n ++ rest).
Proof.
  split.
  - intro H. destruct H; [left; auto|right; eauto].
  - intros [[H ->]|(c & rest & Hc & Hs & ->)]; [now constructor|].
    econstructor; eauto.
Qed.

(** [stored] reads the path, the handle and the children only. *)
Lemma stored_ext n n' (v : str) :
  path n' = path n -> handle n' = handle n -> children n' = children n ->
  stored n' v <-> stored n v.
Proof.
  intros Hp Hh Hc. rewrite !stored_inv, Hp, Hh, Hc. reflexivity.
Qed.

Lemma stored_bump c (v : str) : stored (bump_priority c) v <-> stored c v.
Proof. apply stored_ext; reflexivity. Qed.

Lemma stored_raise c m (v : str) : stored (raise_nparams c m) v <-> stored c v.
Proof.
  destruct (raise_fields c m) as (_ & Hp & _ & Hc & _ & Hh & _).
  now apply stored_ext.
Qed.

Lemma stored_leaf n (v : str) :
  children n = [] -> stored n v <-> is_some (handle n) = true /\ v = path n.
Proof.
  intro Hc. rewrite stored_inv, Hc. split; [|auto].
  intros [H|(c & rest & [] & _)]. exact H.
Qed.

Lemma stored_one n c (v : str) :
  children n = [c] -> handle n = None ->
  stored n v <-> exists rest, stored c rest /\ v = path n ++ rest.
Proof.
  intros Hc Hh. rewrite stored_inv, Hc, Hh. split.
  - intros [[H _]|(c' & rest & [<-|[]] & Hs & ->)]; [discriminate|eauto].
  - intros (rest & Hs & ->). right. exists c, rest. cbn. auto.
Qed.

(** [key_inv] reads the kind, the flag, the index bytes and the children. *)
Lemma key_inv_ext n n' :
  typo n' = typo n -> wildcard n' = wildcard n -> indices n' = indices n ->
  children n' = children n -> key_inv n -> key_inv n'.
Proof.
  intros Ht Hw Hi Hc [H1 H2 H3 H4 H5 H6].
  constructor; rewrite ?Ht, ?Hw, ?Hi, ?Hc; auto.
Qed.

Lemma all_key_ext n n' :
  typo n' = typo n -> wildcard n' = wildcard n -> indices n' = indices n ->
  children n' = children n -> all_nodes key_inv n -> all_nodes key_inv n'.
Proof.
  intros Ht Hw Hi Hc H. apply all_nodes_inv in H as [H1 H2].
  constructor; [eapply key_inv_ext; eauto|]. now rewrite Hc.
Qed.

Lemma all_key_bump c : all_nodes key_inv c -> all_nodes key_inv (bump_priority c).
Proof. apply all_key_ext; reflexivity. Qed.

Lemma all_key_raise c m : all_nodes key_inv c -> all_nodes key_inv (raise_nparams c m).
Proof.
  destruct (raise_fields c m) as (Ht & _ & Hw & Hc & Hi & _).
  now apply all_key_ext.
Qed.

Lemma key_inv_leaf n : children n = [] -> indices n = [] -> key_inv n.
Proof.
  intros Hc Hi. constructor; rewrite ?Hc, ?Hi.
  - constructor.
  - intros _. left. reflexivity.
  - intros k b c rest Hk. destruct k; discriminate.
  - intros c rest [].
  - intros _. split; [reflexivity|]. intros c [].
  - intros _ b [].
Qed.

Lemma all_key_leaf n : children n = [] -> indices n = [] -> all_nodes key_inv n.
Proof.
  intros Hc Hi. constructor; [now apply key_inv_leaf|]. rewrite Hc. constructor.
Qed.

(** *** The chain of nodes that [insertChild] makes *)

Lemma slice_suffix (u : str) a b : a <= b -> slice u a b ++ suffix u b = suffix u a.
Proof.
  intro H. unfold slice, suffix.
  replace (skipn b u) with (skipn (b - a) (skipn a u))
    by (rewrite skipn_skipn; f_equal; lia).
  apply firstn_skipn.
Qed.

Lemma find_end_stop (rest : str) : forall e0 e,
  find_end rest e0 = Some e -> e < e0 + length rest ->
  nth_error rest (e - e0) = Some slash.
Proof.
  induction rest as [|c rest IH]; intros e0 e H Hlt; cbn in H.
  - inversion H; subst. cbn in Hlt. lia.
  - destruct (Ascii.eqb c slash) eqn:Ec.
    + inversion H; subst. rewrite Nat.sub_diag. cbn. apply Ascii.eqb_eq in Ec. congruence.
    + destruct (is_wild c); [discriminate|].
      pose proof (find_end_spec _ _ H) as [Hle _].
      apply IH in H; [|cbn in Hlt; lia].
      replace (e - e0) with (S (e - S e0)) by lia. exact H.
Qed.

Lemma plain_firstn_S (l : str) : forall k (x : ascii),
  plain (firstn k l) = true -> nth_error l k = Some x -> is_wild x = false ->
  plain (firstn (S k) l) = true.
Proof.
  induction l as [|y l IH]; intros k x Hp Hx Hw; [destruct k; discriminate|].
  destruct k as [|k].
  - cbn in Hx. inversion Hx; subst. cbn. now rewrite Hw.
  - cbn [firstn plain forallb] in Hp |- *. apply andb_true_iff in Hp as [Hy Hp].
    rewrite Hy. cbn [andb]. exact (IH k x Hp Hx Hw).
Qed.

(** On a new node [insertChild] makes a chain that holds the rest of the
    pattern and nothing else. *)
Lemma insertChild_from_stored uripath abspath (h : option Handler) :
  forall rest i offset n m r,
  rest = skipn i uripath ->
  (i = 0 /\ offset = 0) \/ offset < i \/ plain (firstn (S offset - i) rest) = true ->
  children n = [] -> indices n = [] -> wildcard n = false ->
  path n = [] -> handle n = None ->
  insertChild_from uripath abspath h rest i offset n m = Ok r ->
  all_nodes key_inv r
  /\ (forall v, stored r v <-> is_some h = true /\ v = suffix uripath offset).
Proof.
  induction rest as [|c rest IH];
    intros i offset n m r Hrest HQ Hch Hind Hw Hpath Hhd H; cbn [insertChild_from] in H.
  all: assert (Hdone : forall r', r' = set_handle (set_path n (suffix uripath offset)) h ->
         all_nodes key_inv r'
         /\ (forall v, stored r' v <-> is_some h = true /\ v = suffix uripath offset)).
  1,3: (intros r' ->; split; [apply all_key_leaf; assumption|];
        intro v; rewrite stored_leaf by exact Hch; reflexivity).
  - destruct (0 <? m)%Z; [discriminate|]. inversion H; subst r. now apply Hdone.
  - destruct (0 <? m)%Z eqn:E; [|inversion H; subst r; now apply Hdone].
    clear Hdone. symmetry in Hrest.
    destruct (skipn_cons_inv _ _ Hrest) as (Hrest' & Hnth & Hlt).
    destruct (is_wild c) eqn:Hwild; cbn [negb] in H.
    2:{ apply (IH (S i) offset n m r); auto.
        destruct HQ as [[-> ->]|[HQ|HQ]]; [right; left; lia|right; left; lia|].
        destruct (S offset - i) as [|d] eqn:Ed; [right; left; lia|].
        right. right. replace (S offset - S i) with d by lia.
        cbn in HQ. apply andb_true_iff in HQ. tauto. }
    assert (Hoff : (i = 0 /\ offset = 0) \/ offset < i).
    { destruct HQ as [HQ|[HQ|HQ]]; auto.
      destruct (S offset - i) as [|d] eqn:Ed; [right; lia|].
      cbn in HQ. rewrite Hwild in HQ. discriminate. }
    destruct (find_end rest (S i)) as [e|] eqn:He; [|discriminate].
    pose proof (find_end_spec _ _ He) as [He1 He2].
    destruct (0 <? length (children n)); [discriminate|].
    destruct (Nat.ltb_spec (e - i) 2) as [|He3]; [discriminate|].
    assert (Hlenr : length rest = length uripath - S i)
      by (rewrite <- Hrest', length_skipn; reflexivity).
    assert (Hslice : forall k, i < k -> exists t, slice uripath i k = c :: t).
    { intros k Hk. unfold slice. rewrite Hrest.
      replace (k - i) with (S (k - S i)) by lia. cbn [firstn]. eauto. }
    assert (Hslice_wild : forall k, i < k -> (1 <= wcount (slice uripath i k))%Z).
    { intros k Hk. destruct (Hslice k Hk) as (t & ->). now apply wcount_cons_wild. }
    destruct (Ascii.eqb c colon).
    + (* a parameter *)
      assert (Hoff1 : (if 0 <? i then i else offset) = i).
      { destruct (Nat.ltb_spec 0 i); lia. }
      rewrite Hoff1 in H.
      set (n1 := if 0 <? i then set_path n (slice uripath offset i) else n) in *.
      assert (Hn1 : children n1 = [] /\ indices n1 = [] /\ handle n1 = None
                    /\ path n1 = slice uripath offset i).
      { unfold n1. destruct (Nat.ltb_spec 0 i) as [Hi|Hi]; cbn; repeat split; auto.
        rewrite Hpath. unfold slice. replace (i - offset) with 0 by lia.
        reflexivity. }
      destruct Hn1 as (Hn1c & Hn1i & Hn1h & Hn1p).
      clearbody n1.
      assert (Hle : offset <= i) by lia.
      destruct (Nat.ltb_spec e (length uripath)) as [Helt|Hege].
      * match type of H with bind ?m _ = _ => destruct m as [r0| | |] eqn:Hr0 end;
          try discriminate.
        cbn [bind] in H. inversion H; subst r; clear H.
        apply IH in Hr0 as [Hk0 Hs0]; auto.
        2:{ right. right. replace (S e - S i) with (S (e - S i)) by lia.
            apply plain_firstn_S with (x := slash); auto.
            apply find_end_stop; [exact He|lia]. }
        assert (He_ne : suffix uripath e <> []).
        { unfold suffix. intro E0. apply (f_equal (@length _)) in E0.
          rewrite length_skipn in E0. cbn in E0. lia. }
        destruct (Hslice e ltac:(lia)) as (t & Ht).
        split.
        -- constructor; cbn.
           ++ constructor; cbn; rewrite ?Hn1i.
              ** constructor.
              ** discriminate.
              ** intros k b x rest0 Hk. destruct k; discriminate.
              ** intros x rest0 [<-|[]] Hx.
                 apply stored_one with (c := r0) in Hx; [|reflexivity|reflexivity].
                 destruct Hx as (w & _ & ->). cbn. rewrite Ht. discriminate.
              ** intros _. split; [reflexivity|]. intros x [<-|[]]. cbn.
                 apply Hslice_wild. lia.
              ** intros _ b [].
           ++ constructor; [|constructor]. constructor; cbn.
              ** constructor; cbn.
                 --- constructor.
                 --- intros _. right. auto.
                 --- intros k b x rest0 Hk. destruct k; discriminate.
                 --- intros x rest0 [<-|[]] Hx. apply Hs0 in Hx as [_ ->]. exact He_ne.
                 --- discriminate.
                 --- intros _ b [].
              ** constructor; [exact Hk0|constructor].
        -- intro v.
           match goal with |- context [set_children n1 [?X]] => set (C := X) end.
           rewrite (@stored_one (set_wildcard (set_children n1 [C]) true) C v eq_refl Hn1h).
           unfold C.
           cbn [path set_wildcard set_children]. rewrite Hn1p. split.
           ++ intros (w & Hx & ->).
              apply stored_one with (c := r0) in Hx; [|reflexivity|reflexivity].
              destruct Hx as (w' & Hw' & ->). apply Hs0 in Hw' as [Hh ->].
              split; [exact Hh|]. cbn [path set_children set_path].
              rewrite (slice_suffix uripath (a := i) (b := e)) by lia.
              now apply slice_suffix.
           ++ intros [Hh ->]. exists (slice uripath i e ++ suffix uripath e). split.
              ** apply stored_one with (c := r0); [reflexivity|reflexivity|].
                 exists (suffix uripath e). split; [apply Hs0; auto|reflexivity].
              ** rewrite (slice_suffix uripath (a := i) (b := e)) by lia.
                 symmetry. now apply slice_suffix.
      * match type of H with bind ?m _ = _ => destruct m as [r0| | |] eqn:Hr0 end;
          try discriminate.
        cbn [bind] in H. inversion H; subst r; clear H.
        apply insertChild_from_plain in Hr0.
        2:{ rewrite firstn_all2 in He2; [exact He2|lia]. }
        subst r0.
        assert (Hsuf : suffix uripath i = c :: rest) by exact Hrest.
        split.
        -- constructor; cbn.
           ++ constructor; cbn; rewrite ?Hn1i.
              ** constructor.
              ** discriminate.
              ** intros k b x rest0 Hk. destruct k; discriminate.
              ** intros x rest0 [<-|[]] Hx.
                 apply stored_leaf in Hx; [|reflexivity]. destruct Hx as [_ ->].
                 cbn. rewrite Hsuf. discriminate.
              ** intros _. split; [reflexivity|]. intros x [<-|[]]. cbn.
                 rewrite Hsuf. now apply wcount_cons_wild.
              ** intros _ b [].
           ++ constructor; [|constructor]. apply all_key_leaf; reflexivity.
        -- intro v.
           match goal with |- context [set_children n1 [?X]] => set (C := X) end.
           rewrite (@stored_one (set_wildcard (set_children n1 [C]) true) C v eq_refl Hn1h).
           unfold C.
           cbn [path set_wildcard set_children]. rewrite Hn1p. split.
           ++ intros (w & Hx & ->).
              apply stored_leaf in Hx; [|reflexivity]. destruct Hx as [Hh ->].
              split; [exact Hh|]. cbn. now apply slice_suffix.
           ++ intros [Hh ->]. exists (suffix uripath i). split.
              ** apply stored_leaf; [reflexivity|]. auto.
              ** symmetry. now apply slice_suffix.
    + (* a catch-all *)
      destruct (negb (Nat.eqb e (length uripath)) || (1 <? m)%Z); [discriminate|].
      destruct (last_is_slash (path n)); [discriminate|].
      destruct i as [|j]; [discriminate|].
      destruct (nth_error uripath j) as [sl|] eqn:Hsl; [|discriminate].
      destruct (Ascii.eqb_spec sl slash) as [Esl|]; [|discriminate]. cbn [negb] in H.
      inversion H; subst r; clear H.
      assert (Hle : offset <= j) by lia.
      assert (Hsuf : suffix uripath j = sl :: c :: rest).
      { unfold suffix. rewrite (skipn_nth_cons _ _ Hsl), Hrest. reflexivity. }
      set (leaf := Node Wildcard (suffix uripath j) 1 [] h 1 [] false).
      set (anchor := set_children (bump_priority (Node Wildcard [] 1 [] None 0 [] true))
                       [leaf]).
      assert (Hleaf : forall w, stored leaf w <-> is_some h = true /\ w = suffix uripath j).
      { intro w. apply stored_leaf. reflexivity. }
      assert (Hanchor : forall w, stored anchor w
                                  <-> is_some h = true /\ w = suffix uripath j).
      { intro w. rewrite (@stored_one anchor leaf w eq_refl eq_refl). cbn. split.
        - intros (w' & Hw' & ->). now apply Hleaf.
        - intros Hx. exists w. split; [now apply Hleaf|reflexivity]. }
      split.
      * constructor; cbn.
        -- constructor; cbn.
           ++ constructor; [intros []|constructor].
           ++ intros _. left. reflexivity.
           ++ intros k b x rest0 Hk Hx Hst.
              destruct k as [|k]; [|destruct k; discriminate].
              cbn in Hk, Hx. inversion Hk; inversion Hx; subst.
              apply Hanchor in Hst as [_ ->]. rewrite Hsuf. reflexivity.
           ++ intros x rest0 [<-|[]] Hst. apply Hanchor in Hst as [_ ->].
              rewrite Hsuf. discriminate.
           ++ rewrite Hw. discriminate.
           ++ intros _ b [<-|[]]. exact Esl.
        -- constructor; [|constructor]. constructor; cbn.
           ++ constructor; cbn.
              ** constructor.
              ** discriminate.
              ** intros k b x rest0 Hk. destruct k; discriminate.
              ** intros x rest0 [<-|[]] Hst. apply Hleaf in Hst as [_ ->].
                 rewrite Hsuf. discriminate.
              ** intros _. split; [reflexivity|]. intros x [<-|[]]. cbn.
                 rewrite Hsuf. pose proof (wcount_cons_wild c rest Hwild) as Hc1.
                 change (sl :: c :: rest) with ([sl] ++ c :: rest).
                 rewrite wcount_app. pose proof (wcount_nonneg [sl]). lia.
              ** intros _ b [].
           ++ constructor; [|constructor]. apply all_key_leaf; reflexivity.
      * intro v.
        rewrite (@stored_one (set_indices (set_children (set_path n (slice uripath offset j))
                                [anchor]) [sl]) anchor v eq_refl Hhd).
        cbn [path set_indices set_children set_path]. split.
        -- intros (w & Hx & ->). apply Hanchor in Hx as [Hh ->].
           split; [exact Hh|]. now apply slice_suffix.
        -- intros [Hh ->]. exists (suffix uripath j). split; [now apply Hanchor|].
           symmetry. now apply slice_suffix.
Qed.

(** A wildcard at the start of the rest: the node gets the chain as its
    one child, whatever else it holds. *)
Lemma insertChild_wild_frame uripath abspath (h : option Handler) (b : ascii) t n m r :
  is_wild b = true -> (0 < m)%Z ->
  insertChild_from uripath abspath h (b :: t) 0 0 n m = Ok r ->
  children n = []
  /\ exists x, r = set_wildcard (set_children n [x]) true
     /\ forall n', children n' = [] ->
          insertChild_from uripath abspath h (b :: t) 0 0 n' m
          = Ok (set_wildcard (set_children n' [x]) true).
Proof.
  intros Hb Hm H.
  pose proof (@insertChild_wild_children _ uripath abspath h b t 0 0 n m r Hb Hm H) as Hnil.
  split; [exact Hnil|].
  assert (Hstep : forall n', children n' = [] ->
            insertChild_from uripath abspath h (b :: t) 0 0 n' m
            = match find_end t 1 with
              | None => Panic (msg_one_wildcard (suffix uripath 0) abspath)
              | Some e =>
                  if e - 0 <? 2 then Panic (msg_unnamed abspath)
                  else if Ascii.eqb b colon then
                    let child := bump_priority (Node Param_ [] m [] None 0 [] false) in
                    if e <? length uripath then
                      r <- insertChild_from uripath abspath h t 1 e
                             (Node Static [] (decr8 m) [] None 1 [] false) (decr8 m) ;;
                      Ok (set_wildcard (set_children n'
                            [set_children (set_path child (slice uripath 0 e)) [r]]) true)
                    else
                      r <- insertChild_from uripath abspath h t 1 0 child (decr8 m) ;;
                      Ok (set_wildcard (set_children n' [r]) true)
                  else
                    if negb (Nat.eqb e (length uripath)) || (1 <? m)%Z
                    then Panic (msg_catchall_end abspath)
                    else if last_is_slash (path n') then Panic (msg_catchall_root abspath)
                    else RuntimePanic
              end).
  { intros n' Hn'. cbn [insertChild_from].
    replace (0 <? m)%Z with true by (symmetry; apply Z.ltb_lt; exact Hm).
    rewrite Hb, Hn'. reflexivity. }
  rewrite (Hstep n Hnil) in H.
  destruct (find_end t 1) as [e|] eqn:He; [|discriminate].
  destruct (e - 0 <? 2) eqn:E2; [discriminate|].
  destruct (Ascii.eqb b colon) eqn:Eb.
  - cbv zeta in H. destruct (e <? length uripath) eqn:E3.
    + match type of H with bind ?m _ = _ => destruct m as [r0| | |] eqn:Hr0 end;
        try discriminate.
      cbn [bind] in H. inversion H; subst r; clear H.
      eexists. split; [reflexivity|]. intros n' Hn'.
      rewrite (Hstep n' Hn'); cbv zeta; rewrite ?Hr0; reflexivity.
    + match type of H with bind ?m _ = _ => destruct m as [r0| | |] eqn:Hr0 end;
        try discriminate.
      cbn [bind] in H. inversion H; subst r; clear H.
      eexists. split; [reflexivity|]. intros n' Hn'.
      rewrite (Hstep n' Hn'); cbv zeta; rewrite ?Hr0; reflexivity.
  - destruct (negb (Nat.eqb e (length uripath)) || (1 <? m)%Z); [discriminate|].
    destruct (last_is_slash (path n)); discriminate.
Qed.

Lemma insertChild_wild_stored (u : str) abspath (h : option Handler) (b : ascii) t n m r :
  u = b :: t -> is_wild b = true -> (0 < m)%Z -> indices n = [] ->
  insertChild n m u abspath h = Ok r ->
  children n = [] /\ path r = path n
  /\ all_nodes key_inv r
  /\ (forall v, stored r v <-> stored n v \/ (v = path n ++ u /\ is_some h = true)).
Proof.
  intros Hu Hb Hm Hind H. unfold insertChild in H.
  assert (H' : insertChild_from u abspath h (b :: t) 0 0 n m = Ok r)
    by (rewrite <- Hu; exact H).
  clear H. apply insertChild_wild_frame in H' as (Hnil & x & -> & Hframe); auto.
  split; [exact Hnil|]. split; [reflexivity|].
  specialize (Hframe empty_node eq_refl). rewrite <- Hu in Hframe.
  apply insertChild_from_stored in Hframe as [Hk Hs]; auto.
  apply all_nodes_inv in Hk as [[K1 K2 K3 K4 K5 K6] Hx]. cbn in K4, K5, Hx.
  assert (Hsx : forall w, stored x w <-> is_some h = true /\ w = u).
  { intro w. rewrite <- (Hs w).
    rewrite (@stored_one (set_wildcard (set_children empty_node [x]) true) x w
               eq_refl eq_refl).
    cbn. split; [eauto|]. now intros (w' & Hw' & ->). }
  split.
  - constructor; [|exact Hx]. constructor; cbn; rewrite ?Hind.
    + constructor.
    + discriminate.
    + intros k c0 y rest Hk. destruct k; discriminate.
    + exact K4.
    + intros _. split; [reflexivity|]. now apply K5.
    + intros _ c0 [].
  - intro v. rewrite (stored_inv (set_wildcard (set_children n [x]) true)).
    rewrite (stored_leaf n v Hnil). cbn. split.
    + intros [Hv|(c & rest & [<-|[]] & Hst & ->)]; [left; exact Hv|].
      apply Hsx in Hst as [Hh ->]. right. auto.
    + intros [Hv|[-> Hh]]; [left; exact Hv|].
      right. exists x, u. split; [left; reflexivity|]. split; [|reflexivity].
      apply Hsx. auto.
Qed.

(** *** Splitting an edge *)

Lemma split_edge_key n (u : str) i :
  all_nodes key_inv n -> i < length (path n) -> typo n <> Param_ ->
  firstn i u = firstn i (path n) ->
  all_nodes key_inv (split_edge n u i)
  /\ (forall v, stored (split_edge n u i) v <-> stored n v).
Proof.
  intros Hn Hi Hty Hpre. apply all_nodes_inv in Hn as [[K1 K2 K3 K4 K5 K6] Hcs].
  unfold split_edge.
  match goal with |- context [fold_left ?f ?l ?c0] =>
    destruct (fold_raise_fields l c0) as (Ht & Hpa & Hw & Hc & Hin & Hh & _);
    set (child := fold_left f l c0) in *
  end.
  cbn in Ht, Hpa, Hw, Hc, Hin, Hh.
  assert (Hskip : exists x t, skipn i (path n) = x :: t).
  { destruct (skipn i (path n)) as [|x t] eqn:E; eauto.
    apply (f_equal (@length _)) in E. rewrite length_skipn in E. cbn in E. lia. }
  destruct Hskip as (x & t & Hskip).
  assert (HP : path n = firstn i u ++ x :: t).
  { rewrite Hpre, <- Hskip. symmetry. apply firstn_skipn. }
  assert (Hchild : forall w, stored child w
            <-> (is_some (handle n) = true /\ w = x :: t)
                \/ (exists c rest, In c (children n) /\ stored c rest
                                   /\ w = (x :: t) ++ rest)).
  { intro w. rewrite stored_inv, Hh, Hpa, Hc. unfold suffix. rewrite Hskip.
    reflexivity. }
  assert (Hlead : forall w, stored child w -> exists w', w = x :: w').
  { intros w Hsw. apply Hchild in Hsw as [[_ ->]|(c & rest & _ & _ & ->)]; cbn; eauto. }
  split.
  - constructor; cbn.
    + constructor; cbn; unfold suffix; rewrite ?Hskip; cbn.
      * constructor; [intros []|constructor].
      * intros _. left. reflexivity.
      * intros k b c rest Hk Hck Hst.
        destruct k as [|k]; [|destruct k; discriminate].
        cbn in Hk, Hck. inversion Hk; inversion Hck; subst.
        destruct (Hlead _ Hst) as (w' & ->). reflexivity.
      * intros c rest [<-|[]] Hst. destruct (Hlead _ Hst) as (w' & ->). discriminate.
      * discriminate.
      * intro Ety. contradiction.
    + constructor; [|constructor]. constructor; [|now rewrite Hc].
      constructor; rewrite ?Hw, ?Hc, ?Hin, ?Ht; auto.
      * intro Hf. destruct (K2 Hf) as [?|(? & _)]; [auto|contradiction].
      * discriminate.
  - intro v.
    match goal with |- stored ?s v <-> _ =>
      rewrite (@stored_one s child v eq_refl eq_refl) end.
    cbn [path]. split.
    + intros (w & Hst & ->). apply Hchild in Hst as [[Hhd ->]|(c & rest & Hc' & Hst & ->)].
      * rewrite <- HP. now constructor.
      * rewrite app_assoc, <- HP. econstructor; eauto.
    + intro Hst. apply stored_inv in Hst as [[Hhd ->]|(c & rest & Hc' & Hst & ->)].
      * exists (x :: t). split; [|exact HP]. apply Hchild. auto.
      * exists ((x :: t) ++ rest). split; [|rewrite app_assoc, <- HP; reflexivity].
        apply Hchild. right. eauto.
Qed.

(** *** The children after [incrementChildPriority] *)

Lemma moved_inj pos np i j : np <= pos -> moved pos np i = moved pos np j -> i = j.
Proof.
  intro H. unfold moved.
  destruct (Nat.ltb_spec i np); destruct (Nat.eqb_spec i np);
    destruct (Nat.leb_spec i pos); destruct (Nat.ltb_spec j np);
    destruct (Nat.eqb_spec j np); destruct (Nat.leb_spec j pos); lia.
Qed.

Lemma moved_surj pos np j : np <= pos -> exists i, moved pos np i = j.
Proof.
  intro H.
  exists (if j <? np then j else if j =? pos then np else if j <? pos then S j else j).
  unfold moved.
  destruct (Nat.ltb_spec j np); [destruct (Nat.ltb_spec j np); lia|].
  destruct (Nat.eqb_spec j pos).
  - rewrite Nat.ltb_irrefl, Nat.eqb_refl. lia.
  - destruct (Nat.ltb_spec j pos).
    + destruct (Nat.ltb_spec (S j) np); destruct (Nat.eqb_spec (S j) np);
        destruct (Nat.leb_spec (S j) pos); lia.
    + destruct (Nat.ltb_spec j np); destruct (Nat.eqb_spec j np);
        destruct (Nat.leb_spec j pos); lia.
Qed.

Lemma find_index_none (ind : str) (b : ascii) : find_index ind b = None -> ~ In b ind.
Proof.
  induction ind as [|x ind IH]; cbn; [tauto|].
  destruct (Ascii.eqb_spec b x); [discriminate|].
  destruct (find_index ind b); [discriminate|].
  intros _ [E|E]; [congruence|]. now apply IH.
Qed.

Lemma find_index_nodup (ind : str) (b : ascii) : forall k,
  NoDup ind -> nth_error ind k = Some b -> find_index ind b = Some k.
Proof.
  induction ind as [|x ind IH]; intros k Hnd Hk; [destruct k; discriminate|].
  inversion Hnd as [|y l Hnin Hnd']; subst. cbn.
  destruct k as [|k]; cbn in Hk.
  - inversion Hk; subst. now rewrite Ascii.eqb_refl.
  - destruct (Ascii.eqb_spec b x) as [->|_].
    + exfalso. apply Hnin. eapply nth_error_In; eauto.
    + rewrite (IH k Hnd' Hk). reflexivity.
Qed.

Lemma NoDup_snoc {A : Type} (l : list A) (x : A) :
  NoDup l -> ~ In x l -> NoDup (l ++ [x]).
Proof.
  induction l as [|y l IH]; intros Hnd Hx; cbn.
  - constructor; [intros []|constructor].
  - inversion Hnd; subst. constructor.
    + intro Hin. apply in_app_or in Hin as [Hin|[->|[]]]; [contradiction|].
      apply Hx. now left.
    + apply IH; auto. intro. apply Hx. now right.
Qed.

Lemma incrementChildPriority_key n pos n1 np :
  key_inv n -> incrementChildPriority n pos = Ok (n1, np) -> key_inv n1.
Proof.
  intros [K1 K2 K3 K4 K5 K6] H.
  destruct (@incrementChildPriority_length _ n pos n1 np H) as [Hl1 Hl2].
  pose proof H as Hspec.
  apply incrementChildPriority_spec in Hspec
    as (c0 & Hc0 & Hle & Hnth & Hind & _ & _ & _ & Ht & _ & Hw & _).
  assert (Hnil : indices n = [] -> indices n1 = []).
  { intro E. rewrite E in Hl2. destruct (indices n1); [reflexivity|discriminate]. }
  assert (Hchild : forall x, In x (children n1) ->
            exists y, In y (children n) /\ path x = path y
                      /\ forall v, stored x v <-> stored y v).
  { intros x Hx. apply In_nth_error in Hx as [i Hi].
    destruct (incrementChildPriority_children _ _ _ H Hi) as (j & y & Hy & [->| ->]);
      exists y; (split; [eapply nth_error_In; eauto|]); split; try reflexivity.
    intro v. apply stored_bump. }
  constructor.
  - apply NoDup_nth_error. intros i j Hi E. rewrite !Hind in E.
    rewrite NoDup_nth_error in K1. apply (@moved_inj pos np i j Hle). apply K1; [|exact E].
    apply nth_error_Some. rewrite <- Hind. apply nth_error_Some. exact Hi.
  - rewrite Hw, Hl1, Hl2, Ht. intro Hf.
    destruct (K2 Hf) as [?|(? & E & ?)]; [left; auto|right; auto].
  - intros k b c rest Hk Hc Hst. rewrite Hind in Hk.
    rewrite Hnth, nth_error_set_nth in Hc.
    destruct (Nat.eqb_spec (moved pos np k) pos) as [E|E].
    + destruct (pos <? length (children n)); [|discriminate].
      inversion Hc; subst c. apply -> stored_bump in Hst. rewrite E in Hk.
      exact (K3 _ _ _ _ Hk Hc0 Hst).
    + exact (K3 _ _ _ _ Hk Hc Hst).
  - intros c rest Hin Hst. destruct (Hchild c Hin) as (y & Hy & _ & Hs).
    apply Hs in Hst. exact (K4 _ _ Hy Hst).
  - rewrite Hw. intro Hf. destruct (K5 Hf) as [Hi Hwc]. split; [auto|].
    intros c Hin. destruct (Hchild c Hin) as (y & Hy & -> & _). auto.
  - rewrite Ht. intros Ety b Hb. apply In_nth_error in Hb as [i Hi].
    rewrite Hind in Hi. apply (K6 Ety). eapply nth_error_In; eauto.
Qed.

Lemma stored_incr n pos n1 np (v : str) :
  incrementChildPriority n pos = Ok (n1, np) -> stored n1 v <-> stored n v.
Proof.
  intro H. pose proof H as Hspec.
  apply incrementChildPriority_spec in Hspec
    as (c0 & Hc0 & Hle & Hnth & _ & _ & _ & _ & _ & Hp & _ & Hh & _).
  rewrite !stored_inv, Hp, Hh. split.
  - intros [Hv|(x & rest & Hx & Hst & ->)]; [left; exact Hv|]. right.
    apply In_nth_error in Hx as [i Hi].
    destruct (incrementChildPriority_children _ _ _ H Hi) as (j & y & Hy & [->| ->]).
    + exists y, rest. split; [eapply nth_error_In; eauto|]. auto.
    + exists y, rest. split; [eapply nth_error_In; eauto|].
      split; [now apply -> stored_bump in Hst|reflexivity].
  - intros [Hv|(x & rest & Hx & Hst & ->)]; [left; exact Hv|]. right.
    apply In_nth_error in Hx as [j Hj].
    destruct (@moved_surj pos np j Hle) as [i Hi].
    assert (Hpos : pos < length (children n)) by (apply nth_error_Some; congruence).
    destruct (Nat.eq_dec j pos) as [->|Hne].
    + exists (bump_priority c0), rest.
      split; [|split; [apply <- stored_bump; congruence|reflexivity]].
      apply nth_error_In with (n := i). rewrite Hnth, Hi.
      now apply nth_error_set_nth_eq with (x := c0).
    + exists x, rest. split; [|auto].
      apply nth_error_In with (n := i). rewrite Hnth, Hi.
      rewrite nth_error_set_nth_neq; auto.
Qed.

(** *** A child replaced, a child added *)

Lemma nth_set_nth_cases cs k r i x :
  nth_error (set_nth cs k r) i = Some x ->
  (i = k /\ x = r) \/ (i <> k /\ nth_error cs i = Some x).
Proof.
  intro Hx. rewrite nth_error_set_nth in Hx.
  destruct (Nat.eqb_spec i k); [left|right]; auto.
  destruct (k <? length cs); [|discriminate]. split; congruence.
Qed.

Lemma replace_child_key n k ch r :
  key_inv n -> nth_error (children n) k = Some ch ->
  (forall v, stored r v ->
             v <> [] /\ forall b, nth_error (indices n) k = Some b -> hd_error v = Some b) ->
  (wildcard n = true -> path r = path ch) ->
  key_inv (set_children n (set_nth (children n) k r)).
Proof.
  intros [K1 K2 K3 K4 K5 K6] Hk Hr Hwp.
  constructor; cbn; auto.
  - rewrite length_set_nth. exact K2.
  - intros i b c rest Hi Hc Hst.
    destruct (nth_set_nth_cases _ _ _ _ Hc) as [[-> ->]|[Hne Hc']].
    + destruct (Hr _ Hst) as [_ Hb]. auto.
    + exact (K3 _ _ _ _ Hi Hc' Hst).
  - intros c rest Hin Hst. apply In_nth_error in Hin as [i Hi].
    destruct (nth_set_nth_cases _ _ _ _ Hi) as [[-> ->]|[Hne Hc']].
    + destruct (Hr _ Hst) as [Hv _]. exact Hv.
    + apply (K4 c); [eapply nth_error_In; eauto|exact Hst].
  - intro Hf. destruct (K5 Hf) as [Hi Hwc]. split; [exact Hi|].
    intros c Hin. apply In_nth_error in Hin as [i Hi'].
    destruct (nth_set_nth_cases _ _ _ _ Hi') as [[-> ->]|[Hne Hc']].
    + rewrite (Hwp Hf). apply Hwc. eapply nth_error_In; eauto.
    + apply Hwc. eapply nth_error_In; eauto.
Qed.

Lemma stored_replace n k ch r (w : str) (P : Prop) :
  nth_error (children n) k = Some ch ->
  (forall v, stored r v <-> stored ch v \/ (v = w /\ P)) ->
  forall v, stored (set_children n (set_nth (children n) k r)) v
            <-> stored n v \/ (v = path n ++ w /\ P).
Proof.
  intros Hk Hr v. rewrite !stored_inv. cbn [path handle children set_children].
  assert (Hat : nth_error (set_nth (children n) k r) k = Some r)
    by (now apply nth_error_set_nth_eq with (x := ch)).
  split.
  - intros [Hv|(x & rest & Hx & Hst & ->)]; [left; left; exact Hv|].
    apply In_nth_error in Hx as [i Hi].
    destruct (nth_set_nth_cases _ _ _ _ Hi) as [[-> ->]|[Hne Hc']].
    + apply Hr in Hst as [Hst|[-> HP]]; [|right; auto].
      left. right. exists ch, rest. split; [eapply nth_error_In; eauto|auto].
    + left. right. exists x, rest. split; [eapply nth_error_In; eauto|auto].
  - intros [[Hv|(x & rest & Hx & Hst & ->)]|[-> HP]].
    + left. exact Hv.
    + right. apply In_nth_error in Hx as [i Hi].
      destruct (Nat.eq_dec i k) as [->|Hne].
      * exists r, rest. split; [eapply nth_error_In; eauto|].
        split; [|reflexivity]. apply Hr. left. congruence.
      * exists x, rest. split; [|auto].
        apply nth_error_In with (n := i). rewrite nth_error_set_nth_neq; auto.
    + right. exists r, w. split; [eapply nth_error_In; eauto|].
      split; [|reflexivity]. apply Hr. right. auto.
Qed.

Lemma append_child_key n (b : ascii) fresh :
  key_inv n -> wildcard n = false ->
  length (indices n) = length (children n) -> find_index (indices n) b = None ->
  (typo n = Param_ -> b = slash) ->
  children fresh = [] -> handle fresh = None ->
  key_inv (set_children (set_indices n (indices n ++ [b]))
             (children (set_indices n (indices n ++ [b])) ++ [fresh])).
Proof.
  intros [K1 K2 K3 K4 K5 K6] Hw Hlen Hfind Hpar Hfc Hfh.
  assert (Hno : forall rest, ~ stored fresh rest).
  { intros rest Hst. apply stored_leaf in Hst; [|exact Hfc].
    rewrite Hfh in Hst. destruct Hst. discriminate. }
  constructor; cbn.
  - apply NoDup_snoc; [exact K1|]. now apply find_index_none.
  - intros _. left. rewrite !length_app. cbn. lia.
  - intros k x c rest Hx Hc Hst.
    destruct (Nat.lt_ge_cases k (length (children n))) as [Hlt|Hge].
    + rewrite nth_error_app1 in Hx, Hc by lia. exact (K3 _ _ _ _ Hx Hc Hst).
    + rewrite nth_error_app2 in Hc by lia.
      destruct (k - length (children n)) as [|d]; cbn in Hc.
      * inversion Hc; subst c. destruct (Hno _ Hst).
      * destruct d; discriminate.
  - intros c rest Hin Hst. apply in_app_or in Hin as [Hin|[<-|[]]].
    + exact (K4 _ _ Hin Hst).
    + destruct (Hno _ Hst).
  - rewrite Hw. discriminate.
  - intros Ety x Hx. apply in_app_or in Hx as [Hx|[<-|[]]]; auto.
Qed.

Lemma stored_append n (b : ascii) fresh (v : str) :
  children fresh = [] -> handle fresh = None ->
  stored (set_children (set_indices n (indices n ++ [b]))
            (children (set_indices n (indices n ++ [b])) ++ [fresh])) v
  <-> stored n v.
Proof.
  intros Hfc Hfh. rewrite !stored_inv. cbn. split.
  - intros [Hv|(x & rest & Hx & Hst & ->)]; [left; exact Hv|].
    apply in_app_or in Hx as [Hx|[<-|[]]]; [right; eauto|].
    apply stored_leaf in Hst; [|exact Hfc]. rewrite Hfh in Hst.
    destruct Hst. discriminate.
  - intros [Hv|(x & rest & Hx & Hst & ->)]; [left; exact Hv|].
    right. exists x, rest. split; [apply in_or_app; auto|auto].
Qed.

(** *** The walk of [register] *)

(** A successful walk keeps [key_inv], adds the pattern to those the node
    holds, and takes none away. *)
Lemma register_walk_stored abspath (h : option Handler) :
  forall fuel n (u : str) m r,
  all_nodes flag_inv n -> all_nodes key_inv n -> walk_pre n u m ->
  register_walk fuel abspath h n u m = Ok r ->
  all_nodes key_inv r
  /\ (forall v, stored r v <-> stored n v \/ (v = u /\ is_some h = true))
  /\ (firstn (length (path n)) u = path n -> path r = path n).
Proof.
  induction fuel as [|fuel IH]; intros n u m r Hf Hs Hpre H; [discriminate|].
  cbn [register_walk] in H.
  destruct (raise_fields n m) as (Rt & Rp & Rw & Rc & Ri & Rh & Rpr).
  assert (Hst0 : forall v, stored (raise_nparams n m) v <-> stored n v)
    by (intro; apply stored_raise).
  apply (all_flag_raise m) in Hf. apply (all_key_raise m) in Hs.
  destruct Hpre as [Hm Hpre].
  set (n0 := raise_nparams n m) in *.
  set (i := lcp u (path n0)) in *.
  assert (Hiu : i <= length u) by apply lcp_le_l.
  assert (Hip : i <= length (path n)) by (rewrite <- Rp; apply lcp_le_r).
  assert (Hfirst : firstn i u = firstn i (path n)) by (rewrite <- Rp; apply lcp_firstn).
  assert (Hprefix : firstn (length (path n)) u = path n -> i = length (path n)).
  { intro E. unfold i. rewrite Rp. now apply lcp_prefix. }
  assert (Hcount : (wcount (suffix u i) <= m)%Z).
  { destruct Hpre as [[Hc _]|(E & Hc & _)].
    - pose proof (wcount_skipn_le u i). unfold suffix. lia.
    - rewrite (Hprefix E). exact Hc. }
  assert (Hparam : typo n = Param_ -> forall (c : ascii) t, suffix u i = c :: t -> c = slash).
  { intros Ety c t Hu. destruct Hpre as [[_ Hne]|(E & _ & Hsl)]; [contradiction|].
    rewrite (Hprefix E) in Hu. apply skipn_cons_inv in Hu as (_ & Hnth & Hlt).
    destruct Hsl as [Hsl|Hsl]; [lia|congruence]. }
  set (n1 := if i <? length (path n0) then split_edge n0 u i else n0) in *.
  assert (Hn1 : all_nodes flag_inv n1 /\ all_nodes key_inv n1
                /\ typo n1 = typo n /\ path n1 = firstn i u
                /\ (forall v, stored n1 v <-> stored n v)
                /\ (firstn (length (path n)) u = path n -> path n1 = path n)).
  { unfold n1. rewrite Rp. destruct (Nat.ltb_spec i (length (path n))) as [Hlt|Hge].
    - assert (Hnp : typo n0 <> Param_).
      { rewrite Rt. destruct Hpre as [[_ Hne]|(E & _)]; [exact Hne|].
        apply Hprefix in E. lia. }
      assert (Hlt0 : i < length (path n0)) by (rewrite Rp; exact Hlt).
      assert (Hfirst0 : firstn i u = firstn i (path n0)) by (rewrite Rp; exact Hfirst).
      destruct (@split_edge_key n0 u i Hs Hlt0 Hnp Hfirst0) as [Sk Ss].
      split; [apply split_edge_flag; [exact Hf|exact Hlt0]|].
      split; [exact Sk|]. split; [exact Rt|]. split; [reflexivity|].
      split; [intro v; rewrite Ss; apply Hst0|].
      intro E. apply Hprefix in E. lia.
    - split; [exact Hf|]. split; [exact Hs|]. split; [exact Rt|].
      split; [rewrite Hfirst, firstn_all2 by lia; exact Rp|].
      split; [exact Hst0|intros _; exact Rp]. }
  destruct Hn1 as (Hf1 & Hs1 & Ht1 & Hpath1 & Hst1 & Hpathp).
  rewrite <- Ht1 in Hparam.
  assert (Hu : u = path n1 ++ suffix u i).
  { rewrite Hpath1. symmetry. apply firstn_skipn. }
  assert (Hlen' : length (suffix u i) = length u - i) by apply length_skipn.
  assert (Hcore : all_nodes key_inv r
                  /\ (forall v, stored r v
                                <-> stored n1 v
                                    \/ (v = path n1 ++ suffix u i /\ is_some h = true))
                  /\ path r = path n1).
  2:{ destruct Hcore as (C1 & C2 & C3). split; [exact C1|]. split.
      - intro v. rewrite C2, Hst1, <- Hu. reflexivity.
      - intro E. rewrite C3. auto. }
  clear Hu Hpathp Hpath1 Hst1 Ht1 Hprefix Hfirst Hip Hpre Rt Rp Rw Rc Ri Rh Rpr Hf Hs Hst0.
  clearbody n1 i. clear n0.
  pose proof (all_nodes_inv Hf1) as [Hfl Hfcs].
  pose proof (all_nodes_inv Hs1) as [Hki Hkcs].
  destruct (Nat.ltb_spec i (length u)) as [Hilt|Hige].
  2:{ destruct (handle n1) eqn:Hh; [discriminate|]. inversion H; subst r; clear H.
      assert (Hnil : suffix u i = []).
      { destruct (suffix u i); [reflexivity|]. cbn in Hlen'. lia. }
      rewrite Hnil, app_nil_r.
      split; [revert Hs1; apply all_key_ext; reflexivity|]. split; [|reflexivity].
      intro v. rewrite !stored_inv, Hh. cbn. split.
      - intros [[Hv ->]|Hv]; [right; auto|left; right; exact Hv].
      - intros [[[Hv _]|Hv]|[-> Hv]]; [discriminate|right; exact Hv|left; auto]. }
  assert (Hne : suffix u i <> []).
  { intro E. rewrite E in Hlen'. cbn in Hlen'. lia. }
  clear Hlen' Hilt Hiu.
  set (u' := suffix u i) in *. clearbody u'.
  destruct (wildcard n1) eqn:Hw.
  - (* the wildcard child *)
    destruct (children n1) as [|c rest] eqn:Hch; [discriminate|].
    destruct Hfl as [Hfl1 _]. destruct (Hfl1 Hw) as (c0 & Hc0 & _).
    rewrite Hch in Hc0. inversion Hc0; subst c0 rest. clear Hc0.
    destruct (raise_fields (bump_priority c) m) as (Ct & Cp & Cw & Cc & Ci & Ch & Cpr).
    set (c' := raise_nparams (bump_priority c) m) in *.
    cbn in Ct, Cp, Cpr.
    match type of H with (if ?b then _ else _) = _ => destruct b eqn:Hcheck; [|discriminate] end.
    apply andb_true_iff in Hcheck as [Hcheck E3].
    apply andb_true_iff in Hcheck as [E1 E2].
    apply Nat.leb_le in E1. apply str_eqb_eq in E2.
    match type of H with bind ?m _ = _ => destruct m as [r0| | |] eqn:Hr0 end;
      try discriminate.
    cbn [bind] in H. inversion H; subst r; clear H.
    assert (Hcin : In c (children n1)) by (rewrite Hch; cbn; auto).
    destruct (ki_wild Hki Hw) as [Hinil Hcw]. specialize (Hcw c Hcin).
    assert (Hm1 : (1 <= m)%Z).
    { rewrite (wcount_split u' (length (path c'))), <- E2, Cp in Hcount.
      pose proof (wcount_nonneg (skipn (length (path c)) u')). lia. }
    assert (Hsc : forall v, stored c' v <-> stored c v).
    { intro v. unfold c'. rewrite stored_raise. apply stored_bump. }
    apply IH in Hr0 as (R1 & R2 & R3).
    + specialize (R3 (eq_sym E2)).
      assert (Hk0 : nth_error (children n1) 0 = Some c) by (rewrite Hch; reflexivity).
      change [r0] with (set_nth [c] 0 r0). rewrite <- Hch.
      split; [|split; [|reflexivity]].
      * constructor.
        -- apply (@replace_child_key n1 0 c r0 Hki Hk0).
           ++ intros v Hv. split.
              ** apply R2 in Hv as [Hv|[-> _]]; [|exact Hne].
                 apply Hsc in Hv. exact (@ki_some _ n1 Hki c v Hcin Hv).
              ** intros b Hb. rewrite Hinil in Hb. discriminate.
           ++ intros _. congruence.
        -- cbn. rewrite Hch. cbn. constructor; [exact R1|constructor].
      * apply (@stored_replace n1 0 c r0 u' (is_some h = true) Hk0).
        intro v. rewrite R2, Hsc. reflexivity.
    + apply all_flag_raise, all_flag_bump. now inversion Hfcs.
    + apply all_key_raise, all_key_bump. now inversion Hkcs.
    + split; [apply decr8_range|]. right. split; [now symmetry|]. split.
      * rewrite decr8_small by lia.
        rewrite (wcount_split u' (length (path c'))), <- E2, Cp in Hcount.
        rewrite Cp. lia.
      * apply orb_true_iff in E3 as [E3|E3].
        -- left. now apply Nat.leb_le.
        -- right. destruct (nth_error u' (length (path c'))); [|discriminate].
           apply Ascii.eqb_eq in E3. congruence.
  - destruct u' as [|c t] eqn:Hu; [discriminate|].
    destruct Hfl as [_ Hfl0]. specialize (Hfl0 Hw).
    assert (Hcw : is_wild c = true -> (1 <= m)%Z).
    { intro Hc. pose proof (wcount_cons_wild c t Hc). lia. }
    match type of H with (if ?b then _ else _) = _ => destruct b eqn:Hslash end.
    + (* the slash after a parameter *)
      apply andb_true_iff in Hslash as [Hslash E3].
      apply andb_true_iff in Hslash as [Ety Ec].
      apply Nat.eqb_eq in E3. apply Ascii.eqb_eq in Ec.
      assert (Ety' : typo n1 = Param_) by (destruct (typo n1); try discriminate; reflexivity).
      destruct (children n1) as [|ch rest] eqn:Hch; [discriminate|].
      destruct rest; [|discriminate].
      match type of H with bind ?m _ = _ => destruct m as [r0| | |] eqn:Hr0 end;
        try discriminate.
      cbn [bind] in H. inversion H; subst r; clear H.
      assert (Hcin : In ch (children n1)) by (rewrite Hch; cbn; auto).
      assert (Hk0 : nth_error (children n1) 0 = Some ch) by (rewrite Hch; reflexivity).
      apply IH in Hr0 as (R1 & R2 & R3).
      * change [r0] with (set_nth [ch] 0 r0). rewrite <- Hch.
        split; [|split; [|reflexivity]].
        -- constructor.
           ++ apply (@replace_child_key n1 0 ch r0 Hki Hk0).
              ** intros v Hv. apply R2 in Hv as [Hv|[-> _]].
                 --- apply -> stored_bump in Hv. split; [exact (@ki_some _ n1 Hki ch v Hcin Hv)|].
                     intros b Hb. exact (@ki_lead _ n1 Hki 0 b ch v Hb Hk0 Hv).
                 --- split; [discriminate|]. intros b Hb. cbn.
                     rewrite (@ki_param _ n1 Hki Ety' b); [congruence|].
                     eapply nth_error_In; eauto.
              ** rewrite Hw. discriminate.
           ++ cbn. rewrite Hch. cbn. constructor; [exact R1|constructor].
        -- apply (@stored_replace n1 0 ch r0 (c :: t) (is_some h = true) Hk0).
           intro v. rewrite R2, stored_bump. reflexivity.
      * apply all_flag_bump. now inversion Hfcs.
      * apply all_key_bump. now inversion Hkcs.
      * split; [exact Hm|]. left. split; [exact Hcount|]. cbn.
        destruct (Hfl0 ch) as [Hnp _]; [left; reflexivity|exact Hnp].
    + destruct (find_index (indices n1) c) as [k|] eqn:Hfind.
      * (* an indexed child *)
        destruct (incrementChildPriority n1 k) as [[n2 k1]| | |] eqn:Hinc; try discriminate.
        cbn [bind] in H.
        destruct (nth_error (children n2) k1) as [ch|] eqn:Hk1; [|discriminate].
        match type of H with bind ?m _ = _ => destruct m as [r0| | |] eqn:Hr0 end;
          try discriminate.
        cbn [bind] in H. inversion H; subst r; clear H.
        pose proof (@incrementChildPriority_key n1 k n2 k1 Hki Hinc) as Hki2.
        assert (Hfcs2 : Forall (all_nodes flag_inv) (children n2))
          by (eapply incrementChildPriority_Forall; eauto using all_flag_bump).
        assert (Hkcs2 : Forall (all_nodes key_inv) (children n2))
          by (eapply incrementChildPriority_Forall; eauto using all_key_bump).
        pose proof Hinc as Hspec.
        apply incrementChildPriority_spec in Hspec
          as (c0 & Hc0 & Hle & Hnth & Hind & _ & _ & _ & Ht2 & Hp2 & Hw2 & _).
        assert (Hmv : moved k k1 k1 = k) by (apply moved_at; auto).
        assert (Hchb : ch = bump_priority c0).
        { rewrite Hnth, Hmv in Hk1.
          erewrite nth_error_set_nth_eq in Hk1 by eauto. congruence. }
        assert (Hc0in : In c0 (children n1)) by (eapply nth_error_In; eauto).
        assert (Hidx : nth_error (indices n2) k1 = Some c).
        { rewrite Hind, Hmv. now apply find_index_some. }
        rewrite Forall_nth_error in Hfcs2, Hkcs2.
        apply IH in Hr0 as (R1 & R2 & R3).
        -- split; [|split; [|cbn; exact Hp2]].
           ++ constructor.
              ** apply (@replace_child_key n2 k1 ch r0 Hki2 Hk1).
                 --- intros v Hv. apply R2 in Hv as [Hv|[-> _]].
                     +++ split.
                         *** apply (@ki_some _ n2 Hki2 ch v); [eapply nth_error_In; eauto|exact Hv].
                         *** intros b Hb. exact (@ki_lead _ n2 Hki2 k1 b ch v Hb Hk1 Hv).
                     +++ split; [discriminate|]. intros b Hb. cbn. congruence.
                 --- rewrite Hw2, Hw. discriminate.
              ** cbn. apply Forall_set_nth; [|exact R1].
                 apply Forall_nth_error. eauto.
           ++ intro v.
              rewrite (@stored_replace n2 k1 ch r0 (c :: t) (is_some h = true) Hk1 R2 v).
              rewrite (@stored_incr n1 k n2 k1 v Hinc), Hp2. reflexivity.
        -- eauto.
        -- eauto.
        -- split; [exact Hm|]. left. split; [exact Hcount|].
           rewrite Hchb. cbn. destruct (Hfl0 c0 Hc0in) as [Hnp _]. exact Hnp.
      * destruct (is_wild c) eqn:Hwild; cbn [negb] in H.
        -- (* a wildcard under this node *)
           specialize (Hcw eq_refl). pose proof H as H0. unfold insertChild in H0.
           assert (Hnil : children n1 = [])
             by (eapply insertChild_wild_children with (m := m); [exact Hwild|lia|exact H0]).
           assert (Hinil : indices n1 = []).
           { destruct (ki_len Hki Hw) as [Hl|(_ & Hl & _)]; [|exact Hl].
             rewrite Hnil in Hl. destruct (indices n1); [reflexivity|discriminate]. }
           destruct (@insertChild_wild_stored (c :: t) abspath h c t n1 m r
                       eq_refl Hwild ltac:(lia) Hinil H) as (_ & Rp & Rk & Rs).
           split; [exact Rk|]. split; [exact Rs|exact Rp].
        -- (* a new child *)
           assert (Hpar : length (indices n1) = length (children n1)).
           { destruct (ki_len Hki Hw) as [Hl|(Hty & _ & Hl)]; [exact Hl|].
             exfalso. rewrite Hty, Hl in Hslash. cbn in Hslash.
             rewrite (Hparam Hty c t eq_refl) in Hslash. discriminate. }
           set (fresh := set_nparams empty_node m) in *.
           assert (Hparc : typo n1 = Param_ -> c = slash)
             by (intro Hty; exact (Hparam Hty c t eq_refl)).
           pose proof (@append_child_key n1 c fresh Hki Hw Hpar Hfind Hparc eq_refl eq_refl)
             as Hki2.
           pose proof (fun v => @stored_append n1 c fresh v eq_refl eq_refl) as Hst2.
           set (n2 := set_children (set_indices n1 (indices n1 ++ [c]))
                        (children (set_indices n1 (indices n1 ++ [c])) ++ [fresh])) in *.
           match type of H with bind ?m _ = _ => destruct m as [[n3 k1]| | |] eqn:Hinc end;
             try discriminate.
           cbn [bind] in H.
           assert (Hlen2 : length (indices n2) = length (children n2)).
           { unfold n2. cbn. rewrite !length_app. cbn. lia. }
           assert (Hfresh : forall ch,
                     nth_error (children n3)
                       (if Nat.eqb (length (indices n2) - 1) (length (children n2) - 1)
                        then k1 else length (children n2) - 1) = Some ch ->
                     ch = fresh \/ ch = bump_priority fresh)
             by (intros ch0 Hch0; eapply new_child_is_fresh; eauto).
           rewrite Hlen2, Nat.eqb_refl in H, Hfresh.
           destruct (nth_error (children n3) k1) as [ch|] eqn:Hat; [|discriminate].
           specialize (Hfresh ch eq_refl).
           match type of H with bind ?m _ = _ => destruct m as [r0| | |] eqn:Hr0 end;
             try discriminate.
           cbn [bind] in H. inversion H; subst r; clear H.
           pose proof (@incrementChildPriority_key n2 _ n3 k1 Hki2 Hinc) as Hki3.
           assert (Hkcs2 : Forall (all_nodes key_inv) (children n2)).
           { unfold n2. cbn. apply Forall_app. split; [exact Hkcs|].
             constructor; [|constructor]. apply all_key_leaf; reflexivity. }
           assert (Hkcs3 : Forall (all_nodes key_inv) (children n3))
             by (eapply incrementChildPriority_Forall; eauto using all_key_bump).
           pose proof Hinc as Hspec.
           apply incrementChildPriority_spec in Hspec
             as (c0 & Hc0 & Hle & Hnth & Hind & _ & _ & _ & Ht3 & Hp3 & Hw3 & _).
           assert (Hidx : nth_error (indices n3) k1 = Some c).
           { rewrite Hind.
             assert (Hmv : moved (length (indices n2) - 1) k1 k1 = length (indices n2) - 1)
               by (apply moved_at; auto).
             rewrite Hmv. unfold n2. cbn.
             rewrite length_app, nth_error_app2 by (cbn; lia).
             replace (length (indices n1) + length [c] - 1 - length (indices n1))
               with 0 by (cbn; lia).
             reflexivity. }
           unfold insertChild in Hr0.
           apply insertChild_from_stored in Hr0; auto.
           2,3,4,5,6: destruct Hfresh as [-> | ->]; reflexivity.
           destruct Hr0 as [R1 R2].
           assert (Hno : forall v, ~ stored ch v).
           { intros v Hv. apply stored_leaf in Hv.
             - destruct Hv as [Hv _]. destruct Hfresh as [-> | ->]; discriminate.
             - destruct Hfresh as [-> | ->]; reflexivity. }
           split; [|split; [|cbn; rewrite Hp3; reflexivity]].
           ++ constructor.
              ** apply (@replace_child_key n3 k1 ch r0 Hki3 Hat).
                 --- intros v Hv. apply R2 in Hv as [_ ->]. cbn.
                     split; [discriminate|]. intros b Hb. congruence.
                 --- rewrite Hw3. unfold n2. cbn. rewrite Hw. discriminate.
              ** cbn. apply Forall_set_nth; [exact Hkcs3|exact R1].
           ++ intro v.
              rewrite (@stored_replace n3 k1 ch r0 (c :: t) (is_some h = true) Hat).
              ** rewrite (@stored_incr n2 _ n3 k1 v Hinc), Hst2, Hp3. reflexivity.
              ** intro w. rewrite R2. cbn. split.
                 --- intros [Hh ->]. right. auto.
                 --- intros [Hv|[-> Hh]]; [destruct (Hno _ Hv)|auto].
Qed.

(** *** A pattern that the tree holds is refused *)

Lemma depth_ext n n' : children n' = children n -> depth n' = depth n.
Proof. destruct n, n'. cbn. now intros ->. Qed.

Lemma incrementChildPriority_total n pos c :
  nth_error (children n) pos = Some c -> pos < length (indices n) ->
  exists n1 np, incrementChildPriority n pos = Ok (n1, np).
Proof.
  intros Hc Hlt. unfold incrementChildPriority. rewrite Hc.
  destruct (bubble _ _ _) as [cs newPos].
  destruct (Nat.eqb newPos pos); [eauto|].
  destruct (Nat.ltb_spec (length (indices n)) (S pos)); [lia|eauto].
Qed.

(** The walk for a pattern that the node holds ends in a panic. *)
Lemma register_walk_dup abspath (h : option Handler) :
  forall fuel n (u : str) m,
  all_nodes flag_inv n -> all_nodes key_inv n -> walk_pre n u m ->
  stored n u -> depth n < fuel ->
  exists msg, register_walk fuel abspath h n u m = Panic msg.
Proof.
  induction fuel as [|fuel IH]; intros n u m Hf Hs Hpre Hst Hd; [lia|].
  cbn [register_walk].
  destruct (raise_fields n m) as (Rt & Rp & Rw & Rc & Ri & Rh & Rpr).
  destruct Hpre as [Hm Hpre].
  pose proof (all_nodes_inv Hf) as [Hfl Hfcs].
  pose proof (all_nodes_inv Hs) as [Hki Hkcs].
  set (n0 := raise_nparams n m) in *.
  assert (Hpfx : firstn (length (path n)) u = path n).
  { apply stored_inv in Hst as [[_ ->]|(c & rest & _ & _ & ->)].
    - apply firstn_all.
    - apply firstn_length_app. }
  assert (Hi : lcp u (path n0) = length (path n)).
  { rewrite Rp. now apply lcp_prefix. }
  rewrite Hi, Rp, Nat.ltb_irrefl.
  assert (Hcount : (wcount (suffix u (length (path n))) <= m)%Z).
  { destruct Hpre as [[Hc _]|(E & Hc & _)]; [|exact Hc].
    pose proof (wcount_skipn_le u (length (path n))). unfold suffix. lia. }
  assert (Hparam : typo n = Param_ ->
            forall (c : ascii) t, suffix u (length (path n)) = c :: t -> c = slash).
  { intros Ety c t Hu. destruct Hpre as [[_ Hne]|(E & _ & Hsl)]; [contradiction|].
    apply skipn_cons_inv in Hu as (_ & Hnth & Hlt).
    destruct Hsl as [Hsl|Hsl]; [lia|congruence]. }
  apply stored_inv in Hst as [[Hh ->]|(c & rest & Hcin & Hsc & ->)].
  - rewrite Nat.ltb_irrefl, Rh. destruct (handle n); [eauto|discriminate].
  - pose proof (@ki_some _ n Hki c rest Hcin Hsc) as Hne.
    assert (Hlt : length (path n) < length (path n ++ rest)).
    { rewrite length_app. destruct rest; [contradiction|cbn; lia]. }
    apply Nat.ltb_lt in Hlt. rewrite Hlt. clear Hlt.
    unfold suffix in *. rewrite skipn_length_app in *.
    assert (Hdc : forall x, In x (children n) -> depth x < fuel).
    { intros x Hx. apply depth_child in Hx. lia. }
    rewrite Rw, Rc, Ri, Rt.
    destruct (wildcard n) eqn:Hw.
    + (* the wildcard child *)
      destruct Hfl as [Hfl1 _]. destruct (Hfl1 Hw) as (c0 & Hc0 & _).
      rewrite Hc0 in Hcin |- *. destruct Hcin as [<-|[]].
      destruct (raise_fields (bump_priority c0) m) as (Ct & Cp & Cw & Cc & Ci & Ch & Cpr).
      set (c' := raise_nparams (bump_priority c0) m) in *.
      cbn in Ct, Cp, Cc.
      match goal with |- context [if ?b then _ else _] => destruct b eqn:Hcheck end;
        [|eauto].
      apply andb_true_iff in Hcheck as [Hcheck E3].
      apply andb_true_iff in Hcheck as [E1 E2].
      apply Nat.leb_le in E1. apply str_eqb_eq in E2.
      assert (Hc0in : In c0 (children n)) by (rewrite Hc0; cbn; auto).
      destruct (ki_wild Hki Hw) as [_ Hcw]. specialize (Hcw c0 Hc0in).
      assert (Hm1 : (1 <= m)%Z).
      { rewrite (wcount_split rest (length (path c'))), <- E2, Cp in Hcount.
        pose proof (wcount_nonneg (skipn (length (path c0)) rest)). lia. }
      destruct (IH c' rest (decr8 m)) as [msg Hmsg].
      * apply all_flag_raise, all_flag_bump. rewrite Hc0 in Hfcs. now inversion Hfcs.
      * apply all_key_raise, all_key_bump. rewrite Hc0 in Hkcs. now inversion Hkcs.
      * split; [apply decr8_range|]. right. split; [now symmetry|]. split.
        -- rewrite decr8_small by lia.
           rewrite (wcount_split rest (length (path c'))), <- E2, Cp in Hcount.
           rewrite Cp. lia.
        -- apply orb_true_iff in E3 as [E3|E3].
           ++ left. now apply Nat.leb_le.
           ++ right. destruct (nth_error rest (length (path c'))); [|discriminate].
              apply Ascii.eqb_eq in E3. congruence.
      * unfold c'. apply <- stored_raise. apply <- stored_bump. exact Hsc.
      * rewrite (@depth_ext (bump_priority c0) c' Cc),
          (@depth_ext c0 (bump_priority c0) eq_refl). auto.
      * rewrite Hmsg. cbn [bind]. eauto.
    + destruct rest as [|b t]; [contradiction|].
      destruct Hfl as [_ Hfl0]. specialize (Hfl0 Hw).
      assert (Hstep : forall ch, In ch (children n) -> stored ch (b :: t) ->
                exists msg, register_walk fuel abspath h (bump_priority ch) (b :: t) m
                            = Panic msg).
      { intros ch Hch Hsch. apply IH.
        - apply all_flag_bump. rewrite Forall_forall in Hfcs. auto.
        - apply all_key_bump. rewrite Forall_forall in Hkcs. auto.
        - split; [exact Hm|]. left. split; [exact Hcount|]. cbn.
          destruct (Hfl0 ch Hch) as [Hnp _]. exact Hnp.
        - apply <- stored_bump. exact Hsch.
        - rewrite (@depth_ext ch (bump_priority ch) eq_refl). auto. }
      match goal with |- context [if ?b then _ else _] => destruct b eqn:Hslash end.
      * (* the slash after a parameter *)
        apply andb_true_iff in Hslash as [_ E3]. apply Nat.eqb_eq in E3.
        destruct (children n) as [|ch l] eqn:Hch; [discriminate|].
        destruct l; [|discriminate]. destruct Hcin as [<-|[]].
        destruct (Hstep ch (or_introl eq_refl) Hsc) as [msg Hmsg].
        rewrite Hmsg. cbn [bind]. eauto.
      * apply In_nth_error in Hcin as [k Hk].
        assert (Hidx : nth_error (indices n) k = Some b).
        { destruct (ki_len Hki Hw) as [Hl|(Hty & _ & Hl)].
          - assert (Hkl : k < length (indices n))
              by (rewrite Hl; apply nth_error_Some; congruence).
            apply nth_error_Some in Hkl.
            destruct (nth_error (indices n) k) as [x|] eqn:Hx; [|contradiction].
            pose proof (@ki_lead _ n Hki k x c (b :: t) Hx Hk Hsc) as Hb.
            cbn in Hb. congruence.
          - exfalso. rewrite Hty, Hl in Hslash. cbn in Hslash.
            rewrite (Hparam Hty b t eq_refl) in Hslash. discriminate. }
        rewrite (@find_index_nodup (indices n) b k (ki_nodup Hki) Hidx).
        assert (Hkl : k < length (indices n)) by (apply nth_error_Some; congruence).
        assert (Hk0 : nth_error (children n0) k = Some c) by (rewrite Rc; exact Hk).
        assert (Hkl0 : k < length (indices n0)) by (rewrite Ri; exact Hkl).
        destruct (@incrementChildPriority_total n0 k c Hk0 Hkl0) as (n2 & k1 & Hinc).
        rewrite Hinc. cbn [bind].
        pose proof Hinc as Hspec.
        apply incrementChildPriority_spec in Hspec as (c0 & Hc0 & Hle & Hnth & _).
        assert (Hmv : moved k k1 k1 = k) by (apply moved_at; auto).
        assert (Hk1 : nth_error (children n2) k1 = Some (bump_priority c)).
        { rewrite Hnth, Hmv. rewrite Hk0 in Hc0. inversion Hc0; subst c0.
          now apply nth_error_set_nth_eq with (x := c). }
        rewrite Hk1.
        destruct (Hstep c (nth_error_In _ _ Hk) Hsc) as [msg Hmsg].
        rewrite Hmsg. cbn [bind]. eauto.
Qed.

(** *** The messages of the panics *)

Lemma contains_here (s post : str) : contains (s ++ post) s.
Proof. exists [], post. reflexivity. Qed.

Lemma contains_app_r (a b s : str) : contains b s -> contains (a ++ b) s.
Proof. intros (pre & post & ->). exists (a ++ pre), post. now rewrite app_assoc. Qed.

Ltac msg_contains :=
  unfold msg_conflict_wildcard, msg_duplicate, msg_one_wildcard, msg_conflict_children,
    msg_unnamed, msg_catchall_end, msg_catchall_root, msg_no_slash;
  repeat first [apply contains_here | apply contains_app_r].

Ltac panic_here H := inversion H; subst; msg_contains.

Lemma insertChild_from_panic_msg uripath abspath (h : option Handler) :
  forall rest i offset n m msg,
  insertChild_from uripath abspath h rest i offset n m = Panic msg ->
  contains msg abspath.
Proof.
  induction rest as [|c rest IH]; intros i offset n m msg H; cbn [insertChild_from] in H.
  - destruct (0 <? m)%Z; discriminate.
  - destruct (0 <? m)%Z; [|discriminate].
    destruct (negb (is_wild c)); [eauto|].
    destruct (find_end rest (S i)) as [e|]; [|panic_here H].
    destruct (0 <? length (children n)); [panic_here H|].
    destruct (e - i <? 2); [panic_here H|].
    destruct (Ascii.eqb c colon).
    + destruct (e <? length uripath).
      * match type of H with bind ?m _ = _ => destruct m as [r0|s| |] eqn:Hr0 end;
          try discriminate.
        cbn [bind] in H. inversion H; subst. eauto.
      * match type of H with bind ?m _ = _ => destruct m as [r0|s| |] eqn:Hr0 end;
          try discriminate.
        cbn [bind] in H. inversion H; subst. eauto.
    + destruct (negb (Nat.eqb e (length uripath)) || (1 <? m)%Z); [panic_here H|].
      destruct (last_is_slash (path n)); [panic_here H|].
      destruct i as [|j]; [discriminate|].
      destruct (nth_error uripath j) as [sl|]; [|discriminate].
      destruct (negb (Ascii.eqb sl slash)); [panic_here H|discriminate].
Qed.

Lemma incrementChildPriority_no_panic n pos msg :
  incrementChildPriority n pos <> Panic msg.
Proof.
  unfold incrementChildPriority. destruct (nth_error (children n) pos); [|discriminate].
  destruct (bubble _ _ _) as [cs newPos].
  destruct (Nat.eqb newPos pos); [discriminate|].
  destruct (length (indices n) <? S pos); discriminate.
Qed.

(** Every panic of [register] names the pattern. *)
Lemma register_walk_panic_msg abspath (h : option Handler) :
  forall fuel n (u : str) m msg,
  register_walk fuel abspath h n u m = Panic msg -> contains msg abspath.
Proof.
  induction fuel as [|fuel IH]; intros n u m msg H; [discriminate|].
  cbn [register_walk] in H.
  set (n0 := raise_nparams n m) in *. set (i := lcp u (path n0)) in *.
  set (n1 := if i <? length (path n0) then split_edge n0 u i else n0) in *.
  clearbody n1 i.
  destruct (i <? length u).
  2:{ destruct (handle n1); [panic_here H|discriminate]. }
  set (u' := suffix u i) in *. clearbody u'.
  destruct (wildcard n1).
  - destruct (children n1) as [|c rest]; [discriminate|].
    match type of H with (if ?b then _ else _) = _ => destruct b end; [|panic_here H].
    match type of H with bind ?m _ = _ => destruct m as [r0|s| |] eqn:Hr0 end;
      try discriminate.
    cbn [bind] in H. inversion H; subst. eauto.
  - destruct u' as [|c t]; [discriminate|].
    match type of H with (if ?b then _ else _) = _ => destruct b end.
    + destruct (children n1) as [|ch rest]; [discriminate|].
      match type of H with bind ?m _ = _ => destruct m as [r0|s| |] eqn:Hr0 end;
        try discriminate.
      cbn [bind] in H. inversion H; subst. eauto.
    + destruct (find_index (indices n1) c) as [k|].
      * destruct (incrementChildPriority n1 k) as [[n2 k1]|s| |] eqn:Hinc;
          try discriminate.
        2:{ destruct (incrementChildPriority_no_panic _ _ Hinc). }
        cbn [bind] in H.
        destruct (nth_error (children n2) k1) as [ch|]; [|discriminate].
        match type of H with bind ?m _ = _ => destruct m as [r0|s| |] eqn:Hr0 end;
          try discriminate.
        cbn [bind] in H. inversion H; subst. eauto.
      * destruct (is_wild c); cbn [negb] in H.
        -- unfold insertChild in H. eapply insertChild_from_panic_msg; eauto.
        -- match type of H with bind ?m _ = _ =>
             destruct m as [[n3 k1]|s| |] eqn:Hinc end; try discriminate.
           2:{ destruct (incrementChildPriority_no_panic _ _ Hinc). }
           cbn [bind] in H.
           match type of H with match ?x with _ => _ end = _ =>
             destruct x as [ch|] end; [|discriminate].
           match type of H with bind ?m _ = _ => destruct m as [r0|s| |] eqn:Hr0 end;
             try discriminate.
           cbn [bind] in H. inversion H; subst.
           unfold insertChild in Hr0. eapply insertChild_from_panic_msg; eauto.
Qed.

(** *** Trees built by insertion *)

Lemma register_stored n (p : str) (h : option Handler) r :
  all_nodes flag_inv n -> all_nodes key_inv n -> typo n <> Param_ ->
  (forall v, stored n v -> v <> []) ->
  (wcount p <= 255)%Z ->
  register n p h = Ok r ->
  all_nodes key_inv r /\ typo r <> Param_
  /\ (forall v, stored r v <-> stored n v \/ (v = p /\ is_some h = true)).
Proof.
  intros Hf Hk Hty Hne Hcnt H. unfold register in H.
  rewrite (countParams_small p Hcnt) in H.
  destruct (_ || _) eqn:E.
  - pose proof H as H0. apply register_walk_flag in H0 as [_ Ht]; [|now apply all_flag_bump].
    apply register_walk_stored in H as (R1 & R2 & _).
    + split; [exact R1|]. split; [rewrite Ht; exact Hty|].
      intro v. rewrite R2, stored_bump. reflexivity.
    + now apply all_flag_bump.
    + now apply all_key_bump.
    + split; [pose proof (wcount_nonneg p); lia|]. left. split; [lia|exact Hty].
  - apply orb_false_iff in E as [E1 E2]. cbn in E1, E2.
    apply length_zero_nil in E1. apply length_zero_nil in E2.
    pose proof (all_nodes_inv Hf) as [Hfl _].
    pose proof (all_nodes_inv Hk) as [Hki _].
    pose proof (flag_inv_no_children Hfl E2) as Hw.
    assert (Hinil : indices n = []).
    { destruct (ki_len Hki Hw) as [Hl|(? & _)]; [|contradiction].
      rewrite E2 in Hl. destruct (indices n); [reflexivity|discriminate]. }
    assert (Hh : handle n = None).
    { destruct (handle n) eqn:Hh; [|reflexivity]. exfalso.
      apply (Hne (path n)); [|exact E1]. constructor. now rewrite Hh. }
    unfold insertChild in H. pose proof H as H0.
    apply insertChild_from_sorted with (B := 1%Z) in H0; auto; try lia.
    destruct H0 as (_ & _ & Ht & _).
    apply insertChild_from_stored in H as [R1 R2]; auto.
    split; [exact R1|]. split; [rewrite Ht; discriminate|].
    intro v. rewrite R2. unfold suffix. cbn [skipn]. split.
    + intros [Hv ->]. right. auto.
    + intros [Hv|[-> Hv]]; [|auto]. exfalso.
      apply stored_leaf in Hv; [|exact E2]. rewrite Hh in Hv. destruct Hv. discriminate.
Qed.

Lemma insert_all_stored (rs : list (str * option Handler)) : forall t t' : node Handler,
  all_nodes flag_inv t -> all_nodes key_inv t -> typo t <> Param_ ->
  (forall v, stored t v -> v <> []) ->
  Forall (fun pr : str * option Handler =>
            fst pr <> [] /\ (wcount (fst pr) <= 255)%Z) rs ->
  insert_all t rs = Ok t' ->
  (all_nodes flag_inv t' /\ all_nodes key_inv t' /\ typo t' <> Param_
   /\ (forall v, stored t' v -> v <> []))
  /\ (forall v, stored t v -> stored t' v)
  /\ (forall (p : str) (x : Handler), In (p, Some x) rs -> stored t' p).
Proof.
  induction rs as [|[p h] rs IH]; intros t t' Hf Hk Hty Hne Hall H; cbn in H.
  - inversion H; subst. split; [auto|]. split; [auto|]. intros p x [].
  - destruct (register t p h) as [t1| | |] eqn:E; try discriminate. cbn [bind] in H.
    inversion Hall as [|y ys [Hp Hcnt] Hys]; subst. cbn [fst] in Hp, Hcnt.
    pose proof (register_flag _ _ Hf E) as Hf1.
    destruct (@register_stored t p h t1 Hf Hk Hty Hne Hcnt E) as (Hk1 & Hty1 & Hs1).
    assert (Hne1 : forall v, stored t1 v -> v <> []).
    { intros v Hv. apply Hs1 in Hv as [Hv|[-> _]]; auto. }
    destruct (IH t1 t' Hf1 Hk1 Hty1 Hne1 Hys H) as (I1 & I2 & I3).
    split; [exact I1|]. split.
    + intros v Hv. apply I2, Hs1. auto.
    + intros q x [Hq|Hq].
      * inversion Hq; subst. apply I2, Hs1. right. auto.
      * eauto.
Qed.

(** C9.  When a pattern is registered with a handler in a tree built by
    successful insertions (of non-empty patterns with at most 255
    wildcards each), a further insertion of the same pattern panics, with
    a message that contains the pattern. *)
Theorem C9_duplicate_panics (rs : list (str * option Handler)) t
    (p : str) (x : Handler) (h : option Handler) :
  build rs = Ok t ->
  Forall (fun pr : str * option Handler =>
            fst pr <> [] /\ (wcount (fst pr) <= 255)%Z) rs ->
  In (p, Some x) rs ->
  exists msg, register t p h = Panic msg /\ contains msg p.
Proof.
  intros Hb Hall Hin.
  assert (Hp : p <> [] /\ (wcount p <= 255)%Z).
  { rewrite Forall_forall in Hall. exact (Hall _ Hin). }
  destruct Hp as [Hp Hcnt].
  apply insert_all_stored in Hb as ((Hf & Hk & Hty & Hne) & _ & Hst); auto.
  - specialize (Hst p x Hin). unfold register.
    rewrite (countParams_small p Hcnt).
    destruct (_ || _) eqn:E.
    + destruct (@register_walk_dup p h (register_fuel (bump_priority t))
                  (bump_priority t) p (wcount p)) as [msg Hmsg].
      * now apply all_flag_bump.
      * now apply all_key_bump.
      * split; [pose proof (wcount_nonneg p); lia|]. left. split; [lia|].
        exact Hty.
      * apply <- stored_bump. exact Hst.
      * unfold register_fuel. lia.
      * exists msg. split; [exact Hmsg|].
        eapply register_walk_panic_msg; eauto.
    + exfalso. apply orb_false_iff in E as [E1 E2]. cbn in E1, E2.
      apply length_zero_nil in E1. apply length_zero_nil in E2.
      apply stored_leaf in Hst; [|exact E2]. destruct Hst as [_ ->]. contradiction.
  - constructor; cbn; [|constructor]. split; cbn; [discriminate|intros _ ? []].
  - apply all_key_leaf; reflexivity.
  - discriminate.
  - intros v Hv. apply stored_leaf in Hv; [|reflexivity]. destruct Hv. discriminate.
Qed.

End Stored.

Lemma C9_duplicate_panics_witness :
  exists msg, register tree_file (bytes "/a") (Some 2) = Panic msg
              /\ contains msg (bytes "/a").
Proof.
  apply (@C9_duplicate_panics nat [route "/a" 1] tree_file (bytes "/a") 1 (Some 2)).
  - vm_compute; reflexivity.
  - constructor; [|constructor]. split; [discriminate|vm_compute; discriminate].
  - left. reflexivity.
Defined.

(** ** Registered patterns and the recommendation, without wildcards *)

Section StaticStored.

Context {Handler : Type}.
Implicit Types (n c r : node Handler).


(** The child that holds a pattern is the one under the first byte of the
    pattern. *)
Lemma find_index_stored n c (b : ascii) (t : str) :
  key_inv n -> length (indices n) = length (children n) ->
  In c (children n) -> stored c (b :: t) ->
  exists k, find_index (indices n) b = Some k /\ nth_error (children n) k = Some c.
Proof.
  intros Hki Hlen Hin Hst. apply In_nth_error in Hin as [k Hk]. exists k.
  split; [|exact Hk].
  assert (Hkl : k < length (indices n))
    by (rewrite Hlen; apply nth_error_Some; congruence).
  apply nth_error_Some in Hkl.
  destruct (nth_error (indices n) k) as [x|] eqn:Hx; [|contradiction].
  pose proof (@ki_lead _ n Hki k x c (b :: t) Hx Hk Hst) as Hb. cbn in Hb.
  inversion Hb; subst x. apply find_index_nodup; [exact (ki_nodup Hki)|exact Hx].
Qed.




End StaticStored.


(** ** The case-insensitive lookup, without wildcards *)

Section CaseInsensitive.

Context {Handler : Type}.
Implicit Types (n c r : node Handler).

Lemma ascii_nth (s : str) k (c : ascii) :
  is_ascii s = true -> nth_error s k = Some c -> (N_of_ascii c <? 128)%N = true.
Proof.
  unfold is_ascii. rewrite forallb_forall. intros H Hk. apply H.
  eapply nth_error_In; eauto.
Qed.

Lemma ascii_skipn (s : str) k : is_ascii s = true -> is_ascii (skipn k s) = true.
Proof.
  unfold is_ascii. rewrite !forallb_forall. intros H x Hx. apply H.
  rewrite <- (firstn_skipn k s). apply in_or_app. now right.
Qed.

Lemma lower_byte_ascii (c : ascii) :
  (N_of_ascii c <? 128)%N = true -> (N_of_ascii (lower_byte c) <? 128)%N = true.
Proof.
  destruct c as [[] [] [] [] [] [] [] []]; vm_compute; intro H;
    first [reflexivity | discriminate H].
Qed.

Lemma ascii_lower (s : str) : is_ascii s = true -> is_ascii (strings_ToLower s) = true.
Proof.
  unfold is_ascii, strings_ToLower. rewrite !forallb_forall. intros H x Hx.
  apply in_map_iff in Hx as (y & <- & Hy). apply lower_byte_ascii. auto.
Qed.

Lemma upper_byte_ascii (c : ascii) :
  (N_of_ascii c <? 128)%N = true ->
  (N_of_ascii (byte_of (unicode_ToUpper (N_of_ascii c))) <? 128)%N = true.
Proof.
  destruct c as [[] [] [] [] [] [] [] []]; vm_compute; intro H;
    first [reflexivity | discriminate H].
Qed.

Lemma ascii_upper (s : str) : is_ascii s = true -> is_ascii (upper s) = true.
Proof.
  unfold is_ascii, upper. rewrite !forallb_forall. intros H x Hx.
  apply in_map_iff in Hx as (y & <- & Hy). apply upper_byte_ascii. auto.
Qed.

Lemma lower_byte_idem (c : ascii) : lower_byte (lower_byte c) = lower_byte c.
Proof. destruct c as [[] [] [] [] [] [] [] []]; vm_compute; reflexivity. Qed.

Lemma rune_start_ascii (c : ascii) :
  (N_of_ascii c <? 128)%N = true -> utf8_RuneStart c = true.
Proof.
  destruct c as [[] [] [] [] [] [] [] []]; vm_compute; intro H;
    first [reflexivity | discriminate H].
Qed.

Lemma upper_rune_ascii (c : ascii) :
  (N_of_ascii c <? 128)%N = true -> (unicode_ToUpper (N_of_ascii c) <? 128)%N = true.
Proof.
  destruct c as [[] [] [] [] [] [] [] []]; vm_compute; intro H;
    first [reflexivity | discriminate H].
Qed.

(** An upper-case letter is the upper case of its lower case. *)
Lemma upper_of_lower (b : ascii) :
  lower_byte b <> b ->
  byte_of (unicode_ToUpper (N_of_ascii (lower_byte b))) = b
  /\ N.eqb (unicode_ToUpper (N_of_ascii (lower_byte b))) (N_of_ascii (lower_byte b)) = false.
Proof.
  destruct b as [[] [] [] [] [] [] [] []]; vm_compute; intro H;
    first [split; reflexivity | exfalso; apply H; reflexivity].
Qed.

Lemma shift_tail_zero (x : ascii) k :
  1 <= k -> shiftNRuneBytes (x, zero, zero, zero) k = rb_zero.
Proof. intro H. destruct k as [|[|[|[|k]]]]; try lia; reflexivity. Qed.

Lemma lower_length (s : str) : length (strings_ToLower s) = length s.
Proof. apply length_map. Qed.

Lemma lower_skipn (s : str) k : strings_ToLower (skipn k s) = skipn k (strings_ToLower s).
Proof. unfold strings_ToLower. symmetry. apply skipn_map. Qed.

Lemma lower_app (a b : str) :
  strings_ToLower (a ++ b) = strings_ToLower a ++ strings_ToLower b.
Proof. apply map_app. Qed.

Lemma find_rune_start_total (L : str) ln max : forall steps off,
  ln < length L -> exists rv o, find_rune_start L ln max off steps = Ok (rv, o).
Proof.
  induction steps as [|steps IH]; intros off Hlt; cbn [find_rune_start]; [eauto|].
  destruct (off <? max); [|eauto].
  destruct (nth_error L (ln - off)) as [c|] eqn:Hc.
  - destruct (utf8_RuneStart c); eauto.
  - apply nth_error_None in Hc. lia.
Qed.

Lemma find_rune_start_ascii (L : str) ln (c : ascii) :
  1 <= ln -> nth_error L ln = Some c -> (N_of_ascii c <? 128)%N = true ->
  find_rune_start L ln (Nat.min ln 3) 0 3 = Ok (N_of_ascii c, 0).
Proof.
  intros Hln Hc Ha. cbn [find_rune_start].
  replace (0 <? Nat.min ln 3) with true by (symmetry; apply Nat.ltb_lt; lia).
  rewrite Nat.sub_0_r, Hc, (rune_start_ascii _ Ha).
  unfold suffix. rewrite (skipn_nth_cons _ _ Hc). cbn [utf8_DecodeRuneInString].
  rewrite Ha. reflexivity.
Qed.

(** Without wildcards the case-insensitive walk returns. *)
Lemma findCI_total : forall fuel n (U L newPath : str) rb,
  all_nodes static_inv n -> depth n <= fuel -> length U = length L ->
  exists out b, findCaseInsensitivePathRec fuel n U L newPath rb false = Ok (out, b).
Proof.
  induction fuel as [|fuel IH]; intros n U L newPath rb Hs Hd Hlen;
    [destruct n; cbn in Hd; lia|].
  pose proof (all_nodes_inv Hs) as [(S1 & S2 & S3 & S4 & S5 & S6) Hscs].
  assert (Hrec : forall k ch (U' L' np : str) rb',
            nth_error (children n) k = Some ch -> length U' = length L' ->
            exists out b, findCaseInsensitivePathRec fuel ch U' L' np rb' false
                          = Ok (out, b)).
  { intros k ch U' L' np rb' Hk Hl. apply IH; auto.
    - rewrite Forall_forall in Hscs. apply Hscs. eapply nth_error_In; eauto.
    - assert (Hin : In ch (children n)) by (eapply nth_error_In; eauto).
      apply depth_child in Hin. lia. }
  assert (Hidx : forall (b : ascii) k, find_index (indices n) b = Some k ->
            exists ch, nth_error (children n) k = Some ch).
  { intros b k Hk. apply find_index_some in Hk.
    assert (Hlt : k < length (children n))
      by (rewrite <- S6; apply nth_error_Some; congruence).
    apply nth_error_Some in Hlt. destruct (nth_error (children n) k); [eauto|contradiction]. }
  cbn [findCaseInsensitivePathRec]. rewrite S1, lower_length. cbn [negb andb].
  match goal with |- context [if ?b then _ else _] => destruct b eqn:Hchk end; [|eauto].
  apply andb_true_iff in Hchk as [Hle _]. apply Nat.leb_le in Hle.
  replace (length U <? length (path n)) with false
    by (symmetry; apply Nat.ltb_ge; lia).
  unfold suffix.
  assert (Hl' : length (skipn (length (path n)) U) = length (skipn (length (path n)) L))
    by (rewrite !length_skipn; lia).
  destruct (0 <? length (skipn (length (path n)) U)) eqn:Hpos.
  2:{ destruct (is_some (handle n)); eauto. }
  apply Nat.ltb_lt in Hpos.
  destruct (negb (Ascii.eqb (rb0 (shiftNRuneBytes rb (length (path n)))) zero)).
  - destruct (find_index _ _) as [k|] eqn:Hfind; [|eauto].
    destruct (Hidx _ _ Hfind) as [ch Hch]. rewrite Hch. eapply Hrec; eauto.
  - destruct (@find_rune_start_total L (length (path n)) (Nat.min (length (path n)) 3) 3 0)
      as (rv & o & Hfr).
    { rewrite length_skipn in Hpos. lia. }
    rewrite Hfr. cbn [bind].
    match goal with |- context [find_index (indices n) ?b] =>
      destruct (find_index (indices n) b) as [k|] eqn:Hfind end.
    + destruct (Hidx _ _ Hfind) as [ch Hch]. rewrite Hch.
      match goal with |- context [findCaseInsensitivePathRec fuel ch ?a ?b ?c ?d false] =>
        destruct (Hrec k ch a b c d Hch Hl') as (out & fnd & Hr); rewrite Hr end.
      cbn [bind]. destruct fnd; [eauto|].
      destruct (negb (N.eqb (unicode_ToUpper rv) rv)); [|eauto].
      match goal with |- context [find_index (indices n) ?b] =>
        destruct (find_index (indices n) b) as [k2|] eqn:Hfind2 end; [|eauto].
      destruct (Hidx _ _ Hfind2) as [ch2 Hch2]. rewrite Hch2. eapply Hrec; eauto.
    + cbn [bind].
      destruct (negb (N.eqb (unicode_ToUpper rv) rv)); [|eauto].
      match goal with |- context [find_index (indices n) ?b] =>
        destruct (find_index (indices n) b) as [k2|] eqn:Hfind2 end; [|eauto].
      destruct (Hidx _ _ Hfind2) as [ch2 Hch2]. rewrite Hch2. eapply Hrec; eauto.
Qed.

(** One step of the walk on an ASCII path at a node without a wildcard
    child whose path matches up to case. *)
Lemma findCI_step fuel n (U newPath : str) (x : ascii) :
  static_inv n -> path n <> [] -> is_ascii U = true ->
  firstn (length (path n)) (strings_ToLower U) = strings_ToLower (path n) ->
  findCaseInsensitivePathRec (S fuel) n U (strings_ToLower U) newPath
    (x, zero, zero, zero) false
  = match skipn (length (path n)) U with
    | [] => Ok (newPath ++ path n, is_some (handle n))
    | b :: t =>
        lower <- match find_index (indices n) (lower_byte b) with
                 | Some k =>
                     match nth_error (children n) k with
                     | None => RuntimePanic
                     | Some ch =>
                         ' (out, found) <- findCaseInsensitivePathRec fuel ch (b :: t)
                                            (strings_ToLower (b :: t)) (newPath ++ path n)
                                            (lower_byte b, zero, zero, zero) false ;;
                         Ok (if found then Some out else None)
                     end
                 | None => Ok None
                 end ;;
        match lower with
        | Some out => Ok (out, true)
        | None =>
            let up := unicode_ToUpper (N_of_ascii (lower_byte b)) in
            if negb (N.eqb up (N_of_ascii (lower_byte b))) then
              match find_index (indices n) (byte_of up) with
              | Some k =>
                  match nth_error (children n) k with
                  | None => RuntimePanic
                  | Some ch => findCaseInsensitivePathRec fuel ch (b :: t)
                                 (strings_ToLower (b :: t)) (newPath ++ path n)
                                 (byte_of up, zero, zero, zero) false
                  end
              | None => Ok (newPath ++ path n, false)
              end
            else Ok (newPath ++ path n, false)
        end
    end.
Proof.
  intros (S1 & _) Hne Ha HPM.
  assert (Hln : 1 <= length (path n)) by (destruct (path n); [contradiction|cbn; lia]).
  assert (Hle : length (path n) <= length U).
  { apply (f_equal (@length _)) in HPM.
    rewrite length_firstn, !lower_length in HPM. lia. }
  cbn [findCaseInsensitivePathRec]. rewrite S1, !lower_length. cbn [negb].
  replace (length (path n) <=? length U) with true by (symmetry; apply Nat.leb_le; lia).
  replace (str_eqb (slice (strings_ToLower U) 1 (length (path n)))
             (suffix (strings_ToLower (path n)) 1)) with true.
  2:{ symmetry. apply str_eqb_eq. unfold slice, suffix. rewrite <- HPM.
      rewrite firstn_skipn_comm. f_equal. f_equal. lia. }
  rewrite orb_true_r. cbn [andb].
  replace (length U <? length (path n)) with false by (symmetry; apply Nat.ltb_ge; lia).
  unfold suffix. rewrite <- lower_skipn.
  destruct (skipn (length (path n)) U) as [|b t] eqn:HU.
  - cbn [length Nat.ltb Nat.leb]. destruct (is_some (handle n)); reflexivity.
  - cbn [length]. replace (0 <? S (length t)) with true by reflexivity.
    rewrite (shift_tail_zero x Hln).
    replace (negb (Ascii.eqb (rb0 rb_zero) zero)) with false by reflexivity.
    destruct (skipn_cons_inv _ _ HU) as (_ & Hnth & Hlt).
    assert (HnL : nth_error (strings_ToLower U) (length (path n)) = Some (lower_byte b)).
    { unfold strings_ToLower. rewrite nth_error_map, Hnth. reflexivity. }
    assert (Hca : (N_of_ascii (lower_byte b) <? 128)%N = true).
    { apply lower_byte_ascii. exact (ascii_nth _ _ Ha Hnth). }
    rewrite (find_rune_start_ascii _ Hln HnL Hca). cbn [bind].
    unfold utf8_EncodeRune, rb_zero. rewrite Hca.
    rewrite (upper_rune_ascii _ Hca).
    unfold byte_of at 1 2. rewrite ascii_N_embedding.
    cbn [shiftNRuneBytes rb0]. reflexivity.
Qed.

Lemma findCI_check_fail fuel n (U L newPath : str) rb :
  (length (strings_ToLower (path n)) <=? length L)
  && (Nat.eqb (length (strings_ToLower (path n))) 0
      || str_eqb (slice L 1 (length (strings_ToLower (path n))))
                 (suffix (strings_ToLower (path n)) 1)) = false ->
  findCaseInsensitivePathRec (S fuel) n U L newPath rb false = Ok (newPath, false).
Proof. intro H. cbn [findCaseInsensitivePathRec]. rewrite H. reflexivity. Qed.

Lemma prefix_of_check n (L : str) :
  path n <> [] -> hd_error (strings_ToLower (path n)) = hd_error L ->
  (length (strings_ToLower (path n)) <=? length L)
  && (Nat.eqb (length (strings_ToLower (path n))) 0
      || str_eqb (slice L 1 (length (strings_ToLower (path n))))
                 (suffix (strings_ToLower (path n)) 1)) = true ->
  firstn (length (path n)) L = strings_ToLower (path n).
Proof.
  intros Hne Hhd H. rewrite <- (lower_length (path n)).
  destruct (strings_ToLower (path n)) as [|p0 P] eqn:HP.
  { destruct (path n); [contradiction|discriminate]. }
  destruct L as [|l0 L1]; [discriminate|]. cbn in Hhd. inversion Hhd; subst l0.
  apply andb_true_iff in H as [_ H]. cbn [length Nat.eqb orb] in H.
  apply str_eqb_eq in H. unfold slice, suffix in H. cbn [skipn] in H.
  cbn [length firstn]. f_equal. rewrite <- H at 2. f_equal. lia.
Qed.

(** What the walk finds is held by the node and equal to the path up to
    case. *)
Lemma findCI_sound : forall fuel n (U newPath : str) (x : ascii) (out : str),
  all_nodes static_inv n -> path n <> [] -> is_ascii U = true ->
  hd_error (strings_ToLower (path n)) = hd_error (strings_ToLower U) ->
  findCaseInsensitivePathRec fuel n U (strings_ToLower U) newPath
    (x, zero, zero, zero) false = Ok (out, true) ->
  exists q, out = newPath ++ q /\ stored n q
            /\ strings_ToLower q = strings_ToLower U.
Proof.
  induction fuel as [|fuel IH]; intros n U newPath x out Hs Hne Ha Hhd H; [discriminate|].
  pose proof (all_nodes_inv Hs) as [Hsi Hscs].
  pose proof Hsi as (S1 & S2 & S3 & S4 & S5 & S6).
  match type of (@findCI_check_fail fuel n U (strings_ToLower U) newPath
                   (x, zero, zero, zero)) with ?c = false -> _ =>
    destruct c eqn:Hchk end.
  2:{ rewrite (@findCI_check_fail fuel n U (strings_ToLower U) newPath (x, zero, zero, zero) Hchk) in H.
      discriminate. }
  pose proof (@prefix_of_check n (strings_ToLower U) Hne Hhd Hchk) as HPM.
  rewrite (@findCI_step fuel n U newPath x Hsi Hne Ha HPM) in H.
  assert (Hsplit : strings_ToLower U
                   = strings_ToLower (path n)
                     ++ strings_ToLower (skipn (length (path n)) U)).
  { rewrite <- HPM, lower_skipn. symmetry. apply firstn_skipn. }
  destruct (skipn (length (path n)) U) as [|b t] eqn:HU.
  - inversion H as [[Ho Hh]]. exists (path n).
    split; [reflexivity|]. split; [now constructor|].
    rewrite Hsplit. cbn. now rewrite app_nil_r.
  - assert (Hat : is_ascii (b :: t) = true) by (rewrite <- HU; now apply ascii_skipn).
    assert (Hchild : forall k ch (y : ascii),
              nth_error (indices n) k = Some y -> lower_byte y = lower_byte b ->
              nth_error (children n) k = Some ch ->
              findCaseInsensitivePathRec fuel ch (b :: t) (strings_ToLower (b :: t))
                (newPath ++ path n) (y, zero, zero, zero) false = Ok (out, true) ->
              exists q, out = newPath ++ q /\ stored n q
                        /\ strings_ToLower q = strings_ToLower U).
    { intros k ch y Hy Hly Hch Hr.
      assert (Hin : In ch (children n)) by (eapply nth_error_In; eauto).
      destruct (S4 ch Hin) as [Hst Hpne].
      pose proof (S5 _ _ _ Hy Hch Hst Hpne) as Hhd'.
      apply IH in Hr.
      - destruct Hr as (q' & -> & Hsq & Hlq). exists (path n ++ q').
        split; [now rewrite app_assoc|]. split; [econstructor; eauto|].
        rewrite lower_app, Hlq, Hsplit. reflexivity.
      - rewrite Forall_forall in Hscs. auto.
      - exact Hpne.
      - exact Hat.
      - destruct (path ch) as [|y' l]; [contradiction|]. cbn in Hhd'.
        inversion Hhd'; subst y'. cbn. now rewrite Hly. }
    assert (Hup : (let up := unicode_ToUpper (N_of_ascii (lower_byte b)) in
                   if negb (N.eqb up (N_of_ascii (lower_byte b))) then
                     match find_index (indices n) (byte_of up) with
                     | Some k =>
                         match nth_error (children n) k with
                         | None => RuntimePanic
                         | Some ch => findCaseInsensitivePathRec fuel ch (b :: t)
                                        (strings_ToLower (b :: t)) (newPath ++ path n)
                                        (byte_of up, zero, zero, zero) false
                         end
                     | None => Ok (newPath ++ path n, false)
                     end
                   else Ok (newPath ++ path n, false)) = Ok (out, true) ->
                  exists q, out = newPath ++ q /\ stored n q
                            /\ strings_ToLower q = strings_ToLower U).
    { cbv zeta.
      destruct (negb (N.eqb _ _)); [|discriminate].
      destruct (find_index (indices n)
                  (byte_of (unicode_ToUpper (N_of_ascii (lower_byte b)))))
        as [k|] eqn:Hfind; [|discriminate].
      destruct (nth_error (children n) k) as [ch|] eqn:Hch; [|discriminate].
      intro Hu. apply find_index_some in Hfind.
      apply (Hchild k ch _ Hfind); auto.
      rewrite lower_upper_byte. apply lower_byte_idem. }
    destruct (find_index (indices n) (lower_byte b)) as [k|] eqn:Hfind.
    + destruct (nth_error (children n) k) as [ch|] eqn:Hch; [|discriminate].
      match type of H with bind (bind ?m _) _ = _ =>
        destruct m as [[out' fnd]| | |] eqn:Hr end; try discriminate.
      cbn [bind] in H. destruct fnd.
      * inversion H; subst out'. apply find_index_some in Hfind.
        apply (Hchild k ch _ Hfind); auto. apply lower_byte_idem.
      * apply Hup. exact H.
    + cbn [bind] in H. apply Hup. exact H.
Qed.

(** A pattern that the node holds is found, or another one is. *)
Lemma findCI_complete : forall fuel n (U newPath : str) (x : ascii) (pat : str),
  all_nodes static_inv n -> all_nodes key_inv n -> stored n pat ->
  strings_ToLower U = strings_ToLower pat -> is_ascii U = true ->
  path n <> [] -> depth n <= fuel ->
  exists out, findCaseInsensitivePathRec fuel n U (strings_ToLower U) newPath
                (x, zero, zero, zero) false = Ok (out, true).
Proof.
  induction fuel as [|fuel IH]; intros n U newPath x pat Hs Hk Hst Hlow Ha Hne Hd;
    [destruct n; cbn in Hd; lia|].
  pose proof (all_nodes_inv Hs) as [Hsi Hscs].
  pose proof Hsi as (S1 & S2 & S3 & S4 & S5 & S6).
  pose proof (all_nodes_inv Hk) as [Hki Hkcs].
  assert (Hpat : exists rest, pat = path n ++ rest
            /\ (rest = [] -> is_some (handle n) = true)
            /\ (rest <> [] -> exists c, In c (children n) /\ stored c rest)).
  { apply stored_inv in Hst as [[Hh ->]|(c & rest & Hcin & Hsc & ->)].
    - exists []. rewrite app_nil_r. split; [reflexivity|]. split; [auto|]. now intros [].
    - exists rest. split; [reflexivity|].
      pose proof (@ki_some _ n Hki c rest Hcin Hsc). split; [contradiction|eauto]. }
  destruct Hpat as (rest & -> & Hnil & Hcons).
  rewrite lower_app in Hlow.
  assert (HPM : firstn (length (path n)) (strings_ToLower U) = strings_ToLower (path n)).
  { rewrite Hlow, <- (lower_length (path n)). apply firstn_length_app. }
  assert (Hrest : strings_ToLower (skipn (length (path n)) U) = strings_ToLower rest).
  { rewrite lower_skipn, Hlow, <- (lower_length (path n)). apply skipn_length_app. }
  rewrite (@findCI_step fuel n U newPath x Hsi Hne Ha HPM).
  destruct (skipn (length (path n)) U) as [|b t] eqn:HU.
  - destruct rest; [|discriminate]. rewrite (Hnil eq_refl). eauto.
  - destruct rest as [|rb rt]; [discriminate|].
    destruct (Hcons ltac:(discriminate)) as (c & Hcin & Hsc).
    assert (Hlb : lower_byte rb = lower_byte b) by (cbn in Hrest; congruence).
    assert (Hat : is_ascii (b :: t) = true) by (rewrite <- HU; now apply ascii_skipn).
    destruct (@find_index_stored _ n c rb rt Hki S6 Hcin Hsc) as (k0 & Hfind0 & Hk0).
    assert (Hgood : forall y, exists out,
              findCaseInsensitivePathRec fuel c (b :: t) (strings_ToLower (b :: t))
                (newPath ++ path n) (y, zero, zero, zero) false = Ok (out, true)).
    { intro y. apply (IH c (b :: t) (newPath ++ path n) y (rb :: rt)); auto.
      - rewrite Forall_forall in Hscs. auto.
      - rewrite Forall_forall in Hkcs. auto.
      - destruct (S4 c Hcin) as [_ Hp]. exact Hp.
      - apply depth_child in Hcin. lia. }
    destruct (ascii_dec rb (lower_byte b)) as [E|E].
    + rewrite <- E, Hfind0, Hk0. destruct (Hgood rb) as [out Hout].
      rewrite Hout. cbn [bind]. eauto.
    + assert (Hneq : lower_byte rb <> rb) by congruence.
      destruct (@upper_of_lower rb Hneq) as [Hup1 Hup2]. rewrite Hlb in Hup1, Hup2.
      assert (Hupper : exists out,
                (let up := unicode_ToUpper (N_of_ascii (lower_byte b)) in
                 if negb (N.eqb up (N_of_ascii (lower_byte b))) then
                   match find_index (indices n) (byte_of up) with
                   | Some k =>
                       match nth_error (children n) k with
                       | None => RuntimePanic
                       | Some ch => findCaseInsensitivePathRec fuel ch (b :: t)
                                      (strings_ToLower (b :: t)) (newPath ++ path n)
                                      (byte_of up, zero, zero, zero) false
                       end
                   | None => Ok (newPath ++ path n, false)
                   end
                 else Ok (newPath ++ path n, false)) = Ok (out, true)).
      { cbv zeta. rewrite Hup2, Hup1, Hfind0, Hk0. cbn [negb]. apply Hgood. }
      destruct (find_index (indices n) (lower_byte b)) as [k|] eqn:Hfind.
      * apply find_index_some in Hfind.
        assert (Hlt : k < length (children n))
          by (rewrite <- S6; apply nth_error_Some; congruence).
        apply nth_error_Some in Hlt.
        destruct (nth_error (children n) k) as [ch|] eqn:Hch; [|contradiction].
        assert (Hin : In ch (children n)) by (eapply nth_error_In; eauto).
        destruct (@findCI_total fuel ch (b :: t) (strings_ToLower (b :: t))
                    (newPath ++ path n) (lower_byte b, zero, zero, zero))
          as (out' & fnd & Hr).
        -- rewrite Forall_forall in Hscs. auto.
        -- apply depth_child in Hin. lia.
        -- now rewrite lower_length.
        -- rewrite Hr. cbn [bind]. destruct fnd; [eauto|exact Hupper].
      * cbn [bind]. exact Hupper.
Qed.

(** *** Trees built by insertion *)

Lemma insert_all_stored_in (rs : list (str * option Handler)) :
  forall t t' : node Handler,
  all_nodes flag_inv t -> all_nodes key_inv t -> typo t <> Param_ ->
  (forall v, stored t v -> v <> []) ->
  Forall (fun pr : str * option Handler =>
            fst pr <> [] /\ (wcount (fst pr) <= 255)%Z) rs ->
  insert_all t rs = Ok t' ->
  forall v, stored t' v -> stored t v \/ exists x : Handler, In (v, Some x) rs.
Proof.
  induction rs as [|[p h] rs IH]; intros t t' Hf Hk Hty Hne Hall H v Hv; cbn in H.
  - inversion H; subst. auto.
  - destruct (register t p h) as [t1| | |] eqn:E; try discriminate. cbn [bind] in H.
    inversion Hall as [|y ys [Hp Hcnt] Hys]; subst. cbn [fst] in Hp, Hcnt.
    pose proof (register_flag _ _ Hf E) as Hf1.
    destruct (@register_stored _ t p h t1 Hf Hk Hty Hne Hcnt E) as (Hk1 & Hty1 & Hs1).
    assert (Hne1 : forall w, stored t1 w -> w <> []).
    { intros w Hw. apply Hs1 in Hw as [Hw|[-> _]]; auto. }
    destruct (IH t1 t' Hf1 Hk1 Hty1 Hne1 Hys H v Hv) as [Hv1|[x Hx]].
    + apply Hs1 in Hv1 as [Hv1|[-> Hh]]; [auto|].
      right. destruct h as [x|]; [|discriminate]. exists x. now left.
    + right. exists x. now right.
Qed.

Lemma register_root_slash n (p : str) (h : option Handler) r :
  all_nodes static_inv n -> plain p = true -> hd_error p = Some slash ->
  (path n = [] /\ children n = []) \/ hd_error (path n) = Some slash ->
  register n p h = Ok r -> hd_error (path r) = Some slash.
Proof.
  intros Hs Hp Hhd Hroot H. unfold register in H.
  rewrite (countParams_plain _ Hp) in H.
  destruct (_ || _) eqn:E.
  - destruct Hroot as [[E1 E2]|Hroot].
    { cbn in E. rewrite E1, E2 in E. discriminate. }
    apply register_walk_static in H; [|now apply all_static_bump|exact Hp].
    destruct H as (_ & _ & (k & Hk) & Hne). cbn in Hk, Hne.
    assert (Hr : path r <> []).
    { apply Hne; [|congruence]. intro E0. rewrite E0 in Hroot. discriminate. }
    rewrite Hk in Hr |- *. rewrite hd_error_firstn by exact Hr. exact Hroot.
  - unfold insertChild in H. rewrite insertChild_from_done in H by reflexivity.
    inversion H; subst r. cbn. exact Hhd.
Qed.

Lemma insert_all_root_slash (rs : list (str * option Handler)) :
  forall t t' : node Handler,
  all_nodes static_inv t ->
  Forall (fun pr : str * option Handler =>
            hd_error (fst pr) = Some slash /\ plain (fst pr) = true) rs ->
  (path t = [] /\ children t = []) \/ hd_error (path t) = Some slash ->
  insert_all t rs = Ok t' ->
  hd_error (path t') = Some slash \/ rs = [].
Proof.
  induction rs as [|[p h] rs IH]; intros t t' Hs Hall Hroot H; cbn in H; [auto|].
  destruct (register t p h) as [t1| | |] eqn:E; try discriminate. cbn [bind] in H.
  inversion Hall as [|y ys [Hhd Hp] Hys]; subst. cbn [fst] in Hhd, Hp.
  pose proof (@register_root_slash t p h t1 Hs Hp Hhd Hroot E) as H1.
  pose proof (@register_static _ t p h t1 Hs Hp E) as Hs1.
  left. destruct (IH t1 t' Hs1 Hys (or_intror H1) H) as [H2| ->]; [exact H2|].
  cbn in H. inversion H; subst. exact H1.
Qed.

(** C8 (amended).  In a tree built by successful insertions of ASCII
    patterns without wildcards that start with a slash, for every pattern
    [p] registered with a handler the case-insensitive lookup of [upper p]
    without the trailing-slash fix is successful, and the path it returns
    is a registered pattern that is equal to [p] up to case. *)
Theorem C8_upper_case_found (rs : list (str * option Handler)) t
    (p : str) (h : Handler) :
  build rs = Ok t ->
  Forall (fun pr : str * option Handler =>
            hd_error (fst pr) = Some slash /\ plain (fst pr) = true
            /\ is_ascii (fst pr) = true) rs ->
  In (p, Some h) rs ->
  exists (q : str) (h' : Handler),
    findCaseInsensitivePath t (upper p) false = Ok (q, true)
    /\ strings_ToLower q = strings_ToLower p
    /\ In (q, Some h') rs.
Proof.
  intros Hb Hall Hin.
  assert (Hp : hd_error p = Some slash /\ plain p = true /\ is_ascii p = true).
  { rewrite Forall_forall in Hall. exact (Hall _ Hin). }
  destruct Hp as (Hhd & Hpl & Hasc).
  assert (Hplain : Forall (fun pr : str * option Handler => plain (fst pr) = true) rs).
  { eapply Forall_impl; [|exact Hall]. intros pr (_ & Hq & _). exact Hq. }
  assert (Hslash : Forall (fun pr : str * option Handler =>
                             hd_error (fst pr) = Some slash /\ plain (fst pr) = true) rs).
  { eapply Forall_impl; [|exact Hall]. intros pr (Hq1 & Hq2 & _). auto. }
  assert (Hcnt : Forall (fun pr : str * option Handler =>
                           fst pr <> [] /\ (wcount (fst pr) <= 255)%Z) rs).
  { eapply Forall_impl; [|exact Hall]. intros pr (Hq1 & Hq2 & _). split.
    - intro E. rewrite E in Hq1. discriminate.
    - unfold wcount. rewrite (filter_plain _ Hq2). cbn. lia. }
  assert (He1 : all_nodes flag_inv (@empty_node Handler)).
  { constructor; cbn; [|constructor]. split; cbn; [discriminate|intros _ ? []]. }
  assert (He2 : all_nodes key_inv (@empty_node Handler))
    by (apply all_key_leaf; reflexivity).
  assert (He3 : typo (@empty_node Handler) <> Param_) by discriminate.
  assert (He4 : forall v, stored (@empty_node Handler) v -> v <> []).
  { intros v Hv. apply stored_leaf in Hv; [|reflexivity]. destruct Hv. discriminate. }
  assert (He5 : all_nodes static_inv (@empty_node Handler))
    by (apply all_static_leaf; reflexivity).
  pose proof (build_static Hplain Hb) as Hs.
  destruct (@insert_all_stored _ rs empty_node t He1 He2 He3 He4 Hcnt Hb)
    as ((_ & Hk & _) & _ & Hst).
  pose proof (@insert_all_stored_in rs empty_node t He1 He2 He3 He4 Hcnt Hb) as Hback.
  destruct (@insert_all_root_slash rs empty_node t He5 Hslash
              (or_introl (conj eq_refl eq_refl)) Hb)
    as [Hroot|Hnil]; [|rewrite Hnil in Hin; destruct Hin].
  assert (Hne : path t <> []) by (intro E; rewrite E in Hroot; discriminate).
  specialize (Hst p h Hin).
  unfold findCaseInsensitivePath, rb_zero.
  destruct (@findCI_complete (S (depth t)) t (upper p) [] zero p Hs Hk Hst
              (lower_upper p) (@ascii_upper p Hasc) Hne (Nat.le_succ_diag_r _))
    as [out Hout].
  pose proof Hout as Hsound. apply findCI_sound in Hsound; auto.
  - destruct Hsound as (q & -> & Hsq & Hlq). cbn [app] in Hout.
    destruct (Hback q Hsq) as [Hq|[h' Hh']].
    + exfalso. apply stored_leaf in Hq; [|reflexivity]. destruct Hq. discriminate.
    + exists q, h'. split; [exact Hout|]. split; [|exact Hh'].
      now rewrite Hlq, lower_upper.
  - now apply ascii_upper.
  - rewrite lower_upper. destruct (path t) as [|a l]; [contradiction|].
    destruct p as [|b l']; [discriminate|]. cbn in Hroot, Hhd |- *. congruence.
Qed.

End CaseInsensitive.

Lemma C8_upper_case_found_witness :
  exists (q : str) (h' : nat),
    findCaseInsensitivePath tree_file (upper (bytes "/a")) false = Ok (q, true)
    /\ strings_ToLower q = strings_ToLower (bytes "/a")
    /\ In (q, Some h') [route "/a" 1].
Proof.
  apply (@C8_upper_case_found nat [route "/a" 1] tree_file (bytes "/a") 1).
  - vm_compute; reflexivity.
  - constructor; [|constructor]. repeat split; vm_compute; reflexivity.
  - left. reflexivity.
Defined.

(** * Further properties *)

(** ** Insertion: what a built tree holds *)

Section Built.

Context {Handler : Type}.
Implicit Types (n t : node Handler) (h : option Handler).

(** What every tree built by insertion keeps, and the patterns it holds. *)
Lemma build_inv (rs : list (str * option Handler)) t :
  build rs = Ok t ->
  Forall (fun pr : str * option Handler =>
            fst pr <> [] /\ (wcount (fst pr) <= 255)%Z) rs ->
  all_nodes flag_inv t /\ all_nodes key_inv t /\ typo t <> Param_
  /\ (forall v, stored t v <-> exists x : Handler, In (v, Some x) rs).
Proof.
  intros Hb Hall.
  assert (Hf0 : all_nodes flag_inv (@empty_node Handler)).
  { constructor; cbn; [|constructor]. split; cbn; [discriminate|intros _ ? []]. }
  assert (Hk0 : all_nodes key_inv (@empty_node Handler))
    by (apply all_key_leaf; reflexivity).
  assert (Hs0 : forall v : str, stored (@empty_node Handler) v -> v <> []).
  { intros v Hv. apply stored_leaf in Hv; [|reflexivity]. destruct Hv. discriminate. }
  assert (Ht0 : typo (@empty_node Handler) <> Param_) by discriminate.
  pose proof (@insert_all_stored _ rs empty_node t Hf0 Hk0 Ht0 Hs0 Hall Hb)
    as ((Hf & Hk & Hty & _) & _ & Hin).
  pose proof (@insert_all_stored_in _ rs empty_node t Hf0 Hk0 Ht0 Hs0 Hall Hb) as Hback.
  split; [exact Hf|]. split; [exact Hk|]. split; [exact Hty|]. intro v. split.
  - intro Hv. destruct (Hback v Hv) as [H0|H1]; [|exact H1].
    apply stored_leaf in H0; [|reflexivity]. destruct H0. discriminate.
  - intros [x Hx]. eapply Hin; eauto.
Qed.

(** X1.  Whenever [register] panics with a message, on any tree and for
    any pattern, the message names the pattern being registered. *)
Theorem register_panic_names_pattern n (p : str) h msg :
  register n p h = Panic msg -> contains msg p.
Proof.
  unfold register. destruct (_ || _).
  - apply register_walk_panic_msg.
  - unfold insertChild. apply insertChild_from_panic_msg.
Qed.

(** X3.  In every node of a built tree the index bytes are pairwise
    distinct, and a node with a wildcard child has none. *)
Theorem built_tree_indices_distinct (rs : list (str * option Handler)) t :
  build rs = Ok t ->
  Forall (fun pr : str * option Handler =>
            fst pr <> [] /\ (wcount (fst pr) <= 255)%Z) rs ->
  all_nodes (fun n => NoDup (indices n) /\ (wildcard n = true -> indices n = [])) t.
Proof.
  intros Hb Hall. destruct (build_inv Hb Hall) as (_ & Hk & _).
  revert Hk. apply all_nodes_impl. intros n Hn. split.
  - apply (ki_nodup Hn).
  - intro Hw. apply (ki_wild Hn Hw).
Qed.

End Built.

Lemma register_panic_names_pattern_witness :
  contains (msg_duplicate (bytes "/a")) (bytes "/a").
Proof.
  apply (@register_panic_names_pattern nat tree_file (bytes "/a") (Some 2)).
  vm_compute. reflexivity.
Defined.

Lemma built_tree_indices_distinct_witness :
  all_nodes (fun n : node nat => NoDup (indices n) /\ (wildcard n = true -> indices n = []))
    tree_files.
Proof.
  apply (@built_tree_indices_distinct nat [route "/files/*fp" 1] tree_files).
  - vm_compute. reflexivity.
  - constructor; [|constructor]. split; [discriminate|vm_compute; discriminate].
Defined.

(** ** Insertion: the patterns that [insertChild] refuses *)

Section Refused.

Context {Handler : Type}.
Implicit Types (n t : node Handler) (h : option Handler) (s name rest : str).

(** The first registration goes to [insertChild] with the root. *)
Lemma register_empty (p : str) h :
  register empty_node p h
  = insertChild_from p p h p 0 0 (Node Root [] 0 [] None 1 [] false) (countParams p).
Proof. reflexivity. Qed.

Lemma countParams_pos s (w : ascii) rest :
  is_wild w = true -> (0 <? countParams (s ++ w :: rest))%Z = true.
Proof.
  intro Hw. apply Z.ltb_lt. unfold countParams.
  rewrite filter_app, length_app. cbn [filter]. rewrite Hw. cbn [length]. lia.
Qed.

Lemma countParams_one s (w : ascii) rest :
  plain s = true -> is_wild w = true -> plain rest = true ->
  countParams (s ++ w :: rest) = 1%Z.
Proof.
  intros Hs Hw Hr. unfold countParams.
  rewrite filter_app, length_app. cbn [filter]. rewrite Hw.
  rewrite !filter_plain by assumption. reflexivity.
Qed.

Lemma find_end_wild name (w : ascii) rest :
  forall e, name_like name = true -> is_wild w = true ->
  find_end (name ++ w :: rest) e = None.
Proof.
  induction name as [|c name IH]; intros e Hn Hw; cbn [app find_end].
  - rewrite Hw. destruct (Ascii.eqb_spec w slash) as [->|]; [discriminate|reflexivity].
  - cbn in Hn. apply andb_true_iff in Hn as [Hc Hn].
    apply andb_true_iff in Hc as [Hc1 Hc2].
    apply negb_true_iff in Hc1, Hc2. rewrite Hc1, Hc2. now apply IH.
Qed.

Lemma find_end_slash name rest :
  forall e, name_like name = true ->
  find_end (name ++ slash :: rest) e = Some (e + length name).
Proof.
  induction name as [|c name IH]; intros e Hn; cbn [app find_end length].
  - replace (Ascii.eqb slash slash) with true by reflexivity. f_equal. lia.
  - cbn in Hn. apply andb_true_iff in Hn as [Hc Hn].
    apply andb_true_iff in Hc as [Hc1 Hc2].
    apply negb_true_iff in Hc1, Hc2. rewrite Hc1, Hc2, IH by exact Hn. f_equal. lia.
Qed.

(** X4.  A wildcard without a name, at the end of the pattern or before a
    slash, is refused as the first registration: the panic is the one
    about the non-empty name, with the pattern. *)
Theorem register_unnamed_wildcard_panics s (w : ascii) rest h :
  plain s = true -> is_wild w = true ->
  rest = [] \/ hd_error rest = Some slash ->
  register empty_node (s ++ w :: rest) h = Panic (msg_unnamed (s ++ w :: rest)).
Proof.
  intros Hs Hw Hrest. rewrite register_empty.
  rewrite insertChild_from_skip by exact Hs.
  cbn [insertChild_from]. rewrite (@countParams_pos s w rest Hw), Hw. cbn [negb].
  assert (Hfe : find_end rest (S (0 + length s)) = Some (S (0 + length s))).
  { destruct Hrest as [->|Hr]; [reflexivity|].
    destruct rest as [|c r]; [discriminate|]. cbn in Hr. injection Hr as ->.
    reflexivity. }
  rewrite Hfe. cbn [children length].
  replace (0 <? 0) with false by reflexivity.
  replace (S (0 + length s) - (0 + length s) <? 2) with true; [reflexivity|].
  symmetry. apply Nat.ltb_lt. lia.
Qed.

(** X5.  Two wildcards in one path segment are refused as the first
    registration, with the segment from the first wildcard on and the
    pattern in the message. *)
Theorem register_two_wildcards_panics s (w w' : ascii) name rest h :
  plain s = true -> is_wild w = true -> name_like name = true -> is_wild w' = true ->
  register empty_node (s ++ w :: name ++ w' :: rest) h
  = Panic (msg_one_wildcard (w :: name ++ w' :: rest) (s ++ w :: name ++ w' :: rest)).
Proof.
  intros Hs Hw Hn Hw'. rewrite register_empty.
  rewrite insertChild_from_skip by exact Hs.
  cbn [insertChild_from]. rewrite (@countParams_pos s w _ Hw), Hw. cbn [negb].
  rewrite find_end_wild by assumption.
  unfold suffix. cbn [Nat.add]. now rewrite skipn_length_app.
Qed.

(** X6.  A catch-all that is not the last segment of the pattern is
    refused as the first registration. *)
Theorem register_catchall_not_last_panics s name rest h :
  plain s = true -> name_like name = true -> name <> [] ->
  register empty_node (s ++ star :: name ++ slash :: rest) h
  = Panic (msg_catchall_end (s ++ star :: name ++ slash :: rest)).
Proof.
  intros Hs Hn Hne. rewrite register_empty.
  rewrite insertChild_from_skip by exact Hs.
  cbn [insertChild_from]. rewrite (@countParams_pos s star _ eq_refl).
  replace (is_wild star) with true by reflexivity. cbn [negb].
  rewrite find_end_slash by exact Hn. cbn [children].
  replace (0 <? @length (node Handler) []) with false by reflexivity.
  destruct name as [|c name']; [contradiction|].
  replace (S (0 + length s) + length (c :: name') - (0 + length s) <? 2) with false.
  2:{ symmetry. apply Nat.ltb_ge. cbn [length]. lia. }
  replace (Ascii.eqb star colon) with false by reflexivity.
  replace (S (0 + length s) + length (c :: name')
           =? length (s ++ star :: (c :: name') ++ slash :: rest)) with false.
  2:{ symmetry. apply Nat.eqb_neq. rewrite length_app. cbn [length].
      rewrite length_app. cbn [length]. lia. }
  cbn [negb orb]. reflexivity.
Qed.

(** X7.  A catch-all that does not follow a slash is refused as the first
    registration, unless it starts the pattern. *)
Theorem register_catchall_without_slash_panics s (c : ascii) name h :
  plain s = true -> is_wild c = false -> c <> slash ->
  name_like name = true -> name <> [] ->
  register empty_node (s ++ c :: star :: name) h
  = Panic (msg_no_slash (s ++ c :: star :: name)).
Proof.
  intros Hs Hc Hcs Hn Hne. rewrite register_empty.
  assert (Hcount : countParams (s ++ c :: star :: name) = 1%Z).
  { replace (s ++ c :: star :: name) with ((s ++ [c]) ++ star :: name)
      by now rewrite <- app_assoc.
    apply countParams_one; [|reflexivity|now apply name_like_plain].
    unfold plain in *. rewrite forallb_app, Hs. cbn. now rewrite Hc. }
  rewrite Hcount.
  rewrite insertChild_from_skip by exact Hs.
  cbn [insertChild_from Z.ltb Z.compare]. rewrite Hc. cbn [negb].
  replace (is_wild star) with true by reflexivity.
  rewrite find_end_name by exact Hn. cbn [children length Nat.ltb Nat.leb].
  destruct name as [|d name']; [contradiction|].
  replace (S (S (0 + length s)) + length (d :: name') - S (0 + length s) <? 2) with false.
  2:{ symmetry. apply Nat.ltb_ge. cbn [length]. lia. }
  replace (Ascii.eqb star colon) with false by reflexivity.
  replace (S (S (0 + length s)) + length (d :: name')) with
    (length (s ++ c :: star :: d :: name')).
  2:{ rewrite length_app. cbn [length]. lia. }
  rewrite Nat.eqb_refl. cbn [negb orb Z.ltb Z.compare path last_is_slash rev].
  cbn [Nat.add]. rewrite nth_error_app2, Nat.sub_diag by lia. cbn [nth_error].
  destruct (Ascii.eqb_spec c slash) as [->|_]; [contradiction|]. cbn [negb].
  match goal with |- context [if ?b then Panic (msg_unnamed _) else _] =>
    replace b with false by (symmetry; apply Nat.leb_gt; rewrite length_app;
                             cbn [length]; lia)
  end.
  reflexivity.
Qed.

(** The walk of [register] from a root whose path is a prefix of the
    pattern and that has neither index bytes nor a flag, when the next
    byte starts a wildcard: [insertChild] is called with the root. *)
Lemma register_walk_to_insert s (w : ascii) rest h fuel n (m : Z) :
  path n = s -> wildcard n = false -> typo n = Root -> indices n = [] ->
  is_wild w = true ->
  register_walk (S fuel) (s ++ w :: rest) h n (s ++ w :: rest) m
  = insertChild (raise_nparams n m) m (w :: rest) (s ++ w :: rest) h.
Proof.
  intros Hp Hw Ht Hi Hwild. cbn [register_walk].
  assert (Hp' : path (raise_nparams n m) = s).
  { unfold raise_nparams. destruct (_ <? _)%Z; exact Hp. }
  assert (Hw' : wildcard (raise_nparams n m) = false).
  { unfold raise_nparams. destruct (_ <? _)%Z; exact Hw. }
  assert (Ht' : typo (raise_nparams n m) = Root).
  { unfold raise_nparams. destruct (_ <? _)%Z; exact Ht. }
  assert (Hi' : indices (raise_nparams n m) = []).
  { unfold raise_nparams. destruct (_ <? _)%Z; exact Hi. }
  rewrite Hp'.
  rewrite (@lcp_prefix (s ++ w :: rest) s) by apply firstn_length_app.
  rewrite Nat.ltb_irrefl.
  replace (length s <? length (s ++ w :: rest)) with true.
  2:{ symmetry. apply Nat.ltb_lt. rewrite length_app. cbn [length]. lia. }
  unfold suffix. rewrite skipn_length_app, Hw', Ht', Hi', Hwild. reflexivity.
Qed.

(** X8.  After a pattern [s] without wildcards, the pattern [s*name] is
    refused: with the message about the root of the path segment when [s]
    ends with a slash, and otherwise with the runtime panic of the index
    [-1], which carries no message of the package. *)
Theorem register_catchall_after_route s name h h' :
  plain s = true -> s <> [] -> name_like name = true -> name <> [] ->
  exists t,
    register empty_node s h = Ok t
    /\ register t (s ++ star :: name) h'
       = if last_is_slash s then Panic (msg_catchall_root (s ++ star :: name))
         else RuntimePanic.
Proof.
  intros Hs Hne Hn Hnn. eexists. split; [apply register_single; exact Hs|].
  unfold register. cbn [bump_priority set_priority path children length].
  replace (0 <? length s) with true.
  2:{ symmetry. apply Nat.ltb_lt. destruct s; [contradiction|cbn; lia]. }
  cbn [orb]. unfold register_fuel. rewrite register_walk_to_insert; try reflexivity.
  assert (Hcount : countParams (s ++ star :: name) = 1%Z).
  { apply countParams_one; [exact Hs|reflexivity|now apply name_like_plain]. }
  rewrite Hcount.
  replace (raise_nparams (bump_priority (Node Root s 0 [] h 1 [] false)) 1)
    with (Node Root s 1 [] h (incr32 1) [] false) by reflexivity.
  unfold insertChild. cbn [insertChild_from Z.ltb Z.compare].
  replace (is_wild star) with true by reflexivity. cbn [negb].
  rewrite find_end_name by exact Hn.
  destruct name as [|c name']; [contradiction|].
  cbn [children path].
  replace (0 <? @length (node Handler) []) with false by reflexivity.
  replace (1 + length (c :: name') - 0 <? 2) with false.
  2:{ symmetry. apply Nat.ltb_ge. cbn [length]. lia. }
  replace (Ascii.eqb star colon) with false by reflexivity.
  replace (1 + length (c :: name') =? length (star :: c :: name')) with true.
  2:{ symmetry. apply Nat.eqb_eq. reflexivity. }
  cbn [negb orb]. destruct (last_is_slash s); reflexivity.
Qed.

(** The tree of the one route [s:name]. *)
Lemma register_param s name h :
  plain s = true -> name_like name = true -> name <> [] ->
  register empty_node (s ++ colon :: name) h
  = Ok (Node Root s 0 [] None 1 [Node Param_ (colon :: name) 1 [] h 1 [] false] true).
Proof.
  intros Hs Hn Hne. rewrite register_empty.
  assert (Hcount : countParams (s ++ colon :: name) = 1%Z).
  { apply countParams_one; [exact Hs|reflexivity|now apply name_like_plain]. }
  rewrite Hcount. rewrite insertChild_from_skip by exact Hs.
  cbn [insertChild_from Z.ltb Z.compare].
  replace (is_wild colon) with true by reflexivity. cbn [negb].
  rewrite find_end_name by exact Hn. cbn [children].
  replace (0 <? @length (node Handler) []) with false by reflexivity.
  destruct name as [|c name']; [contradiction|].
  replace (S (0 + length s) + length (c :: name') - (0 + length s) <? 2) with false.
  2:{ symmetry. apply Nat.ltb_ge. cbn [length]. lia. }
  replace (Ascii.eqb colon colon) with true by reflexivity.
  replace (S (0 + length s) + length (c :: name') <? length (s ++ colon :: c :: name'))
    with false.
  2:{ symmetry. apply Nat.ltb_ge. rewrite length_app. cbn [length]. lia. }
  rewrite insertChild_from_done by reflexivity. cbn [bind Nat.add].
  unfold suffix, slice. destruct s as [|a s'].
  - reflexivity.
  - cbn [length]. replace (0 <? S (length s')) with true by reflexivity.
    change (S (length s')) with (length (a :: s')).
    rewrite skipn_length_app. cbn [skipn]. rewrite Nat.sub_0_r, firstn_length_app.
    reflexivity.
Qed.

Lemma name_like_no_slash name k :
  name_like name = true -> nth_error name k <> Some slash.
Proof.
  revert k. induction name as [|c name IH]; intros [|k] Hn; cbn; try discriminate.
  - cbn in Hn. apply andb_true_iff in Hn as [Hc _].
    apply andb_true_iff in Hc as [_ Hc]. intros [= ->]. discriminate.
  - cbn in Hn. apply andb_true_iff in Hn as [_ Hn]. now apply IH.
Qed.

(** X9.  After the route [s:name], a pattern with another name for the
    parameter at the same place is refused; the message gives the new
    segment, the wildcard of the tree and the pattern. *)
Theorem register_param_name_conflict s name name' h h' :
  plain s = true -> name_like name = true -> name <> [] ->
  name_like name' = true -> name' <> name ->
  exists t,
    register empty_node (s ++ colon :: name) h = Ok t
    /\ register t (s ++ colon :: name') h'
       = Panic (msg_conflict_wildcard (colon :: name') (colon :: name)
                  (s ++ colon :: name')).
Proof.
  intros Hs Hn Hne Hn' Hdiff. eexists. split; [now apply register_param|].
  unfold register. cbn [bump_priority set_priority path children length Nat.ltb Nat.leb].
  rewrite orb_true_r. cbn [register_fuel register_walk].
  set (m := countParams (s ++ colon :: name')).
  match goal with |- context [raise_nparams ?x m] => set (r := raise_nparams x m) end.
  assert (Hr : r = Node Root s (nparams r) [] None (incr32 1)
                    [Node Param_ (colon :: name) 1 [] h 1 [] false] true).
  { unfold r, raise_nparams. destruct (_ <? _)%Z; reflexivity. }
  rewrite Hr. cbn [path children wildcard].
  rewrite (@lcp_prefix (s ++ colon :: name') s) by apply firstn_length_app.
  rewrite Nat.ltb_irrefl.
  replace (length s <? length (s ++ colon :: name')) with true.
  2:{ symmetry. apply Nat.ltb_lt. rewrite length_app. cbn [length]. lia. }
  unfold suffix. rewrite skipn_length_app. cbn [path children wildcard].
  match goal with |- context [raise_nparams (bump_priority ?x) m] =>
    set (c := raise_nparams (bump_priority x) m) end.
  assert (Hc : path c = colon :: name).
  { unfold c, raise_nparams. destruct (_ <? _)%Z; reflexivity. }
  rewrite Hc.
  match goal with |- (if ?b then _ else _) = _ => assert (Hb : b = false) end.
  { apply not_true_is_false. intro Hb.
    apply andb_true_iff in Hb as [Hb H3]. apply andb_true_iff in Hb as [H1 H2].
    apply Nat.leb_le in H1. apply str_eqb_eq in H2. cbn [length] in *.
    cbn [firstn] in H2. injection H2 as H2.
    apply orb_true_iff in H3 as [H3|H3].
    - apply Nat.leb_le in H3. apply Hdiff.
      rewrite H2. rewrite firstn_all2 by lia. reflexivity.
    - cbn [nth_error] in H3.
      destruct (nth_error name' (length name)) as [x|] eqn:E; [|discriminate].
      apply Ascii.eqb_eq in H3. subst x.
      exact (@name_like_no_slash name' (length name) Hn' E). }
  rewrite Hb. reflexivity.
Qed.

End Refused.

Lemma register_unnamed_wildcard_panics_witness :
  register (@empty_node nat) (bytes "/a/:" ++ []) (Some 1)
  = Panic (msg_unnamed (bytes "/a/:")).
Proof.
  apply (@register_unnamed_wildcard_panics nat (bytes "/a/") colon [] (Some 1)).
  - reflexivity.
  - reflexivity.
  - left. reflexivity.
Defined.

Lemma register_two_wildcards_panics_witness :
  register (@empty_node nat) (bytes "/:a:b") (Some 1)
  = Panic (msg_one_wildcard (bytes ":a:b") (bytes "/:a:b")).
Proof.
  apply (@register_two_wildcards_panics nat (bytes "/") colon colon (bytes "a")
           (bytes "b") (Some 1)); reflexivity.
Defined.

Lemma register_catchall_not_last_panics_witness :
  register (@empty_node nat) (bytes "/*a/b") (Some 1)
  = Panic (msg_catchall_end (bytes "/*a/b")).
Proof.
  apply (@register_catchall_not_last_panics nat (bytes "/") (bytes "a") (bytes "b")
           (Some 1)); [reflexivity|reflexivity|discriminate].
Defined.

Lemma register_catchall_without_slash_panics_witness :
  register (@empty_node nat) (bytes "/a*b") (Some 1)
  = Panic (msg_no_slash (bytes "/a*b")).
Proof.
  apply (@register_catchall_without_slash_panics nat (bytes "/") "a"%char (bytes "b")
           (Some 1)); try reflexivity; discriminate.
Defined.

Lemma register_catchall_after_route_witness :
  exists t,
    register (@empty_node nat) (bytes "/a") (Some 1) = Ok t
    /\ register t (bytes "/a*b") (Some 2) = RuntimePanic.
Proof.
  apply (@register_catchall_after_route nat (bytes "/a") (bytes "b") (Some 1) (Some 2));
    try reflexivity; discriminate.
Defined.

Lemma register_param_name_conflict_witness :
  exists t,
    register (@empty_node nat) (bytes "/:a") (Some 1) = Ok t
    /\ register t (bytes "/:b") (Some 2)
       = Panic (msg_conflict_wildcard (bytes ":b") (bytes ":a") (bytes "/:b")).
Proof.
  apply (@register_param_name_conflict nat (bytes "/") (bytes "a") (bytes "b")
           (Some 1) (Some 2)); try reflexivity; discriminate.
Defined.

(** ** Insertion: the handle of every pattern *)

Section HandleMap.

Context {A B : Type} (f : A -> option B).
Implicit Types (n c : node A) (cs : list (node A)).

Lemma hmap_fields n :
  typo (hmap f n) = typo n /\ path (hmap f n) = path n
  /\ nparams (hmap f n) = nparams n /\ indices (hmap f n) = indices n
  /\ handle (hmap f n) = obind (handle n) f /\ priority (hmap f n) = priority n
  /\ children (hmap f n) = map (hmap f) (children n)
  /\ wildcard (hmap f n) = wildcard n.
Proof. destruct n; cbn. auto 10. Qed.

Lemma hmap_path n : path (hmap f n) = path n.
Proof. now destruct n. Qed.
Lemma hmap_children n : children (hmap f n) = map (hmap f) (children n).
Proof. now destruct n. Qed.
Lemma hmap_handle n : handle (hmap f n) = obind (handle n) f.
Proof. now destruct n. Qed.
Lemma hmap_priority n : priority (hmap f n) = priority n.
Proof. now destruct n. Qed.
Lemma hmap_nparams n : nparams (hmap f n) = nparams n.
Proof. now destruct n. Qed.
Lemma hmap_indices n : indices (hmap f n) = indices n.
Proof. now destruct n. Qed.
Lemma hmap_typo n : typo (hmap f n) = typo n.
Proof. now destruct n. Qed.
Lemma hmap_wildcard n : wildcard (hmap f n) = wildcard n.
Proof. now destruct n. Qed.

Lemma hmap_set_children n cs :
  hmap f (set_children n cs) = set_children (hmap f n) (map (hmap f) cs).
Proof. now destruct n. Qed.
Lemma hmap_set_indices n s : hmap f (set_indices n s) = set_indices (hmap f n) s.
Proof. now destruct n. Qed.
Lemma hmap_set_path n s : hmap f (set_path n s) = set_path (hmap f n) s.
Proof. now destruct n. Qed.
Lemma hmap_set_handle n h : hmap f (set_handle n h) = set_handle (hmap f n) (obind h f).
Proof. now destruct n. Qed.
Lemma hmap_set_wildcard n w : hmap f (set_wildcard n w) = set_wildcard (hmap f n) w.
Proof. now destruct n. Qed.
Lemma hmap_bump n : hmap f (bump_priority n) = bump_priority (hmap f n).
Proof. now destruct n. Qed.
Lemma hmap_raise n m : hmap f (raise_nparams n m) = raise_nparams (hmap f n) m.
Proof. destruct n. unfold raise_nparams. cbn. now destruct (_ <? _)%Z. Qed.

Lemma hmap_set_nth cs k c :
  map (hmap f) (set_nth cs k c) = set_nth (map (hmap f) cs) k (hmap f c).
Proof. revert k; induction cs as [|x cs IH]; intros [|k]; cbn; auto. now rewrite IH. Qed.

Lemma hmap_bubble (prio : Z) : forall k cs,
  bubble (map (hmap f) cs) k prio
  = (map (hmap f) (fst (bubble cs k prio)), snd (bubble cs k prio)).
Proof.
  induction k as [|k IH]; intro cs; cbn [bubble]; [reflexivity|].
  rewrite !nth_error_map.
  destruct (nth_error cs k) as [l|]; cbn [option_map]; [|reflexivity].
  destruct (nth_error cs (S k)) as [x|]; cbn [option_map]; [|reflexivity].
  rewrite hmap_priority. destruct (_ <? _)%Z; [|reflexivity].
  rewrite <- !hmap_set_nth. apply IH.
Qed.

Lemma hmap_incrementChildPriority n pos :
  incrementChildPriority (hmap f n) pos
  = omap (fun r => (hmap f (fst r), snd r)) (incrementChildPriority n pos).
Proof.
  unfold incrementChildPriority.
  rewrite hmap_children, nth_error_map, hmap_indices.
  destruct (nth_error (children n) pos) as [c|]; cbn [option_map]; [|reflexivity].
  rewrite <- hmap_bump, <- hmap_set_nth, hmap_priority, hmap_bubble.
  destruct (bubble _ _ _) as [cs np]. cbn [fst snd].
  destruct (Nat.eqb np pos); cbn [omap fst snd].
  - now rewrite hmap_set_children.
  - destruct (_ <? _); cbn [omap fst snd]; [reflexivity|].
    now rewrite hmap_set_indices, hmap_set_children.
Qed.

Lemma hmap_fold_raise cs : forall c0,
  hmap f (fold_left (fun (a : node A) x => raise_nparams a (nparams x)) cs c0)
  = fold_left (fun (b : node B) x => raise_nparams b (nparams x))
      (map (hmap f) cs) (hmap f c0).
Proof.
  induction cs as [|x cs IH]; intro c0; cbn [fold_left map]; [reflexivity|].
  now rewrite IH, hmap_raise, hmap_nparams.
Qed.

Lemma hmap_split_edge n (u : str) i :
  hmap f (split_edge n u i) = split_edge (hmap f n) u i.
Proof.
  unfold split_edge.
  rewrite hmap_typo, hmap_path, hmap_nparams, hmap_indices, hmap_handle, hmap_priority,
    hmap_children, hmap_wildcard.
  cbn [hmap map obind]. now rewrite hmap_fold_raise.
Qed.

Lemma omap_bind {X Y X' Y' : Type} (g : X -> X') (g' : Y -> Y')
    (m : outcome X) (k : X -> outcome Y) (k' : X' -> outcome Y') :
  (forall x, k' (g x) = omap g' (k x)) ->
  bind (omap g m) k' = omap g' (bind m k).
Proof. intro H. destruct m; cbn; auto. Qed.

Lemma hmap_insertChild_from (uripath abspath : str) (h : option A) :
  forall rest i offset n m,
  insertChild_from uripath abspath (obind h f) rest i offset (hmap f n) m
  = omap (hmap f) (insertChild_from uripath abspath h rest i offset n m).
Proof.
  induction rest as [|c rest IH]; intros i offset n m; cbn [insertChild_from].
  - destruct (0 <? m)%Z; [reflexivity|]. cbn [omap].
    now rewrite hmap_set_handle, hmap_set_path.
  - destruct (0 <? m)%Z.
    2:{ cbn [omap]. now rewrite hmap_set_handle, hmap_set_path. }
    destruct (negb (is_wild c)); [apply IH|].
    destruct (find_end rest (S i)) as [e|]; [|reflexivity].
    rewrite hmap_children, length_map.
    destruct (0 <? length (children n)); [reflexivity|].
    destruct (e - i <? 2); [reflexivity|].
    destruct (Ascii.eqb c colon).
    + destruct (e <? length uripath).
      * change (Node Static [] (decr8 m) [] None 1 [] false)
          with (hmap f (Node Static [] (decr8 m) [] None 1 [] false)) at 1.
        rewrite IH. apply omap_bind. intro r. cbn [omap].
        destruct (0 <? i); rewrite hmap_set_wildcard, hmap_set_children, ?hmap_set_path;
          reflexivity.
      * change (bump_priority (Node Param_ [] m [] None 0 [] false))
          with (hmap f (bump_priority (Node Param_ [] m [] None 0 [] false))) at 1.
        rewrite IH. apply omap_bind. intro r. cbn [omap].
        destruct (0 <? i); rewrite hmap_set_wildcard, hmap_set_children, ?hmap_set_path;
          reflexivity.
    + destruct (_ || _); [reflexivity|]. rewrite hmap_path.
      destruct (last_is_slash (path n)); [reflexivity|].
      destruct i as [|j]; [reflexivity|].
      destruct (nth_error uripath j) as [sl|]; [|reflexivity].
      destruct (negb (Ascii.eqb sl slash)); [reflexivity|]. cbn [omap].
      now rewrite hmap_set_indices, hmap_set_children, hmap_set_path.
Qed.

Lemma bind_ok_inv {X Y : Type} (m : outcome X) (k : X -> outcome Y) :
  (exists r, bind m k = Ok r) -> exists r0, m = Ok r0.
Proof. intros [r H]. destruct m; try discriminate. eauto. Qed.

(** [register] on the copy of the tree: the same steps, when [f] drops no
    handle or when the insertion into the tree itself succeeds. *)
Lemma hmap_register_walk (abspath : str) (h : option A) : forall fuel n (u : str) m,
  (forall x, is_some (f x) = true)
  \/ (exists r, register_walk fuel abspath h n u m = Ok r) ->
  register_walk fuel abspath (obind h f) (hmap f n) u m
  = omap (hmap f) (register_walk fuel abspath h n u m).
Proof.
  induction fuel as [|fuel IH]; intros n u m H; [reflexivity|].
  cbn [register_walk] in *.
  rewrite <- hmap_raise, hmap_path.
  set (n0 := raise_nparams n m) in *. set (i := lcp u (path n0)) in *.
  rewrite <- hmap_split_edge.
  replace (if i <? length (path n0) then hmap f (split_edge n0 u i) else hmap f n0)
    with (hmap f (if i <? length (path n0) then split_edge n0 u i else n0))
    by (destruct (i <? length (path n0)); reflexivity).
  set (n1 := if i <? length (path n0) then split_edge n0 u i else n0) in *.
  clearbody n1 i. clear n0.
  match goal with |- context [if ?b then _ else _] => destruct b end.
  2:{ rewrite hmap_handle. destruct (handle n1) as [x|]; cbn [obind omap].
      - destruct H as [H|[r H]]; [|discriminate]. specialize (H x).
        destruct (f x); [reflexivity|discriminate].
      - now rewrite hmap_set_handle. }
  rewrite hmap_wildcard, hmap_children. destruct (wildcard n1).
  - destruct (children n1) as [|c rest]; cbn [map]; [reflexivity|].
    rewrite <- hmap_bump, <- hmap_raise, hmap_path.
    match goal with |- context [if ?b then _ else _] => destruct b end; [|reflexivity].
    rewrite IH.
    + apply omap_bind. intro r. cbn [omap]. now rewrite hmap_set_children.
    + destruct H as [H|H]; [now left|right]. exact (bind_ok_inv _ _ H).
  - match goal with |- context [match ?s with [] => RuntimePanic | _ => _ end] =>
      destruct s as [|c t] end; [reflexivity|].
    rewrite hmap_typo, length_map, hmap_indices.
    match goal with |- context [if ?b then _ else _] => destruct b end.
    + destruct (children n1) as [|ch rest]; [reflexivity|]. cbn [map].
      rewrite <- hmap_bump, IH.
      * apply omap_bind. intro r. cbn [omap]. now rewrite hmap_set_children.
      * destruct H as [H|H]; [now left|right]. exact (bind_ok_inv _ _ H).
    + destruct (find_index (indices n1) c) as [k|].
      * rewrite hmap_incrementChildPriority.
        destruct (incrementChildPriority n1 k) as [[n2 k1]| | |];
          cbn [omap bind fst snd] in *; try reflexivity.
        rewrite hmap_children, nth_error_map.
        destruct (nth_error (children n2) k1) as [ch|]; cbn [option_map]; [|reflexivity].
        rewrite IH.
        -- apply omap_bind. intro r. cbn [omap].
           now rewrite hmap_set_children, hmap_set_nth.
        -- destruct H as [H|H]; [now left|right]. exact (bind_ok_inv _ _ H).
      * destruct (negb (is_wild c)).
        2:{ unfold insertChild. apply hmap_insertChild_from. }
        cbn [indices children set_indices set_children length] in *.
        rewrite hmap_children, !length_app, length_map. cbn [length].
        match goal with |- context [incrementChildPriority ?x ?p] =>
          replace x with
            (hmap f (set_children (set_indices n1 (indices n1 ++ [c]))
                       (children n1 ++ [set_nparams empty_node m])))
        end.
        2:{ rewrite hmap_set_children, hmap_set_indices, map_app. reflexivity. }
        rewrite hmap_incrementChildPriority.
        match goal with |- context [omap _ ?x] =>
          destruct x as [[n3 k1]| | |] end; cbn [omap bind fst snd] in *; try reflexivity.
        rewrite hmap_children, nth_error_map.
        match goal with |- context [nth_error (children n3) ?k] =>
          destruct (nth_error (children n3) k) as [ch|] end;
          cbn [option_map]; [|reflexivity].
        unfold insertChild. rewrite hmap_insertChild_from.
        apply omap_bind. intro r. cbn [omap].
        now rewrite hmap_set_children, hmap_set_nth.
Qed.

Lemma hmap_depth : forall n, depth (hmap f n) = depth n.
Proof.
  fix IH 1. intros [t p np ind h pr cs w]. cbn [hmap depth]. f_equal.
  induction cs as [|c cs IHcs]; cbn [map fold_right]; [reflexivity|].
  now rewrite IH, IHcs.
Qed.

Lemma hmap_register n (p : str) (h : option A) :
  (forall x, is_some (f x) = true) \/ (exists r, register n p h = Ok r) ->
  register (hmap f n) p (obind h f) = omap (hmap f) (register n p h).
Proof.
  unfold register. intro H.
  rewrite <- hmap_bump, hmap_path, hmap_children, length_map.
  destruct (_ || _).
  - unfold register_fuel. rewrite hmap_depth. now apply hmap_register_walk.
  - unfold insertChild.
    replace (set_typo (hmap f (bump_priority n)) Root)
      with (hmap f (set_typo (bump_priority n) Root)) by now destruct n.
    apply hmap_insertChild_from.
Qed.

Lemma hmap_insert_all (rs : list (str * option A)) : forall t : node A,
  (forall x, is_some (f x) = true) \/ (exists r, insert_all t rs = Ok r) ->
  insert_all (hmap f t) (hmap_routes f rs) = omap (hmap f) (insert_all t rs).
Proof.
  induction rs as [|[p h] rs IH]; intros t H; cbn [hmap_routes map insert_all fst snd];
    [reflexivity|].
  cbn [insert_all] in H. rewrite hmap_register.
  - destruct (register t p h) as [t1| | |]; cbn [omap bind] in *; try reflexivity.
    apply IH. exact H.
  - destruct H as [H|H]; [now left|right]. exact (bind_ok_inv _ _ H).
Qed.

Lemma hmap_build (rs : list (str * option A)) :
  (forall x, is_some (f x) = true) \/ (exists r, build rs = Ok r) ->
  build (hmap_routes f rs) = omap (hmap f) (build rs).
Proof. intro H. unfold build. now rewrite <- hmap_insert_all. Qed.

Lemma held_hmap n (v : str) (y : B) :
  held (hmap f n) v y <-> exists x, held n v x /\ f x = Some y.
Proof.
  split.
  - intro H. remember (hmap f n) as n' eqn:E. revert n E.
    induction H as [n' y Hh|n' c' rest y Hc Hheld IH]; intros n ->.
    + rewrite hmap_handle in Hh. destruct (handle n) as [x|] eqn:Hx; [|discriminate].
      cbn in Hh. exists x. split; [|exact Hh]. rewrite hmap_path. now constructor.
    + rewrite hmap_children in Hc. apply in_map_iff in Hc as (c & <- & Hc).
      destruct (IH c eq_refl) as (x & Hx & Hf). exists x. split; [|exact Hf].
      rewrite hmap_path. econstructor; eauto.
  - intros (x & H & Hf). induction H as [n x Hh|n c rest x Hc Hheld IH].
    + rewrite <- (hmap_path n). constructor. rewrite hmap_handle, Hh. exact Hf.
    + rewrite <- (hmap_path n). econstructor; [|apply IH; exact Hf].
      rewrite hmap_children. now apply in_map.
Qed.

Lemma hmap_routes_patterns (P : str -> Prop) (rs : list (str * option A)) :
  Forall (fun pr : str * option A => P (fst pr)) rs ->
  Forall (fun pr : str * option B => P (fst pr)) (hmap_routes f rs).
Proof.
  unfold hmap_routes. rewrite Forall_map. apply Forall_impl. intros [p h]. auto.
Qed.

Lemma In_hmap_routes (rs : list (str * option A)) (v : str) (z : B) :
  In (v, Some z) (hmap_routes f rs) <-> exists x, In (v, Some x) rs /\ f x = Some z.
Proof.
  unfold hmap_routes. rewrite in_map_iff. split.
  - intros ([p [x|]] & E & Hin); cbn in E; inversion E; subst; eauto.
  - intros (x & Hin & Hf). exists (v, Some x). cbn. rewrite Hf. auto.
Qed.

End HandleMap.

Lemma stored_held {Handler : Type} (n : node Handler) (v : str) : stored n v <-> exists x, held n v x.
Proof.
  split.
  - intro H. induction H as [n Hh|n c rest Hc Hs [x IH]].
    + destruct (handle n) as [x|] eqn:E; [|discriminate]. exists x. now constructor.
    + exists x. econstructor; eauto.
  - intros [x H]. induction H as [n x Hh|n c rest x Hc Hheld IH].
    + constructor. now rewrite Hh.
    + econstructor; eauto.
Qed.

Section Held.

Context {Handler : Type}.
Implicit Types (n t : node Handler).

Lemma tag_routes_patterns (P : str -> Prop) (rs : list (str * option Handler)) :
  forall k, Forall (fun pr : str * option Handler => P (fst pr)) rs ->
  Forall (fun pr : str * option (nat * Handler) => P (fst pr)) (tag_routes k rs).
Proof.
  induction rs as [|[p h] rs IH]; intros k H; cbn; constructor;
    inversion H; subst; auto.
Qed.

Lemma untag_routes (rs : list (str * option Handler)) : forall k,
  hmap_routes (fun b : nat * Handler => Some (snd b)) (tag_routes k rs) = rs.
Proof.
  induction rs as [|[p h] rs IH]; intro k; cbn; [reflexivity|].
  unfold hmap_routes in IH. rewrite IH. now destruct h.
Qed.

Lemma In_tag_routes (rs : list (str * option Handler)) (v : str) i (y : Handler) :
  forall k, In (v, Some (i, y)) (tag_routes k rs)
            <-> k <= i /\ nth_error rs (i - k) = Some (v, Some y).
Proof.
  induction rs as [|[p h] rs IH]; intro k; cbn [tag_routes In].
  - split; [intros []|]. intros [_ H]. destruct (i - k); discriminate.
  - rewrite IH. split.
    + intros [E|[Hle Hn]].
      * destruct h as [x|]; cbn in E; inversion E; subst.
        split; [lia|]. now rewrite Nat.sub_diag.
      * split; [lia|]. replace (i - k) with (S (i - S k)) by lia. exact Hn.
    + intros [Hle Hn]. destruct (Nat.eq_dec i k) as [->|Hne].
      * left. rewrite Nat.sub_diag in Hn. cbn in Hn. inversion Hn; subst. reflexivity.
      * right. split; [lia|]. replace (i - k) with (S (i - S k)) in Hn by lia. exact Hn.
Qed.

(** Every handle beside a position is sent to the handle registered at
    that position: the tagged routes stay as they are. *)
Lemma retag_routes (all : list (str * option Handler)) (rs : list (str * option Handler)) :
  forall k, (forall j, nth_error rs j = nth_error all (k + j)) ->
  hmap_routes (fun b : nat * Handler =>
                 match nth_error all (fst b) with
                 | Some (_, Some x) => Some (fst b, x)
                 | _ => None
                 end) (tag_routes k rs)
  = tag_routes k rs.
Proof.
  induction rs as [|[p h] rs IH]; intros k H; cbn [tag_routes hmap_routes map fst snd];
    [reflexivity|].
  unfold hmap_routes in IH. rewrite IH.
  - f_equal. f_equal. destruct h as [x|]; [|reflexivity]. cbn.
    specialize (H 0). rewrite Nat.add_0_r in H. cbn in H. now rewrite <- H.
  - intro j. specialize (H (S j)). cbn in H. rewrite H. f_equal. lia.
Qed.

(** The handles of a built tree, by the insertion followed on three
    copies of the tree: with the positions beside the handles, with the
    handles of one position only, and with the handle of each position
    replaced by the one registered there. *)
Lemma build_held (rs : list (str * option Handler)) t (v : str) (x : Handler) :
  build rs = Ok t ->
  Forall (fun pr : str * option Handler =>
            fst pr <> [] /\ (wcount (fst pr) <= 255)%Z) rs ->
  held t v x <-> In (v, Some x) rs.
Proof.
  intros Hb Hall.
  set (f1 := fun b : nat * Handler => Some (snd b)).
  pose proof (@hmap_build _ _ f1 (tag_routes 0 rs) (or_introl (fun _ => eq_refl))) as H1.
  unfold f1 in H1 at 1. rewrite untag_routes, Hb in H1.
  destruct (build (tag_routes 0 rs)) as [T| | |] eqn:HT; try discriminate.
  cbn [omap] in H1. injection H1 as ->.
  assert (HallT : Forall (fun pr : str * option (nat * Handler) =>
                            fst pr <> [] /\ (wcount (fst pr) <= 255)%Z) (tag_routes 0 rs)).
  { apply (@tag_routes_patterns (fun p => p <> [] /\ (wcount p <= 255)%Z)). exact Hall. }
  assert (HE : forall i w, (exists y, held T w (i, y))
                           <-> exists y, nth_error rs i = Some (w, Some y)).
  { intros i w.
    set (f2 := fun b : nat * Handler => if fst b =? i then Some b else None).
    pose proof (@hmap_build _ _ f2 (tag_routes 0 rs) (or_intror (ex_intro _ T HT))) as H2.
    rewrite HT in H2. cbn [omap] in H2.
    apply build_inv in H2 as (_ & _ & _ & H2).
    2:{ apply (@hmap_routes_patterns _ _ f2 (fun p => p <> [] /\ (wcount p <= 255)%Z)).
        exact HallT. }
    specialize (H2 w). rewrite stored_held in H2.
    split.
    - intros [y Hy].
      destruct (proj1 H2) as [z Hz].
      { exists (i, y). apply held_hmap. exists (i, y). split; [exact Hy|].
        unfold f2. cbn. now rewrite Nat.eqb_refl. }
      apply In_hmap_routes in Hz as ([j y'] & Hin & Hf).
      unfold f2 in Hf. cbn in Hf. destruct (Nat.eqb_spec j i) as [->|]; [|discriminate].
      apply In_tag_routes in Hin as [_ Hin]. rewrite Nat.sub_0_r in Hin. eauto.
    - intros [y Hy].
      destruct (proj2 H2) as [z Hz].
      { exists (i, y). apply In_hmap_routes. exists (i, y). split.
        - apply In_tag_routes. rewrite Nat.sub_0_r. split; [lia|exact Hy].
        - unfold f2. cbn. now rewrite Nat.eqb_refl. }
      apply held_hmap in Hz as ([j y'] & Hheld & Hf).
      unfold f2 in Hf. cbn in Hf. destruct (Nat.eqb_spec j i) as [->|]; [|discriminate].
      eauto. }
  assert (HF : forall i w y, held T w (i, y) -> exists p, nth_error rs i = Some (p, Some y)).
  { intros i w y Hy.
    set (g := fun b : nat * Handler =>
                match nth_error rs (fst b) with
                | Some (_, Some x) => Some (fst b, x)
                | _ => None
                end).
    pose proof (@hmap_build _ _ g (tag_routes 0 rs) (or_intror (ex_intro _ T HT))) as H3.
    unfold g in H3 at 1. rewrite retag_routes in H3 by reflexivity.
    rewrite HT in H3. cbn [omap] in H3. injection H3 as H3.
    rewrite H3 in Hy. apply held_hmap in Hy as ([j y'] & _ & Hg).
    unfold g in Hg. cbn in Hg.
    destruct (nth_error rs j) as [[p [x0|]]|] eqn:E; try discriminate.
    inversion Hg; subst. eauto. }
  rewrite held_hmap. split.
  - intros ([i y] & Hheld & Hf). unfold f1 in Hf. cbn in Hf. injection Hf as ->.
    destruct (proj1 (HE i v)) as [y Hy]; [eauto|].
    destruct (HF _ _ _ Hheld) as [p Hp]. rewrite Hy in Hp. inversion Hp; subst.
    eapply nth_error_In; eauto.
  - intro Hin. apply In_nth_error in Hin as [i Hi].
    destruct (proj2 (HE i v)) as [y Hy]; [eauto|].
    destruct (HF _ _ _ Hy) as [p Hp]. rewrite Hi in Hp. inversion Hp; subst.
    exists (i, y). split; [exact Hy|reflexivity].
Qed.

(** X2.  A built tree holds each handle at the end of the branch that
    spells its pattern, and nothing else: a branch whose paths spell [v]
    ends at a node with the handle [x] exactly when [v] was registered
    with [x]. *)
Theorem built_tree_holds_registered (rs : list (str * option Handler)) t
    (v : str) (x : Handler) :
  build rs = Ok t ->
  Forall (fun pr : str * option Handler =>
            fst pr <> [] /\ (wcount (fst pr) <= 255)%Z) rs ->
  held t v x <-> In (v, Some x) rs.
Proof. apply build_held. Qed.

End Held.

Lemma built_tree_holds_registered_witness :
  held tree_file (bytes "/a") 1 <-> In (bytes "/a", Some 1) [route "/a" 1].
Proof.
  apply (@built_tree_holds_registered nat [route "/a" 1] tree_file (bytes "/a") 1).
  - vm_compute. reflexivity.
  - constructor; [|constructor]. split; [discriminate|vm_compute; discriminate].
Defined.

(** ** Lookup in a tree without wildcards: the handle returned *)

Section StaticHeld.

Context {Handler : Type}.
Implicit Types (n c : node Handler).

Lemma held_inv n (v : str) (x : Handler) :
  held n v x <->
  (handle n = Some x /\ v = path n)
  \/ (exists c rest, In c (children n) /\ held c rest x /\ v = path n ++ rest).
Proof.
  split.
  - intro H. destruct H; [left; auto|right; eauto].
  - intros [[H ->]|(c & rest & Hc & Hs & ->)]; [now constructor|].
    econstructor; eauto.
Qed.

Lemma resolve_nothing_some n (u : str) ps (x : Handler) ps' b :
  resolve_nothing n u ps = (Some x, ps', b) ->
  b = true /\ path n = u ++ [slash] /\ handle n = Some x /\ ps' = ps.
Proof.
  unfold resolve_nothing. destruct (str_eqb u [slash]); [discriminate|].
  destruct (_ && _) eqn:E; [|discriminate]. intro H. inversion H; subst.
  apply andb_true_iff in E as [E _]. apply andb_true_iff in E as [E E3].
  apply andb_true_iff in E as [E1 E2].
  apply Nat.eqb_eq in E1. apply str_eqb_eq in E3.
  destruct (nth_error (path n) (length u)) as [y|] eqn:Hy; [|discriminate].
  apply Ascii.eqb_eq in E2. subst y.
  repeat split; auto.
  rewrite <- (firstn_skipn (length u) (path n)).
  replace (length (path n) - 1) with (length u) in E3 by lia. rewrite <- E3. f_equal.
  apply nth_error_split in Hy as (l1 & l2 & Hp & Hl).
  rewrite Hp, <- Hl, skipn_length_app. f_equal.
  rewrite Hp, length_app in E1. cbn in E1. destruct l2; [reflexivity|cbn in E1; lia].
Qed.

(** The lookup of a pattern that the tree holds. *)
Lemma resolve_walk_held : forall fuel n (v : str) p (x : Handler),
  all_nodes static_inv n -> all_nodes key_inv n -> held n v x -> depth n <= fuel ->
  resolve_walk fuel n v p = Ok (Some x, option_map snd p, false)
  \/ exists (y : str) (hy : Handler),
       v = y ++ [slash] /\ held n y hy
       /\ resolve_walk fuel n v p = Ok (Some hy, option_map snd p, true).
Proof.
  induction fuel as [|fuel IH]; intros n v p x Hs Hk Hheld Hd;
    [destruct n; cbn in Hd; lia|].
  pose proof (all_nodes_inv Hs) as [(S1 & S2 & S3 & S4 & S5 & S6) Hscs].
  pose proof (all_nodes_inv Hk) as [Hki Hkcs].
  cbn [resolve_walk]. rewrite S1. cbn [negb].
  apply held_inv in Hheld as [[Hh ->]|(c & rest & Hcin & Hc & ->)].
  - rewrite Nat.ltb_irrefl, str_eqb_refl, Hh. left. reflexivity.
  - assert (Hsc : stored c rest) by (apply stored_held; eauto).
    pose proof (@ki_some _ n Hki c rest Hcin Hsc) as Hne.
    destruct rest as [|b t]; [contradiction|].
    rewrite length_app.
    replace (length (path n) <? length (path n) + length (b :: t)) with true
      by (symmetry; apply Nat.ltb_lt; cbn; lia).
    rewrite firstn_length_app, str_eqb_refl. unfold suffix. rewrite skipn_length_app.
    destruct (str_eqb (b :: t) [slash] && is_some (handle n)) eqn:E.
    + right. apply andb_true_iff in E as [E1 E2]. apply str_eqb_eq in E1.
      destruct (handle n) as [hy|] eqn:Hh; [|discriminate].
      exists (path n), hy. rewrite E1. repeat split. now constructor.
    + destruct (@find_index_stored _ n c b t Hki S6 Hcin Hsc) as (k & Hfind & Hkc).
      rewrite Hfind, Hkc.
      destruct (IH c (b :: t) p x) as [Hl|(y & hy & Ey & Hy & Hr)]; auto.
      * rewrite Forall_forall in Hscs. auto.
      * rewrite Forall_forall in Hkcs. auto.
      * apply depth_child in Hcin. lia.
      * right. exists (path n ++ y), hy. rewrite Ey, app_assoc.
        split; [reflexivity|]. split; [econstructor; eauto|]. now rewrite <- Ey.
Qed.

(** The handle that a lookup returns is held by the tree, for the path
    itself, or with the recommendation for the path with the last slash
    toggled. *)
Lemma resolve_walk_sound : forall fuel n (q : str) p (x : Handler) ps b,
  all_nodes static_inv n ->
  resolve_walk fuel n q p = Ok (Some x, ps, b) ->
  if b then held n (q ++ [slash]) x \/ exists y, q = y ++ [slash] /\ held n y x
  else held n q x.
Proof.
  induction fuel as [|fuel IH]; intros n q p x ps b Hs H; [discriminate|].
  pose proof (all_nodes_inv Hs) as [(S1 & S2 & S3 & S4 & S5 & S6) Hscs].
  cbn [resolve_walk] in H. rewrite S1 in H. cbn [negb] in H.
  destruct (length (path n) <? length q) eqn:Hlen.
  - destruct (str_eqb (firstn (length (path n)) q) (path n)) eqn:Hpre.
    + apply str_eqb_eq in Hpre.
      assert (Hq : q = path n ++ suffix q (length (path n))).
      { unfold suffix. rewrite <- Hpre at 1. symmetry. apply firstn_skipn. }
      set (rest := suffix q (length (path n))) in *. clearbody rest.
      destruct (str_eqb rest [slash] && is_some (handle n)) eqn:E.
      * inversion H; subst ps b. apply andb_true_iff in E as [E1 _].
        apply str_eqb_eq in E1. right. exists (path n). split; [congruence|].
        now constructor.
      * destruct rest as [|c t]; [discriminate|].
        destruct (find_index (indices n) c) as [k|] eqn:Hfind; [|discriminate].
        destruct (nth_error (children n) k) as [ch|] eqn:Hk; [|discriminate].
        assert (Hin : In ch (children n)) by (eapply nth_error_In; eauto).
        apply IH in H; [|rewrite Forall_forall in Hscs; auto].
        rewrite Hq. destruct b.
        -- destruct H as [H|(y & Ey & Hy)].
           ++ left. rewrite <- app_assoc. econstructor; eauto.
           ++ right. exists (path n ++ y). rewrite Ey, app_assoc.
              split; [reflexivity|]. econstructor; eauto.
        -- econstructor; eauto.
    + inversion H as [H']. apply resolve_nothing_some in H' as (-> & Hp & Hh & _).
      left. rewrite <- Hp. now constructor.
  - destruct (str_eqb q (path n)) eqn:Heq.
    + apply str_eqb_eq in Heq. subst q.
      destruct (handle n) as [hx|] eqn:Hh; cbn [is_some] in H.
      * inversion H; subst. now constructor.
      * rewrite andb_false_r in H. cbn [andb] in H.
        destruct (find_index (indices n) slash) as [k|] eqn:Hfind; [|discriminate].
        destruct (nth_error (children n) k) as [ch|] eqn:Hk; [|discriminate].
        assert (Hin : In ch (children n)) by (eapply nth_error_In; eauto).
        destruct (S4 ch Hin) as [Hty Hne].
        destruct (Nat.eqb (length (path ch)) 1 && is_some (handle ch)) eqn:E.
        -- inversion H; subst ps b. apply andb_true_iff in E as [E1 _].
           apply Nat.eqb_eq in E1.
           pose proof (S5 k slash ch (find_index_some _ _ Hfind) Hk Hty Hne) as Hhd.
           assert (Hp : path ch = [slash]).
           { destruct (path ch) as [|a [|? ?]]; try discriminate.
             cbn in Hhd. congruence. }
           left. rewrite <- Hp. econstructor; eauto. now constructor.
        -- rewrite Hty in H. cbn in H. discriminate.
    + inversion H as [H']. apply resolve_nothing_some in H' as (-> & Hp & Hh & _).
      left. rewrite <- Hp. now constructor.
Qed.

(** The lookup in a tree without wildcards returns. *)
Lemma resolve_walk_total : forall fuel n (q : str) p,
  all_nodes static_inv n -> depth n <= fuel ->
  exists ho b, resolve_walk fuel n q p = Ok (ho, option_map snd p, b).
Proof.
  induction fuel as [|fuel IH]; intros n q p Hs Hd;
    [destruct n; cbn in Hd; lia|].
  pose proof (all_nodes_inv Hs) as [(S1 & S2 & S3 & S4 & S5 & S6) Hscs].
  assert (Hnothing : forall u, exists ho b,
            Ok (resolve_nothing n u (option_map snd p))
            = Ok (A := lookup_result) (ho, option_map snd p, b)).
  { intro u. unfold resolve_nothing. destruct (str_eqb u [slash]); [eauto|].
    destruct (_ && _); eauto. }
  cbn [resolve_walk]. rewrite S1. cbn [negb].
  destruct (length (path n) <? length q) eqn:Hlen.
  - destruct (str_eqb (firstn (length (path n)) q) (path n)); [|apply Hnothing].
    destruct (_ && _); [eauto|].
    destruct (suffix q (length (path n))) as [|c t] eqn:Hsuf.
    { apply Nat.ltb_lt in Hlen. apply (f_equal (@length _)) in Hsuf.
      unfold suffix in Hsuf. rewrite length_skipn in Hsuf. cbn in Hsuf. lia. }
    destruct (find_index (indices n) c) as [k|] eqn:Hfind; [|eauto].
    apply find_index_some in Hfind.
    assert (Hkl : k < length (children n))
      by (rewrite <- S6; apply nth_error_Some; congruence).
    apply nth_error_Some in Hkl.
    destruct (nth_error (children n) k) as [ch|] eqn:Hk; [|contradiction].
    assert (Hin : In ch (children n)) by (eapply nth_error_In; eauto).
    apply IH; [rewrite Forall_forall in Hscs; auto|].
    apply depth_child in Hin. lia.
  - destruct (str_eqb q (path n)); [|apply Hnothing].
    destruct (is_some (handle n)); [eauto|].
    rewrite andb_false_r. cbn [andb].
    destruct (find_index (indices n) slash) as [k|] eqn:Hfind; [|eauto].
    apply find_index_some in Hfind.
    assert (Hkl : k < length (children n))
      by (rewrite <- S6; apply nth_error_Some; congruence).
    apply nth_error_Some in Hkl.
    destruct (nth_error (children n) k) as [ch|] eqn:Hk; [|contradiction].
    assert (Hin : In ch (children n)) by (eapply nth_error_In; eauto).
    destruct (S4 ch Hin) as [Hty Hne].
    destruct (_ && _); [eauto|]. rewrite Hty. cbn. eauto.
Qed.

(** What a tree built from patterns without wildcards keeps. *)
Lemma build_static_inv (rs : list (str * option Handler)) (t : node Handler) :
  build rs = Ok t ->
  Forall (fun pr : str * option Handler => fst pr <> [] /\ plain (fst pr) = true) rs ->
  all_nodes static_inv t /\ all_nodes key_inv t
  /\ (forall (v : str) (x : Handler), held t v x <-> In (v, Some x) rs).
Proof.
  intros Hb Hall.
  assert (Hplain : Forall (fun pr : str * option Handler => plain (fst pr) = true) rs).
  { eapply Forall_impl; [|exact Hall]. intros pr [_ Hp]. exact Hp. }
  assert (Hcnt : Forall (fun pr : str * option Handler =>
                           fst pr <> [] /\ (wcount (fst pr) <= 255)%Z) rs).
  { eapply Forall_impl; [|exact Hall]. intros pr [Hne Hp]. split; [exact Hne|].
    unfold wcount. rewrite (filter_plain _ Hp). cbn. lia. }
  split; [exact (build_static Hplain Hb)|].
  split; [apply (build_inv Hb Hcnt)|].
  intros v x. now apply build_held.
Qed.

Lemma static_found (rs : list (str * option Handler)) t (p : str) (x : Handler) :
  build rs = Ok t ->
  Forall (fun pr : str * option Handler => fst pr <> [] /\ plain (fst pr) = true) rs ->
  In (p, Some x) rs ->
  resolve t p = Ok (Some x, None, false)
  \/ exists (y : str) (hy : Handler),
       p = y ++ [slash] /\ In (y, Some hy) rs
       /\ resolve t p = Ok (Some hy, None, true).
Proof.
  intros Hb Hall Hin. destruct (build_static_inv Hb Hall) as (Hs & Hk & Hheld).
  apply Hheld in Hin. unfold resolve.
  destruct (@resolve_walk_held (S (depth t)) t p None x Hs Hk Hin
              (Nat.le_succ_diag_r _)) as [H|(y & hy & Ey & Hy & H)].
  - left. exact H.
  - right. exists y, hy. split; [exact Ey|]. split; [now apply Hheld|exact H].
Qed.

(** X10.  Registered and found again, without wildcards: the lookup of a
    registered pattern returns its handle and no parameters, unless the
    pattern is another registered pattern followed by a slash; then the
    lookup returns the handle of that other pattern with the
    recommendation. *)
Theorem registered_pattern_found (rs : list (str * option Handler)) t
    (p : str) (x : Handler) :
  build rs = Ok t ->
  Forall (fun pr : str * option Handler => fst pr <> [] /\ plain (fst pr) = true) rs ->
  In (p, Some x) rs ->
  resolve t p = Ok (Some x, None, false)
  \/ exists (y : str) (hy : Handler),
       p = y ++ [slash] /\ In (y, Some hy) rs
       /\ resolve t p = Ok (Some hy, None, true).
Proof. apply static_found. Qed.

(** X11.  What a lookup finds, without wildcards: a handle returned
    without the recommendation is the one registered for the path; a
    handle returned with the recommendation is the one registered for
    the path with a slash added, or for the path without its last slash.
    There are no parameters. *)
Theorem found_handle_is_registered (rs : list (str * option Handler)) t
    (q : str) (x : Handler) ps b :
  build rs = Ok t ->
  Forall (fun pr : str * option Handler => fst pr <> [] /\ plain (fst pr) = true) rs ->
  resolve t q = Ok (Some x, ps, b) ->
  ps = None
  /\ if b then In (q ++ [slash], Some x) rs
               \/ exists y, q = y ++ [slash] /\ In (y, Some x) rs
     else In (q, Some x) rs.
Proof.
  intros Hb Hall H. destruct (build_static_inv Hb Hall) as (Hs & Hk & Hheld).
  unfold resolve in H. split.
  - apply resolve_walk_static_params in H; auto.
  - apply resolve_walk_sound in H; [|exact Hs]. destruct b.
    + destruct H as [H|(y & Ey & H)]; [left; now apply Hheld|right].
      exists y. split; [exact Ey|now apply Hheld].
    + now apply Hheld.
Qed.

(** X12.  The lookup in a tree built from patterns without wildcards
    returns for every path: no panic, and no parameters. *)
Theorem static_lookup_returns (rs : list (str * option Handler)) t (q : str) :
  build rs = Ok t ->
  Forall (fun pr : str * option Handler => fst pr <> [] /\ plain (fst pr) = true) rs ->
  exists ho b, resolve t q = Ok (ho, None, b).
Proof.
  intros Hb Hall. destruct (build_static_inv Hb Hall) as (Hs & _).
  unfold resolve.
  exact (@resolve_walk_total (S (depth t)) t q None Hs (Nat.le_succ_diag_r _)).
Qed.

End StaticHeld.

Lemma registered_pattern_found_witness :
  resolve tree_file (bytes "/a") = Ok (Some 1, None, false)
  \/ exists (y : str) (hy : nat),
       bytes "/a" = y ++ [slash] /\ In (y, Some hy) [route "/a" 1]
       /\ resolve tree_file (bytes "/a") = Ok (Some hy, None, true).
Proof.
  apply (@registered_pattern_found nat [route "/a" 1] tree_file (bytes "/a") 1).
  - vm_compute. reflexivity.
  - constructor; [|constructor]. split; [discriminate|reflexivity].
  - left. reflexivity.
Defined.

Lemma found_handle_is_registered_witness :
  @None Params = None
  /\ (In (bytes "/a" ++ [slash], Some 1) [route "/a/" 1]
      \/ exists y, bytes "/a" = y ++ [slash] /\ In (y, Some 1) [route "/a/" 1]).
Proof.
  apply (@found_handle_is_registered nat [route "/a/" 1] tree_dir (bytes "/a") 1 None true).
  - vm_compute. reflexivity.
  - constructor; [|constructor]. split; [discriminate|reflexivity].
  - vm_compute. reflexivity.
Defined.

Lemma static_lookup_returns_witness :
  exists ho b, resolve tree_dir (bytes "/b") = Ok (ho, None, b).
Proof.
  apply (@static_lookup_returns nat [route "/a/" 1] tree_dir (bytes "/b")).
  - vm_compute. reflexivity.
  - constructor; [|constructor]. split; [discriminate|reflexivity].
Defined.

(** ** The case-insensitive lookup of any spelling, without wildcards *)

Section AnyCase.

Context {Handler : Type}.
Implicit Types (n t : node Handler).

(** What a tree built from ASCII patterns that begin with a slash and
    have no wildcard keeps. *)
Lemma build_ascii_inv (rs : list (str * option Handler)) t :
  build rs = Ok t ->
  Forall (fun pr : str * option Handler =>
            hd_error (fst pr) = Some slash /\ plain (fst pr) = true
            /\ is_ascii (fst pr) = true) rs ->
  all_nodes static_inv t /\ all_nodes key_inv t
  /\ (forall v, stored t v <-> exists x : Handler, In (v, Some x) rs)
  /\ (hd_error (path t) = Some slash \/ t = empty_node).
Proof.
  intros Hb Hall.
  assert (Hplain : Forall (fun pr : str * option Handler => plain (fst pr) = true) rs).
  { eapply Forall_impl; [|exact Hall]. intros pr (_ & Hq & _). exact Hq. }
  assert (Hslash : Forall (fun pr : str * option Handler =>
                             hd_error (fst pr) = Some slash /\ plain (fst pr) = true) rs).
  { eapply Forall_impl; [|exact Hall]. intros pr (Hq1 & Hq2 & _). auto. }
  assert (Hcnt : Forall (fun pr : str * option Handler =>
                           fst pr <> [] /\ (wcount (fst pr) <= 255)%Z) rs).
  { eapply Forall_impl; [|exact Hall]. intros pr (Hq1 & Hq2 & _). split.
    - intro E. rewrite E in Hq1. discriminate.
    - unfold wcount. rewrite (filter_plain _ Hq2). cbn. lia. }
  assert (He5 : all_nodes static_inv (@empty_node Handler))
    by (apply all_static_leaf; reflexivity).
  destruct (build_inv Hb Hcnt) as (_ & Hk & _ & Hst).
  split; [exact (build_static Hplain Hb)|]. split; [exact Hk|]. split; [exact Hst|].
  destruct (@insert_all_root_slash _ rs empty_node t He5 Hslash
              (or_introl (conj eq_refl eq_refl)) Hb) as [Hroot|Hnil]; [now left|].
  right. subst rs. cbn in Hb. now inversion Hb.
Qed.


(** X13.  The case-insensitive lookup finds every spelling: for a path
    equal to a registered pattern up to the case of its ASCII letters, it
    returns a registered pattern that is equal to the path up to case. *)
Theorem any_case_found (rs : list (str * option Handler)) t
    (p U : str) (h : Handler) :
  build rs = Ok t ->
  Forall (fun pr : str * option Handler =>
            hd_error (fst pr) = Some slash /\ plain (fst pr) = true
            /\ is_ascii (fst pr) = true) rs ->
  In (p, Some h) rs ->
  is_ascii U = true -> strings_ToLower U = strings_ToLower p ->
  exists (q : str) (h' : Handler),
    findCaseInsensitivePath t U false = Ok (q, true)
    /\ strings_ToLower q = strings_ToLower U
    /\ In (q, Some h') rs.
Proof.
  intros Hb Hall Hin HU Hlow.
  assert (Hp : hd_error p = Some slash).
  { rewrite Forall_forall in Hall. exact (proj1 (Hall _ Hin)). }
  destruct (build_ascii_inv Hb Hall) as (Hs & Hk & Hst & Hroot).
  assert (Hsp : stored t p) by (apply Hst; eauto).
  destruct Hroot as [Hroot| ->].
  2:{ apply stored_leaf in Hsp; [|reflexivity]. destruct Hsp. discriminate. }
  assert (Hne : path t <> []) by (intro E; rewrite E in Hroot; discriminate).
  unfold findCaseInsensitivePath, rb_zero.
  destruct (@findCI_complete _ (S (depth t)) t U [] zero p Hs Hk Hsp Hlow HU Hne
              (Nat.le_succ_diag_r _)) as [out Hout].
  pose proof Hout as Hsound. apply findCI_sound in Hsound; auto.
  - destruct Hsound as (q & -> & Hsq & Hlq). cbn [app] in Hout.
    apply Hst in Hsq as [h' Hh']. exists q, h'. auto.
  - rewrite Hlow. destruct (path t) as [|a l]; [contradiction|].
    destruct p as [|b l']; [discriminate|]. cbn in Hroot, Hp |- *. congruence.
Qed.



End AnyCase.

Lemma any_case_found_witness :
  exists (q : str) (h' : nat),
    findCaseInsensitivePath tree_file (bytes "/A") false = Ok (q, true)
    /\ strings_ToLower q = strings_ToLower (bytes "/A")
    /\ In (q, Some h') [route "/a" 1].
Proof.
  apply (@any_case_found nat [route "/a" 1] tree_file (bytes "/a") (bytes "/A") 1).
  - vm_compute; reflexivity.
  - constructor; [|constructor]. repeat split; vm_compute; reflexivity.
  - left. reflexivity.
  - reflexivity.
  - reflexivity.
Defined.



(** ** The dispatcher *)

Section DispatchProps.

Context {HttpHandler FileSystem : Type}.
Abbreviation HV := (Handle_value HttpHandler FileSystem).
Abbreviation DP := (Dispatcher HttpHandler FileSystem).
Implicit Types (dp : DP) (ts : list (str * node HV)) (root : node HV).

Lemma trees_get_set_same ts (m : str) root : trees_get (trees_set ts m root) m = Some root.
Proof.
  induction ts as [|[k r] ts IH]; cbn.
  - now rewrite str_eqb_refl.
  - destruct (str_eqb k m) eqn:E; cbn; now rewrite E.
Qed.

Lemma trees_get_set_other ts (m m' : str) root :
  m' <> m -> trees_get (trees_set ts m root) m' = trees_get ts m'.
Proof.
  intro Hne. induction ts as [|[k r] ts IH]; cbn.
  - rewrite str_eqb_neq; auto.
  - destruct (str_eqb k m) eqn:E; cbn.
    + apply str_eqb_eq in E. subst k. rewrite str_eqb_neq by auto. reflexivity.
    + now rewrite IH.
Qed.

Lemma resolve_empty (q : str) : resolve (@empty_node HV) q = Ok (None, None, false).
Proof.
  destruct q as [|a q]; [reflexivity|].
  unfold resolve. cbn. rewrite andb_false_r. reflexivity.
Qed.

Lemma Handle_ok dp (m p : str) (h : option HV) dp' :
  Handle dp m p h = Ok dp' ->
  hd_error p = Some slash
  /\ exists r, register (root_of dp m) p h = Ok r
               /\ dp' = set_trees dp (trees_set (trees dp) m r).
Proof.
  unfold Handle, root_of. destruct p as [|c p']; [discriminate|].
  destruct (Ascii.eqb_spec c slash) as [->|]; cbn [negb]; [|discriminate].
  destruct (register _ _ h) as [r| | |]; cbn [bind]; try discriminate.
  intro H. inversion H; subst. split; [reflexivity|]. eauto.
Qed.

(** X16.  Whenever [Handle] panics with a message, the message names the
    path: that of the dispatcher for a path that does not begin with a
    slash, that of the tree otherwise. *)
Theorem Handle_panic_names_path dp (m p : str) (h : option HV) msg :
  Handle dp m p h = Panic msg -> contains msg p.
Proof.
  unfold Handle. destruct p as [|c p'] eqn:Ep; [discriminate|].
  destruct (negb (Ascii.eqb c slash)).
  - intro H. inversion H. unfold msg_begin. apply contains_app_r, contains_here.
  - destruct (register _ _ h) as [r| | |] eqn:E; cbn [bind]; try discriminate.
    intro H. inversion H; subst msg.
    unfold register in E. destruct (_ || _).
    + eapply register_walk_panic_msg; eauto.
    + unfold insertChild in E. eapply insertChild_from_panic_msg; eauto.
Qed.

(** X17.  [ServeFiles] refuses a file name that does not end with
    [/*filepath], and whenever it panics with a message, the message names
    the file name. *)
Theorem ServeFiles_panic_names_filename dp (filename : str) (fs : FileSystem) msg :
  ServeFiles dp filename fs = Panic msg -> contains msg filename.
Proof.
  unfold ServeFiles. destruct (_ || _).
  - intro H. inversion H. unfold msg_filename.
    apply contains_app_r. apply (@contains_app_r [dquote]). apply contains_here.
  - unfold Handle. destruct filename as [|c p'] eqn:Ep; [discriminate|].
    destruct (negb (Ascii.eqb c slash)).
    + intro H. inversion H. unfold msg_begin. apply contains_app_r, contains_here.
    + destruct (register _ _ _) as [r| | |] eqn:E; cbn [bind]; try discriminate.
      intro H. inversion H; subst msg.
      unfold register in E. destruct (_ || _).
      * eapply register_walk_panic_msg; eauto.
      * unfold insertChild in E. eapply insertChild_from_panic_msg; eauto.
Qed.

(** X18.  The methods are apart: a route registered for one method leaves
    the lookup for every other method as it was. *)
Theorem Handle_keeps_other_methods dp (m p : str) (h : option HV) dp' (m' q : str) :
  Handle dp m p h = Ok dp' -> m' <> m -> Lookup dp' m' q = Lookup dp m' q.
Proof.
  intros H Hne. apply Handle_ok in H as (_ & r & _ & ->).
  unfold Lookup. cbn [trees set_trees]. now rewrite trees_get_set_other.
Qed.

(** The tree of a method after a list of routes. *)
Lemma handle_all_trees (rs : list (str * str * option HV)) : forall dp dp' (m : str),
  handle_all dp rs = Ok dp' ->
  (routes_of m rs = [] /\ trees_get (trees dp') m = trees_get (trees dp) m)
  \/ exists t, insert_all (root_of dp m) (routes_of m rs) = Ok t
               /\ trees_get (trees dp') m = Some t.
Proof.
  induction rs as [|[[k p] h] rs IH]; intros dp dp' m H; cbn [handle_all] in H.
  - inversion H; subst. left. auto.
  - destruct (Handle dp k p h) as [dp1| | |] eqn:E; cbn [bind] in H; try discriminate.
    apply Handle_ok in E as (_ & r & Hr & ->).
    cbn [routes_of]. destruct (str_eqb k m) eqn:Ekm.
    + apply str_eqb_eq in Ekm. subst k. right.
      cbn [insert_all]. rewrite Hr. cbn [bind].
      destruct (IH _ _ m H) as [[Hnil Hsame]|(t & Ht & Hget)].
      * rewrite Hnil. cbn [insert_all]. exists r. split; [reflexivity|].
        rewrite Hsame. cbn [trees set_trees]. apply trees_get_set_same.
      * exists t. split; [|exact Hget].
        unfold root_of in Ht. cbn [trees set_trees] in Ht.
        now rewrite trees_get_set_same in Ht.
    + assert (Hne : m <> k).
      { intros ->. rewrite str_eqb_refl in Ekm. discriminate. }
      destruct (IH _ _ m H) as [[Hnil Hsame]|(t & Ht & Hget)].
      * left. split; [exact Hnil|]. rewrite Hsame. cbn [trees set_trees].
        now apply trees_get_set_other.
      * right. exists t. split; [|exact Hget].
        unfold root_of in Ht |- *. cbn [trees set_trees] in Ht.
        now rewrite trees_get_set_other in Ht.
Qed.

Lemma handle_all_flags (rs : list (str * str * option HV)) : forall dp dp',
  handle_all dp rs = Ok dp' -> exists ts, dp' = set_trees dp ts.
Proof.
  induction rs as [|[[k p] h] rs IH]; intros dp dp' H; cbn [handle_all] in H.
  - inversion H; subst. exists (trees dp'). now destruct dp'.
  - destruct (Handle dp k p h) as [dp1| | |] eqn:E; cbn [bind] in H; try discriminate.
    apply Handle_ok in E as (_ & r & _ & ->).
    apply IH in H as [ts ->]. exists ts. reflexivity.
Qed.

Lemma handle_all_New (rs : list (str * str * option HV)) dp (m : str) :
  handle_all New rs = Ok dp ->
  (routes_of m rs = [] /\ trees_get (trees dp) m = None)
  \/ exists t, build (routes_of m rs) = Ok t /\ trees_get (trees dp) m = Some t.
Proof. intro H. exact (@handle_all_trees rs New dp m H). Qed.

Lemma Lookup_of_routes_eq (rs : list (str * str * option HV)) dp (m q : str) :
  handle_all New rs = Ok dp ->
  Lookup dp m q
  = match routes_of m rs with
    | [] => Ok (None, None, false)
    | l => t <- build l ;; resolve t q
    end.
Proof.
  intro H. unfold Lookup.
  destruct (@handle_all_New rs dp m H) as [[Hnil Hget]|(t & Ht & Hget)]; rewrite Hget.
  - now rewrite Hnil.
  - destruct (routes_of m rs) as [|a l].
    + cbn in Ht. inversion Ht; subst. apply resolve_empty.
    + rewrite Ht. reflexivity.
Qed.

(** X19.  A lookup in a dispatcher filled by [Handle] from [New] is the
    lookup in the tree built from the routes of the method, in their
    order; a method without routes finds nothing. *)
Theorem Lookup_of_routes (rs : list (str * str * option HV)) dp (m q : str) :
  handle_all New rs = Ok dp ->
  Lookup dp m q
  = match routes_of m rs with
    | [] => Ok (None, None, false)
    | l => t <- build l ;; resolve t q
    end.
Proof. apply Lookup_of_routes_eq. Qed.

(** The accumulator of [allowed] after some methods. *)
Lemma join_methods_snoc (ms : list str) (m : str) :
  Forall (fun x => x <> []) ms ->
  allow_add (join_methods ms) m = join_methods (ms ++ [m]).
Proof.
  unfold allow_add. induction ms as [|a ms IH]; intro H; [reflexivity|].
  inversion H as [|? ? Ha Hms]; subst. specialize (IH Hms).
  destruct ms as [|b ms'].
  - cbn. destruct a; [contradiction|]. reflexivity.
  - change (join_methods (a :: b :: ms')) with (a ++ bytes ", " ++ join_methods (b :: ms')).
    change (join_methods ((a :: b :: ms') ++ [m]))
      with (a ++ bytes ", " ++ join_methods ((b :: ms') ++ [m])).
    rewrite <- IH. destruct a; [contradiction|]. cbn [app length Nat.eqb].
    destruct (length (join_methods (b :: ms')) =? 0) eqn:E.
    + apply Nat.eqb_eq in E. inversion Hms; subst.
      destruct b; [contradiction|]. destruct ms'; cbn in E; discriminate.
    + now rewrite <- !app_assoc.
Qed.

Lemma allowed_at_join ts (q orig : str) : forall acc,
  Forall (fun x => x <> []) acc ->
  (forall m root, In (m, root) ts -> m <> []) ->
  (forall m root, In (m, root) ts -> exists res, resolve root q = Ok res) ->
  allowed_at ts q orig (join_methods acc)
  = Ok (join_methods (acc ++ other_methods ts q orig)).
Proof.
  induction ts as [|[m root] ts IH]; intros acc Hacc Hne Hres;
    cbn [allowed_at other_methods].
  - now rewrite app_nil_r.
  - assert (Hne' : forall m0 root0, In (m0, root0) ts -> m0 <> [])
      by (intros; eapply Hne; right; eauto).
    assert (Hres' : forall m0 root0, In (m0, root0) ts ->
                      exists res, resolve root0 q = Ok res)
      by (intros; eapply Hres; right; eauto).
    destruct (_ || _); [now apply IH|].
    destruct (Hres m root (or_introl eq_refl)) as [[[ho ps] b] Hr]. rewrite Hr.
    cbn [bind fst]. destruct ho as [h|]; cbn [is_some]; [|now apply IH].
    rewrite join_methods_snoc by exact Hacc.
    rewrite IH; auto.
    + now rewrite <- app_assoc.
    + apply Forall_app. split; [exact Hacc|]. constructor; [|constructor].
      apply (Hne m root). now left.
Qed.

Lemma join_methods_nil (ms : list str) :
  Forall (fun x => x <> []) ms -> length (join_methods ms) = 0 -> ms = [].
Proof.
  intros H E. destruct ms as [|a ms]; [reflexivity|].
  inversion H; subst. destruct a; [contradiction|].
  destruct ms; cbn in E; discriminate.
Qed.

Lemma other_methods_nonempty ts (q orig : str) :
  (forall m root, In (m, root) ts -> m <> []) ->
  Forall (fun x => x <> []) (other_methods ts q orig).
Proof.
  induction ts as [|[m root] ts IH]; intro Hne; cbn [other_methods]; [constructor|].
  assert (Hne' : forall m0 root0, In (m0, root0) ts -> m0 <> [])
    by (intros; eapply Hne; right; eauto).
  destruct (_ || _); [auto|].
  destruct (resolve root q) as [[[[h|] ps] b]| | |]; auto.
  constructor; auto. apply (Hne m root). now left.
Qed.

Lemma allowed_spec dp (q orig : str) :
  q <> bytes "*" ->
  (forall m root, In (m, root) (trees dp) -> m <> []) ->
  (forall m root, In (m, root) (trees dp) -> exists res, resolve root q = Ok res) ->
  allowed dp q orig
  = Ok (match other_methods (trees dp) q orig with
        | [] => []
        | ms => join_methods ms ++ bytes ", OPTIONS"
        end).
Proof.
  intros Hq Hne Hres. unfold allowed. rewrite (str_eqb_neq Hq).
  change (@nil ascii) with (join_methods []) at 1.
  rewrite allowed_at_join by (auto; constructor). cbn [bind app].
  pose proof (@other_methods_nonempty (trees dp) q orig Hne) as Hms.
  destruct (other_methods (trees dp) q orig) as [|a ms] eqn:E; [reflexivity|].
  destruct (0 <? length (join_methods (a :: ms))) eqn:El; [reflexivity|].
  apply Nat.ltb_ge in El. apply join_methods_nil in Hms; [discriminate|lia].
Qed.

(** X20.  The header [Allow] for a path: the other methods of the map
    that have a handle for the path, in the order of the map and joined
    by commas, and then [OPTIONS]; it is empty when there is no such
    method.  The method of the request and [OPTIONS] are not among the
    methods listed. *)
Theorem allowed_lists_other_methods dp (q orig : str) :
  q <> bytes "*" ->
  (forall m root, In (m, root) (trees dp) -> m <> []) ->
  (forall m root, In (m, root) (trees dp) -> exists res, resolve root q = Ok res) ->
  allowed dp q orig
  = Ok (match other_methods (trees dp) q orig with
        | [] => []
        | ms => join_methods ms ++ bytes ", OPTIONS"
        end)
  /\ ~ In orig (other_methods (trees dp) q orig)
  /\ ~ In http_MethodOptions (other_methods (trees dp) q orig).
Proof.
  intros Hq Hne Hres. split; [now apply allowed_spec|].
  clear. induction (trees dp) as [|[m root] ts [IH1 IH2]]; cbn [other_methods].
  - split; intros [].
  - destruct (str_eqb m orig) eqn:E1; cbn [orb]; [auto|].
    destruct (str_eqb m http_MethodOptions) eqn:E2; [auto|].
    destruct (resolve root q) as [[[[h|] ps] b]| | |]; auto.
    split; intros [->|H]; auto.
    + rewrite str_eqb_refl in E1. discriminate.
    + rewrite str_eqb_refl in E2. discriminate.
Qed.

Lemma In_routes_of (rs : list (str * str * option HV)) (m p : str) (h : option HV) :
  In (p, h) (routes_of m rs) <-> In (m, p, h) rs.
Proof.
  induction rs as [|[[k p'] h'] rs IH]; cbn [routes_of In]; [reflexivity|].
  destruct (str_eqb k m) eqn:E.
  - apply str_eqb_eq in E. subst k. cbn [In]. rewrite IH. split.
    + intros [H|H]; [left; inversion H; reflexivity|now right].
    + intros [H|H]; [left; inversion H; reflexivity|now right].
  - rewrite IH. split; [now right|]. intros [H|H]; [|exact H].
    inversion H; subst. rewrite str_eqb_refl in E. discriminate.
Qed.

Lemma handle_all_slash (rs : list (str * str * option HV)) : forall dp dp',
  handle_all dp rs = Ok dp' ->
  Forall (fun r : str * str * option HV => hd_error (snd (fst r)) = Some slash) rs.
Proof.
  induction rs as [|[[k p] h] rs IH]; intros dp dp' H; cbn [handle_all] in H;
    [constructor|].
  destruct (Handle dp k p h) as [dp1| | |] eqn:E; cbn [bind] in H; try discriminate.
  constructor; [|eauto]. apply Handle_ok in E as [E _]. exact E.
Qed.

(** The tree of a method in a dispatcher filled from [New] with patterns
    without wildcards. *)
Lemma handle_all_static (rs : list (str * str * option HV)) dp (m : str) :
  handle_all New rs = Ok dp ->
  Forall (fun r : str * str * option HV => plain (snd (fst r)) = true) rs ->
  routes_of m rs <> [] ->
  exists t, trees_get (trees dp) m = Some t /\ build (routes_of m rs) = Ok t
            /\ Forall (fun pr : str * option HV =>
                         fst pr <> [] /\ plain (fst pr) = true) (routes_of m rs)
            /\ RedirectTrailingSlash dp = true /\ PanicHandler dp = false.
Proof.
  intros H Hpl Hne.
  destruct (@handle_all_New rs dp m H) as [[Hnil _]|(t & Ht & Hget)]; [contradiction|].
  exists t. split; [exact Hget|]. split; [exact Ht|]. split.
  - apply Forall_forall. intros [p h] Hin. apply In_routes_of in Hin.
    pose proof (@handle_all_slash rs _ _ H) as Hsl.
    rewrite Forall_forall in Hsl, Hpl. specialize (Hsl _ Hin). specialize (Hpl _ Hin).
    cbn in *. split; [|exact Hpl]. intro E. rewrite E in Hsl. discriminate.
  - apply handle_all_flags in H as [ts ->]. split; reflexivity.
Qed.

Variable Normalize : str -> str.

(** X21.  A registered route is served, without wildcards and with the
    settings of [New]: the request for a registered pattern calls the
    handle registered for it with the path and no parameters, unless the
    pattern is another registered pattern of the method followed by a
    slash; then the request is redirected to that other pattern. *)
Theorem registered_route_served (rs : list (str * str * option HV)) dp
    (m p : str) (h : HV) :
  handle_all New rs = Ok dp ->
  Forall (fun r : str * str * option HV => plain (snd (fst r)) = true) rs ->
  In (m, p, Some h) rs ->
  ServeHTTP Normalize dp m p = Ok (Handled (Handle_of h p None))
  \/ exists (y : str) (hy : HV),
       p = y ++ [slash] /\ In (m, y, Some hy) rs
       /\ ServeHTTP Normalize dp m p = Ok (Redirected y (redirect_code m)).
Proof.
  intros H Hpl Hin. apply In_routes_of in Hin.
  destruct (@handle_all_static rs dp m H Hpl) as (t & Hget & Ht & Hall & Hrts & Hph).
  { intro E. rewrite E in Hin. destruct Hin. }
  unfold ServeHTTP, recovery, serve_route. rewrite Hph, Hget.
  destruct (@static_found _ _ _ _ _ Ht Hall Hin) as [Hr|(y & hy & Ey & Hy & Hr)]; rewrite Hr;
    cbn [bind negb orb].
  - left. reflexivity.
  - right. exists y, hy. split; [exact Ey|]. split; [now apply In_routes_of|].
    rewrite Hrts. cbn [negb orb]. subst p. rewrite last_is_slash_snoc.
    assert (Hy0 : y <> []).
    { rewrite Forall_forall in Hall. exact (proj1 (Hall _ Hy)). }
    replace (1 <? length (y ++ [slash])) with true.
    2:{ symmetry. apply Nat.ltb_lt. rewrite length_app. cbn.
        destruct y; [contradiction|cbn; lia]. }
    cbn [andb]. unfold slice. rewrite length_app. cbn [length skipn].
    replace (length y + 1 - 1 - 0) with (length y) by lia.
    now rewrite firstn_length_app.
Qed.

(** X22.  The redirection for a missing slash arrives, without wildcards
    and with the settings of [New]: when the lookup of a path that does
    not end with a slash recommends the redirection, the request is
    redirected to the path with a slash added, and the request for that
    path calls the handle that the lookup had returned. *)
Theorem slash_redirect_is_served (rs : list (str * str * option HV)) dp
    (m q : str) (h : HV) ps :
  handle_all New rs = Ok dp ->
  Forall (fun r : str * str * option HV => plain (snd (fst r)) = true) rs ->
  last_is_slash q = false ->
  Lookup dp m q = Ok (Some h, ps, true) ->
  ServeHTTP Normalize dp m q = Ok (Redirected (q ++ [slash]) (redirect_code m))
  /\ ServeHTTP Normalize dp m (q ++ [slash])
     = Ok (Handled (Handle_of h (q ++ [slash]) None)).
Proof.
  intros H Hpl Hq HL.
  assert (Hne : routes_of m rs <> []).
  { intro E. rewrite (@Lookup_of_routes_eq rs dp m q H), E in HL. discriminate. }
  destruct (@handle_all_static rs dp m H Hpl Hne) as (t & Hget & Ht & Hall & Hrts & Hph).
  unfold Lookup in HL. rewrite Hget in HL.
  destruct (build_static_inv Ht Hall) as (Hs & _).
  assert (Hps : ps = None).
  { unfold resolve in HL. apply resolve_walk_static_params in HL; auto. }
  subst ps.
  unfold ServeHTTP, recovery, serve_route. rewrite Hph, Hget, HL, Hrts.
  cbn [bind negb orb]. rewrite Hq, andb_false_r. split; [reflexivity|].
  unfold resolve in HL |- *.
  apply resolve_walk_tsr_static in HL as [HL _]; auto.
  rewrite HL. reflexivity.
Qed.


(** The lookup in the tree of the one route [s/*name]. *)
Lemma resolve_catchall (s name r : str) (h : option HV) :
  resolve (Node Root s 0 [slash] None 1
             [Node Wildcard [] 1 [] None 1
                [Node Wildcard (slash :: star :: name) 1 [] h 1 [] false] true]
             false) (s ++ slash :: r)
  = Ok (h, Some [mkParam name r], false).
Proof.
  unfold resolve. cbn [depth fold_right Nat.max].
  cbn [resolve_walk path wildcard negb handle is_some indices children option_map].
  replace (length s <? length (s ++ slash :: r)) with true
    by (symmetry; apply Nat.ltb_lt; rewrite length_app; cbn [length]; lia).
  rewrite firstn_length_app, str_eqb_refl. unfold suffix.
  rewrite skipn_length_app, andb_false_r.
  cbn [find_index]. replace (Ascii.eqb slash slash) with true by reflexivity.
  cbn [nth_error length Nat.ltb Nat.leb firstn str_eqb skipn typo nparams path
       push_param Z.of_nat Z.add Z.ltb Z.compare Pos.compare Pos.compare_cont
       bind snd app].
  reflexivity.
Qed.

(** X24.  Files are served under a prefix: after [ServeFiles] with the
    file name [s/*filepath] on a new dispatcher, a GET request for the
    path [s/r] calls the file server of the file system with the path
    [r], the rest of the request path without the slash before it. *)
Theorem ServeFiles_serves_rest (s : str) (fs : FileSystem) :
  plain s = true -> hd_error (s ++ [slash]) = Some slash ->
  exists dp,
    ServeFiles New (s ++ bytes "/*filepath") fs = Ok dp
    /\ forall r : str,
         ServeHTTP Normalize dp http_MethodGet (s ++ slash :: r)
         = Ok (Handled (FileServer_of fs r)).
Proof.
  intros Hs Hhd. unfold ServeFiles.
  replace (length (s ++ bytes "/*filepath") <? 10) with false.
  2:{ symmetry. apply Nat.ltb_ge. rewrite length_app. cbn. lia. }
  replace (length (s ++ bytes "/*filepath") - 10) with (length s)
    by (rewrite length_app; cbn; lia).
  unfold suffix. rewrite skipn_length_app, str_eqb_refl. cbn [negb orb].
  unfold Handle.
  destruct (s ++ bytes "/*filepath") as [|c u] eqn:Eu.
  { destruct s; discriminate. }
  assert (Hc : c = slash).
  { destruct s as [|a s'].
    - vm_compute in Eu. injection Eu as <- _. reflexivity.
    - cbn in Eu, Hhd. injection Eu as <- _. now injection Hhd. }
  subst c. replace (Ascii.eqb slash slash) with true by reflexivity. cbn [negb].
  rewrite <- Eu. unfold root_of. cbn [New trees trees_get].
  change (bytes "/*filepath") with (slash :: star :: bytes "filepath").
  rewrite register_catchall by (auto; discriminate). cbn [bind].
  eexists. split; [reflexivity|]. intro r.
  unfold ServeHTTP, recovery, serve_route.
  cbn [set_trees trees trees_set trees_get PanicHandler New].
  rewrite str_eqb_refl, resolve_catchall. reflexivity.
Qed.

End DispatchProps.

Lemma Handle_panic_names_path_witness :
  contains (msg_begin (bytes "a")) (bytes "a").
Proof.
  apply (@Handle_panic_names_path nat nat New http_MethodGet (bytes "a") None).
  reflexivity.
Defined.

Lemma ServeFiles_panic_names_filename_witness :
  contains (msg_filename (bytes "/static")) (bytes "/static").
Proof.
  apply (@ServeFiles_panic_names_filename nat nat New (bytes "/static") 0).
  reflexivity.
Defined.

Lemma Handle_keeps_other_methods_witness :
  Lookup dp_example http_MethodGet (bytes "/a/")
  = Lookup dp_first http_MethodGet (bytes "/a/").
Proof.
  apply (@Handle_keeps_other_methods nat nat dp_first http_MethodPost (bytes "/b")
           (Some (ContextHandle 2 false))).
  - vm_compute. reflexivity.
  - discriminate.
Defined.

Lemma Lookup_of_routes_witness :
  Lookup dp_example http_MethodGet (bytes "/a")
  = match routes_of http_MethodGet routes_example with
    | [] => Ok (None, None, false)
    | l => t <- build l ;; resolve t (bytes "/a")
    end.
Proof.
  apply (@Lookup_of_routes nat nat routes_example dp_example). vm_compute. reflexivity.
Defined.

Lemma allowed_lists_other_methods_witness :
  allowed dp_example (bytes "/b") http_MethodGet
  = Ok (match other_methods (trees dp_example) (bytes "/b") http_MethodGet with
        | [] => []
        | ms => join_methods ms ++ bytes ", OPTIONS"
        end)
  /\ ~ In http_MethodGet (other_methods (trees dp_example) (bytes "/b") http_MethodGet)
  /\ ~ In http_MethodOptions
         (other_methods (trees dp_example) (bytes "/b") http_MethodGet).
Proof.
  apply (@allowed_lists_other_methods nat nat dp_example (bytes "/b") http_MethodGet).
  - discriminate.
  - intros m root [H|[H|[]]]; inversion H; discriminate.
  - intros m root [H|[H|[]]]; inversion H; eexists; vm_compute; reflexivity.
Defined.

Lemma registered_route_served_witness :
  ServeHTTP (fun s => s) dp_example http_MethodPost (bytes "/b")
  = Ok (Handled (Handle_of (ContextHandle 2 false) (bytes "/b") None))
  \/ exists (y : str) (hy : Handle_value nat nat),
       bytes "/b" = y ++ [slash] /\ In (http_MethodPost, y, Some hy) routes_example
       /\ ServeHTTP (fun s => s) dp_example http_MethodPost (bytes "/b")
          = Ok (Redirected y (redirect_code http_MethodPost)).
Proof.
  apply (@registered_route_served nat nat (fun s => s) routes_example dp_example).
  - vm_compute. reflexivity.
  - repeat constructor.
  - right. left. reflexivity.
Defined.

Lemma slash_redirect_is_served_witness :
  ServeHTTP (fun s => s) dp_example http_MethodGet (bytes "/a")
  = Ok (Redirected (bytes "/a" ++ [slash]) (redirect_code http_MethodGet))
  /\ ServeHTTP (fun s => s) dp_example http_MethodGet (bytes "/a" ++ [slash])
     = Ok (Handled (Handle_of (ContextHandle 1 false) (bytes "/a" ++ [slash]) None)).
Proof.
  apply (@slash_redirect_is_served nat nat (fun s => s) routes_example dp_example
           http_MethodGet (bytes "/a") (ContextHandle 1 false) None).
  - vm_compute. reflexivity.
  - repeat constructor.
  - reflexivity.
  - vm_compute. reflexivity.
Defined.


Lemma ServeFiles_serves_rest_witness :
  exists dp : Dispatcher nat nat,
    ServeFiles New (bytes "/static" ++ bytes "/*filepath") 7 = Ok dp
    /\ forall r : str,
         ServeHTTP (fun s => s) dp http_MethodGet (bytes "/static" ++ slash :: r)
         = Ok (Handled (FileServer_of 7 r)).
Proof.
  apply (@ServeFiles_serves_rest nat nat (fun s => s) (bytes "/static") 7).
  - reflexivity.
  - reflexivity.
Defined.

(** ** A single route with a parameter *)

Section ParamRoute.

Context {Handler : Type}.

Lemma IndexByte_snoc (v : str) (c : ascii) :
  IndexByte v c = None -> IndexByte (v ++ [c]) c = Some (length v).
Proof.
  induction v as [|a v IH]; cbn; intro H.
  - now rewrite Ascii.eqb_refl.
  - destruct (Ascii.eqb a c); [discriminate|].
    destruct (IndexByte v c); [discriminate|]. now rewrite IH.
Qed.

(** X25.  A parameter takes one segment: in the tree of the one route
    [s:name], the lookup of [s] followed by a non-empty segment [v]
    without a slash returns the handle with the parameter [name = v], and
    the lookup of the same path with a slash added returns them with the
    recommendation, when there is a handle. *)
Theorem param_route_captures_segment (s name v : str) (h : option Handler) :
  plain s = true -> name_like name = true -> name <> [] ->
  v <> [] -> IndexByte v slash = None ->
  exists t,
    register empty_node (s ++ colon :: name) h = Ok t
    /\ resolve t (s ++ v) = Ok (h, Some [mkParam name v], false)
    /\ (is_some h = true ->
        resolve t (s ++ v ++ [slash]) = Ok (h, Some [mkParam name v], true)).
Proof.
  intros Hs Hn Hne Hv Hidx. eexists. split; [now apply register_param|].
  unfold resolve. cbn [depth fold_right Nat.max]. split.
  - cbn [resolve_walk path wildcard negb children typo nparams handle].
    replace (length s <? length (s ++ v)) with true.
    2:{ symmetry. apply Nat.ltb_lt. rewrite length_app.
        destruct v; [contradiction|cbn; lia]. }
    rewrite firstn_length_app, str_eqb_refl. unfold suffix.
    rewrite skipn_length_app, Hidx, firstn_all, Nat.ltb_irrefl.
    cbn [push_param length Z.of_nat Z.add Z.ltb Z.compare bind snd app].
    destruct h; reflexivity.
  - intro Hh.
    cbn [resolve_walk path wildcard negb children typo nparams handle].
    replace (length s <? length (s ++ v ++ [slash])) with true.
    2:{ symmetry. apply Nat.ltb_lt. rewrite !length_app. cbn. lia. }
    rewrite firstn_length_app, str_eqb_refl. unfold suffix.
    rewrite skipn_length_app, (@IndexByte_snoc v slash Hidx), firstn_length_app.
    cbn [push_param length Z.of_nat Z.add Z.ltb Z.compare bind snd app].
    replace (length v <? length (v ++ [slash])) with true.
    2:{ symmetry. apply Nat.ltb_lt. rewrite length_app. cbn. lia. }
    rewrite skipn_length_app, Hh.
    replace (str_eqb [slash] [slash]) with true by reflexivity. reflexivity.
Qed.

End ParamRoute.

Lemma param_route_captures_segment_witness :
  exists t,
    register (@empty_node nat) (bytes "/u/" ++ colon :: bytes "id") (Some 1) = Ok t
    /\ resolve t (bytes "/u/" ++ bytes "7") = Ok (Some 1, Some [mkParam (bytes "id") (bytes "7")], false)
    /\ (is_some (Some 1) = true ->
        resolve t (bytes "/u/" ++ bytes "7" ++ [slash])
        = Ok (Some 1, Some [mkParam (bytes "id") (bytes "7")], true)).
Proof.
  apply (@param_route_captures_segment nat (bytes "/u/") (bytes "id") (bytes "7") (Some 1));
    try reflexivity; discriminate.
Defined.

(** ** Insertion without wildcards succeeds *)

Section StaticInsert.

Context {Handler : Type}.
Implicit Types (n c r : node Handler) (cs : list (node Handler)).

Lemma lcp_differs (a b : str) :
  lcp a b < length a -> lcp a b < length b ->
  nth_error a (lcp a b) <> nth_error b (lcp a b).
Proof.
  revert b; induction a as [|x a IH]; intros [|y b]; cbn; try lia.
  destruct (Ascii.eqb_spec x y) as [->|Hne]; cbn.
  - intros H1 H2. apply IH; lia.
  - intros _ _ E. congruence.
Qed.

(** A new child for the byte [b], with the rest of the pattern. *)
Lemma append_child_total n (b : ascii) (t abspath : str) (h : option Handler) :
  length (indices n) = length (children n) ->
  exists r,
    (let n1 := set_indices n (indices n ++ [b]) in
     let child := set_nparams empty_node 0 in
     let n2 := set_children n1 (children n1 ++ [child]) in
     let pos := length (indices n2) - 1 in
     let last := length (children n2) - 1 in
     '(n3, k1) <- incrementChildPriority n2 pos ;;
     let at_ := if Nat.eqb pos last then k1 else last in
     match nth_error (children n3) at_ with
     | None => RuntimePanic
     | Some ch =>
         r <- insertChild ch 0 (b :: t) abspath h ;;
         Ok (set_children n3 (set_nth (children n3) at_ r))
     end) = Ok r.
Proof.
  intro Hlen. cbv zeta.
  set (n2 := set_children (set_indices n (indices n ++ [b]))
               (children (set_indices n (indices n ++ [b]))
                  ++ [set_nparams empty_node 0])).
  assert (Hi2 : length (indices n2) = S (length (children n))).
  { unfold n2. cbn. rewrite length_app. cbn. lia. }
  assert (Hc2 : length (children n2) = S (length (children n))).
  { unfold n2. cbn. rewrite length_app. cbn. lia. }
  rewrite Hi2, Hc2. cbn [Nat.sub]. rewrite Nat.sub_0_r, Nat.eqb_refl.
  assert (Hlast : nth_error (children n2) (length (children n))
                  = Some (set_nparams empty_node 0)).
  { unfold n2. cbn. rewrite nth_error_app2, Nat.sub_diag by lia. reflexivity. }
  destruct (@incrementChildPriority_total _ n2 _ _ Hlast) as (n3 & k1 & Hinc); [lia|].
  rewrite Hinc. cbn [bind].
  apply incrementChildPriority_spec in Hinc as (c0 & Hc0 & Hle & Hnth & _).
  assert (Hmv : moved (length (children n)) k1 k1 = length (children n))
    by (apply moved_at; auto).
  rewrite Hnth, Hmv, (@nth_error_set_nth_eq _ _ _ (bump_priority c0) _ Hc0).
  unfold insertChild. rewrite insertChild_from_done by reflexivity. cbn [bind]. eauto.
Qed.

Lemma register_walk_total_static abspath (h : option Handler) : forall fuel n (u : str),
  all_nodes static_inv n -> plain u = true -> ~ stored n u -> depth n <= fuel ->
  exists r, register_walk fuel abspath h n u 0 = Ok r.
Proof.
  induction fuel as [|fuel IH]; intros n u Hn Hu Hst Hd;
    [destruct n; cbn in Hd; lia|].
  cbn [register_walk].
  destruct (raise_fields n 0) as (Rt & Rp & Rw & Rc & Ri & Rh & Rpr).
  apply (all_static_raise 0) in Hn.
  assert (Hst0 : ~ stored (raise_nparams n 0) u) by (rewrite stored_raise; exact Hst).
  assert (Hd0 : forall c, In c (children (raise_nparams n 0)) -> depth c <= fuel).
  { intros c Hc. rewrite Rc in Hc. apply depth_child in Hc. lia. }
  set (n0 := raise_nparams n 0) in *. clearbody n0. clear n Rt Rp Rw Rc Ri Rh Rpr Hst Hd.
  pose proof (all_nodes_inv Hn) as [(S1 & S2 & S3 & S4 & S5 & S6) Hcs].
  set (i := lcp u (path n0)).
  assert (Hiu : i <= length u) by apply lcp_le_l.
  assert (Hip : i <= length (path n0)) by apply lcp_le_r.
  assert (Hfirst : firstn i u = firstn i (path n0)) by apply lcp_firstn.
  destruct (Nat.ltb_spec i (length (path n0))) as [Hlt|Hge].
  - (* the edge is split *)
    destruct (Nat.ltb_spec i (length u)) as [Hilt|Hige].
    2:{ cbn [split_edge handle]. eauto. }
    destruct (suffix u i) as [|b t] eqn:Hsuf.
    { apply (f_equal (@length _)) in Hsuf. unfold suffix in Hsuf.
      rewrite length_skipn in Hsuf. cbn in Hsuf. lia. }
    assert (Hb : is_wild b = false).
    { pose proof (@plain_skipn u i Hu) as Hp. unfold suffix in Hsuf. rewrite Hsuf in Hp.
      cbn in Hp. apply andb_true_iff in Hp as [Hp _]. now apply negb_true_iff in Hp. }
    apply skipn_cons_inv in Hsuf as (_ & Hnb & _).
    destruct (nth_error (path n0) i) as [x|] eqn:Hx.
    2:{ apply nth_error_None in Hx. lia. }
    assert (Hbx : b <> x).
    { intros ->. apply (@lcp_differs u (path n0)); fold i; congruence. }
    assert (Hind : indices (split_edge n0 u i) = [x]).
    { unfold split_edge. cbn [indices]. unfold suffix.
      apply nth_error_split in Hx as (l1 & l2 & Hp & Hl).
      rewrite Hp, <- Hl, skipn_length_app. reflexivity. }
    assert (Hlen : length (indices (split_edge n0 u i))
                   = length (children (split_edge n0 u i))).
    { rewrite Hind. reflexivity. }
    replace (wildcard (split_edge n0 u i)) with false by reflexivity.
    replace (typo (split_edge n0 u i)) with (typo n0) by reflexivity.
    replace (nodeType_eqb (typo n0) Param_) with false
      by (destruct (typo n0); try reflexivity; contradiction).
    cbn [andb]. rewrite Hind. cbn [find_index].
    destruct (Ascii.eqb_spec b x) as [E|_]; [contradiction|]. cbn [option_map].
    rewrite Hb. cbn [negb]. rewrite <- Hind.
    apply (@append_child_total (split_edge n0 u i) b t abspath h Hlen).
  - assert (Hi : i = length (path n0)) by lia.
    destruct (Nat.ltb_spec i (length u)) as [Hilt|Hige].
    2:{ destruct (handle n0) as [x|] eqn:Hh; [|eauto].
        exfalso. apply Hst0.
        replace u with (path n0).
        - constructor. now rewrite Hh.
        - rewrite <- (firstn_all (path n0)), <- Hi, <- Hfirst. apply firstn_all2. lia. }
    destruct (suffix u i) as [|b t] eqn:Hsuf.
    { apply (f_equal (@length _)) in Hsuf. unfold suffix in Hsuf.
      rewrite length_skipn in Hsuf. cbn in Hsuf. lia. }
    assert (Hpl : plain (b :: t) = true).
    { rewrite <- Hsuf. apply plain_skipn. exact Hu. }
    assert (Hb : is_wild b = false).
    { cbn in Hpl. apply andb_true_iff in Hpl as [Hp _]. now apply negb_true_iff in Hp. }
    assert (Hu' : u = path n0 ++ b :: t).
    { rewrite <- Hsuf. unfold suffix. rewrite <- (firstn_skipn i u) at 1.
      f_equal. rewrite Hfirst, Hi. apply firstn_all. }
    rewrite S1.
    replace (nodeType_eqb (typo n0) Param_) with false
      by (destruct (typo n0); try reflexivity; contradiction).
    cbn [andb].
    destruct (find_index (indices n0) b) as [k|] eqn:Hfind.
    + apply find_index_some in Hfind.
      assert (Hkl : k < length (indices n0)) by (apply nth_error_Some; congruence).
      destruct (nth_error (children n0) k) as [c|] eqn:Hk.
      2:{ apply nth_error_None in Hk. lia. }
      destruct (@incrementChildPriority_total _ n0 k c Hk Hkl) as (n2 & k1 & Hinc).
      rewrite Hinc. cbn [bind].
      apply incrementChildPriority_spec in Hinc as (c0 & Hc0 & Hle & Hnth & _).
      assert (Hmv : moved k k1 k1 = k) by (apply moved_at; auto).
      rewrite Hnth, Hmv, (@nth_error_set_nth_eq _ _ _ (bump_priority c0) _ Hc0).
      rewrite Hk in Hc0. inversion Hc0; subst c0.
      assert (Hin : In c (children n0)) by (eapply nth_error_In; eauto).
      destruct (IH (bump_priority c) (b :: t)) as [r0 Hr0].
      * apply all_static_bump. rewrite Forall_forall in Hcs. auto.
      * exact Hpl.
      * rewrite stored_bump. intro Hc. apply Hst0. rewrite Hu'. econstructor; eauto.
      * rewrite (@depth_ext _ c (bump_priority c) eq_refl). auto.
      * rewrite Hr0. cbn [bind]. eauto.
    + rewrite Hb. cbn [negb]. apply (@append_child_total n0 b t abspath h S6).
Qed.

(** X26.  A new pattern is accepted, without wildcards: in a tree built
    from non-empty patterns without wildcards, the registration of
    another such pattern succeeds unless the pattern is already
    registered with a handle. *)
Theorem new_static_pattern_registers (rs : list (str * option Handler)) t
    (p : str) (h : option Handler) :
  build rs = Ok t ->
  Forall (fun pr : str * option Handler => fst pr <> [] /\ plain (fst pr) = true) rs ->
  plain p = true ->
  (forall x, ~ In (p, Some x) rs) ->
  exists t', register t p h = Ok t'.
Proof.
  intros Hb Hall Hp Hnew.
  destruct (build_static_inv Hb Hall) as (Hs & Hk & Hheld).
  assert (Hst : ~ stored t p).
  { intro H. apply stored_held in H as [x Hx]. apply Hheld in Hx. exact (Hnew x Hx). }
  unfold register. rewrite (countParams_plain _ Hp).
  destruct (_ || _).
  - apply register_walk_total_static.
    + now apply all_static_bump.
    + exact Hp.
    + now rewrite stored_bump.
    + unfold register_fuel. rewrite (@depth_ext _ t (bump_priority t) eq_refl). lia.
  - unfold insertChild. rewrite insertChild_from_done by reflexivity. eauto.
Qed.

End StaticInsert.

Lemma new_static_pattern_registers_witness :
  exists t', register tree_file (bytes "/b") (Some 2) = Ok t'.
Proof.
  apply (@new_static_pattern_registers nat [route "/a" 1] tree_file (bytes "/b") (Some 2)).
  - vm_compute. reflexivity.
  - constructor; [|constructor]. split; [discriminate|reflexivity].
  - reflexivity.
  - intros x [H|[]]. discriminate.
Defined.

(** ** The lookup returns *)

Section Look.

Context {Handler : Type}.
Implicit Types (n c r : node Handler) (cs : list (node Handler)).

Lemma need_eq n :
  need n = ((if wildcard n then 1 else 0)
            + fold_right (fun c acc => Z.max (need c) acc) 0 (children n))%Z.
Proof. destruct n; reflexivity. Qed.

Lemma max_need_nonneg cs : (0 <= fold_right (fun c acc => Z.max (need c) acc) 0 cs)%Z.
Proof. induction cs as [|c cs IH]; cbn; lia. Qed.

Lemma need_nonneg n : (0 <= need n)%Z.
Proof. rewrite need_eq. pose proof (max_need_nonneg (children n)). destruct (wildcard n); lia. Qed.

Lemma max_need_in cs c :
  In c cs -> (need c <= fold_right (fun c acc => Z.max (need c) acc) 0 cs)%Z.
Proof.
  induction cs as [|x cs IH]; intros []; cbn.
  - subst. lia.
  - specialize (IH H). lia.
Qed.

Lemma max_need_le cs (B : Z) :
  (0 <= B)%Z -> (forall c, In c cs -> (need c <= B)%Z) ->
  (fold_right (fun c acc => Z.max (need c) acc) 0 cs <= B)%Z.
Proof.
  intros HB H. induction cs as [|x cs IH]; cbn; [lia|].
  pose proof (H x (or_introl eq_refl)).
  assert (fold_right (fun c acc => Z.max (need c) acc) 0 cs <= B)%Z
    by (apply IH; intros; apply H; now right).
  lia.
Qed.

Lemma need_child n c : In c (children n) -> (need c <= need n)%Z.
Proof.
  intro H. rewrite (need_eq n). pose proof (@max_need_in (children n) c H).
  destruct (wildcard n); lia.
Qed.

Lemma need_one n c : children n = [c] -> wildcard n = true -> need n = (1 + need c)%Z.
Proof.
  intros Hc Hw. rewrite (need_eq n), Hc, Hw. cbn [fold_right].
  pose proof (need_nonneg c). lia.
Qed.

(** A bound on [need] from a bound on the children. *)
Lemma need_le n (B : Z) :
  (0 <= B)%Z -> (forall c, In c (children n) -> (need c <= B)%Z) ->
  (need n <= (if wildcard n then 1 else 0) + B)%Z.
Proof.
  intros HB H. rewrite need_eq. pose proof (@max_need_le (children n) B HB H).
  destruct (wildcard n); lia.
Qed.

Lemma need_ext n n' :
  wildcard n' = wildcard n -> children n' = children n -> need n' = need n.
Proof. intros Hw Hc. rewrite !need_eq, Hw, Hc. reflexivity. Qed.

Lemma need_bump c : need (bump_priority c) = need c.
Proof. apply need_ext; reflexivity. Qed.

Lemma need_raise c m : need (raise_nparams c m) = need c.
Proof.
  destruct (raise_fields c m) as (_ & _ & Hw & Hc & _). now apply need_ext.
Qed.

Lemma look_inv_ext n n' :
  wildcard n' = wildcard n -> children n' = children n -> look_inv n -> look_inv n'.
Proof. unfold look_inv. intros -> ->. auto. Qed.

Lemma all_look_ext n n' :
  wildcard n' = wildcard n -> children n' = children n ->
  all_nodes look_inv n -> all_nodes look_inv n'.
Proof.
  intros Hw Hc H. apply all_nodes_inv in H as [H1 H2].
  constructor; [eapply look_inv_ext; eauto|]. now rewrite Hc.
Qed.

Lemma all_look_bump c : all_nodes look_inv c -> all_nodes look_inv (bump_priority c).
Proof. apply all_look_ext; reflexivity. Qed.

Lemma all_look_raise c m : all_nodes look_inv c -> all_nodes look_inv (raise_nparams c m).
Proof.
  destruct (raise_fields c m) as (_ & _ & Hw & Hc & _). now apply all_look_ext.
Qed.

Lemma all_look_leaf n : children n = [] -> all_nodes look_inv n.
Proof.
  intro Hc. constructor; [|rewrite Hc; constructor].
  intros c Hin. rewrite Hc in Hin. destruct Hin.
Qed.


(** The chain of nodes that [insertChild] makes. *)
Lemma insertChild_from_look uripath abspath (h : option Handler) :
  forall rest i offset n m r,
  rest = skipn i uripath -> (0 <= m <= 255)%Z ->
  all_nodes look_inv n -> (children n = [] -> wildcard n = false) ->
  insertChild_from uripath abspath h rest i offset n m = Ok r ->
  all_nodes look_inv r /\ (need r <= Z.max (need n) m)%Z /\ nparams r = nparams n
  /\ typo r = typo n /\ (children n <> [] -> children r <> []).
Proof.
  induction rest as [|c rest IH]; intros i offset n m r Hrest Hm Hl Hunfl H;
    cbn [insertChild_from] in H.
  all: assert (Hdone : forall p, r = set_handle (set_path n p) h ->
         all_nodes look_inv r /\ (need r <= Z.max (need n) m)%Z /\ nparams r = nparams n
         /\ typo r = typo n /\ (children n <> [] -> children r <> [])).
  1,3: (intros p ->; split; [revert Hl; apply all_look_ext; reflexivity|];
        split; [rewrite (@need_ext n (set_handle (set_path n p) h)) by reflexivity; lia|];
        split; [reflexivity|]; split; [reflexivity|]; cbn; auto).
  - destruct (0 <? m)%Z; [discriminate|]. inversion H; subst r. eapply Hdone; eauto.
  - destruct (Z.ltb_spec 0 m) as [Hpos|Hnpos].
    2:{ inversion H; subst r. eapply Hdone; eauto. }
    symmetry in Hrest. apply skipn_cons_inv in Hrest as (Hrest' & Hnth & Hlt).
    destruct (is_wild c) eqn:Hwild; cbn [negb] in H.
    2:{ eapply IH; eauto. }
    destruct (find_end rest (S i)) as [e|]; [|discriminate].
    destruct (0 <? length (children n)) eqn:Hlen; [discriminate|].
    apply length_zero_nil in Hlen. specialize (Hunfl Hlen).
    destruct (e - i <? 2); [discriminate|].
    assert (Hd8 : decr8 m = (m - 1)%Z) by (apply decr8_small; lia).
    destruct (Ascii.eqb c colon).
    + set (n1 := if 0 <? i then set_path n (slice uripath offset i) else n) in *.
      assert (Hn1 : nparams n1 = nparams n /\ typo n1 = typo n)
        by (unfold n1; destruct (0 <? i); split; reflexivity).
      destruct Hn1 as [Hn1p Hn1t]. clearbody n1.
      destruct (e <? length uripath).
      * match type of H with bind ?m _ = _ => destruct m as [r0| | |] eqn:Hr0 end;
          try discriminate.
        cbn [bind] in H. inversion H; subst r; clear H.
        apply IH in Hr0 as (R1 & R2 & R3 & R4 & _); auto.
        2:{ rewrite Hd8. lia. }
        2:{ apply all_look_leaf. reflexivity. }
        cbn in R2, R3, R4. rewrite Hd8 in R2, R3.
        match goal with |- context [set_children ?x [r0]] => set (P := set_children x [r0]) end.
        assert (HP : need P = need r0).
        { rewrite (need_eq P). cbn [P wildcard children set_children set_path
            bump_priority set_priority fold_right].
          pose proof (need_nonneg r0). lia. }
        assert (HlP : all_nodes look_inv P).
        { constructor; [|cbn; constructor; [exact R1|constructor]].
          intros x [<-|[]]. split; [discriminate|]. intros _ Hx. rewrite R4 in Hx.
          discriminate. }
        split.
        { constructor; [|cbn; constructor; [exact HlP|constructor]].
          intros x [<-|[]]. split; [|discriminate]. intros _. split; [|discriminate].
          rewrite HP. change (nparams P) with m. lia. }
        split.
        { rewrite need_eq. cbn [wildcard children set_wildcard set_children fold_right].
          rewrite HP. pose proof (need_nonneg r0). lia. }
        split; [cbn; exact Hn1p|]. split; [cbn; exact Hn1t|]. cbn. discriminate.
      * match type of H with bind ?m _ = _ => destruct m as [r0| | |] eqn:Hr0 end;
          try discriminate.
        cbn [bind] in H. inversion H; subst r; clear H.
        apply IH in Hr0 as (R1 & R2 & R3 & R4 & _); auto.
        2:{ rewrite Hd8. lia. }
        2:{ apply all_look_leaf. reflexivity. }
        cbn in R2, R3, R4. rewrite Hd8 in R2.
        split.
        { constructor; [|cbn; constructor; [exact R1|constructor]].
          intros x [<-|[]]. split; [|discriminate]. intros _.
          split; [rewrite R3; lia|]. rewrite R4. discriminate. }
        split.
        { rewrite need_eq. cbn [wildcard children set_wildcard set_children fold_right].
          pose proof (need_nonneg r0). lia. }
        split; [cbn; exact Hn1p|]. split; [cbn; exact Hn1t|]. cbn. discriminate.
    + destruct (negb (Nat.eqb e (length uripath)) || (1 <? m)%Z); [discriminate|].
      destruct (last_is_slash (path n)); [discriminate|].
      destruct i as [|j]; [discriminate|].
      destruct (nth_error uripath j) as [sl|] eqn:Hsl; [|discriminate].
      destruct (negb (Ascii.eqb sl slash)); [discriminate|].
      inversion H; subst r; clear H.
      set (leaf := Node Wildcard (suffix uripath j) 1 [] h 1 [] false).
      set (W := set_children (bump_priority (Node Wildcard [] 1 [] None 0 [] true)) [leaf]).
      assert (Hleaf : 2 <= length (path leaf)).
      { cbn [leaf path]. unfold suffix. rewrite (skipn_nth_cons _ _ Hsl).
        rewrite (skipn_nth_cons _ _ Hnth). cbn. lia. }
      assert (HlW : all_nodes look_inv W).
      { constructor; [|cbn; constructor; [apply all_look_leaf; reflexivity|constructor]].
        intros x [<-|[]]. split; [|discriminate]. intros _. split; [cbn; lia|].
        intros _. exact Hleaf. }
      split.
      { constructor; [|cbn; constructor; [exact HlW|constructor]].
        intros x [<-|[]]. cbn [wildcard set_indices set_children set_path].
        split; [rewrite Hunfl; discriminate|]. intros _ _. discriminate. }
      split.
      { rewrite need_eq. cbn [wildcard children set_indices set_children set_path fold_right].
        rewrite Hunfl. change (need W) with 1%Z. lia. }
      split; [reflexivity|]. split; [reflexivity|]. cbn. discriminate.
Qed.

Lemma split_edge_look n (u : str) i :
  all_nodes look_inv n -> i < length (path n) ->
  all_nodes look_inv (split_edge n u i)
  /\ need (split_edge n u i) = need n
  /\ nparams (split_edge n u i) = nparams n.
Proof.
  intros Hl Hi. unfold split_edge.
  match goal with |- context [fold_left ?f ?l ?c0] =>
    destruct (fold_raise_fields l c0) as (Ht & Hp & Hw & Hc & _);
    set (child := fold_left f l c0) in *
  end.
  cbn in Ht, Hp, Hw, Hc.
  assert (Hn : need child = need n) by (now apply need_ext).
  split.
  { constructor; cbn.
    - intros x [<-|[]]. split; [discriminate|]. intros _ Hx. rewrite Ht in Hx.
      discriminate.
    - constructor; [|constructor]. revert Hl. now apply all_look_ext. }
  split; [|reflexivity].
  rewrite need_eq. cbn [wildcard children fold_right]. rewrite Hn.
  pose proof (need_nonneg n). lia.
Qed.

(** What each child carries for [look_inv]; a child after
    [incrementChildPriority] carries what a child from before does. *)
Lemma incrementChildPriority_look n pos n2 k1 :
  incrementChildPriority n pos = Ok (n2, k1) ->
  forall x, In x (children n2) ->
  exists c, In c (children n) /\ need x = need c /\ nparams x = nparams c
            /\ typo x = typo c /\ path x = path c /\ children x = children c.
Proof.
  intros H x Hx. apply In_nth_error in Hx as [j Hj].
  destruct (incrementChildPriority_children _ _ _ H Hj) as (j' & c & Hc & [->| ->]);
    exists c; (split; [eapply nth_error_In; eauto|]).
  - auto 6.
  - rewrite need_bump. auto 6.
Qed.


Lemma raise_nparams_ge c m :
  (nparams c <= nparams (raise_nparams c m))%Z /\ (m <= nparams (raise_nparams c m))%Z.
Proof.
  unfold raise_nparams. destruct (Z.ltb_spec (nparams c) m); cbn; lia.
Qed.

(** One child replaced in an unflagged node. *)
Lemma replace_child_look n k r0 (B : Z) :
  wildcard n = false -> (0 <= B)%Z ->
  (forall x, In x (children n) -> (need x <= B)%Z
                                  /\ (typo x = Wildcard -> children x <> [])) ->
  (need r0 <= B)%Z -> (typo r0 = Wildcard -> children r0 <> []) ->
  Forall (all_nodes look_inv) (children n) -> all_nodes look_inv r0 ->
  all_nodes look_inv (set_children n (set_nth (children n) k r0))
  /\ (need (set_children n (set_nth (children n) k r0)) <= B)%Z.
Proof.
  intros Hw HB Hold Hr0 Hr0t Hcs Hl0.
  assert (Hin : forall y, In y (set_nth (children n) k r0) ->
                  y = r0 \/ In y (children n)).
  { intros y Hy. apply In_nth_error in Hy as [j Hj]. rewrite nth_error_set_nth in Hj.
    destruct (Nat.eqb j k).
    - destruct (k <? length (children n)); [|discriminate]. left. congruence.
    - right. eapply nth_error_In; eauto. }
  split.
  - constructor; cbn [children set_children wildcard].
    + intros y Hy. cbn [children set_children] in Hy.
      change (wildcard (set_children n (set_nth (children n) k r0))) with (wildcard n).
      rewrite Hw. split; [discriminate|]. intros _ Hty.
      destruct (Hin y Hy) as [->|Hy']; [auto|]. now apply (Hold y Hy').
    + now apply Forall_set_nth.
  - pose proof (@need_le (set_children n (set_nth (children n) k r0)) B HB) as H.
    cbn [children set_children wildcard] in H. rewrite Hw in H.
    assert (need (set_children n (set_nth (children n) k r0)) <= 0 + B)%Z; [|lia].
    apply H. intros y Hy. destruct (Hin y Hy) as [->|Hy']; [auto|].
    now apply (Hold y Hy').
Qed.

Lemma register_walk_look abspath (h : option Handler) :
  forall fuel n (u : str) m r,
  all_nodes flag_inv n -> all_nodes key_inv n -> all_nodes look_inv n ->
  walk_pre n u m ->
  register_walk fuel abspath h n u m = Ok r ->
  all_nodes look_inv r /\ (need r <= Z.max (need n) m)%Z
  /\ (nparams n <= nparams r)%Z /\ (m <= nparams r)%Z
  /\ (children n <> [] -> children r <> []).
Proof.
  induction fuel as [|fuel IH]; intros n u m r Hf Hs Hl Hpre H; [discriminate|].
  cbn [register_walk] in H.
  destruct (raise_fields n m) as (Rt & Rp & Rw & Rc & Ri & Rh & Rpr).
  destruct (raise_nparams_ge n m) as [Rge1 Rge2].
  pose proof (need_raise n m) as Rneed.
  apply (all_flag_raise m) in Hf. apply (all_key_raise m) in Hs.
  apply (all_look_raise m) in Hl.
  destruct Hpre as [Hm Hpre].
  set (n0 := raise_nparams n m) in *.
  set (i := lcp u (path n0)) in *.
  assert (Hiu : i <= length u) by apply lcp_le_l.
  assert (Hip : i <= length (path n)) by (rewrite <- Rp; apply lcp_le_r).
  assert (Hfirst : firstn i u = firstn i (path n)) by (rewrite <- Rp; apply lcp_firstn).
  assert (Hprefix : firstn (length (path n)) u = path n -> i = length (path n)).
  { intro E. unfold i. rewrite Rp. now apply lcp_prefix. }
  assert (Hcount : (wcount (suffix u i) <= m)%Z).
  { destruct Hpre as [[Hc _]|(E & Hc & _)].
    - pose proof (wcount_skipn_le u i). unfold suffix. lia.
    - rewrite (Hprefix E). exact Hc. }
  assert (Hparam : typo n = Param_ -> forall (c : ascii) t, suffix u i = c :: t -> c = slash).
  { intros Ety c t Hu. destruct Hpre as [[_ Hne]|(E & _ & Hsl)]; [contradiction|].
    rewrite (Hprefix E) in Hu. apply skipn_cons_inv in Hu as (_ & Hnth & Hlt).
    destruct Hsl as [Hsl|Hsl]; [lia|congruence]. }
  set (n1 := if i <? length (path n0) then split_edge n0 u i else n0) in *.
  assert (Hn1 : all_nodes flag_inv n1 /\ all_nodes key_inv n1 /\ all_nodes look_inv n1
                /\ typo n1 = typo n /\ need n1 = need n /\ nparams n1 = nparams n0
                /\ (children n <> [] -> children n1 <> [])).
  { unfold n1. rewrite Rp. destruct (Nat.ltb_spec i (length (path n))) as [Hlt|Hge].
    - assert (Hnp : typo n0 <> Param_).
      { rewrite Rt. destruct Hpre as [[_ Hne]|(E & _)]; [exact Hne|].
        apply Hprefix in E. lia. }
      assert (Hlt0 : i < length (path n0)) by (rewrite Rp; exact Hlt).
      assert (Hfirst0 : firstn i u = firstn i (path n0)) by (rewrite Rp; exact Hfirst).
      destruct (@split_edge_key _ n0 u i Hs Hlt0 Hnp Hfirst0) as [Sk _].
      destruct (@split_edge_look n0 u i Hl Hlt0) as (Sl & Sn & Sp).
      split; [apply split_edge_flag; [exact Hf|exact Hlt0]|].
      split; [exact Sk|]. split; [exact Sl|]. split; [exact Rt|].
      split; [congruence|]. split; [exact Sp|]. intros _. cbn. discriminate.
    - split; [exact Hf|]. split; [exact Hs|]. split; [exact Hl|]. split; [exact Rt|].
      split; [exact Rneed|]. split; [reflexivity|]. now rewrite Rc. }
  destruct Hn1 as (Hf1 & Hs1 & Hl1 & Ht1 & Hneed1 & Hnp1 & Hch1).
  rewrite <- Ht1 in Hparam.
  assert (Hlen' : length (suffix u i) = length u - i) by apply length_skipn.
  assert (Hcore : all_nodes look_inv r /\ (need r <= Z.max (need n1) m)%Z
                  /\ nparams r = nparams n1
                  /\ (children n1 <> [] -> children r <> [])).
  2:{ destruct Hcore as (C1 & C2 & C3 & C4). split; [exact C1|].
      split; [lia|]. split; [lia|]. split; [lia|auto]. }
  clear Hch1 Hneed1 Hnp1 Ht1 Hprefix Hfirst Hip Hpre Rt Rp Rw Rc Ri Rh Rpr Hf Hs Hl
        Rge1 Rge2 Rneed.
  clearbody n1 i. clear n0.
  pose proof (all_nodes_inv Hf1) as [Hfl Hfcs].
  pose proof (all_nodes_inv Hs1) as [Hki Hkcs].
  pose proof (all_nodes_inv Hl1) as [Hli Hlcs].
  pose proof (need_nonneg n1) as Hnn1.
  destruct (Nat.ltb_spec i (length u)) as [Hilt|Hige].
  2:{ destruct (handle n1) eqn:Hh; [discriminate|]. inversion H; subst r; clear H.
      split; [revert Hl1; apply all_look_ext; reflexivity|].
      split; [rewrite (@need_ext n1 (set_handle n1 h)) by reflexivity; lia|].
      split; [reflexivity|]. cbn. auto. }
  assert (Hne : suffix u i <> []).
  { intro E. rewrite E in Hlen'. cbn in Hlen'. lia. }
  clear Hlen' Hilt Hiu.
  set (u' := suffix u i) in *. clearbody u'.
  destruct (wildcard n1) eqn:Hw.
  - (* the wildcard child *)
    destruct (children n1) as [|c rest] eqn:Hch; [discriminate|].
    destruct Hfl as [Hfl1 _]. destruct (Hfl1 Hw) as (c0 & Hc0 & _).
    rewrite Hch in Hc0. inversion Hc0; subst c0 rest. clear Hc0.
    destruct (raise_fields (bump_priority c) m) as (Ct & Cp & Cw & Cc & Ci & Ch & Cpr).
    destruct (raise_nparams_ge (bump_priority c) m) as [Cge1 Cge2].
    pose proof (need_raise (bump_priority c) m) as Cneed. rewrite need_bump in Cneed.
    set (c' := raise_nparams (bump_priority c) m) in *.
    cbn in Ct, Cp, Cpr, Cc, Cge1.
    match type of H with (if ?b then _ else _) = _ => destruct b eqn:Hcheck; [|discriminate] end.
    apply andb_true_iff in Hcheck as [Hcheck E3].
    apply andb_true_iff in Hcheck as [E1 E2].
    apply Nat.leb_le in E1. apply str_eqb_eq in E2.
    match type of H with bind ?m _ = _ => destruct m as [r0| | |] eqn:Hr0 end;
      try discriminate.
    cbn [bind] in H. inversion H; subst r; clear H.
    assert (Hcin : In c (children n1)) by (rewrite Hch; cbn; auto).
    destruct (ki_wild Hki Hw) as [Hinil Hcw]. specialize (Hcw c Hcin).
    assert (Hm1 : (1 <= m)%Z).
    { rewrite (wcount_split u' (length (path c'))), <- E2, Cp in Hcount.
      pose proof (wcount_nonneg (skipn (length (path c)) u')). lia. }
    assert (Hfc' : all_nodes flag_inv c')
      by (apply all_flag_raise, all_flag_bump; now inversion Hfcs).
    assert (Hkc' : all_nodes key_inv c')
      by (apply all_key_raise, all_key_bump; now inversion Hkcs).
    assert (Hlc' : all_nodes look_inv c')
      by (apply all_look_raise, all_look_bump; now inversion Hlcs).
    assert (Hpre' : walk_pre c' u' (decr8 m)).
    { split; [apply decr8_range|]. right. split; [now symmetry|]. split.
      * rewrite decr8_small by lia.
        rewrite (wcount_split u' (length (path c'))), <- E2, Cp in Hcount.
        rewrite Cp. lia.
      * apply orb_true_iff in E3 as [E3|E3].
        -- left. now apply Nat.leb_le.
        -- right. destruct (nth_error u' (length (path c'))); [|discriminate].
           apply Ascii.eqb_eq in E3. congruence. }
    pose proof (register_walk_flag _ _ _ _ _ Hfc' Hr0) as [_ Hty0].
    pose proof (@register_walk_stored _ abspath h fuel c' u' (decr8 m) r0 Hfc' Hkc' Hpre' Hr0)
      as (_ & _ & Hpath0).
    specialize (Hpath0 (eq_sym E2)).
    apply IH in Hr0 as (R1 & R2 & R3 & _ & _); auto.
    rewrite decr8_small in R2 by lia. rewrite Cneed in R2.
    destruct (Hli c Hcin) as [HF _]. destruct (HF Hw) as [HF1 HF2].
    pose proof (@need_one n1 c Hch Hw) as Hn1c.
    rewrite <- Hch.
    assert (Hr : children (set_children n1 [r0]) = [r0]) by reflexivity.
    pose proof (@need_one (set_children n1 [r0]) r0 Hr Hw) as Hnr.
    rewrite Hch.
    split.
    { constructor; [|cbn; constructor; [exact R1|constructor]].
      intros x [<-|[]]. cbn [wildcard set_children]. rewrite Hw.
      split; [|discriminate]. intros _. split; [lia|].
      intro Hx. rewrite Hty0, Ct in Hx. rewrite Hpath0, Cp. auto. }
    split; [lia|]. split; [reflexivity|]. cbn. discriminate.
  - destruct u' as [|c t] eqn:Hu; [contradiction|].
    destruct Hfl as [_ Hfl0]. specialize (Hfl0 Hw).
    assert (Hcw : is_wild c = true -> (1 <= m)%Z).
    { intro Hc. pose proof (wcount_cons_wild c t Hc). lia. }
    assert (HB : (0 <= Z.max (need n1) m)%Z) by lia.
    assert (Hold : forall x, In x (children n1) ->
              (need x <= Z.max (need n1) m)%Z /\ (typo x = Wildcard -> children x <> [])).
    { intros x Hx. pose proof (@need_child n1 x Hx). split; [lia|].
      destruct (Hli x Hx) as [_ HM]. auto. }
    match type of H with (if ?b then _ else _) = _ => destruct b eqn:Hslash end.
    + (* the slash after a parameter *)
      destruct (children n1) as [|ch rest] eqn:Hch; [discriminate|].
      match type of H with bind ?m _ = _ => destruct m as [r0| | |] eqn:Hr0 end;
        try discriminate.
      cbn [bind] in H. inversion H; subst r; clear H.
      assert (Hcin : In ch (ch :: rest)) by (left; reflexivity).
      assert (Hfb : all_nodes flag_inv (bump_priority ch))
        by (apply all_flag_bump; now inversion Hfcs).
      pose proof (register_walk_flag _ _ _ _ _ Hfb Hr0) as [_ Hty0]. cbn in Hty0.
      apply IH in Hr0 as (R1 & R2 & _ & _ & R5); auto.
      2:{ apply all_key_bump. now inversion Hkcs. }
      2:{ apply all_look_bump. now inversion Hlcs. }
      2:{ split; [exact Hm|]. left. split; [exact Hcount|]. cbn.
          destruct (Hfl0 ch) as [Hnp _]; [left; reflexivity|exact Hnp]. }
      rewrite need_bump in R2. cbn in R5.
      destruct (Hold ch Hcin) as [Ho1 Ho2].
      change (r0 :: rest) with (set_nth (ch :: rest) 0 r0).
      rewrite <- Hch in Hold, Hlcs |- *.
      destruct (@replace_child_look n1 0 r0 (Z.max (need n1) m) Hw HB Hold) as [Q1 Q2];
        auto; try lia.
      { intro Hx. rewrite Hty0 in Hx. auto. }
      split; [exact Q1|]. split; [exact Q2|]. split; [reflexivity|].
      intros _. cbn. rewrite Hch. cbn. discriminate.
    + destruct (find_index (indices n1) c) as [k|] eqn:Hfind.
      * (* an indexed child *)
        destruct (incrementChildPriority n1 k) as [[n2 k1]| | |] eqn:Hinc; try discriminate.
        cbn [bind] in H.
        destruct (nth_error (children n2) k1) as [ch|] eqn:Hk1; [|discriminate].
        match type of H with bind ?m _ = _ => destruct m as [r0| | |] eqn:Hr0 end;
          try discriminate.
        cbn [bind] in H. inversion H; subst r; clear H.
        assert (Hfcs2 : Forall (all_nodes flag_inv) (children n2))
          by (eapply incrementChildPriority_Forall; eauto using all_flag_bump).
        assert (Hkcs2 : Forall (all_nodes key_inv) (children n2))
          by (eapply incrementChildPriority_Forall; eauto using all_key_bump).
        assert (Hlcs2 : Forall (all_nodes look_inv) (children n2))
          by (eapply incrementChildPriority_Forall; eauto using all_look_bump).
        pose proof (incrementChildPriority_look _ _ Hinc) as Hsame.
        pose proof Hinc as Hspec.
        apply incrementChildPriority_spec in Hspec
          as (c0 & Hc0 & Hle & Hnth & Hind & _ & _ & _ & Ht2 & Hp2 & Hw2 & _ & _ & Hnp2).
        assert (Hmv : moved k k1 k1 = k) by (apply moved_at; auto).
        assert (Hchb : ch = bump_priority c0).
        { rewrite Hnth, Hmv in Hk1.
          erewrite nth_error_set_nth_eq in Hk1 by eauto. congruence. }
        assert (Hc0in : In c0 (children n1)) by (eapply nth_error_In; eauto).
        assert (Hchin : In ch (children n2)) by (eapply nth_error_In; eauto).
        assert (Hold2 : forall x, In x (children n2) ->
                  (need x <= Z.max (need n1) m)%Z
                  /\ (typo x = Wildcard -> children x <> [])).
        { intros x Hx. destruct (Hsame x Hx) as (y & Hy & E1 & _ & E3 & _ & E5).
          destruct (Hold y Hy) as [O1 O2]. rewrite E1, E3, E5. auto. }
        rewrite Forall_forall in Hfcs2, Hkcs2, Hlcs2.
        pose proof (register_walk_flag _ _ _ _ _ (Hfcs2 ch Hchin) Hr0) as [_ Hty0].
        apply IH in Hr0 as (R1 & R2 & _ & _ & R5); auto.
        2:{ split; [exact Hm|]. left. split; [exact Hcount|].
            rewrite Hchb. cbn. destruct (Hfl0 c0 Hc0in) as [Hnp _]. exact Hnp. }
        destruct (Hold2 ch Hchin) as [Ho1 Ho2].
        rewrite <- Hw2 in Hw.
        destruct (@replace_child_look n2 k1 r0 (Z.max (need n1) m) Hw HB Hold2) as [Q1 Q2];
          auto; try lia.
        { intro Hx. rewrite Hty0 in Hx. auto. }
        { apply Forall_forall. exact Hlcs2. }
        split; [exact Q1|]. split; [exact Q2|]. split; [cbn; exact Hnp2|].
        intros _. cbn. intro E. apply (f_equal (@length _)) in E.
        rewrite length_set_nth in E. apply nth_error_In in Hk1.
        destruct (children n2); [destruct Hk1|discriminate].
      * destruct (is_wild c) eqn:Hwild; cbn [negb] in H.
        -- (* a wildcard under this node *)
           unfold insertChild in H.
           apply insertChild_from_look in H; auto.
           destruct H as (Q1 & Q2 & Q3 & _ & Q5). auto.
        -- (* a new child *)
           set (fresh := set_nparams (@empty_node Handler) m) in *.
           set (n2 := set_children (set_indices n1 (indices n1 ++ [c]))
                        (children (set_indices n1 (indices n1 ++ [c])) ++ [fresh])) in *.
           match type of H with bind ?m _ = _ => destruct m as [[n3 k1]| | |] eqn:Hinc end;
             try discriminate.
           cbn [bind] in H.
           match type of H with match nth_error ?l ?k with _ => _ end = _ =>
             destruct (nth_error l k) as [ch|] eqn:Hat; [|discriminate] end.
           assert (Hfresh : ch = fresh \/ ch = bump_priority fresh)
             by (eapply new_child_is_fresh; eauto).
           match type of H with bind ?m _ = _ => destruct m as [r0| | |] eqn:Hr0 end;
             try discriminate.
           cbn [bind] in H. inversion H; subst r; clear H.
           assert (Hlcs2 : Forall (all_nodes look_inv) (children n2)).
           { unfold n2. cbn. apply Forall_app. split; [exact Hlcs|].
             constructor; [|constructor]. apply all_look_leaf; reflexivity. }
           assert (Hlcs3 : Forall (all_nodes look_inv) (children n3))
             by (eapply incrementChildPriority_Forall; eauto using all_look_bump).
           pose proof (incrementChildPriority_look _ _ Hinc) as Hsame.
           pose proof Hinc as Hspec.
           apply incrementChildPriority_spec in Hspec
             as (c0 & Hc0 & Hle & Hnth & Hind & _ & _ & _ & Ht3 & Hp3 & Hw3 & _ & _ & Hnp3).
           assert (Hold3 : forall x, In x (children n3) ->
                     (need x <= Z.max (need n1) m)%Z
                     /\ (typo x = Wildcard -> children x <> [])).
           { intros x Hx. destruct (Hsame x Hx) as (y & Hy & E1 & _ & E3 & _ & E5).
             rewrite E1, E3, E5. unfold n2 in Hy. cbn in Hy.
             apply in_app_or in Hy as [Hy|[<-|[]]]; [now apply Hold|].
             split; [change (need fresh) with 0%Z; lia|discriminate]. }
           unfold insertChild in Hr0.
           apply insertChild_from_look in Hr0 as (R1 & R2 & _ & R4 & _); auto.
           2:{ apply all_look_leaf. destruct Hfresh as [-> | ->]; reflexivity. }
           2:{ intros _. destruct Hfresh as [-> | ->]; reflexivity. }
           assert (Hnch : need ch = 0%Z) by (destruct Hfresh as [-> | ->]; reflexivity).
           assert (Htch : typo ch = Static) by (destruct Hfresh as [-> | ->]; reflexivity).
           rewrite Hnch in R2. rewrite Htch in R4.
           assert (Hw3' : wildcard n3 = false) by (rewrite Hw3; unfold n2; cbn; exact Hw).
           match goal with |- context [set_nth (children n3) ?k r0] => set (at_ := k) in * end.
           destruct (@replace_child_look n3 at_ r0 (Z.max (need n1) m) Hw3' HB Hold3)
             as [Q1 Q2]; auto; try lia.
           { intro Hx. rewrite R4 in Hx. discriminate. }
           split; [exact Q1|]. split; [exact Q2|]. split; [cbn; rewrite Hnp3; reflexivity|].
           intros _. cbn. intro E. apply (f_equal (@length _)) in E.
           rewrite length_set_nth in E. apply nth_error_In in Hat.
           destruct (children n3); [destruct Hat|discriminate].
Qed.


Lemma register_look n (p : str) (h : option Handler) r :
  all_nodes flag_inv n -> all_nodes key_inv n -> all_nodes look_inv n ->
  typo n <> Param_ -> (wcount p <= 255)%Z ->
  register n p h = Ok r -> all_nodes look_inv r.
Proof.
  intros Hf Hk Hl Hty Hcnt H. unfold register in H.
  rewrite (countParams_small p Hcnt) in H.
  pose proof (wcount_nonneg p) as Hnn.
  destruct (_ || _) eqn:E.
  - apply register_walk_look in H; [tauto| | | |].
    + now apply all_flag_bump.
    + now apply all_key_bump.
    + now apply all_look_bump.
    + split; [lia|]. left. split; [lia|exact Hty].
  - apply orb_false_iff in E as [_ E2]. cbn in E2. apply length_zero_nil in E2.
    pose proof (all_nodes_inv Hf) as [Hfl _].
    pose proof (flag_inv_no_children Hfl E2) as Hw.
    unfold insertChild in H.
    apply insertChild_from_look in H; [tauto|reflexivity|lia| |].
    + revert Hl. apply all_look_ext; reflexivity.
    + intros _. exact Hw.
Qed.

Lemma insert_all_look (rs : list (str * option Handler)) : forall t t' : node Handler,
  all_nodes flag_inv t -> all_nodes key_inv t -> all_nodes look_inv t ->
  typo t <> Param_ -> (forall v, stored t v -> v <> []) ->
  Forall (fun pr : str * option Handler =>
            fst pr <> [] /\ (wcount (fst pr) <= 255)%Z) rs ->
  insert_all t rs = Ok t' -> all_nodes look_inv t'.
Proof.
  induction rs as [|[p h] rs IH]; intros t t' Hf Hk Hl Hty Hne Hall H; cbn in H.
  - now inversion H; subst.
  - destruct (register t p h) as [t1| | |] eqn:E; try discriminate. cbn [bind] in H.
    inversion Hall as [|y ys [Hp Hcnt] Hys]; subst. cbn [fst] in Hp, Hcnt.
    pose proof (register_flag _ _ Hf E) as Hf1.
    destruct (@register_stored _ t p h t1 Hf Hk Hty Hne Hcnt E) as (Hk1 & Hty1 & Hs1).
    pose proof (@register_look t p h t1 Hf Hk Hl Hty Hcnt E) as Hl1.
    assert (Hne1 : forall v, stored t1 v -> v <> []).
    { intros v Hv. apply Hs1 in Hv as [Hv|[-> _]]; auto. }
    exact (IH t1 t' Hf1 Hk1 Hl1 Hty1 Hne1 Hys H).
Qed.

Lemma resolve_walk_look : forall fuel n (u : str) p,
  all_nodes flag_inv n -> all_nodes key_inv n -> all_nodes look_inv n ->
  depth n <= fuel -> room p n ->
  exists res, resolve_walk fuel n u p = Ok res.
Proof.
  induction fuel as [|fuel IH]; intros n u p Hf Hk Hl Hd Hroom;
    [destruct n; cbn in Hd; lia|].
  pose proof (all_nodes_inv Hf) as [Hfl Hfcs].
  pose proof (all_nodes_inv Hk) as [Hki Hkcs].
  pose proof (all_nodes_inv Hl) as [Hli Hlcs].
  rewrite Forall_forall in Hfcs, Hkcs, Hlcs.
  assert (Hidx : forall b k, wildcard n = false -> find_index (indices n) b = Some k ->
            exists ch, nth_error (children n) k = Some ch).
  { intros b k Hw Hfind. apply find_index_some in Hfind.
    assert (Hkl : k < length (indices n)) by (apply nth_error_Some; congruence).
    destruct (ki_len Hki Hw) as [Hlen|(_ & Hi & _)].
    - rewrite Hlen in Hkl. apply nth_error_Some in Hkl.
      destruct (nth_error (children n) k); [eauto|contradiction].
    - rewrite Hi in Hkl. cbn in Hkl. lia. }
  assert (Hnothing : forall v ps, exists res,
            Ok (resolve_nothing n v ps) = Ok (A := lookup_result) res) by eauto.
  cbn [resolve_walk].
  destruct (length (path n) <? length u) eqn:Hlen.
  - destruct (str_eqb (firstn (length (path n)) u) (path n)); [|apply Hnothing].
    destruct (wildcard n) eqn:Hw; cbn [negb].
    + (* the child of a flagged node *)
      destruct Hfl as [Hfl1 _]. destruct (Hfl1 Hw) as (ch & Hch & Hkind).
      rewrite Hch.
      assert (Hin : In ch (children n)) by (rewrite Hch; now left).
      destruct (Hli ch Hin) as [Hcap _]. destruct (Hcap Hw) as [Hcap1 Hcap2].
      pose proof (@need_one n ch Hch Hw) as Hneed.
      pose proof (need_nonneg ch) as Hnn.
      destruct (ki_wild Hki Hw) as [_ Hwc]. specialize (Hwc ch Hin).
      assert (Hpush : forall key v, exists cap ps,
                push_param (match p with Some q => q | None => (nparams ch, []) end) key v
                = Ok (cap, ps)
                /\ (Z.of_nat (length ps) + need ch <= cap)%Z).
      { intros key v. unfold push_param. destruct p as [[cap ps]|].
        - cbn in Hroom. destruct (Z.ltb_spec cap (Z.of_nat (length ps) + 1)); [lia|].
          exists cap, (ps ++ [mkParam key v]). split; [reflexivity|].
          rewrite length_app, Nat2Z.inj_add. cbn [length]. lia.
        - cbn [length Z.of_nat Z.add]. destruct (Z.ltb_spec (nparams ch) 1); [lia|].
          exists (nparams ch), [mkParam key v]. split; [reflexivity|].
          change (Z.of_nat (length [mkParam key v])) with 1%Z. lia. }
      destruct Hkind as [Hty|(Hty & _)]; rewrite Hty.
      * destruct (path ch) as [|x key] eqn:Hp.
        { unfold wcount in Hwc. cbn in Hwc. lia. }
        match goal with |- context [push_param _ key ?v] =>
          destruct (Hpush key v) as (cap & ps & Hps & Hcapps); rewrite Hps end.
        cbn [bind snd].
        match goal with |- context [if ?b then _ else _] => destruct b end.
        -- destruct (_ && _); [eauto|].
           destruct (children ch) as [|c2 l] eqn:Hc2; [eauto|].
           assert (Hin2 : In c2 (children ch)) by (rewrite Hc2; now left).
           pose proof (all_nodes_inv (Hfcs ch Hin)) as [_ Hf2].
           pose proof (all_nodes_inv (Hkcs ch Hin)) as [_ Hk2].
           pose proof (all_nodes_inv (Hlcs ch Hin)) as [_ Hl2].
           rewrite Forall_forall in Hf2, Hk2, Hl2.
           apply IH; auto.
           ++ apply depth_child in Hin, Hin2. lia.
           ++ cbn. pose proof (@need_child ch c2 Hin2). lia.
        -- destruct (is_some (handle ch)); [eauto|].
           destruct (children ch) as [|c2 [|? ?]]; eauto.
           destruct (_ && _); eauto.
      * specialize (Hcap2 Hty).
        destruct (path ch) as [|x [|y key]] eqn:Hp; cbn in Hcap2; try lia.
        match goal with |- context [push_param _ key ?v] =>
          destruct (Hpush key v) as (cap & ps & Hps & Hcapps); rewrite Hps end.
        cbn [bind]. eauto.
    + destruct (_ && _); [eauto|].
      destruct (suffix u (length (path n))) as [|c t] eqn:Hsuf.
      { apply Nat.ltb_lt in Hlen. apply (f_equal (@length _)) in Hsuf.
        unfold suffix in Hsuf. rewrite length_skipn in Hsuf. cbn in Hsuf. lia. }
      destruct (find_index (indices n) c) as [k|] eqn:Hfind; [|eauto].
      destruct (Hidx c k eq_refl Hfind) as [ch Hk']. rewrite Hk'.
      assert (Hin : In ch (children n)) by (eapply nth_error_In; eauto).
      apply IH; auto.
      * apply depth_child in Hin. lia.
      * destruct p as [[cap ps]|]; cbn in *; [|exact I].
        pose proof (@need_child n ch Hin). lia.
  - destruct (str_eqb u (path n)); [|apply Hnothing].
    destruct (is_some (handle n)); [eauto|].
    destruct (_ && _); [eauto|].
    destruct (find_index (indices n) slash) as [k|] eqn:Hfind; [|eauto].
    destruct (wildcard n) eqn:Hw.
    { destruct (ki_wild Hki Hw) as [Hi _]. rewrite Hi in Hfind. discriminate. }
    destruct (Hidx slash k eq_refl Hfind) as [ch Hk']. rewrite Hk'.
    assert (Hin : In ch (children n)) by (eapply nth_error_In; eauto).
    destruct (_ && _); [eauto|].
    destruct (nodeType_eqb (typo ch) Wildcard) eqn:Hty; [|eauto].
    assert (Hty' : typo ch = Wildcard) by (destruct (typo ch); try discriminate; reflexivity).
    destruct (Hli ch Hin) as [_ Hmid]. specialize (Hmid Hw Hty').
    destruct (children ch) as [|c0 l]; [contradiction|].
    destruct (is_some (handle c0)); eauto.
Qed.

(** What every built tree keeps for the two lookups. *)
Lemma build_look (rs : list (str * option Handler)) (t : node Handler) :
  build rs = Ok t ->
  Forall (fun pr : str * option Handler =>
            fst pr <> [] /\ (wcount (fst pr) <= 255)%Z) rs ->
  all_nodes flag_inv t /\ all_nodes key_inv t /\ all_nodes look_inv t.
Proof.
  intros Hb Hall.
  destruct (build_inv Hb Hall) as (Hf & Hk & _).
  split; [exact Hf|]. split; [exact Hk|].
  apply (@insert_all_look rs empty_node t); auto.
  - constructor; cbn; [|constructor]. split; cbn; [discriminate|intros _ ? []].
  - apply all_key_leaf; reflexivity.
  - apply all_look_leaf; reflexivity.
  - discriminate.
  - intros v Hv. apply stored_leaf in Hv; [|reflexivity]. destruct Hv. discriminate.
Qed.

Lemma resolve_total (rs : list (str * option Handler)) (t : node Handler) (q : str) :
  build rs = Ok t ->
  Forall (fun pr : str * option Handler =>
            fst pr <> [] /\ (wcount (fst pr) <= 255)%Z) rs ->
  exists res, resolve t q = Ok res.
Proof.
  intros Hb Hall. destruct (build_look Hb Hall) as (Hf & Hk & Hl). unfold resolve.
  exact (@resolve_walk_look (S (depth t)) t q None Hf Hk Hl (Nat.le_succ_diag_r _) I).
Qed.

(** X27.  The lookup returns: in a tree built by successful insertions of
    non-empty patterns with at most 255 wildcards each, [resolve] returns
    for every path; it never panics, and the slice of the parameters,
    made with the capacity [nparams] of the first wildcard child on the
    way, has room for every parameter of the path. *)
Theorem lookup_returns (rs : list (str * option Handler)) (t : node Handler) (q : str) :
  build rs = Ok t ->
  Forall (fun pr : str * option Handler =>
            fst pr <> [] /\ (wcount (fst pr) <= 255)%Z) rs ->
  exists ho ps b, resolve t q = Ok (ho, ps, b).
Proof.
  intros Hb Hall. destruct (@resolve_total rs t q Hb Hall) as [[[ho ps] b] H]. eauto.
Qed.

End Look.

Lemma lookup_returns_witness :
  exists ho ps b, resolve tree_files (bytes "/files/a/b") = Ok (ho, ps, b).
Proof.
  apply (@lookup_returns nat [route "/files/*fp" 1] tree_files (bytes "/files/a/b")).
  - vm_compute. reflexivity.
  - constructor; [|constructor]. split; [discriminate|vm_compute; discriminate].
Defined.

(** ** The dispatcher returns *)

Section Returns.

Context {Handler : Type}.
Implicit Types (n c r : node Handler).



(** X29.  The empty path with the fix of the trailing slash: at a root
    whose path is one slash, [findCaseInsensitivePath] takes the slice
    [lowerPath[1:]] of the empty string, a run-time panic. *)
Theorem case_insensitive_empty_path_panics (n : node Handler) :
  path n = [slash] -> findCaseInsensitivePath n [] true = RuntimePanic.
Proof.
  intro Hp. unfold findCaseInsensitivePath. cbn [findCaseInsensitivePathRec].
  rewrite Hp. reflexivity.
Qed.

End Returns.

Section DispatchReturns.

Context {HttpHandler FileSystem : Type}.
Abbreviation HV' := (Handle_value HttpHandler FileSystem).
Abbreviation DP' := (Dispatcher HttpHandler FileSystem).
Implicit Types (dp : DP') (ts : list (str * node HV')).

Variable Normalize : str -> str.







End DispatchReturns.


Lemma case_insensitive_empty_path_panics_witness :
  findCaseInsensitivePath (Node Root [slash] 0 [] (Some 1) 1 [] false) [] true
  = RuntimePanic.
Proof.
  apply (@case_insensitive_empty_path_panics nat). reflexivity.
Defined.

